(* ===== verification/_CoqProject ===== *)
-Q . S2P
Prelude.v
Frame.v
GoStr.v
FsConfig.v
FsMode.v
SegLog.v
SegPipe.v
FsConn.v
FsTunnel.v
TunnelRun.v
IoError.v
Listener.v
DialTree.v
Watch.v
Splice.v
Contacts.v
Reconnect.v
SqliteStore.v
Broker.v
BrokerSys.v
BrokerRun.v
Route.v
RouteRun.v
GoNet.v
PeerIP.v
Glob.v
Outbound.v
WsCarrier.v
Carrier.v
Startup.v
Service.v
Run.v
Upstream.v
