(* ===== verification/Prelude.v ===== *)
(** * Verification of golang-ccb

    golang-ccb is a Condor Connection Broker: daemons behind a firewall
    ("targets") keep a registration open to the broker, and requesters ask the
    broker to have a target connect back to them, directly (standard mode) or
    through the broker (proxy mode, also used recursively along a route of
    brokers). Brokers reach each other over TCP or over carriers; the carrier of
    its own that this repository implements, [fstun], is a reliable byte pipe over
    files in a shared directory.

    ** Parts and files

    The filesystem tunnel (src/transport/fstun):
    - Frame.v: the frame codec and SYN parameters (frame.go, params.go): [frame],
      [appendTo], [decodeFrame], [synParams], CRC-32C bit by bit.
    - FsConfig.v: configuration and its defaults (config.go): [resolve].
    - FsMode.v: whether the root is on a network file system (fsmode_linux.go).
    - SegLog.v: one direction of a tunnel as a log of segment files (seglog.go):
      the writer [segWriter] with [append], [roll], [reap], flushing, and the
      polling reader [segReader] with [fill], [nextIter], [next], over a model of a
      directory in which removed files stay readable to those who have them open.
    - SegPipe.v: writer and reader together, interleaved; what the reader returns.
    - FsConn.v: a tunnel endpoint (conn.go, dial.go): [Conn], flow control, [Write],
      [Read], [Close], the receive and maintenance loops, the handshake.
    - FsTunnel.v: two endpoints, each with its threads ([ep_step], [tun_step]), and
      the invariants of every reachable state.
    - TunnelRun.v: a scheduler for the tunnel, and the theorems on reachable states.
    - IoError.v: writes that fail part of the way: what they leave in the log, what the
      peer reads of it and what [Write] reports.
    - Listener.v: the acceptor (listen.go, inbox.go, doorbell.go) over a tree of
      files: [scanInbox], [startupScan], [fastTick], [ageSweep], and the goroutines
      of its tunnels ([lstep]).
    - DialTree.v: conn ids and what concurrent [Dial]s and the acceptor do to that tree,
      clean-up of failed dials included (dial.go).
    - Watch.v: [Listen], the whole select loop of [watchLoop], [Accept] and [Close].

    The broker (src/*.go):
    - GoStr.v: the functions of Go's strings and strconv packages the broker uses.
    - Contacts.v: contacts, target ids and routes; the cedar library as the type
      class [Cedar], its documented behaviour as [CedarLaws].
    - Reconnect.v: [ReconnectRecord], the interface [ReconnectStore] with its
      contract [StoreLaws], and the in-memory store.
    - SqliteStore.v: the SQLite store with its coalescing writer.
    - Broker.v: the tables of [Server] and what each command handler does in its
      critical sections (server.go, request.go, proxy.go).
    - BrokerSys.v: the handlers as threads ([hstep], [bstep]), invariants.
    - BrokerRun.v: a scheduler for the broker, and the theorems on reachable states.
    - Splice.v: the two copying goroutines of [spliceConns] (proxy.go).
    - Route.v: recursive inbound tunnels: a network of brokers, the handler of the
      upstream listener (upstream.go), and requests that follow a route through it.
    - RouteRun.v: the same network with every broker running its handlers concurrently
      ([nstep]), and the audit trail of forwarded requests.
    - GoNet.v, Glob.v: Go's IP address and CIDR parsing and [filepath.Match].
    - PeerIP.v: the IP a target registers from, with [net.SplitHostPort] and
      [net.IP.String].
    - Outbound.v: outbound tunneling (outbound.go): egress rules, the direct and the
      next-hop transport, [handleProxyConnect], and brokers that forward to each
      other ([relay]).

    - WsCarrier.v: the WebSocket carrier and its bearer tokens (ws.go,
      wscarrier_auth.go): discovery, [Dial], the upgrade handler and its pipes.
    - Carrier.v: carrier addresses, the inside broker's shared session (carrier.go)
      and the multiplexing listener (mux.go).
    - Startup.v: [New] and the configuration (server.go), the carrier a broker
      detects or listens on, and the settings the daemon derives (main.go).
    - Service.v: a running broker: background tasks, the sweep of reconnect records,
      the carrier listener, [newBroker] and [serveBroker], and logical connections
      opened over a carrier (server.go, carrier.go, mux.go, main.go).
    - Run.v: the daemon's flags and [run], with what it opens and closes (main.go).
    - Upstream.v: the published tunnel contact and the ready file (upstream.go).

    ** What the theorems show

    The tunnel is a reliable stream in both directions under every interleaving of
    its threads: bytes arrive in order, none lost, duplicated or altered; what is in
    flight never exceeds the window; end of file is reported only after everything
    written before [Close] was read; no wake-up is lost and a stalled writer always
    has an acknowledgement coming; files are removed only when their data was read
    by the peer application. Underneath, the log delivers what was appended, in
    order and within a bounded number of polls; frames decode to what was encoded
    and single-byte corruption is detected. These theorems on tunnels assume that the
    writer's file operations succeed and that in network mode a reader can reopen its
    segment; when an append fails, [Write] reports exactly what the peer can read until
    the writer appends another frame, which can be lost behind the torn one.

    The broker binds a CCBID to one cookie for ever, under every interleaving of its
    handlers and across restarts over any store that keeps its contract; its tables
    hold entries of running handlers only; a request number has one outcome at most; an
    answer rests on a target's report, a splice on a request for the registrant that was
    asked to connect back and on the connect id it presents; and its state stays
    well-formed. Nothing is claimed about how long a handler waits: timers are not
    modelled. A splice passes bytes on in order, ends
    when one side does and closes both. Nested contacts lead through exactly the
    brokers they name, and a route ends even in a loop of brokers, the first
    requester and the prior hop on record at each hop; whatever a network of concurrent
    brokers does, every forwarded trail leads back to a request some broker authorized. Reconnect records last their
    TTL and no longer than one sweep more, and are reclaimed only from the IP they
    were made for.

    The SQLite store keeps the store contract: its table is what its committed
    batches leave. The listener knows, while it is open, exactly the tunnels its running
    goroutines are responsible for, each has one; it engages each announced one within
    the polls of a ring, or at the next slow scan, and again only after it was forgotten.
    Its sweep never touches the files of an engaged tunnel, and removes only what showed no
    activity when it was checked. Concurrent dials never disturb each other, and a failed
    one leaves nothing of its own direction. The hop budget of an outbound request counts
    down at every broker, and where next hops form no circle the request comes to an
    outcome (in a circle it need not: a spent budget arrives as an unset one,
    [outbound_loop_unbounded]); only an exit whose egress rules permit the target dials
    it; CIDR and glob entries mean what they say.

    A broker gets its WebSocket carrier only if the acceptor's verifier accepts the token
    it was configured with or found, and with such a token fails only for other reasons;
    every pipe handed out was admitted by the verifier, and an inside broker has one pipe
    at a time. [New] succeeds exactly on a consistent configuration, and the
    one a daemon derives is consistent; its command serves the broker that configuration
    describes and closes what it opened, the last opened first, whatever fails. The
    ready file is written atomically and is never ahead of the contact it announces.

    ** Integers, fuel and bounds

    uint64 and uint32 counters wrap ([u64], [u32] of Prelude.v), int64 conversions
    are written out ([i64]). Tunnel theorems assume fewer than 2^63 bytes are sent
    (part of the step relation's guard), broker theorems fewer than 2^64 - 1
    registrations and requests. Loops with no structural bound take fuel: [next]
    takes the number of passes, and [seglog_progress] gives the number that is
    enough; [relay] takes a bound on the brokers visited, and [outbound_chain_ends]
    gives it for next hops without circles; [follow] takes a bound on the hops of a tunnel, and [route_ends] gives
    it; [nearestExisting] takes the length of the path and three; the schedulers are
    structural in the list of choices.

    ** Not modelled

    Logging; contents of TLS, websocket and yamux sessions and of the cedar, SQL and
    classad libraries (parameters, with documented behaviour as named laws);
    wall-clock time except as values the environment supplies; removals of files
    that fail (their errors are ignored by the code); the accept loops of the daemon
    and cedar libraries; the texts of addresses and errors that only appear in
    messages. In BrokerSys.v a splice is an event that
    ends at any time; what happens during it is Splice.v. *)

From stdpp Require Import base gmap strings list numbers.
From Stdlib Require Import ZArith Lia.
From Stdlib.Strings Require Import Byte.

#[global] Set Default Goal Selector "!".
#[global] Set Warnings "-clear-no-such-hyp".

Open Scope Z_scope.

(** * Scopes, tactics and hint databases *)

Declare Scope ccb_scope.
Delimit Scope ccb_scope with ccb.
Open Scope ccb_scope.

Create HintDb ccb.
Create Rewrite HintDb ccb_len.

(** Case analysis on the scrutinee of a [match] or [if], keeping the equation. *)
Ltac case_on :=
  match goal with
  | |- context [match ?x with _ => _ end] => destruct x eqn:?
  | H : context [match ?x with _ => _ end] |- _ => destruct x eqn:?
  end.

(** Turn boolean comparisons of hypotheses and goal into propositions. *)
Ltac breflect :=
  repeat match goal with
  | H : (_ <=? _) = true |- _ => apply Z.leb_le in H
  | H : (_ <=? _) = false |- _ => apply Z.leb_gt in H
  | H : (_ <? _) = true |- _ => apply Z.ltb_lt in H
  | H : (_ <? _) = false |- _ => apply Z.ltb_ge in H
  | H : (_ =? _) = true |- _ => apply Z.eqb_eq in H
  | H : (_ =? _) = false |- _ => apply Z.eqb_neq in H
  | H : (_ && _) = true |- _ => apply andb_true_iff in H; destruct H
  | H : (_ || _) = false |- _ => apply orb_false_iff in H; destruct H
  | H : negb _ = true |- _ => apply negb_true_iff in H
  | H : negb _ = false |- _ => apply negb_false_iff in H
  | H : bool_decide _ = true |- _ => apply bool_decide_eq_true_1 in H
  | H : bool_decide _ = false |- _ => apply bool_decide_eq_false_1 in H
  end.

(** * Results of fallible code *)

(** Go's [(value, error)] pairs: exactly one of the two is meaningful. *)
Inductive result (E A : Type) : Type :=
| Ok (a : A)
| Err (e : E).
Arguments Ok {E A} a.
Arguments Err {E A} e.

Definition res_bind {E A B} (r : result E A) (k : A -> result E B) : result E B :=
  match r with Ok a => k a | Err e => Err e end.

Notation "'let?' x ':=' r 'in' k" := (res_bind r (fun x => k))
  (at level 10, x pattern, r at level 100, k at level 200) : ccb_scope.

Definition is_ok {E A} (r : result E A) : bool :=
  match r with Ok _ => true | Err _ => false end.

(** * Machine integers *)

(** Unsigned integers are [Z] kept in range by an explicit wrap-around; a
    conversion to a signed 64-bit integer is two's complement. *)
Definition u8 (z : Z) : Z := z mod 2 ^ 8.
Definition u16 (z : Z) : Z := z mod 2 ^ 16.
Definition u32 (z : Z) : Z := z mod 2 ^ 32.
Definition u64 (z : Z) : Z := z mod 2 ^ 64.
Definition i64 (z : Z) : Z := (z + 2 ^ 63) mod 2 ^ 64 - 2 ^ 63.

Lemma u32_small z : 0 <= z < 2 ^ 32 -> u32 z = z.
Proof. intros. apply Z.mod_small. lia. Qed.

Lemma u64_small z : 0 <= z < 2 ^ 64 -> u64 z = z.
Proof. intros. apply Z.mod_small. lia. Qed.

Lemma i64_small z : - 2 ^ 63 <= z < 2 ^ 63 -> i64 z = z.
Proof. intros. unfold i64. rewrite Z.mod_small; lia. Qed.

Lemma u64_range z : 0 <= u64 z < 2 ^ 64.
Proof. apply Z.mod_pos_bound. lia. Qed.

Lemma u32_range z : 0 <= u32 z < 2 ^ 32.
Proof. apply Z.mod_pos_bound. lia. Qed.

(** Length of a list as an integer ([len]). *)
Abbreviation len l := (Z.of_nat (length l)).

(** * Bytes *)

#[export] Instance byte_eq_dec : EqDecision byte := Byte.byte_eq_dec.

Definition b2z (b : byte) : Z := Z.of_N (Byte.to_N b).

(** [byte(z)]: truncation to eight bits. *)
Definition z2b (z : Z) : byte :=
  match Byte.of_N (Z.to_N (u8 z)) with Some b => b | None => x00 end.

Lemma b2z_range b : 0 <= b2z b < 256.
Proof. unfold b2z. pose proof (Byte.to_N_bounded b). lia. Qed.

Lemma b2z_z2b z : b2z (z2b z) = u8 z.
Proof.
  unfold b2z, z2b, u8. pose proof (Z.mod_pos_bound z (2 ^ 8) ltac:(lia)).
  destruct (Byte.of_N _) as [b|] eqn:E.
  - apply Byte.to_of_N in E. rewrite E. lia.
  - apply Byte.of_N_None_iff in E. lia.
Qed.

Lemma z2b_b2z b : z2b (b2z b) = b.
Proof.
  unfold z2b, b2z, u8. pose proof (Byte.to_N_bounded b).
  rewrite Z.mod_small by lia. by rewrite N2Z.id, Byte.of_to_N.
Qed.

Lemma b2z_inj a b : b2z a = b2z b -> a = b.
Proof. intros H. by rewrite <- (z2b_b2z a), <- (z2b_b2z b), H. Qed.

(** * Big-endian integers (encoding/binary.BigEndian) *)

(** [PutUintN]: the [n] low-order bytes of [z], most significant first. *)
Fixpoint be_put (n : nat) (z : Z) : list byte :=
  match n with
  | O => []
  | S n' => be_put n' (z / 256) ++ [z2b z]
  end.

(** [UintN]: the integer a byte slice denotes, most significant byte first. *)
Definition be_get (bs : list byte) : Z :=
  fold_left (fun acc b => acc * 256 + b2z b) bs 0.

Lemma length_be_put n z : length (be_put n z) = n.
Proof. revert z. induction n; intros; simpl; [done|]. rewrite length_app, IHn. simpl. lia. Qed.

Lemma be_get_snoc bs b : be_get (bs ++ [b]) = be_get bs * 256 + b2z b.
Proof. unfold be_get. by rewrite fold_left_app. Qed.

Lemma be_get_put n z : be_get (be_put n z) = z mod 2 ^ (8 * Z.of_nat n).
Proof.
  revert z. induction n as [|n IH]; intros z.
  - cbn. by rewrite Z.mod_1_r.
  - cbn [be_put]. rewrite be_get_snoc, IH, b2z_z2b. unfold u8.
    change (2 ^ 8) with 256.
    replace (8 * Z.of_nat (S n)) with (8 + 8 * Z.of_nat n) by lia.
    rewrite Z.pow_add_r by lia. change (2 ^ 8) with 256.
    rewrite Z.rem_mul_r by lia. lia.
Qed.

Lemma be_get_range bs : 0 <= be_get bs < 2 ^ (8 * len bs).
Proof.
  induction bs as [|b bs IH] using rev_ind; [cbn; lia|].
  rewrite be_get_snoc, length_app. pose proof (b2z_range b). simpl length.
  replace (8 * Z.of_nat (length bs + 1)) with (8 * len bs + 8) by lia.
  rewrite Z.pow_add_r by lia. lia.
Qed.

Lemma be_get_range_le bs (n : nat) m : length bs = n -> m = 2 ^ (8 * Z.of_nat n) -> 0 <= be_get bs < m.
Proof. intros <- ->. apply be_get_range. Qed.

Lemma be_put_get bs : be_put (length bs) (be_get bs) = bs.
Proof.
  induction bs as [|b bs IH] using rev_ind; [done|].
  rewrite length_app, Nat.add_comm. cbn [length Nat.add be_put].
  rewrite be_get_snoc. pose proof (b2z_range b). f_equal.
  - replace ((be_get bs * 256 + b2z b) / 256) with (be_get bs); [done|].
    apply Z.div_unique with (b2z b); lia.
  - f_equal. apply b2z_inj. rewrite b2z_z2b. unfold u8. change (2 ^ 8) with 256.
    rewrite Z.add_comm, Z.mod_add, Z.mod_small; lia.
Qed.

Lemma be_get_inj a b : length a = length b -> be_get a = be_get b -> a = b.
Proof. intros Hl H. by rewrite <- (be_put_get a), <- (be_put_get b), Hl, H. Qed.

Lemma be_get_put_small n z : 0 <= z < 2 ^ (8 * Z.of_nat n) -> be_get (be_put n z) = z.
Proof. intros. rewrite be_get_put. by apply Z.mod_small. Qed.

#[export] Hint Rewrite length_be_put @length_app @length_take @length_drop : ccb_len.

Ltac len_simpl := autorewrite with ccb_len in *; cbn [length] in *.

(** * Slices *)

(** [buf[i:j]] for [i <= j <= len(buf)]. *)
Definition slice {A} (i j : nat) (l : list A) : list A := take (j - i) (drop i l).

Lemma slice_app {A} (a b c : list A) i j :
  length a = i -> (i + length b)%nat = j -> slice i j (a ++ b ++ c) = b.
Proof.
  intros <- <-. unfold slice. rewrite drop_app_length.
  replace (length a + length b - length a)%nat with (length b) by lia.
  apply take_app_length.
Qed.

Lemma slice_app_0 {A} (b c : list A) j : length b = j -> slice 0 j (b ++ c) = b.
Proof. intros <-. unfold slice. rewrite Nat.sub_0_r. apply take_app_length. Qed.

Lemma length_slice {A} i j (l : list A) : (j <= length l)%nat -> length (slice i j l) = (j - i)%nat.
Proof. intros. unfold slice. rewrite length_take, length_drop. lia. Qed.

Lemma prefix_take {A} n (l : list A) : take n l `prefix_of` l.
Proof. exists (drop n l). by rewrite take_drop. Qed.

Lemma app_prefix_le {A} (a b c d : list A) : a ++ b = c ++ d -> (length a <= length c)%nat -> a `prefix_of` c.
Proof.
  intros E Hl. apply app_eq_inv in E as [(k & -> & _)|(k & -> & _)]; [|by eexists].
  rewrite length_app in Hl. assert (k = []) as -> by (apply length_zero_iff_nil; lia).
  by rewrite app_nil_r.
Qed.

(** * Reachability *)

Section star.
Context {S : Type} (R : S -> S -> Prop).

Inductive star : S -> S -> Prop :=
| star_refl s : star s s
| star_step s1 s2 s3 : star s1 s2 -> R s2 s3 -> star s1 s3.

(** A predicate preserved by every step holds in every reachable state. *)
Lemma star_inv (P : S -> Prop) s s' :
  (forall a b, P a -> R a b -> P b) -> star s s' -> P s -> P s'.
Proof. intros Hp Hs. induction Hs; eauto. Qed.

Lemma star_trans s1 s2 s3 : star s1 s2 -> star s2 s3 -> star s1 s3.
Proof. intros H1 H2. revert H1. induction H2; eauto using star. Qed.

Lemma star_once s1 s2 : R s1 s2 -> star s1 s2.
Proof. eauto using star. Qed.
End star.
