(* ===== verification/Frame.v ===== *)
(** The fstun wire format (transport/fstun/frame.go, transport/fstun/params.go):
    CRC-32C, the frame encoder and decoder, and the fixed-width payloads of the
    SYN, ACK and ROLL frames, with the round trips, the torn-tail behaviour and
    the error detection the segment log relies on. *)

From stdpp Require Import base gmap list numbers strings.
From Stdlib Require Import ZArith Lia.
From Stdlib.Strings Require Import Byte.
From S2P Require Import Prelude.

(** * CRC-32C (hash/crc32 with the Castagnoli table) *)

Definition castagnoli : Z := 0x82f63b78.

(** One bit of the reflected division by the Castagnoli polynomial. *)
Definition crc_bit (c : Z) : Z :=
  if Z.odd c then Z.lxor (Z.shiftr c 1) castagnoli else Z.shiftr c 1.

Definition crc_byte (c : Z) : Z := Nat.iter 8 crc_bit c.

(** [crc32.MakeTable(crc32.Castagnoli)]. *)
Definition crcTable : list Z := map crc_byte (map Z.of_nat (seq 0 256)).

Definition crc_step (crc : Z) (v : byte) : Z :=
  Z.lxor (nth (Z.to_nat (Z.land (Z.lxor crc (b2z v)) 255)) crcTable 0) (Z.shiftr crc 8).

Definition not32 (z : Z) : Z := Z.lxor z 0xffffffff.

(** [digest.Write]: the running checksum after the bytes [p]. *)
Definition crc_write (crc : Z) (p : list byte) : Z :=
  not32 (fold_left crc_step p (not32 crc)).

(** * Frames *)

(** [frameType] is a [uint8]: the named constants are some of its values. *)
Abbreviation frameType := byte.
Definition frameSYN : frameType := x01.
Definition frameDATA : frameType := x02.
Definition frameACK : frameType := x03.
Definition frameHeartbeat : frameType := x04.
Definition frameFIN : frameType := x05.
Definition frameError : frameType := x06.
Definition frameROLL : frameType := x07.

Definition headerLen : nat := 22.
Definition crcLen : nat := 4.
Definition maxPayload : Z := Z.shiftl 1 20.

Record frame := mkFrame {
  f_typ : frameType;
  f_flags : byte;
  f_seq : Z;       (* uint64 *)
  f_dataOff : Z;   (* uint64: DATA payload bytes before this frame *)
  f_payload : list byte
}.

#[export] Instance frame_eq_dec : EqDecision frame.
Proof. solve_decision. Defined.

(** The 22 header bytes [appendTo] writes before the payload. *)
Definition header (f : frame) : list byte :=
  [f_typ f; f_flags f] ++ be_put 8 (f_seq f) ++ be_put 8 (f_dataOff f)
  ++ be_put 4 (u32 (len (f_payload f))).

(** [frame.appendTo]: header, payload and checksum appended to [dst]. *)
Definition appendTo (f : frame) (dst : list byte) : list byte :=
  let hdr := header f in
  let crc := crc_write (crc_write 0 hdr) (f_payload f) in
  dst ++ hdr ++ f_payload f ++ be_put 4 crc.

Inductive decodeErr := errIncompleteFrame | errCorruptFrame.

#[export] Instance decodeErr_eq_dec : EqDecision decodeErr.
Proof. solve_decision. Defined.

(** [decodeFrame]: the frame at the front of [buf] and the bytes it takes. *)
Definition decodeFrame (buf : list byte) : result decodeErr (frame * nat) :=
  if decide (length buf < headerLen)%nat then Err errIncompleteFrame else
  let length_ := be_get (slice 18 22 buf) in
  if length_ >? maxPayload then Err errCorruptFrame else
  let total := (headerLen + Z.to_nat length_ + crcLen)%nat in
  if decide (length buf < total)%nat then Err errIncompleteFrame else
  let payload := slice headerLen (headerLen + Z.to_nat length_) buf in
  let want := be_get (slice (headerLen + Z.to_nat length_) total buf) in
  let crc := crc_write (crc_write 0 (take headerLen buf)) payload in
  if negb (crc =? want) then Err errCorruptFrame else
  Ok ({| f_typ := nth 0 buf x00;
         f_flags := nth 1 buf x00;
         f_seq := be_get (slice 2 10 buf);
         f_dataOff := be_get (slice 10 18 buf);
         f_payload := payload |}, total).

#[global] Arguments appendTo : simpl never.
#[global] Arguments decodeFrame : simpl never.
#[global] Arguments crc_write : simpl never.

(** * Fixed-width payloads (params.go) *)

Definition encodeUint32 (v : Z) : list byte := be_put 4 v.
Definition decodeUint32 (b : list byte) : option Z :=
  if decide (length b = 4%nat) then Some (be_get b) else None.
Definition encodeUint64 (v : Z) : list byte := be_put 8 v.
Definition decodeUint64 (b : list byte) : option Z :=
  if decide (length b = 8%nat) then Some (be_get b) else None.

Definition protocolVersion : Z := 1.

Record synParams := mkSynParams {
  p_version : Z;      (* uint16 *)
  p_segmentSize : Z;  (* uint64 *)
  p_window : Z;       (* uint64 *)
  p_maxFrame : Z      (* uint32 *)
}.

Definition encodeSynParams (p : synParams) : list byte :=
  be_put 2 (p_version p) ++ be_put 8 (p_segmentSize p)
  ++ be_put 8 (p_window p) ++ be_put 4 (p_maxFrame p).

Definition decodeSynParams (b : list byte) : option synParams :=
  if decide (length b = 22%nat) then
    Some {| p_version := be_get (slice 0 2 b);
            p_segmentSize := be_get (slice 2 10 b);
            p_window := be_get (slice 10 18 b);
            p_maxFrame := be_get (slice 18 22 b) |}
  else None.

(** * Well-formed values: every field fits its Go type *)

Record frame_wf (f : frame) : Prop := {
  fwf_seq : 0 <= f_seq f < 2 ^ 64;
  fwf_off : 0 <= f_dataOff f < 2 ^ 64;
  fwf_len : len (f_payload f) <= maxPayload
}.

(** Well-formedness of a concrete frame, by evaluation. *)
Ltac frame_wf_eval := split; vm_compute; intuition congruence.

Record synParams_wf (p : synParams) : Prop := {
  pwf_version : 0 <= p_version p < 2 ^ 16;
  pwf_seg : 0 <= p_segmentSize p < 2 ^ 64;
  pwf_window : 0 <= p_window p < 2 ^ 64;
  pwf_maxFrame : 0 <= p_maxFrame p < 2 ^ 32
}.

(** * Lemmas on the checksum *)

Lemma crc_check_vector : crc_write 0 (map (fun z => z2b z) [49;50;51;52;53;54;55;56;57]) = 0xe3069283.
Proof. vm_compute. reflexivity. Qed.

Lemma lxor_range32 a b : 0 <= a < 2 ^ 32 -> 0 <= b < 2 ^ 32 -> 0 <= Z.lxor a b < 2 ^ 32.
Proof.
  intros Ha Hb.
  assert (0 <= Z.lxor a b) by (apply Z.lxor_nonneg; lia).
  split; [done|].
  destruct (Z.eq_dec (Z.lxor a b) 0) as [->|Hn]; [lia|].
  apply Z.log2_lt_pow2; [lia|].
  pose proof (Z.log2_lxor a b ltac:(lia) ltac:(lia)).
  assert (forall x, 0 <= x < 2 ^ 32 -> Z.log2 x < 32) as Hl.
  { intros x Hx. destruct (Z.eq_dec x 0) as [->|]; [cbn; lia|].
    apply Z.log2_lt_pow2; lia. }
  pose proof (Hl a Ha). pose proof (Hl b Hb). lia.
Qed.

Lemma shiftr_range32 a n : 0 <= a < 2 ^ 32 -> 0 <= n -> 0 <= Z.shiftr a n < 2 ^ 32.
Proof.
  intros Ha Hn. rewrite Z.shiftr_div_pow2 by done.
  assert (0 < 2 ^ n) by (apply Z.pow_pos_nonneg; lia).
  split; [apply Z.div_pos; lia|].
  apply Z.div_lt_upper_bound; [lia|]. nia.
Qed.

Lemma crc_bit_range c : 0 <= c < 2 ^ 32 -> 0 <= crc_bit c < 2 ^ 32.
Proof.
  intros. unfold crc_bit. pose proof (shiftr_range32 c 1 ltac:(done) ltac:(lia)).
  destruct (Z.odd c); [|done]. apply lxor_range32; [done|]. unfold castagnoli. lia.
Qed.

(** [crc_bit] distributes over exclusive or: the checksum is linear. *)
Lemma crc_bit_lxor a b : crc_bit (Z.lxor a b) = Z.lxor (crc_bit a) (crc_bit b).
Proof.
  unfold crc_bit. rewrite Z.shiftr_lxor.
  replace (Z.odd (Z.lxor a b)) with (xorb (Z.odd a) (Z.odd b))
    by (rewrite <- !Z.bit0_odd; symmetry; apply Z.lxor_spec).
  destruct (Z.odd a), (Z.odd b); cbn [xorb]; apply Z.bits_inj'; intros n _;
    rewrite ?Z.lxor_spec;
    repeat match goal with |- context [Z.testbit ?x n] => destruct (Z.testbit x n) end;
    reflexivity.
Qed.

Lemma crc_byte_lxor a b : crc_byte (Z.lxor a b) = Z.lxor (crc_byte a) (crc_byte b).
Proof. unfold crc_byte. cbn [Nat.iter nat_rect]. by rewrite !crc_bit_lxor. Qed.

Lemma crc_byte_range c : 0 <= c < 2 ^ 32 -> 0 <= crc_byte c < 2 ^ 32.
Proof. intros. unfold crc_byte. cbn [Nat.iter nat_rect]. by repeat apply crc_bit_range. Qed.

(** The inverse of one division step on 32-bit values. *)
Definition crc_unbit (r : Z) : Z :=
  if Z.testbit r 31 then Z.shiftl (Z.lxor r castagnoli) 1 + 1 else Z.shiftl r 1.

Lemma crc_unbit_bit c : 0 <= c < 2 ^ 32 -> crc_unbit (crc_bit c) = c.
Proof.
  intros Hc. unfold crc_unbit, crc_bit.
  assert (Z.testbit (Z.shiftr c 1) 31 = false) as Hhi.
  { rewrite Z.shiftr_spec by lia. apply Z.bits_above_log2; [lia|].
    destruct (Z.eq_dec c 0) as [->|]; [cbn; lia|]. apply Z.log2_lt_pow2; lia. }
  pose proof (Z.div_mod c 2 ltac:(lia)) as Hdm. rewrite <- Z.bit0_mod in Hdm.
  rewrite Z.bit0_odd in Hdm.
  assert (Z.shiftl (Z.shiftr c 1) 1 = 2 * (c / 2)) as Hsh
    by (rewrite Z.shiftl_mul_pow2, Z.shiftr_div_pow2 by lia; change (2 ^ 1) with 2; lia).
  destruct (Z.odd c) eqn:Ho; cbn [Z.b2z] in Hdm.
  - rewrite Z.lxor_spec, Hhi. change (Z.testbit castagnoli 31) with true. cbn [xorb].
    rewrite Z.lxor_assoc, Z.lxor_nilpotent, Z.lxor_0_r. lia.
  - rewrite Hhi. lia.
Qed.

Lemma crc_bit_inj a b : 0 <= a < 2 ^ 32 -> 0 <= b < 2 ^ 32 -> crc_bit a = crc_bit b -> a = b.
Proof.
  intros Ha Hb H. by rewrite <- (crc_unbit_bit a), <- (crc_unbit_bit b), H.
Qed.

Lemma crc_byte_inj a b : 0 <= a < 2 ^ 32 -> 0 <= b < 2 ^ 32 -> crc_byte a = crc_byte b -> a = b.
Proof.
  unfold crc_byte. cbn [Nat.iter nat_rect]. intros Ha Hb H.
  do 8 (apply crc_bit_inj in H; [|by repeat apply crc_bit_range..]). done.
Qed.

(** Eight division steps of a value whose low byte is zero only shift it. *)
Lemma crc_bit_shiftl h n : 0 <= n -> crc_bit (Z.shiftl h (n + 1)) = Z.shiftl h n.
Proof.
  intros Hn. unfold crc_bit. rewrite <- Z.bit0_odd, Z.shiftl_spec_low by lia.
  rewrite Z.shiftr_shiftl_l by lia. f_equal. lia.
Qed.

Lemma crc_byte_shiftl h : crc_byte (Z.shiftl h 8) = h.
Proof.
  unfold crc_byte. cbn [Nat.iter nat_rect].
  change 8 with (7 + 1). rewrite (crc_bit_shiftl h 7) by lia.
  change 7 with (6 + 1). rewrite (crc_bit_shiftl h 6) by lia.
  change 6 with (5 + 1). rewrite (crc_bit_shiftl h 5) by lia.
  change 5 with (4 + 1). rewrite (crc_bit_shiftl h 4) by lia.
  change 4 with (3 + 1). rewrite (crc_bit_shiftl h 3) by lia.
  change 3 with (2 + 1). rewrite (crc_bit_shiftl h 2) by lia.
  change 2 with (1 + 1). rewrite (crc_bit_shiftl h 1) by lia.
  change 1 with (0 + 1). rewrite (crc_bit_shiftl h 0) by lia.
  apply Z.shiftl_0_r.
Qed.

Lemma split_low_byte x : 0 <= x -> x = Z.lxor (Z.land x 255) (Z.shiftl (Z.shiftr x 8) 8).
Proof.
  intros Hx. apply Z.bits_inj'. intros n Hn.
  rewrite Z.lxor_spec, Z.land_spec. change 255 with (Z.ones 8).
  destruct (Z.lt_ge_cases n 8).
  - rewrite Z.ones_spec_low, Z.shiftl_spec_low by lia. by rewrite andb_true_r, xorb_false_r.
  - rewrite Z.ones_spec_high, Z.shiftl_spec_high, Z.shiftr_spec by lia.
    rewrite andb_false_r, xorb_false_l. f_equal. lia.
Qed.

Lemma nth_crcTable i : 0 <= i < 256 -> nth (Z.to_nat i) crcTable 0 = crc_byte i.
Proof.
  intros Hi. unfold crcTable. rewrite map_map.
  rewrite (nth_indep _ 0 (crc_byte (Z.of_nat 0)))
    by (rewrite length_map, length_seq; lia).
  rewrite (map_nth (fun x => crc_byte (Z.of_nat x))), seq_nth by lia. f_equal. lia.
Qed.

(** The table-driven step is eight bit steps of the checksum xor the byte. *)
Lemma crc_step_bits crc v : 0 <= crc < 2 ^ 32 -> crc_step crc v = crc_byte (Z.lxor crc (b2z v)).
Proof.
  intros Hc. pose proof (b2z_range v). unfold crc_step.
  assert (0 <= Z.lxor crc (b2z v)) as Hx by (apply Z.lxor_nonneg; lia).
  rewrite nth_crcTable.
  2: { change 255 with (Z.ones 8). rewrite Z.land_ones by lia. apply Z.mod_pos_bound. lia. }
  rewrite (split_low_byte (Z.lxor crc (b2z v)) Hx) at 2.
  rewrite crc_byte_lxor, crc_byte_shiftl. f_equal.
  rewrite Z.shiftr_lxor. replace (Z.shiftr (b2z v) 8) with 0; [by rewrite Z.lxor_0_r|].
  rewrite Z.shiftr_div_pow2 by lia. symmetry. apply Z.div_small. lia.
Qed.

Lemma crc_step_range crc v : 0 <= crc < 2 ^ 32 -> 0 <= crc_step crc v < 2 ^ 32.
Proof.
  intros. pose proof (b2z_range v). rewrite crc_step_bits by done.
  apply crc_byte_range, lxor_range32; lia.
Qed.

Lemma lxor_cancel_l a b c : Z.lxor a b = Z.lxor a c -> b = c.
Proof.
  intros H. apply (f_equal (Z.lxor a)) in H.
  by rewrite <- !Z.lxor_assoc, Z.lxor_nilpotent, !Z.lxor_0_l in H.
Qed.

Lemma crc_step_inj_byte crc v1 v2 :
  0 <= crc < 2 ^ 32 -> crc_step crc v1 = crc_step crc v2 -> v1 = v2.
Proof.
  intros Hc H. pose proof (b2z_range v1). pose proof (b2z_range v2).
  rewrite !crc_step_bits in H by done.
  apply crc_byte_inj in H; [|apply lxor_range32; lia..].
  by apply lxor_cancel_l, b2z_inj in H.
Qed.

Lemma crc_step_inj_crc c1 c2 v :
  0 <= c1 < 2 ^ 32 -> 0 <= c2 < 2 ^ 32 -> crc_step c1 v = crc_step c2 v -> c1 = c2.
Proof.
  intros H1 H2 H. pose proof (b2z_range v). rewrite !crc_step_bits in H by done.
  apply crc_byte_inj in H; [|apply lxor_range32; lia..].
  rewrite (Z.lxor_comm c1), (Z.lxor_comm c2) in H. by apply lxor_cancel_l in H.
Qed.

Lemma crc_fold_range p c : 0 <= c < 2 ^ 32 -> 0 <= fold_left crc_step p c < 2 ^ 32.
Proof. revert c. induction p; intros c Hc; [done|]. by apply IHp, crc_step_range. Qed.

Lemma crc_fold_inj p c1 c2 :
  0 <= c1 < 2 ^ 32 -> 0 <= c2 < 2 ^ 32 ->
  fold_left crc_step p c1 = fold_left crc_step p c2 -> c1 = c2.
Proof.
  revert c1 c2. induction p as [|v p IH]; intros c1 c2 H1 H2 H; [done|].
  apply IH in H; [|by apply crc_step_range..]. by eapply crc_step_inj_crc.
Qed.

Lemma not32_range z : 0 <= z < 2 ^ 32 -> 0 <= not32 z < 2 ^ 32.
Proof. intros. apply lxor_range32; lia. Qed.

Lemma not32_inv z : not32 (not32 z) = z.
Proof. unfold not32. by rewrite Z.lxor_assoc, Z.lxor_nilpotent, Z.lxor_0_r. Qed.

Lemma not32_inj a b : not32 a = not32 b -> a = b.
Proof. intros H. by rewrite <- (not32_inv a), <- (not32_inv b), H. Qed.

Lemma crc_write_range c p : 0 <= c < 2 ^ 32 -> 0 <= crc_write c p < 2 ^ 32.
Proof. intros. by apply not32_range, crc_fold_range, not32_range. Qed.

(** Writing in two pieces is writing their concatenation. *)
Lemma crc_write_app c p q : crc_write (crc_write c p) q = crc_write c (p ++ q).
Proof. unfold crc_write. by rewrite not32_inv, fold_left_app. Qed.

(** A single changed byte changes the checksum. *)
Lemma crc_write_one_byte c p v w q :
  0 <= c < 2 ^ 32 -> v <> w -> crc_write c (p ++ v :: q) <> crc_write c (p ++ w :: q).
Proof.
  intros Hc Hvw H. unfold crc_write in H. apply not32_inj in H.
  rewrite !fold_left_app in H. cbn [fold_left] in H.
  pose proof (crc_fold_range p (not32 c) (not32_range c Hc)).
  apply crc_fold_inj in H; [|by apply crc_step_range..].
  by apply Hvw; eapply crc_step_inj_byte.
Qed.

(** * Lemmas on the frame layout *)

Lemma length_header f : length (header f) = headerLen.
Proof. unfold header. by len_simpl. Qed.

Lemma appendTo_app f dst : appendTo f dst = dst ++ appendTo f [].
Proof. done. Qed.

Lemma length_appendTo f dst :
  length (appendTo f dst) = (length dst + (headerLen + length (f_payload f) + crcLen))%nat.
Proof. unfold appendTo. len_simpl. rewrite length_header. unfold crcLen. lia. Qed.

Lemma appendTo_pos f : (0 < length (appendTo f []))%nat.
Proof. rewrite length_appendTo. unfold headerLen. lia. Qed.

(** What [decodeFrame] computes on a buffer whose three parts are known. *)
Lemma decode_parts hdr payload tr rest :
  length hdr = headerLen -> length tr = crcLen ->
  be_get (slice 18 22 hdr) = len payload -> len payload <= maxPayload ->
  decodeFrame (hdr ++ payload ++ tr ++ rest) =
  if crc_write 0 (hdr ++ payload) =? be_get tr
  then Ok (mkFrame (nth 0 hdr x00) (nth 1 hdr x00) (be_get (slice 2 10 hdr))
             (be_get (slice 10 18 hdr)) payload, (headerLen + length payload + crcLen)%nat)
  else Err errCorruptFrame.
Proof.
  intros Hh Ht Hl Hm. unfold decodeFrame.
  assert (forall i j, (j <= headerLen)%nat -> slice i j (hdr ++ payload ++ tr ++ rest) = slice i j hdr) as Hs.
  { intros i j Hj. unfold slice. destruct (decide (i <= j)%nat).
    - rewrite drop_app_le by lia. rewrite take_app_le; [done|]. rewrite length_drop. lia.
    - replace (j - i)%nat with 0%nat by lia. done. }
  rewrite (Hs 18 22)%nat, (Hs 2 10)%nat, (Hs 10 18)%nat by (unfold headerLen; lia). rewrite Hl, Nat2Z.id.
  rewrite decide_False by (len_simpl; lia).
  replace (len payload >? maxPayload) with false by lia.
  rewrite decide_False by (len_simpl; lia).
  rewrite (slice_app hdr payload (tr ++ rest)) by lia.
  replace (slice (headerLen + length payload) (headerLen + length payload + crcLen)
    (hdr ++ payload ++ tr ++ rest)) with tr.
  2: { rewrite app_assoc. symmetry. apply slice_app; len_simpl; lia. }
  replace (take headerLen (hdr ++ payload ++ tr ++ rest)) with hdr
    by (rewrite <- Hh; by rewrite take_app_length).
  rewrite crc_write_app.
  rewrite !app_nth1 by (rewrite Hh; unfold headerLen; lia).
  rewrite if_negb. done.
Qed.

Lemma header_length_field f : len (f_payload f) <= maxPayload ->
  be_get (slice 18 22 (header f)) = len (f_payload f).
Proof.
  intros H. assert (maxPayload < 2 ^ 32) by (vm_compute; done).
  replace (header f) with (([f_typ f; f_flags f] ++ be_put 8 (f_seq f) ++ be_put 8 (f_dataOff f))
    ++ be_put 4 (u32 (len (f_payload f))) ++ []) by (unfold header; by rewrite app_nil_r, <- !app_assoc).
  rewrite slice_app by (len_simpl; lia).
  rewrite u32_small, be_get_put_small; lia.
Qed.

Lemma header_fields f : frame_wf f ->
  mkFrame (nth 0 (header f) x00) (nth 1 (header f) x00) (be_get (slice 2 10 (header f)))
    (be_get (slice 10 18 (header f))) (f_payload f) = f.
Proof.
  intros [Hs Ho Hl]. destruct f as [t fl s o p]. cbn [f_seq f_dataOff f_payload] in *.
  unfold header. cbn [f_typ f_flags f_seq f_dataOff f_payload]. f_equal.
  - rewrite slice_app by (len_simpl; lia). apply be_get_put_small. lia.
  - rewrite (app_assoc [t; fl]), slice_app by (len_simpl; lia). apply be_get_put_small. lia.
Qed.

Lemma crc_trailer hdr payload :
  be_get (be_put 4 (crc_write (crc_write 0 hdr) payload)) = crc_write 0 (hdr ++ payload).
Proof.
  rewrite crc_write_app. apply be_get_put_small, crc_write_range. lia.
Qed.

Lemma decode_encode f rest : frame_wf f ->
  decodeFrame (appendTo f [] ++ rest) = Ok (f, length (appendTo f [])).
Proof.
  intros Hf. unfold appendTo. cbn [app]. rewrite <- !app_assoc.
  rewrite decode_parts; [|apply length_header|by rewrite length_be_put
    |apply header_length_field, Hf|apply Hf].
  rewrite crc_trailer, Z.eqb_refl, header_fields by done.
  repeat f_equal. len_simpl. rewrite length_header. unfold crcLen. lia.
Qed.

(** Any proper prefix of a frame, and hence of a log, is not yet a frame. *)
Lemma decode_torn f p : frame_wf f ->
  p `prefix_of` appendTo f [] -> (length p < length (appendTo f []))%nat ->
  decodeFrame p = Err errIncompleteFrame.
Proof.
  intros Hf [q Hq] Hlt. rewrite length_appendTo in Hlt. cbn [length] in Hlt.
  unfold decodeFrame.
  destruct (decide (length p < headerLen)%nat) as [|Hge]; [done|].
  assert (slice 18 22 p = slice 18 22 (header f)) as ->.
  { assert (take headerLen p = take headerLen (header f)) as Ht.
    { transitivity (take headerLen (p ++ q)); [by rewrite take_app_le by lia|].
      rewrite <- Hq. unfold appendTo. cbn [app].
      rewrite take_app_le; [done|]. rewrite length_header. lia. }
    unfold slice. rewrite !take_drop_commute.
    change (18 + (22 - 18))%nat with headerLen. by rewrite Ht. }
  rewrite header_length_field by apply Hf.
  destruct Hf as [_ _ Hl].
  replace (len (f_payload f) >? maxPayload) with false by lia.
  rewrite decide_True; [done|]. lia.
Qed.

Lemma buf_parts (buf : list byte) a b c : (a + b + c <= length buf)%nat ->
  exists x y z r, buf = x ++ y ++ z ++ r /\ length x = a /\ length y = b /\ length z = c.
Proof.
  intros H. exists (take a buf), (take b (drop a buf)), (take c (drop b (drop a buf))),
    (drop c (drop b (drop a buf))).
  rewrite !take_drop. len_simpl. repeat split; lia.
Qed.

(** A header is determined by its decoded fields. *)
Lemma header_of_fields hdr payload :
  length hdr = headerLen -> be_get (slice 18 22 hdr) = len payload -> len payload <= maxPayload ->
  header (mkFrame (nth 0 hdr x00) (nth 1 hdr x00) (be_get (slice 2 10 hdr))
            (be_get (slice 10 18 hdr)) payload) = hdr.
Proof.
  intros Hh Hl Hm. assert (maxPayload < 2 ^ 32) by (vm_compute; done).
  unfold header. cbn [f_typ f_flags f_seq f_dataOff f_payload].
  rewrite u32_small, <- Hl by lia.
  do 22 (destruct hdr as [|? hdr]; [done|]). destruct hdr; [|done].
  cbn [slice take drop Nat.sub nth app].
  do 2 rewrite (be_put_get [_;_;_;_;_;_;_;_]). by rewrite (be_put_get [_;_;_;_]).
Qed.

(** A frame comes only out of its own encoding. *)
Lemma decode_canonical buf f n : decodeFrame buf = Ok (f, n) ->
  frame_wf f /\ n = length (appendTo f []) /\ buf = appendTo f [] ++ drop n buf.
Proof.
  intros H. pose proof H as H0. unfold decodeFrame in H0.
  destruct (decide (length buf < headerLen)%nat) as [|Hh]; [done|].
  destruct (_ >? maxPayload) eqn:Hm; [done|].
  destruct (decide (length buf < _)%nat) as [|Ht]; [done|]. clear H0.
  pose proof (be_get_range (slice 18 22 buf)) as Hr. rewrite Z.gtb_ltb in Hm. breflect.
  destruct (buf_parts buf headerLen (Z.to_nat (be_get (slice 18 22 buf))) crcLen)
    as (hdr & pl & tr & rest & -> & Hx & Hy & Hz); [lia|].
  assert (slice 18 22 (hdr ++ pl ++ tr ++ rest) = slice 18 22 hdr) as Hs.
  { unfold slice. rewrite drop_app_le by (rewrite Hx; unfold headerLen; lia).
    rewrite take_app_le; [done|]. len_simpl. rewrite Hx. unfold headerLen. lia. }
  rewrite Hs in *.
  rewrite decode_parts in H by lia.
  destruct (crc_write _ _ =? _) eqn:Hc; [|done]. injection H as <- <-. breflect.
  split.
  { split; cbn [f_seq f_dataOff f_payload]; [..|lia];
    apply (be_get_range_le _ 8); try done; apply length_slice; rewrite Hx; unfold headerLen; lia. }
  split; [rewrite length_appendTo; done|].
  unfold appendTo. cbn [app]. rewrite header_of_fields by lia. cbn [f_payload].
  rewrite crc_write_app, Hc. change 4%nat with crcLen.
  replace (be_put crcLen (be_get tr)) with tr by (rewrite <- Hz; by rewrite be_put_get).
  replace (drop _ _) with rest; [by rewrite <- !app_assoc|].
  rewrite !app_assoc, drop_app_length'; [done|]. len_simpl. unfold headerLen, crcLen in *. lia.
Qed.

Lemma crc_write_insert body i b c :
  body !! i = Some c -> b <> c -> crc_write 0 (<[i := b]> body) <> crc_write 0 body.
Proof.
  intros Hi Hbc. pose proof (lookup_lt_Some _ _ _ Hi).
  rewrite insert_take_drop by done. rewrite <- (take_drop_middle body i c Hi) at 3.
  apply crc_write_one_byte; [lia|done].
Qed.

(** A frame whose parts have the lengths its length field says and whose trailer is not
    their checksum. *)
Lemma decode_bad_trailer f h p t rest : frame_wf f -> length h = headerLen -> length p = length (f_payload f) ->
  length t = crcLen -> slice 18 22 h = slice 18 22 (header f) -> crc_write 0 (h ++ p) <> be_get t ->
  decodeFrame ((h ++ p ++ t) ++ rest) = Err errCorruptFrame.
Proof.
  intros Hf Hh Hp Ht Hs Hne. pose proof (header_length_field f (fwf_len f Hf)) as Hlen. destruct Hf as [_ _ Hl].
  rewrite <- !app_assoc, decode_parts by (rewrite ?Hs, ?Hlen; lia). by rewrite (proj2 (Z.eqb_neq _ _) Hne).
Qed.

(** One changed byte anywhere but in the length field is always detected. *)
Lemma decode_one_byte f i b c rest : frame_wf f ->
  appendTo f [] !! i = Some c -> b <> c -> (i < 18 \/ 22 <= i)%nat ->
  decodeFrame (<[i := b]> (appendTo f []) ++ rest) = Err errCorruptFrame.
Proof.
  intros Hf Hi Hbc Hreg. pose proof (length_header f) as Hlh.
  pose proof (fun h p t => decode_bad_trailer f h p t rest Hf) as Hbad. destruct Hf as [_ _ Hl].
  set (body := header f ++ f_payload f). set (tr := be_put 4 (crc_write 0 body)).
  assert (length tr = crcLen) as Hlt by (unfold tr; by len_simpl).
  assert (0 <= crc_write 0 body < 2 ^ 32) as Hcr by (apply crc_write_range; lia).
  assert (be_get tr = crc_write 0 body) as Htr by (apply be_get_put_small; lia).
  assert (appendTo f [] = header f ++ f_payload f ++ tr) as He.
  { unfold appendTo, tr, body. cbn [app]. by rewrite crc_write_app. }
  rewrite He in Hi |- *. clear He.
  destruct (decide (i < headerLen)%nat) as [Hih|Hih].
  { rewrite insert_app_l by lia. apply Hbad; try done; [by rewrite length_insert| |].
    - unfold slice. rewrite drop_insert_lt by (unfold headerLen in *; lia). done.
    - rewrite Htr, <- insert_app_l by lia. apply crc_write_insert with c; [|done].
      unfold body. by rewrite lookup_app_l in Hi |- * by lia. }
  replace i with (length (header f) + (i - length (header f)))%nat in * by lia.
  set (j := (i - length (header f))%nat) in *. clearbody j.
  rewrite insert_app_r. rewrite lookup_app_r in Hi by lia.
  replace (length (header f) + j - length (header f))%nat with j in Hi by lia.
  destruct (decide (j < length (f_payload f))%nat) as [Hip|Hip].
  { rewrite insert_app_l by lia. apply Hbad; try done; [by rewrite length_insert|].
    rewrite Htr, <- insert_app_r. apply crc_write_insert with c; [|done].
    unfold body. rewrite lookup_app_r by lia.
    replace (length (header f) + j - length (header f))%nat with j by lia.
    by rewrite lookup_app_l in Hi by lia. }
  replace j with (length (f_payload f) + (j - length (f_payload f)))%nat in * by lia.
  set (k := (j - length (f_payload f))%nat) in *. clearbody k.
  rewrite insert_app_r. rewrite lookup_app_r in Hi by lia.
  replace (length (f_payload f) + k - length (f_payload f))%nat with k in Hi by lia.
  apply Hbad; try done; [by rewrite length_insert|].
  fold body. rewrite <- Htr. intros Heq. apply be_get_inj in Heq; [|by rewrite length_insert].
  pose proof (lookup_lt_Some _ _ _ Hi).
  assert (tr !! k = Some b) by (rewrite Heq; by apply list_lookup_insert_eq).
  congruence.
Qed.

(** * Properties *)

(** C34: the decoder accepts exactly the encodings of well-formed frames: it
    returns a frame and a byte count if and only if the buffer starts with that
    frame's encoding and the count is its length, whatever follows. *)
Theorem decodeFrame_iff buf f n :
  decodeFrame buf = Ok (f, n) <->
  frame_wf f /\ n = length (appendTo f []) /\ exists rest, buf = appendTo f [] ++ rest.
Proof.
  split.
  - intros H. destruct (decode_canonical buf f n H) as (Hf & Hn & Hb). eauto.
  - intros (Hf & -> & rest & ->). by apply decode_encode.
Qed.

(** A torn tail is never an error: every proper prefix of an encoded frame
    (a partially visible append) decodes to [errIncompleteFrame], so the reader
    waits instead of failing the pipe or delivering a wrong frame. *)
Theorem decodeFrame_torn_tail f n :
  frame_wf f -> (n < length (appendTo f []))%nat ->
  decodeFrame (take n (appendTo f [])) = Err errIncompleteFrame.
Proof.
  intros Hf Hn. apply (decode_torn f); [done|apply prefix_take|].
  rewrite length_take. lia.
Qed.

Lemma decodeFrame_torn_tail_witness :
  decodeFrame (take 27 (appendTo (mkFrame frameDATA x00 3 10 [x41; x42]) []))
  = Err errIncompleteFrame.
Proof.
  apply (decodeFrame_torn_tail (mkFrame frameDATA x00 3 10 [x41; x42]) 27).
  - frame_wf_eval.
  - vm_compute. lia.
Defined.

(** C35: one wrong byte is always caught: replacing any byte of an encoded frame
    outside the four length bytes by a different one makes the decoder report
    [errCorruptFrame], never a frame. This is what the code does, and at once: by
    TRANSPORTS.md 4.2 a frame whose CRC fails would be incomplete, and corrupt only if a
    later valid frame follows it. *)
Theorem decodeFrame_detects_byte f i b c rest :
  frame_wf f -> appendTo f [] !! i = Some c -> b <> c -> (i < 18 \/ 22 <= i)%nat ->
  decodeFrame (<[i := b]> (appendTo f []) ++ rest) = Err errCorruptFrame.
Proof. intros. by apply decode_one_byte with c. Qed.

Lemma decodeFrame_detects_byte_witness :
  decodeFrame (<[23%nat := x43]> (appendTo (mkFrame frameDATA x00 3 10 [x41; x42]) []) ++ [x99])
  = Err errCorruptFrame.
Proof.
  apply (decodeFrame_detects_byte (mkFrame frameDATA x00 3 10 [x41; x42]) 23 x43 x42 [x99]).
  - frame_wf_eval.
  - reflexivity.
  - discriminate.
  - lia.
Defined.

Lemma decodeSynParams_encode p : synParams_wf p -> decodeSynParams (encodeSynParams p) = Some p.
Proof.
  intros [Hv Hs Hw Hm]. unfold decodeSynParams, encodeSynParams.
  rewrite decide_True by (len_simpl; lia).
  destruct p as [v s w m]. cbn [p_version p_segmentSize p_window p_maxFrame] in *.
  rewrite <- (app_nil_r (be_put 4 m)).
  rewrite (slice_app_0 (be_put 2 v)) by (len_simpl; lia).
  rewrite (slice_app (be_put 2 v) (be_put 8 s)) by (len_simpl; lia).
  rewrite (app_assoc (be_put 2 v)), (slice_app _ (be_put 8 w)) by (len_simpl; lia).
  rewrite (app_assoc _ (be_put 8 w)), (slice_app _ (be_put 4 m)) by (len_simpl; lia).
  rewrite !be_get_put_small by lia. done.
Qed.

(** The SYN payload round-trips: decoding accepts exactly the 22-byte
    encodings, and two parameter sets with the same encoding are equal. *)
Theorem decodeSynParams_iff b p :
  decodeSynParams b = Some p <-> synParams_wf p /\ b = encodeSynParams p.
Proof.
  split; [|intros [Hp ->]; by apply decodeSynParams_encode].
  unfold decodeSynParams. destruct (decide _) as [Hl|]; [|done]. injection 1 as <-.
  do 22 (destruct b as [|? b]; [done|]). destruct b; [|done]. clear Hl.
  cbn [slice take drop Nat.sub]. split.
  - split; cbn [p_version p_segmentSize p_window p_maxFrame];
      (eapply be_get_range_le; [reflexivity|reflexivity]).
  - unfold encodeSynParams. cbn [p_version p_segmentSize p_window p_maxFrame].
    rewrite (be_put_get [_;_]), (be_put_get [_;_;_;_]).
    by do 2 rewrite (be_put_get [_;_;_;_;_;_;_;_]).
Qed.
