(* ===== verification/GoStr.v ===== *)
(** The parts of Go's [strconv], [strings] and [fmt] the broker uses, on byte
    strings: decimal integers, white space, prefixes, fields and joins. Go
    strings are byte sequences, so [string] (eight-bit characters) holds them
    exactly; Unicode white space is recognised in its UTF-8 encoding. *)

From stdpp Require Import base list strings numbers.
From Stdlib Require Import ZArith Lia Ascii.
From S2P Require Import Prelude.

#[local] Open Scope string_scope.
#[local] Open Scope Z_scope.

(** * Decimal integers *)

Definition digit_char (d : Z) : ascii := ascii_of_N (Z.to_N (48 + d)).

Definition char_digit (c : ascii) : option Z :=
  let n := Z.of_N (N_of_ascii c) in
  if (48 <=? n) && (n <=? 57) then Some (n - 48) else None.

Definition maxUint64 : Z := 2 ^ 64 - 1.

(** The loop of [strconv.ParseUint(s, 10, 64)]: every character must be a
    decimal digit and the value must not exceed 64 bits. *)
Fixpoint parseDigits (s : string) (n : Z) : option Z :=
  match s with
  | EmptyString => Some n
  | String c s' =>
      match char_digit c with
      | None => None
      | Some d => if n * 10 + d >? maxUint64 then None else parseDigits s' (n * 10 + d)
      end
  end.

(** [strconv.ParseUint(s, 10, 64)]. *)
Definition ParseUint (s : string) : option Z :=
  match s with EmptyString => None | _ => parseDigits s 0 end.

(** Decimal digits of [n] in front of [acc]; [fuel] bounds their number less one. *)
Fixpoint fmtDigits (fuel : nat) (n : Z) (acc : string) : string :=
  let acc' := String (digit_char (n mod 10)) acc in
  match fuel with
  | O => acc'
  | S k => if n <? 10 then acc' else fmtDigits k (n / 10) acc'
  end.

(** [strconv.FormatUint(n, 10)], [fmt.Sprintf("%d", n)]: a [uint64] has at most
    twenty decimal digits. *)
Definition FormatUint (n : Z) : string := fmtDigits 19 n "".

Fixpoint zeros (n : nat) : string :=
  match n with O => "" | S k => String "0" (zeros k) end.

(** [fmt.Sprintf("%0wd", n)] for a non-negative [n]. *)
Definition padded (w : nat) (n : Z) : string :=
  let s := FormatUint n in zeros (w - String.length s) +:+ s.

(** * Lemmas on decimal integers *)

Lemma char_digit_digit d : 0 <= d < 10 -> char_digit (digit_char d) = Some d.
Proof.
  intros H. assert (d = 0 \/ d = 1 \/ d = 2 \/ d = 3 \/ d = 4 \/ d = 5 \/ d = 6 \/ d = 7
    \/ d = 8 \/ d = 9) as Hd by lia.
  by destruct Hd as [->|[->|[->|[->|[->|[->|[->|[->|[->| ->]]]]]]]]].
Qed.

Lemma parseDigits_fmt fuel n s :
  0 <= n < 10 ^ (Z.of_nat fuel + 1) -> n <= maxUint64 ->
  parseDigits (fmtDigits fuel n s) 0 = parseDigits s n.
Proof.
  revert n s. induction fuel as [|k IH]; intros n s Hn Hm.
  - cbn [fmtDigits parseDigits]. cbn in Hn. rewrite Z.mod_small by lia.
    rewrite char_digit_digit by lia. replace (0 * 10 + n) with n by lia.
    replace (n >? maxUint64) with false by lia. done.
  - cbn [fmtDigits]. destruct (n <? 10) eqn:Hlt; breflect.
    + rewrite Z.mod_small by lia. cbn [parseDigits].
      rewrite char_digit_digit by lia. replace (0 * 10 + n) with n by lia.
      replace (n >? maxUint64) with false by lia. done.
    + pose proof (Z.div_mod n 10 ltac:(lia)). pose proof (Z.mod_pos_bound n 10 ltac:(lia)).
      rewrite IH.
      * cbn [parseDigits]. rewrite char_digit_digit by lia.
        replace (n / 10 * 10 + n mod 10) with n by lia.
        replace (n >? maxUint64) with false by lia. done.
      * replace (Z.of_nat (S k) + 1) with (1 + (Z.of_nat k + 1)) in Hn by lia.
        rewrite Z.pow_add_r in Hn by lia. split; [apply Z.div_pos; lia|].
        apply Z.div_lt_upper_bound; lia.
      * lia.
Qed.

Lemma fmtDigits_nonempty fuel n s : fmtDigits fuel n s <> "".
Proof.
  revert n s. induction fuel as [|k IH]; intros; cbn [fmtDigits]; [done|].
  destruct (_ <? _); [done|apply IH].
Qed.

(** Printing and parsing an unsigned 64-bit integer round-trips. *)
Lemma ParseUint_FormatUint n : 0 <= n < 2 ^ 64 -> ParseUint (FormatUint n) = Some n.
Proof.
  intros Hn. unfold ParseUint, FormatUint.
  pose proof (fmtDigits_nonempty 19 n "") as Hne.
  destruct (fmtDigits 19 n "") eqn:E; [done|]. rewrite <- E.
  rewrite parseDigits_fmt; [done|cbn; lia|unfold maxUint64; lia].
Qed.

Lemma FormatUint_inj a b : 0 <= a < 2 ^ 64 -> 0 <= b < 2 ^ 64 -> FormatUint a = FormatUint b -> a = b.
Proof.
  intros Ha Hb H. apply (f_equal ParseUint) in H.
  rewrite !ParseUint_FormatUint in H by done. congruence.
Qed.

Lemma parseDigits_zeros k s : parseDigits (zeros k +:+ s) 0 = parseDigits s 0.
Proof. induction k; [done|]. cbn. done. Qed.

Lemma parseDigits_padded w n : 0 <= n < 2 ^ 64 -> parseDigits (padded w n) 0 = Some n.
Proof.
  intros Hn. unfold padded. rewrite parseDigits_zeros. unfold FormatUint.
  rewrite parseDigits_fmt; [done|cbn; lia|unfold maxUint64; lia].
Qed.

Lemma string_app_cons c s t : String c s +:+ t = String c (s +:+ t).
Proof. reflexivity. Qed.

Lemma string_app_nil_l t : "" +:+ t = t.
Proof. reflexivity. Qed.

Lemma string_length_app s t : String.length (s +:+ t) = (String.length s + String.length t)%nat.
Proof. induction s as [|c s IH]; [done|]. rewrite string_app_cons. cbn. by rewrite IH. Qed.

Lemma string_app_inj_r s1 s2 t : s1 +:+ t = s2 +:+ t -> s1 = s2.
Proof.
  revert s2. induction s1 as [|c s1 IH]; intros [|c2 s2] H; [done|..];
    rewrite ?string_app_cons, ?string_app_nil_l in H.
  - apply (f_equal String.length) in H. cbn in H. rewrite string_length_app in H. lia.
  - apply (f_equal String.length) in H. cbn in H. rewrite string_length_app in H. lia.
  - injection H as -> H. f_equal. by apply IH.
Qed.

(** * White space *)

Definition code (c : ascii) : Z := Z.of_N (N_of_ascii c).

(** The number of bytes of the white-space character ([unicode.IsSpace]) at the
    front of [s], 0 if there is none. *)
Definition space_len (s : string) : nat :=
  match s with
  | EmptyString => 0%nat
  | String a s1 =>
      if ((9 <=? code a) && (code a <=? 13)) || (code a =? 32) then 1%nat else
      match s1 with
      | EmptyString => 0%nat
      | String b s2 =>
          if (code a =? 0xC2) && ((code b =? 0x85) || (code b =? 0xA0)) then 2%nat else
          match s2 with
          | EmptyString => 0%nat
          | String c _ =>
              let three x y z := (code a =? x) && (code b =? y) && (code c =? z) in
              if three 0xE1 0x9A 0x80 || ((code a =? 0xE2) && (code b =? 0x80)
                   && (((0x80 <=? code c) && (code c <=? 0x8A)) || (code c =? 0xA8)
                       || (code c =? 0xA9) || (code c =? 0xAF)))
                 || three 0xE2 0x81 0x9F || three 0xE3 0x80 0x80
              then 3%nat else 0%nat
          end
      end
  end.

Fixpoint sdrop (n : nat) (s : string) : string :=
  match n, s with S n, String _ s => sdrop n s | _, _ => s end.

Fixpoint stake (n : nat) (s : string) : string :=
  match n, s with S n, String c s => String c (stake n s) | _, _ => "" end.

Fixpoint trimLeft (fuel : nat) (s : string) : string :=
  match fuel, space_len s with
  | S fuel, S n => trimLeft fuel (sdrop (S n) s)
  | _, _ => s
  end.

(** [s] is white space only. *)
Definition blank (s : string) : bool := String.eqb (trimLeft (String.length s) s) "".

Fixpoint trimRight (s : string) : string :=
  if blank s then "" else
  match s with EmptyString => "" | String c s => String c (trimRight s) end.

(** [strings.TrimSpace]. *)
Definition TrimSpace (s : string) : string := trimRight (trimLeft (String.length s) s).

Definition flush (cur : string) : list string :=
  match cur with EmptyString => [] | _ => [cur] end.

(** [strings.Fields]; [cur] is the field being read. *)
Fixpoint fieldsFrom (fuel : nat) (s cur : string) : list string :=
  match fuel, s with
  | S fuel, String c s' =>
      match space_len s with
      | S n => flush cur ++ fieldsFrom fuel (sdrop (S n) s) ""
      | O => fieldsFrom fuel s' (cur +:+ String c "")
      end
  | _, _ => flush cur
  end.

Definition Fields (s : string) : list string := fieldsFrom (String.length s) s "".

(** [strings.Join(l, " ")]. *)
Fixpoint JoinSpace (l : list string) : string :=
  match l with
  | [] => ""
  | [s] => s
  | s :: l => s +:+ String " " (JoinSpace l)
  end.

(** * Cut sets and case *)

Fixpoint chars (s : string) : list ascii :=
  match s with EmptyString => [] | String c s => c :: chars s end.

Definition has (c : ascii) (s : string) : bool := existsb (Ascii.eqb c) (chars s).

Fixpoint trimLeftSet (cut s : string) : string :=
  match s with
  | String c s' => if has c cut then trimLeftSet cut s' else s
  | EmptyString => ""
  end.

Fixpoint trimRightSet (cut s : string) : string :=
  match s with
  | String c s' =>
      match trimRightSet cut s' with
      | EmptyString => if has c cut then "" else String c ""
      | t => String c t
      end
  | EmptyString => ""
  end.

(** [strings.Trim(s, cut)] for an ASCII [cut]. *)
Definition Trim (s cut : string) : string := trimRightSet cut (trimLeftSet cut s).

(** [strings.HasPrefix] and [strings.TrimPrefix]. *)
Fixpoint HasPrefix (s p : string) : bool :=
  match p, s with
  | EmptyString, _ => true
  | String a p, String b s => Ascii.eqb a b && HasPrefix s p
  | String _ _, EmptyString => false
  end.

Definition TrimPrefix (s p : string) : string := if HasPrefix s p then sdrop (String.length p) s else s.

(** * UTF-8 *)

(** The bytes of the well-formed UTF-8 sequence at the front of [s] (RFC 3629), 0
    if there is none. *)
Definition rune_len (s : string) : nat :=
  let cont lo hi c := (lo <=? code c) && (code c <=? hi) in
  let tail := cont 0x80 0xBF in
  match s with
  | EmptyString => 0%nat
  | String a s1 =>
      if code a <? 0x80 then 1%nat else
      match s1 with
      | EmptyString => 0%nat
      | String b s2 =>
          if cont 0xC2 0xDF a && tail b then 2%nat else
          match s2 with
          | EmptyString => 0%nat
          | String c s3 =>
              if ((code a =? 0xE0) && cont 0xA0 0xBF b || (cont 0xE1 0xEC a || cont 0xEE 0xEF a) && tail b
                  || (code a =? 0xED) && cont 0x80 0x9F b) && tail c then 3%nat else
              match s3 with
              | EmptyString => 0%nat
              | String d _ =>
                  if ((code a =? 0xF0) && cont 0x90 0xBF b || cont 0xF1 0xF3 a && tail b
                      || (code a =? 0xF4) && cont 0x80 0x8F b) && tail c && tail d then 4%nat else 0%nat
              end
          end
      end
  end.

Fixpoint validFrom (fuel : nat) (s : string) : bool :=
  match s, fuel, rune_len s with
  | EmptyString, _, _ => true
  | _, S fuel, S n => validFrom fuel (sdrop (S n) s)
  | _, _, _ => false
  end.

(** [utf8.ValidString]. *)
Definition ValidString (s : string) : bool := validFrom (String.length s) s.

(** * Case folding *)

Definition lowerChar (c : ascii) : ascii :=
  if (65 <=? code c) && (code c <=? 90) then ascii_of_N (N_of_ascii c + 32) else c.

Fixpoint lowerASCII (s : string) : string :=
  match s with EmptyString => "" | String c s => String (lowerChar c) (lowerASCII s) end.

Definition isASCII (s : string) : bool := forallb (fun c => code c <? 128) (chars s).

(** [strings.ToLower] and [strings.EqualFold] follow the tables of Unicode; on
    ASCII text they are the ASCII ones. *)
Class Unicode := { ToLower : string -> string; EqualFold : string -> string -> bool }.
Class UnicodeLaws `{Unicode} : Prop := {
  ToLower_ascii s : isASCII s = true -> ToLower s = lowerASCII s;
  EqualFold_ascii s t : isASCII s = true -> isASCII t = true ->
    EqualFold s t = String.eqb (lowerASCII s) (lowerASCII t)
}.

(** * Splitting and paths *)

(** The newline. *)
Definition LF : ascii := "010"%char.

(** [strings.Split(s, sep)] for a one-byte separator. *)
Fixpoint Split (s : string) (sep : ascii) : list string :=
  match s with
  | EmptyString => [""]
  | String c s' =>
      if Ascii.eqb c sep then "" :: Split s' sep else
      match Split s' sep with
      | [] => [String c ""]
      | w :: l => String c w :: l
      end
  end.

(** [strings.Join(l, sep)]. *)
Fixpoint JoinWith (sep : string) (l : list string) : string :=
  match l with
  | [] => ""
  | [s] => s
  | s :: l => s +:+ sep +:+ JoinWith sep l
  end.

(** [filepath.Clean] on a system with [/]; [stack] holds the elements kept, the last
    one first. *)
Definition cleanStep (rooted : bool) (stack : list string) (c : string) : list string :=
  if String.eqb c "" || String.eqb c "." then stack else
  if String.eqb c ".." then
    match stack with
    | top :: stack' => if String.eqb top ".." then c :: stack else stack'
    | [] => if rooted then [] else [c]
    end
  else c :: stack.

Definition Clean (p : string) : string :=
  let rooted := HasPrefix p "/" in
  let body := JoinWith "/" (rev (foldl (cleanStep rooted) [] (Split p "/"%char))) in
  if rooted then "/" +:+ body else if String.eqb body "" then "." else body.

(** [filepath.Join]. *)
Definition JoinPath (elems : list string) : string :=
  match List.filter (fun e => negb (String.eqb e "")) elems with
  | [] => ""
  | elems => Clean (JoinWith "/" elems)
  end.

Lemma HasPrefix_nil s : HasPrefix s "" = true.
Proof. by destruct s. Qed.

(** * Lemmas on white space *)

(** Printable ASCII without the space. *)
Definition ascii_graph (s : string) : bool :=
  forallb (fun c => (33 <=? code c) && (code c <=? 126)) (chars s).

Lemma string_app_assoc a b c : (a +:+ b) +:+ c = a +:+ (b +:+ c).
Proof. induction a as [|x a IH]; [done|]. by rewrite !string_app_cons, IH. Qed.

Lemma string_app_nil_r a : a +:+ "" = a.
Proof. induction a as [|x a IH]; [done|]. by rewrite string_app_cons, IH. Qed.

Lemma graph_cons c s : ascii_graph (String c s) = true ->
  33 <= code c <= 126 /\ ascii_graph s = true.
Proof. unfold ascii_graph. cbn. intros H. breflect. split; [lia|done]. Qed.

Lemma graph_app a b : ascii_graph (a +:+ b) = ascii_graph a && ascii_graph b.
Proof.
  induction a as [|c a IH]; [done|]. rewrite string_app_cons. unfold ascii_graph in *. cbn.
  by rewrite IH, andb_assoc.
Qed.

Lemma graph_space_len c s : 33 <= code c <= 126 -> space_len (String c s) = 0%nat.
Proof.
  intros Hc. unfold space_len.
  replace (((9 <=? code c) && (code c <=? 13)) || (code c =? 32)) with false by lia.
  destruct s as [|b s]; [done|]. replace (code c =? 0xC2) with false by lia. cbn [andb].
  destruct s as [|d s]; [done|].
  replace (code c =? 0xE1) with false by lia. replace (code c =? 0xE2) with false by lia.
  replace (code c =? 0xE3) with false by lia. done.
Qed.

Lemma space_space_len s : space_len (String " " s) = 1%nat.
Proof. reflexivity. Qed.

Lemma graph_not_blank c s : 33 <= code c <= 126 -> blank (String c s) = false.
Proof. intros Hc. unfold blank. cbn [String.length trimLeft]. by rewrite graph_space_len. Qed.

Lemma TrimSpace_graph s : ascii_graph s = true -> TrimSpace s = s.
Proof.
  intros Hs. unfold TrimSpace. replace (trimLeft (String.length s) s) with s.
  - induction s as [|c s IH]; [done|]. apply graph_cons in Hs as [Hc Hs].
    cbn [trimRight]. rewrite graph_not_blank by done. by rewrite IH.
  - destruct s as [|c s]; [done|]. apply graph_cons in Hs as [Hc _].
    cbn [String.length trimLeft]. by rewrite graph_space_len.
Qed.

(** No white-space character starts in [w]. *)
Fixpoint solid (w : string) : bool :=
  match w with EmptyString => true | String c w' => Nat.eqb (space_len w) 0 && solid w' end.

Lemma solid_graph w : ascii_graph w = true -> solid w = true.
Proof.
  induction w as [|c w IH]; [done|]. intros [Hc Hw]%graph_cons. cbn [solid]. by rewrite graph_space_len, IH.
Qed.

(** A space is no continuation byte: no white-space character runs into it. *)
Lemma space_len_stop s t : s <> "" -> space_len s = 0%nat -> space_len (s +:+ String " " t) = 0%nat.
Proof.
  assert (code " " = 32) as E by done.
  unfold space_len. destruct s as [|a [|b [|c s]]]; rewrite ?string_app_cons, ?string_app_nil_l; [done|..]; intros _.
  - destruct (((9 <=? code a) && _) || _); [done|]. rewrite E. intros _.
    rewrite andb_false_r. destruct t as [|d t]; [done|]. cbv beta zeta. by rewrite !andb_false_r.
  - destruct (((9 <=? code a) && _) || _); [done|]. destruct (_ && _); [done|]. cbv beta zeta. rewrite E. intros _.
    by rewrite !andb_false_r.
  - done.
Qed.

(** What may follow a field: nothing, or a space. *)
Definition stops (s : string) : Prop := match s with EmptyString => True | String c _ => c = " "%char end.

Lemma fieldsFrom_word fuel w s cur : solid w = true -> stops s -> (String.length (w +:+ s) <= fuel)%nat ->
  fieldsFrom fuel (w +:+ s) cur = fieldsFrom (fuel - String.length w) s (cur +:+ w).
Proof.
  intros Hw Hs. revert fuel cur Hw. induction w as [|c w IH]; intros fuel cur Hw Hf.
  - by rewrite string_app_nil_r, Nat.sub_0_r.
  - cbn [solid] in Hw. apply andb_true_iff in Hw as [Hc%Nat.eqb_eq Hw].
    assert (space_len (String c w +:+ s) = 0%nat) as Hl.
    { destruct s as [|d s]; [by rewrite string_app_nil_r|]. cbn in Hs. subst d. by apply space_len_stop. }
    rewrite string_app_cons in *. cbn [String.length] in *.
    destruct fuel as [|fuel]; [lia|]. cbn [fieldsFrom]. rewrite Hl.
    rewrite IH, string_app_assoc by (done || lia). done.
Qed.

Lemma flush_word cur w : w <> "" -> flush (cur +:+ w) = [cur +:+ w].
Proof. intros Hw. unfold flush. destruct (cur +:+ w) eqn:E; [|done]. by destruct cur, w. Qed.

(** The words of a route: not empty, and without white space. *)
Definition words (l : list string) : Prop := Forall (fun w => solid w = true /\ w <> "") l.

Lemma fieldsFrom_join l fuel : words l -> (String.length (JoinSpace l) <= fuel)%nat ->
  fieldsFrom fuel (JoinSpace l) "" = l.
Proof.
  revert fuel. induction l as [|w l IH]; intros fuel Hl Hf; [by destruct fuel|].
  inversion Hl as [|? ? [Hg Hne] Hl']; subst. destruct l as [|w2 l].
  - cbn [JoinSpace] in *. rewrite <- (string_app_nil_r w) at 1.
    rewrite fieldsFrom_word by (rewrite ?string_app_nil_r; done).
    rewrite string_app_nil_l. destruct (fuel - _)%nat; cbn [fieldsFrom]; by destruct w.
  - change (JoinSpace (w :: w2 :: l)) with (w +:+ String " " (JoinSpace (w2 :: l))) in *.
    rewrite fieldsFrom_word by done. rewrite string_app_nil_l.
    rewrite string_length_app in Hf. cbn [String.length] in Hf.
    destruct (fuel - String.length w)%nat as [|k] eqn:Ek; [lia|].
    cbn [fieldsFrom]. rewrite space_space_len. cbn [sdrop].
    rewrite IH by (done || lia). by destruct w.
Qed.

Lemma Fields_JoinSpace l : words l -> Fields (JoinSpace l) = l.
Proof. intros. by apply fieldsFrom_join. Qed.

(** ** Decimal digits are printable *)

Lemma digit_graph d : 0 <= d < 10 -> 33 <= code (digit_char d) <= 126.
Proof.
  intros H. assert (d = 0 \/ d = 1 \/ d = 2 \/ d = 3 \/ d = 4 \/ d = 5 \/ d = 6 \/ d = 7
    \/ d = 8 \/ d = 9) as Hd by lia.
  destruct Hd as [->|[->|[->|[->|[->|[->|[->|[->|[->| ->]]]]]]]]]; vm_compute; split; congruence.
Qed.

Lemma fmtDigits_graph fuel n s : ascii_graph s = true -> ascii_graph (fmtDigits fuel n s) = true.
Proof.
  revert n s. induction fuel as [|k IH]; intros n s Hs; cbn [fmtDigits];
    pose proof (digit_graph (n mod 10) (Z.mod_pos_bound n 10 ltac:(lia))) as Hd.
  - unfold ascii_graph. cbn. fold (ascii_graph s). rewrite Hs. lia.
  - assert (ascii_graph (String (digit_char (n mod 10)) s) = true) as Hs'.
    { unfold ascii_graph. cbn. fold (ascii_graph s). rewrite Hs. lia. }
    destruct (n <? 10); [done|]. by apply IH.
Qed.

Lemma FormatUint_graph n : ascii_graph (FormatUint n) = true /\ FormatUint n <> "".
Proof. split; [by apply fmtDigits_graph|apply fmtDigits_nonempty]. Qed.

Lemma parseDigits_chars s n v : parseDigits s n = Some v ->
  Forall (fun c => char_digit c <> None) (chars s).
Proof.
  revert n. induction s as [|c s IH]; intros n H; [constructor|]. cbn in *.
  destruct (char_digit c) as [d|] eqn:Hd; [|done]. destruct (_ >? _); [done|].
  constructor; [congruence|]. by eapply IH.
Qed.

Lemma parseDigits_range s n v : 0 <= n <= maxUint64 -> parseDigits s n = Some v -> 0 <= v <= maxUint64.
Proof.
  revert n. induction s as [|c s IH]; intros n Hn H; cbn in *; [injection H as <-; lia|].
  destruct (char_digit c) as [d|] eqn:Hd; [|done].
  assert (0 <= d) by (unfold char_digit in Hd; destruct (_ && _) eqn:E; [breflect; injection Hd as <-; lia|done]).
  destruct (_ >? _) eqn:E; [done|]. rewrite Z.gtb_ltb in E. breflect. eapply IH; [|done]. lia.
Qed.

Lemma stake_sdrop n id : stake n id +:+ sdrop n id = id.
Proof.
  revert id. induction n as [|n IH]; intros [|c id]; cbn [stake sdrop]; [done..|].
  by rewrite string_app_cons, IH.
Qed.

Lemma stake_length n s : (String.length (stake n s) <= n)%nat.
Proof. revert s. induction n as [|n IH]; intros [|c s]; cbn; [lia..|]. specialize (IH s). lia. Qed.

(** ** Trimming *)

Lemma sdrop_length n s : String.length (sdrop n s) = (String.length s - n)%nat.
Proof. revert s. induction n as [|n IH]; intros [|c s]; cbn; [done..|]. apply IH. Qed.

Lemma sdrop_app n s t : (n <= String.length s)%nat -> sdrop n (s +:+ t) = sdrop n s +:+ t.
Proof.
  revert s. induction n as [|n IH]; intros [|c s]; cbn; intros Hn; [done..|lia|]. apply IH. lia.
Qed.

Lemma sdrop_all s : sdrop (String.length s) s = "".
Proof. by induction s. Qed.

Lemma space_len_le s : (space_len s <= String.length s)%nat.
Proof.
  unfold space_len. destruct s as [|a [|b [|c s]]]; cbn [String.length]; [done|..];
    (destruct (((9 <=? code a) && _) || _); [lia|]); [lia|..]; (destruct (_ && _); [lia|]); [lia|]. destruct (_ || _); lia.
Qed.

(** White space at the front of [s] is there whatever follows. *)
Lemma space_len_app s t n : space_len s = S n -> space_len (s +:+ t) = S n.
Proof.
  unfold space_len. destruct s as [|a [|b [|c s]]]; rewrite ?string_app_cons; [done|..].
  - destruct (_ || _); [done|done].
  - destruct (((9 <=? code a) && _) || _); [done|]. destruct (_ && _); [done|done].
  - done.
Qed.

(** The fields of any string are words, so joining and splitting them again changes
    nothing. *)
Lemma solid_prefix cur s : (forall i, (i < String.length cur)%nat -> space_len (sdrop i cur +:+ s) = 0%nat) -> solid cur = true.
Proof.
  induction cur as [|c cur IH]; [done|]. intros H. cbn [solid]. apply andb_true_iff; split.
  - apply Nat.eqb_eq. specialize (H 0%nat ltac:(cbn; lia)). cbn [sdrop] in H.
    destruct (space_len (String c cur)) as [|n] eqn:E; [done|]. by rewrite (space_len_app _ s n E) in H.
  - apply IH. intros i Hi. apply (H (S i)). cbn. lia.
Qed.

Lemma flush_words cur s : (forall i, (i < String.length cur)%nat -> space_len (sdrop i cur +:+ s) = 0%nat) -> words (flush cur).
Proof.
  intros Hs%solid_prefix. destruct cur as [|c cur]; [constructor|]. constructor; [done|constructor].
Qed.

Lemma fieldsFrom_words fuel s cur : (forall i, (i < String.length cur)%nat -> space_len (sdrop i cur +:+ s) = 0%nat) ->
  words (fieldsFrom fuel s cur).
Proof.
  revert s cur. induction fuel as [|fuel IH]; intros s cur Hi; [by eapply flush_words|].
  destruct s as [|c s]; [by eapply flush_words|]. cbn [fieldsFrom]. destruct (space_len (String c s)) as [|n] eqn:E.
  - apply IH. intros i Hl. rewrite string_length_app in Hl. cbn in Hl. destruct (decide (i = String.length cur)) as [->|Hne].
    + by rewrite sdrop_app, (sdrop_all cur), !string_app_nil_l, string_app_cons, string_app_nil_l by lia.
    + rewrite sdrop_app, string_app_assoc, string_app_cons, string_app_nil_l by lia. apply Hi. lia.
  - apply Forall_app; split; [by eapply flush_words|]. apply IH. intros i Hl. cbn in Hl. lia.
Qed.

Lemma Fields_words s : words (Fields s).
Proof. apply fieldsFrom_words. intros i Hi. cbn in Hi. lia. Qed.

(** White space only, as a sequence of white-space characters. *)
Inductive white : string -> Prop :=
| white_nil : white ""
| white_cons s n : space_len s = S n -> white (sdrop (S n) s) -> white s.

Lemma trimLeft_head fuel s : (String.length s <= fuel)%nat -> space_len (trimLeft fuel s) = 0%nat.
Proof.
  revert s. induction fuel as [|fuel IH]; intros s Hs; [by destruct s; cbn in Hs; [|lia]|]. cbn [trimLeft].
  destruct (space_len s) as [|n] eqn:E; [done|]. apply IH. rewrite sdrop_length.
  pose proof (space_len_le s). lia.
Qed.

Lemma blank_white s : blank s = true <-> white s.
Proof.
  unfold blank. rewrite String.eqb_eq. split.
  - generalize (String.length s) as fuel. intros fuel. revert s. induction fuel as [|fuel IH]; intros s; cbn [trimLeft].
    + intros ->. constructor.
    + destruct (space_len s) as [|n] eqn:E; [intros ->; constructor|]. intros Ht. econstructor; [done|]. by apply IH.
  - intros Hw. assert (forall fuel, (String.length s <= fuel)%nat -> trimLeft fuel s = "") as H; [|by apply H].
    induction Hw as [|s n E _ IH]; intros fuel Hf; [by destruct fuel|].
    pose proof (space_len_le s) as Hl. destruct fuel as [|fuel]; [lia|]. cbn [trimLeft]. rewrite E. apply IH.
    rewrite sdrop_length. lia.
Qed.

Lemma white_app s t : white s -> white t -> white (s +:+ t).
Proof.
  intros Hs Ht. induction Hs as [|s n E _ IH]; [done|]. apply (white_cons _ n); [by apply space_len_app|].
  rewrite sdrop_app; [done|]. rewrite <- E. apply space_len_le.
Qed.

Lemma trimRight_split s : exists w, s = trimRight s +:+ w /\ white w.
Proof.
  induction s as [|c s (w & E & Hw)]; [exists ""; split; [done|constructor]|]. cbn [trimRight].
  destruct (blank (String c s)) eqn:Hb; [exists (String c s); split; [done|by apply blank_white]|].
  exists w. rewrite string_app_cons. by rewrite <- E.
Qed.

Lemma trimRight_idem s : trimRight (trimRight s) = trimRight s.
Proof.
  induction s as [|c s IH]; [done|]. cbn [trimRight]. destruct (blank (String c s)) eqn:Hb; [done|]. cbn [trimRight].
  destruct (blank (String c (trimRight s))) eqn:Hb'; [|by rewrite IH].
  exfalso. destruct (trimRight_split s) as (w & E & Hw). apply blank_white in Hb'.
  assert (white (String c s)) as Hs%blank_white; [|congruence].
  rewrite E, <- string_app_cons. by apply white_app.
Qed.

Lemma trimLeft_none fuel s : space_len s = 0%nat -> trimLeft fuel s = s.
Proof. intros E. destruct fuel; cbn; [done|]. by rewrite E. Qed.

(** [TrimSpace] leaves nothing more to trim. *)
Lemma TrimSpace_idem s : TrimSpace (TrimSpace s) = TrimSpace s.
Proof.
  unfold TrimSpace. set (u := trimLeft (String.length s) s).
  assert (space_len u = 0%nat) as Hu by (by apply trimLeft_head).
  destruct (trimRight_split u) as (w & E & _). rewrite (trimLeft_none _ (trimRight u)); [apply trimRight_idem|].
  destruct (space_len (trimRight u)) as [|n] eqn:En; [done|].
  rewrite E, (space_len_app _ _ _ En) in Hu. done.
Qed.

Lemma trimLeft_length fuel s : (String.length (trimLeft fuel s) <= String.length s)%nat.
Proof.
  revert s. induction fuel as [|fuel IH]; intros s; [done|]. cbn [trimLeft].
  destruct (space_len s) as [|n]; [done|]. etrans; [apply IH|]. rewrite sdrop_length. lia.
Qed.

Lemma trimRight_length s : (String.length (trimRight s) <= String.length s)%nat.
Proof. destruct (trimRight_split s) as (w & E & _). rewrite E at 2. rewrite string_length_app. lia. Qed.

(** A trimmed text neither starts nor ends with white space. *)
Lemma TrimSpace_fixed s : TrimSpace s = s -> space_len s = 0%nat /\ trimRight s = s.
Proof.
  intros E. assert (space_len s = 0%nat) as Hs.
  { destruct (space_len s) as [|n] eqn:En; [done|]. exfalso. apply (f_equal String.length) in E. unfold TrimSpace in E.
    pose proof (trimRight_length (trimLeft (String.length s) s)) as H1. pose proof (space_len_le s) as H2.
    destruct (String.length s) as [|l] eqn:El; [lia|]. cbn [trimLeft] in H1, E. rewrite En in H1, E.
    pose proof (trimLeft_length l (sdrop (S n) s)) as H3. rewrite sdrop_length in H3. lia. }
  split; [done|]. unfold TrimSpace in E. by rewrite (trimLeft_none _ s Hs) in E.
Qed.

Lemma trimRight_last s c : white (String c "") -> trimRight (s +:+ String c "") <> s +:+ String c "".
Proof.
  intros Hc E. apply (f_equal String.length) in E. revert E. rewrite string_length_app. cbn [String.length].
  assert (String.length (trimRight (s +:+ String c "")) <= String.length s)%nat; [|lia].
  induction s as [|d s IH].
  - assert (blank (String c "") = true) as Hb by (by apply blank_white).
    change ("" +:+ String c "") with (String c ""). cbn [trimRight]. by rewrite Hb.
  - rewrite string_app_cons. cbn [trimRight]. destruct (blank _); cbn [String.length]; [lia|]. lia.
Qed.

(** A blank or a tab at the end makes no difference to [TrimSpace]. *)
Definition sptab (c : ascii) : bool := (code c =? 32) || (code c =? 9).

Lemma sptab_white c : sptab c = true -> white (String c "").
Proof.
  intros Hc. apply (white_cons _ 0); [|constructor]. unfold space_len, sptab in *.
  by replace (((9 <=? code c) && (code c <=? 13)) || (code c =? 32)) with true by lia.
Qed.

Lemma space_len_sptab s c : sptab c = true -> s <> "" -> space_len s = 0%nat -> space_len (s +:+ String c "") = 0%nat.
Proof.
  intros Hc Hne. assert (forall x, 128 <= x -> (code c =? x) = false) as Hx by (unfold sptab in Hc; lia).
  destruct s as [|a [|b [|d s]]]; [done|..]; rewrite ?string_app_cons; change ("" +:+ String c "") with (String c ""); unfold space_len.
  - destruct (_ || _); [done|]. rewrite !(Hx 0x85), !(Hx 0xA0) by lia. cbn [orb]. by rewrite andb_false_r.
  - destruct (_ || _); [done|]. destruct (_ && _); [done|]. intros _. rewrite !Hx by lia.
    replace (128 <=? code c) with false by (unfold sptab in Hc; lia). cbn [andb orb]. by rewrite !andb_false_r.
  - done.
Qed.

Lemma blank_sptab s c : sptab c = true -> blank (s +:+ String c "") = blank s.
Proof.
  intros Hc. apply eq_bool_prop_intro. rewrite !Is_true_true, !blank_white.
  split; [|intros Hs; apply white_app; [done|by apply sptab_white]].
  remember (String.length s) as n eqn:Hn. revert s Hn. induction (lt_wf n) as [n _ IH]. intros s -> Hw.
  destruct s as [|a s]; [constructor|]. inversion Hw as [|? m Em Hm E]; subst.
  destruct (space_len (String a s)) as [|m'] eqn:Es; [by rewrite space_len_sptab in Em|].
  rewrite (space_len_app _ _ _ Es) in Em. injection Em as ->. apply (white_cons _ m); [done|].
  pose proof (space_len_le (String a s)) as Hl. rewrite Es in Hl.
  rewrite sdrop_app in Hm by done. eapply IH; [|reflexivity|exact Hm]. rewrite sdrop_length. cbn in *. lia.
Qed.

Lemma trimRight_sptab s c : sptab c = true -> trimRight (s +:+ String c "") = trimRight s.
Proof.
  intros Hc. induction s as [|d s IH].
  - change ("" +:+ String c "") with (String c ""). cbn [trimRight].
    by rewrite (proj2 (blank_white (String c "")) (sptab_white c Hc)).
  - rewrite string_app_cons. cbn [trimRight]. rewrite <- string_app_cons, blank_sptab, IH by done. done.
Qed.

Lemma trimLeft_sptab fuel s c : sptab c = true -> (String.length s <= fuel)%nat -> trimLeft fuel s <> "" ->
  trimLeft (S fuel) (s +:+ String c "") = trimLeft fuel s +:+ String c "".
Proof.
  intros Hc. revert s. induction fuel as [|fuel IH]; intros s Hl Hne; [by destruct s; cbn in Hl; [|lia]|].
  destruct (space_len s) as [|n] eqn:E.
  - assert (s <> "") as Hs by (intros ->; by destruct fuel). rewrite !trimLeft_none; [done|done|by apply space_len_sptab].
  - cbn [trimLeft] in Hne. rewrite E in Hne. cbn [trimLeft]. rewrite (space_len_app _ _ _ E), E.
    pose proof (space_len_le s) as Hle. rewrite E in Hle. rewrite sdrop_app by done.
    change (trimLeft (S fuel) (sdrop (S n) s +:+ String c "") = trimLeft fuel (sdrop (S n) s) +:+ String c "").
    apply IH; [rewrite sdrop_length; lia|done].
Qed.

Lemma TrimSpace_sptab s c : sptab c = true -> TrimSpace (s +:+ String c "") = TrimSpace s.
Proof.
  intros Hc. unfold TrimSpace. rewrite string_length_app, Nat.add_1_r.
  destruct (String.eqb_spec (trimLeft (String.length s) s) "") as [E|E].
  - assert (blank (s +:+ String c "") = true) as Hb by (rewrite blank_sptab by done; unfold blank; by rewrite E).
    unfold blank in Hb. rewrite string_length_app, Nat.add_1_r in Hb. apply String.eqb_eq in Hb. by rewrite Hb, E.
  - rewrite trimLeft_sptab by done. by apply trimRight_sptab.
Qed.
