(* ===== verification/FsConfig.v ===== *)
(** Configuration of a filesystem-tunnel endpoint (transport/fstun/config.go):
    the defaults [Config.resolve] applies and the bounds it establishes. *)

From stdpp Require Import base strings numbers.
From Stdlib Require Import ZArith Lia.
From S2P Require Import Prelude Frame.

(** Durations are nanoseconds ([time.Duration]). *)
Definition Millisecond : Z := 1000000.
Definition Second : Z := 1000 * Millisecond.
Definition Minute : Z := 60 * Second.

Record Config := mkConfig {
  Root : string;
  SegmentSize : Z;          (* int64 *)
  Window : Z;               (* int64 *)
  MaxFrame : Z;             (* int *)
  PollInterval : Z;
  PollMax : Z;
  FlushInterval : Z;
  NetworkFS : option bool;  (* nil means auto-detect *)
  Heartbeat : Z;
  IdleTimeout : Z;
  HandshakeTimeout : Z;
  SyncEach : bool;
  AgeSweepInterval : Z;
  AgeSweepThreshold : Z
}.

Record resolvedConfig := mkResolved {
  rc_pollInterval : Z;
  rc_pollMax : Z;
  rc_flushInterval : Z;
  rc_netFS : bool;
  rc_heartbeat : Z;
  rc_idleTimeout : Z;
  rc_handshakeTimeout : Z;
  rc_segmentSize : Z;
  rc_sync : bool;
  rc_ageSweepInterval : Z;
  rc_ageSweepThreshold : Z
}.

Inductive configErr := ErrRootRequired.

(** The closure [def] of [resolve]. *)
Definition def (d dflt : Z) : Z := if d <=? 0 then dflt else d.

(** [Config.resolve]; [detected] is [detectNetworkFS(cfg.Root)]. *)
Definition resolve (detected : bool) (cfg : Config) : result configErr (resolvedConfig * synParams) :=
  if String.eqb (Root cfg) "" then Err ErrRootRequired else
  let seg := if SegmentSize cfg <=? 0 then Z.shiftl 128 20 else SegmentSize cfg in
  let win := if Window cfg <=? 0 then Z.shiftl 8 20 else Window cfg in
  let mf := if MaxFrame cfg <=? 0 then Z.shiftl 256 10 else MaxFrame cfg in
  let mf := if mf >? maxPayload then maxPayload else mf in
  let ageInt := if AgeSweepInterval cfg =? 0 then 10 * Minute
                else if AgeSweepInterval cfg <? 0 then 0 else AgeSweepInterval cfg in
  let netFS := match NetworkFS cfg with Some b => b | None => detected end in
  let pollInterval := def (PollInterval cfg) (10 * Millisecond) in
  let pollMax := def (PollMax cfg) (320 * Millisecond) in
  let rc := {|
    rc_pollInterval := pollInterval;
    rc_pollMax := if pollMax <? pollInterval then pollInterval else pollMax;
    rc_flushInterval := def (FlushInterval cfg) (5 * Millisecond);
    rc_netFS := netFS;
    rc_heartbeat := def (Heartbeat cfg) (5 * Second);
    rc_idleTimeout := def (IdleTimeout cfg) (60 * Second);
    rc_handshakeTimeout := def (HandshakeTimeout cfg) (30 * Second);
    rc_segmentSize := seg;
    rc_sync := SyncEach cfg;
    rc_ageSweepInterval := ageInt;
    rc_ageSweepThreshold := def (AgeSweepThreshold cfg) (15 * Minute) |} in
  let params := {|
    p_version := protocolVersion;
    p_segmentSize := u64 seg;
    p_window := u64 win;
    p_maxFrame := u32 mf |} in
  Ok (rc, params).

(** The fields of a [Config] are 64-bit signed integers. *)
Definition in_int64 (z : Z) : Prop := - 2 ^ 63 <= z < 2 ^ 63.

Record config_wf (cfg : Config) : Prop := {
  cwf_seg : in_int64 (SegmentSize cfg);
  cwf_win : in_int64 (Window cfg);
  cwf_mf : in_int64 (MaxFrame cfg)
}.

Lemma def_pos d dflt : 0 < dflt -> 0 < def d dflt.
Proof. intros. unfold def. destruct (d <=? 0) eqn:E; breflect; lia. Qed.

(** What the rest of the transport assumes of resolved parameters. *)
Record params_ok (rc : resolvedConfig) (p : synParams) : Prop := {
  pok_version : p_version p = protocolVersion;
  pok_seg : 0 < rc_segmentSize rc < 2 ^ 63;
  pok_seg_eq : p_segmentSize p = rc_segmentSize rc;
  pok_window : 0 < p_window p < 2 ^ 63;
  pok_maxFrame : 0 < p_maxFrame p <= maxPayload;
  pok_poll : 0 < rc_pollInterval rc <= rc_pollMax rc;
  pok_flush : 0 < rc_flushInterval rc;
  pok_beat : 0 < rc_heartbeat rc;
  pok_idle : 0 < rc_idleTimeout rc;
  pok_hs : 0 < rc_handshakeTimeout rc;
  pok_age : 0 <= rc_ageSweepInterval rc /\ 0 < rc_ageSweepThreshold rc
}.

Lemma resolve_ok detected cfg rc p :
  config_wf cfg -> resolve detected cfg = Ok (rc, p) -> params_ok rc p.
Proof.
  intros [Hs Hw Hm] H. unfold resolve, in_int64 in *.
  destruct (String.eqb _ _); [done|]. injection H as <- <-.
  assert (0 < maxPayload < 2 ^ 32) by (vm_compute; split; congruence).
  assert (forall z k, - 2 ^ 63 <= z < 2 ^ 63 -> 0 < k < 2 ^ 63 ->
    0 < (if z <=? 0 then k else z) < 2 ^ 63) as Hd.
  { intros z k Hz Hk. destruct (z <=? 0) eqn:E; breflect; lia. }
  pose proof (Hd _ (Z.shiftl 128 20) Hs ltac:(vm_compute; split; congruence)).
  pose proof (Hd _ (Z.shiftl 8 20) Hw ltac:(vm_compute; split; congruence)).
  pose proof (Hd _ (Z.shiftl 256 10) Hm ltac:(vm_compute; split; congruence)).
  split; cbn [p_version p_segmentSize p_window p_maxFrame rc_segmentSize rc_pollInterval rc_pollMax
    rc_flushInterval rc_heartbeat rc_idleTimeout rc_handshakeTimeout rc_ageSweepInterval
    rc_ageSweepThreshold];
    try (apply def_pos; reflexivity); try done.
  - apply u64_small. lia.
  - rewrite u64_small; lia.
  - rewrite Z.gtb_ltb. destruct (maxPayload <? _) eqn:E; breflect; rewrite u32_small; lia.
  - pose proof (def_pos (PollInterval cfg) (10 * Millisecond) ltac:(reflexivity)).
    destruct (def (PollMax cfg) _ <? _) eqn:E; breflect; lia.
  - split; [|apply def_pos; reflexivity].
    destruct (AgeSweepInterval cfg =? 0) eqn:E; [vm_compute; congruence|].
    destruct (AgeSweepInterval cfg <? 0) eqn:E2; breflect; lia.
Qed.

(** * Properties *)

(** Resolving a configuration fails exactly when the root is empty, and
    otherwise yields parameters in range: the window and segment size are positive
    63-bit values, a DATA frame never exceeds the wire limit, every interval is
    positive and the poll backoff's cap is at least its base. *)
Theorem resolve_spec detected cfg :
  config_wf cfg ->
  match resolve detected cfg with
  | Ok (rc, p) => Root cfg <> ""%string /\ params_ok rc p /\ synParams_wf p
  | Err _ => Root cfg = ""%string
  end.
Proof.
  intros Hwf. destruct (resolve detected cfg) as [[rc p]|e] eqn:E.
  - pose proof (resolve_ok _ _ _ _ Hwf E) as Hp. split; [|split; [done|]].
    + intros Hr. unfold resolve in E. by rewrite Hr in E.
    + assert (maxPayload < 2 ^ 32) by (vm_compute; done).
      destruct Hp. unfold protocolVersion in *. split; lia.
  - unfold resolve in E. destruct (String.eqb _ _) eqn:Es; [|done]. by apply String.eqb_eq in Es.
Qed.

Lemma resolve_spec_witness :
  exists rc p, resolve false (mkConfig "/gpfs/ccb" 0 0 0 0 0 0 None 0 0 0 false 0 0) = Ok (rc, p)
    /\ p_window p = 8388608 /\ params_ok rc p.
Proof.
  pose proof (resolve_spec false (mkConfig "/gpfs/ccb" 0 0 0 0 0 0 None 0 0 0 false 0 0)
    ltac:(split; vm_compute; split; congruence)) as H.
  eexists _, _. split; [reflexivity|]. split; [reflexivity|]. exact (proj1 (proj2 H)).
Defined.
