(* ===== verification/FsMode.v ===== *)
(** File system detection (fsmode_linux.go): whether the tunnel's root lies on a
    network file system, judged by the nearest ancestor that exists. *)

From stdpp Require Import base list strings numbers.
From Stdlib Require Import ZArith Lia Ascii.
From S2P Require Import Prelude GoStr Frame FsConfig.

#[local] Open Scope string_scope.
#[local] Open Scope Z_scope.

(** * The code *)

(** The table [networkFSMagic]. *)
Definition networkFSMagic : list Z :=
  [0x6969; 0xFF534D42; 0xFE534D42; 0x0BD00BD0; 0x00C36400; 0x01161970; 0x7461636F; 0x47504653; 0x5346414F; 0x65735546; 0xFF534D41].

(** The part of a path up to its last slash, that included. *)
Fixpoint dirPart (p : string) : string :=
  match p with
  | EmptyString => ""
  | String c s =>
      match dirPart s with
      | EmptyString => if Ascii.eqb c "/" then String c "" else ""
      | d => String c d
      end
  end.

(** [filepath.Dir] on a system without volume names. *)
Definition Dir (p : string) : string := Clean (dirPart p).

Section detect.
(** [os.Stat] without an error, and [syscall.Statfs]: the type of the file system. *)
Context (exist : string -> bool) (statfs : string -> option Z).

(** [nearestExisting]; [fuel] bounds the passes of its loop. *)
Fixpoint nearestExisting (fuel : nat) (path : string) : option string :=
  match fuel with
  | O => None
  | S fuel =>
      if exist path then Some path else
      let parent := Dir path in
      if String.eqb parent path then Some path else nearestExisting fuel parent
  end.

(** A path loses a byte or more at every pass but the last two. *)
Definition passes (path : string) : nat := String.length path + 3.

(** [detectNetworkFS]. *)
Definition detectNetworkFS (path : string) : option bool :=
  match nearestExisting (passes path) path with
  | None => None
  | Some p =>
      Some match statfs p with
           | None => false
           | Some typ => existsb (Z.eqb (u32 typ)) networkFSMagic
           end
  end.
End detect.

(** * Lengths of paths *)

(** What an element of a path costs, with the slash before the next. *)
Definition wt (c : string) : nat := S (String.length c).
Definition nb (c : string) : nat := if String.eqb c "" then 0 else wt c.

Lemma JoinWith_length l : String.length (JoinWith "/" l) = Nat.pred (sum_list_with wt l).
Proof.
  induction l as [|c l IH]; [done|]. destruct l as [|d l]; [cbn; lia|].
  change (JoinWith "/" (c :: d :: l)) with (c +:+ "/" +:+ JoinWith "/" (d :: l)). rewrite !string_length_app, IH. cbn. lia.
Qed.

Lemma cleanStep_weight rooted st c : (sum_list_with wt (cleanStep rooted st c) <= sum_list_with wt st + nb c)%nat.
Proof.
  unfold cleanStep, nb. destruct (String.eqb_spec c "") as [->|Hc]; [cbn; lia|]. cbn [orb].
  destruct (String.eqb c "."); [lia|]. destruct (String.eqb_spec c "..") as [->|]; [|cbn [sum_list_with]; lia].
  destruct st as [|top st]; [destruct rooted; cbn [sum_list_with]; lia|]. destruct (String.eqb top ".."); cbn [sum_list_with]; lia.
Qed.

Lemma cleanSteps_weight rooted cs st :
  (sum_list_with wt (foldl (cleanStep rooted) st cs) <= sum_list_with wt st + sum_list_with nb cs)%nat.
Proof.
  revert st. induction cs as [|c cs IH]; intros st; cbn [foldl sum_list_with]; [lia|].
  specialize (IH (cleanStep rooted st c)). pose proof (cleanStep_weight rooted st c). lia.
Qed.

Lemma Split_nonempty s sep : Split s sep <> [].
Proof. destruct s as [|c s]; [done|]. cbn. destruct (Ascii.eqb c sep); [done|]. by destruct (Split s sep). Qed.

Lemma nb_cons c w : (nb (String c w) <= S (nb w) + (if String.eqb w "" then 1 else 0))%nat.
Proof. unfold nb, wt. destruct (String.eqb_spec w "") as [->|]; cbn; lia. Qed.

(** The first element is not counted when it is empty. *)
Lemma Split_nb s sep : match Split s sep with
  | [] => False
  | w :: l => (nb w + (if String.eqb w "" then 1 else 0) + sum_list_with nb l <= S (String.length s))%nat
  end.
Proof.
  induction s as [|c s IH]; [cbn; lia|]. cbn [Split]. destruct (Split s sep) as [|w l]; [done|].
  destruct (Ascii.eqb c sep); cbn [sum_list_with String.length String.eqb].
  - change (nb "") with 0%nat. destruct (String.eqb w ""); lia.
  - pose proof (nb_cons c w). destruct (String.eqb w ""); lia.
Qed.

Lemma Split_sum s sep : (sum_list_with nb (Split s sep) <= S (String.length s))%nat.
Proof. pose proof (Split_nb s sep). destruct (Split s sep); [done|]. cbn [sum_list_with]. lia. Qed.

Lemma Split_slash q : Split (q +:+ "/") "/" = (Split q "/" ++ [""])%list.
Proof.
  induction q as [|c q IH]; [done|]. rewrite string_app_cons. cbn [Split]. rewrite IH. destruct (Ascii.eqb c "/"); [done|].
  destruct (Split q "/") as [|w l] eqn:E; [by apply Split_nonempty in E|]. done.
Qed.

Lemma Split_rooted_nb s : HasPrefix s "/" = true -> (sum_list_with nb (Split s "/") <= String.length s)%nat.
Proof.
  destruct s as [|c s]; [done|]. cbn [HasPrefix Split]. intros Hc. apply andb_true_iff in Hc as [<-%Ascii.eqb_eq _].
  cbn [Ascii.eqb Bool.eqb sum_list_with String.length]. change (nb "") with 0%nat. pose proof (Split_sum s "/"). cbn. lia.
Qed.

(** A path that ends in a slash gets shorter by cleaning, but the root. *)
Lemma Clean_slash_shorter q : q <> "" -> (String.length (Clean (q +:+ "/")) <= String.length q)%nat.
Proof.
  intros Hq. assert (1 <= String.length q)%nat as H1 by (destruct q; [done|cbn; lia]).
  unfold Clean. set (rooted := HasPrefix (q +:+ "/") "/"). set (st := foldl _ _ _).
  assert (rooted = HasPrefix q "/") as Hr.
  { unfold rooted. destruct q as [|c q]; [done|]. rewrite string_app_cons. cbn [HasPrefix]. by rewrite !HasPrefix_nil. }
  assert (sum_list_with wt st <= sum_list_with nb (Split q "/"))%nat as Hw.
  { unfold st. pose proof (cleanSteps_weight rooted (Split (q +:+ "/") "/") []) as Hs. revert Hs.
    rewrite Split_slash, sum_list_with_app. cbn. lia. }
  pose proof (JoinWith_length (rev st)) as Hj. rewrite rev_alt in Hj. fold (reverse st) in Hj. rewrite sum_list_with_reverse in Hj.
  rewrite rev_alt. fold (reverse st). destruct rooted.
  - pose proof (Split_rooted_nb q (eq_sym Hr)). rewrite string_app_cons. cbn [String.length]. rewrite string_app_nil_l, Hj. lia.
  - pose proof (Split_sum q "/"). destruct (String.eqb _ ""); [done|]. rewrite Hj. lia.
Qed.

(** * The loop *)

Lemma dirPart_spec p : dirPart p = "" \/ exists q r, dirPart p = q +:+ "/" /\ p = q +:+ "/" +:+ r.
Proof.
  induction p as [|c p IH]; [by left|]. cbn [dirPart]. destruct IH as [->|(q & r & E & Ep)].
  - destruct (Ascii.eqb_spec c "/") as [->|]; [|by left]. right. by exists "", p.
  - right. rewrite E. destruct (q +:+ "/") as [|x d] eqn:Eq; [by destruct q|]. exists (String c q), r.
    rewrite string_app_cons, Eq. split; [done|]. by rewrite Ep.
Qed.

Lemma Clean_empty : Clean "" = ".".
Proof. reflexivity. Qed.

(** Going up shortens a path, or ends at the root or the current directory. *)
Lemma Dir_shorter p : (String.length (Dir p) < String.length p)%nat \/ Dir p = "." \/ (p = "/" /\ Dir p = "/").
Proof.
  unfold Dir. destruct (dirPart_spec p) as [->|(q & r & E & Ep)]; [by right; left|].
  destruct (decide (q = "")) as [->|Hq].
  - destruct r as [|c r]; [right; right; by rewrite E, Ep|]. left. rewrite E, Ep. change (Clean _) with "/". rewrite !string_length_app. cbn. lia.
  - left. rewrite E. pose proof (Clean_slash_shorter q Hq). rewrite Ep, !string_length_app. cbn. lia.
Qed.

Lemma Dir_dot : Dir "." = ".".
Proof. reflexivity. Qed.

(** Only the root and the current directory are their own parents. *)
Lemma Dir_fixed p : Dir p = p <-> p = "/" \/ p = ".".
Proof.
  split; [|by intros [-> | ->]]. intros E. destruct (Dir_shorter p) as [Hl|[Hd|[-> _]]]; [rewrite E in Hl; lia|right|by left]. congruence.
Qed.

(** The path a number of steps up. *)
Fixpoint up (k : nat) (p : string) : string := match k with O => p | S k => up k (Dir p) end.

Lemma nearest_dot exist fuel : nearestExisting exist (S fuel) "." = Some ".".
Proof. cbn [nearestExisting]. destruct (exist "."); [done|]. by rewrite Dir_dot. Qed.

Definition nearest_spec (exist : string -> bool) (p q : string) : Prop :=
  exists k, q = up k p /\ (forall j, (j < k)%nat -> exist (up j p) = false) /\ (exist q = true \/ ((q = "/" \/ q = ".") /\ exist q = false)).

Lemma nearest_here exist p : exist p = true \/ Dir p = p -> nearest_spec exist p p.
Proof.
  intros H. exists 0%nat. split; [done|]. split; [lia|]. destruct (exist p); [by left|]. right. destruct H as [?|H]; [done|]. by apply Dir_fixed in H.
Qed.

Lemma nearest_up exist p q : exist p = false -> nearest_spec exist (Dir p) q -> nearest_spec exist p q.
Proof.
  intros Hp (k & -> & Hk & Hq). exists (S k). split; [done|]. split; [|done]. intros [|j] Hj; [done|]. apply Hk. lia.
Qed.

Lemma nearest_ends exist fuel p : (String.length p + 2 < fuel)%nat ->
  exists q, nearestExisting exist fuel p = Some q /\ nearest_spec exist p q.
Proof.
  revert p. induction fuel as [|fuel IH]; intros p Hf; [lia|]. cbn [nearestExisting].
  destruct (exist p) eqn:Ep; [exists p; split; [done|by apply nearest_here; left]|].
  destruct (String.eqb_spec (Dir p) p) as [E|Hne]; [exists p; split; [done|by apply nearest_here; right]|].
  destruct (Dir_shorter p) as [Hl|[Hd|[-> Hd]]]; [| |by rewrite Hd in Hne].
  - destruct (IH (Dir p)) as (q & -> & Hq); [lia|]. exists q. split; [done|by apply nearest_up].
  - rewrite Hd. destruct fuel as [|fuel]; [lia|]. rewrite nearest_dot. exists ".". split; [done|]. apply nearest_up; [done|].
    rewrite Hd. by apply nearest_here; right.
Qed.

(** * Claims *)

(** The file system of a tunnel is found. [detectNetworkFS] always returns; it asks
    for the type of the nearest ancestor of the path that exists, or of the root or
    the current directory if none does; and it reports a network file system exactly
    when that type, cut to 32 bits, is in its table. *)
Theorem network_detected exist statfs path :
  exists q, nearest_spec exist path q
  /\ detectNetworkFS exist statfs path = Some (match statfs q with Some typ => bool_decide (u32 typ ∈ networkFSMagic) | None => false end).
Proof.
  destruct (nearest_ends exist (passes path) path) as (q & E & Hq); [unfold passes; lia|]. exists q. split; [done|].
  unfold detectNetworkFS. rewrite E. f_equal. destruct (statfs q) as [typ|]; [|done].
  destruct (existsb _ _) eqn:Ex; symmetry.
  - apply existsb_exists in Ex as (m & Hin & ->%Z.eqb_eq). by apply bool_decide_eq_true, list_elem_of_In.
  - apply bool_decide_eq_false. intros Hin%list_elem_of_In. rewrite <- not_true_iff_false, existsb_exists in Ex. apply Ex.
    exists (u32 typ). split; [done|]. apply Z.eqb_refl.
Qed.

(** A root to be made two levels down on an NFS mount. *)
Example detect_nfs :
  detectNetworkFS (fun p => String.eqb p "/mnt/nfs" || String.eqb p "/mnt" || String.eqb p "/")
    (fun p => if String.eqb p "/mnt/nfs" then Some 0x6969 else Some 0xEF53) "/mnt/nfs/ccb//tunnels/" = Some true.
Proof. vm_compute. reflexivity. Qed.
