(* ===== verification/SegLog.v ===== *)
(** The segment log of one direction (transport/fstun/seglog.go): the append-only
    writer with its rolls, batched syncs and reaping, and the polling reader, over
    an explicit model of the direction directory. *)

From stdpp Require Import base gmap list numbers strings.
From Stdlib Require Import ZArith Lia.
From Stdlib.Strings Require Import Byte.
From S2P Require Import Prelude GoStr Frame FsConfig.

(** * The direction directory *)

(** A file is its bytes and how many of them an [fsync] has forced out. A name is
    linked to a file; an open handle keeps the file after its name is unlinked. *)
Record inode := mkInode { i_data : list byte; i_synced : nat }.

Record dirfs := mkDir {
  d_links : gmap string nat;
  d_inodes : gmap nat inode;
  d_next : nat
}.

Definition emptyDir : dirfs := mkDir ∅ ∅ 0.

(** [os.OpenFile] with create, write-only, append. *)
Definition fs_open_append (name : string) (fs : dirfs) : nat * dirfs :=
  match d_links fs !! name with
  | Some i => (i, fs)
  | None => (d_next fs, mkDir (<[name := d_next fs]> (d_links fs))
                          (<[d_next fs := mkInode [] 0]> (d_inodes fs)) (S (d_next fs)))
  end.

Definition fs_append (i : nat) (bs : list byte) (fs : dirfs) : dirfs :=
  mkDir (d_links fs) (alter (fun n => mkInode (i_data n ++ bs) (i_synced n)) i (d_inodes fs)) (d_next fs).

Definition fs_sync (i : nat) (fs : dirfs) : dirfs :=
  mkDir (d_links fs) (alter (fun n => mkInode (i_data n) (length (i_data n))) i (d_inodes fs)) (d_next fs).

Definition fs_remove (name : string) (fs : dirfs) : dirfs :=
  mkDir (delete name (d_links fs)) (d_inodes fs) (d_next fs).

(** Errors of the segment log; [ErrIO] stands for any error of the file system. *)
Inductive ioErr := ErrClosed | ErrIO | ErrNotExist | ErrIncomplete | ErrCorrupt | ErrBadUint32.

#[export] Instance ioErr_eq_dec : EqDecision ioErr.
Proof. solve_decision. Defined.

(** Outcome of one [File.Write]: everything, or an error after [k] bytes, which are
    fewer than all. *)
Inductive wout := WOk | WFail (k : nat).

(** A write handle: the file, and whether it is still open. *)
Abbreviation whandle := (nat * bool)%type.

Definition file_write (o : wout) (h : whandle) (bs : list byte) (fs : dirfs) : option ioErr * dirfs :=
  if snd h then
    match o with
    | WOk => (None, fs_append (fst h) bs fs)
    | WFail k => (Some ErrIO, fs_append (fst h) (take (Nat.min k (pred (length bs))) bs) fs)
    end
  else (Some ErrClosed, fs).

(** [File.Sync]; its error is ignored everywhere. *)
Definition file_sync (h : whandle) (fs : dirfs) : dirfs :=
  if snd h then fs_sync (fst h) fs else fs.

(** * The writer *)

(** [segName]: [fmt.Sprintf("%06d.seg", i)]. *)
Definition segName (i : Z) : string := (padded 6 i +:+ ".seg")%string.

Record segEnd := mkSegEnd { se_idx : Z; se_dataEnd : Z }.

Record segWriter := mkSegWriter {
  w_maxSeg : Z;
  w_syncEnb : bool;
  w_netFS : bool;
  w_flushIv : Z;
  w_cur : Z;                (* uint32 *)
  w_f : option whandle;
  w_size : Z;
  w_closed : bool;
  w_reapOff : list segEnd;
  w_flushTimer : bool       (* a flush timer is pending *)
}.

Definition w_set_file (w : segWriter) (f : option whandle) (size : Z) : segWriter :=
  mkSegWriter (w_maxSeg w) (w_syncEnb w) (w_netFS w) (w_flushIv w) (w_cur w) f size
    (w_closed w) (w_reapOff w) (w_flushTimer w).
Definition w_set_timer (w : segWriter) (t : bool) : segWriter :=
  mkSegWriter (w_maxSeg w) (w_syncEnb w) (w_netFS w) (w_flushIv w) (w_cur w) (w_f w) (w_size w)
    (w_closed w) (w_reapOff w) t.
Definition w_set_reap (w : segWriter) (l : list segEnd) : segWriter :=
  mkSegWriter (w_maxSeg w) (w_syncEnb w) (w_netFS w) (w_flushIv w) (w_cur w) (w_f w) (w_size w)
    (w_closed w) l (w_flushTimer w).
Definition w_set_cur (w : segWriter) (c : Z) : segWriter :=
  mkSegWriter (w_maxSeg w) (w_syncEnb w) (w_netFS w) (w_flushIv w) c (w_f w) (w_size w)
    (w_closed w) (w_reapOff w) (w_flushTimer w).
Definition w_set_closed (w : segWriter) : segWriter :=
  mkSegWriter (w_maxSeg w) (w_syncEnb w) (w_netFS w) (w_flushIv w) (w_cur w) (w_f w) (w_size w)
    true (w_reapOff w) (w_flushTimer w).

(** Results of writer operations: an error, the writer and the directory after it. *)
Abbreviation wres := (option ioErr * segWriter * dirfs)%type.

(** [segWriter.openCur]; [ok] is whether the open succeeds. *)
Definition openCur (ok : bool) (w : segWriter) (fs : dirfs) : wres :=
  if ok then
    let '(i, fs') := fs_open_append (segName (w_cur w)) fs in
    (None, w_set_file w (Some (i, true)) 0, fs')
  else (Some ErrIO, w, fs).

(** [newSegWriter]; [mkdir_ok] and [open_ok] are the outcomes of the two system calls. *)
Definition newSegWriter (mkdir_ok open_ok : bool) (rc : resolvedConfig) (fs : dirfs)
  : result ioErr (segWriter * dirfs) :=
  if negb mkdir_ok then Err ErrIO else
  let w := mkSegWriter (rc_segmentSize rc) (rc_sync rc) (rc_netFS rc) (rc_flushInterval rc)
             0 None 0 false [] false in
  match openCur open_ok w fs with
  | (Some e, _, _) => Err e
  | (None, w', fs') => Ok (w', fs')
  end.

(** [segWriter.armFlushLocked]. *)
Definition armFlushLocked (w : segWriter) : segWriter :=
  if w_flushTimer w then w else w_set_timer w true.

Definition syncCur (w : segWriter) (fs : dirfs) : dirfs :=
  match w_f w with Some h => file_sync h fs | None => fs end.

(** [segWriter.timedFlush]: the timer callback. *)
Definition timedFlush (w : segWriter) (fs : dirfs) : segWriter * dirfs :=
  let w := w_set_timer w false in
  if w_closed w then (w, fs) else (w, syncCur w fs).

Definition rollFrame (next : Z) : frame := mkFrame frameROLL x00 0 0 (encodeUint32 next).

(** Outcomes of the system calls one [append] may make. *)
Record appendEnv := mkAppendEnv { ae_roll : wout; ae_open : bool; ae_write : wout }.
Definition envOk : appendEnv := mkAppendEnv WOk true WOk.

(** [segWriter.roll]. *)
Definition roll (env : appendEnv) (dataEnd : Z) (w : segWriter) (fs : dirfs) : wres :=
  match w_f w with
  | None => (Some ErrClosed, w, fs)
  | Some h =>
      let next := u32 (w_cur w + 1) in
      match file_write (ae_roll env) h (appendTo (rollFrame next) []) fs with
      | (Some e, fs1) => (Some e, w, fs1)
      | (None, fs1) =>
          let fs2 := if w_netFS w || w_syncEnb w then file_sync h fs1 else fs1 in
          let w1 := w_set_file w (Some (fst h, false)) (w_size w) in
          let w2 := w_set_reap w1 (w_reapOff w ++ [mkSegEnd (w_cur w) dataEnd]) in
          openCur (ae_open env) (w_set_cur w2 next) fs2
      end
  end.

(** The write half of [segWriter.append], after any roll. *)
Definition appendCur (env : appendEnv) (f : frame) (w : segWriter) (fs : dirfs) : wres :=
  match w_f w with
  | None => (Some ErrClosed, w, fs)
  | Some h =>
      let enc := appendTo f [] in
      match file_write (ae_write env) h enc fs with
      | (Some e, fs1) => (Some e, w, fs1)
      | (None, fs1) =>
          let w1 := w_set_file w (Some h) (w_size w + len enc) in
          if w_netFS w then (None, armFlushLocked w1, fs1)
          else if w_syncEnb w then (None, w1, file_sync h fs1)
          else (None, w1, fs1)
      end
  end.

(** [segWriter.append]. *)
Definition append (env : appendEnv) (f : frame) (dataEnd : Z) (w : segWriter) (fs : dirfs) : wres :=
  if w_closed w then (Some ErrClosed, w, fs) else
  let enc := appendTo f [] in
  if (w_size w >? 0) && (w_size w + len enc >? w_maxSeg w) then
    match roll env dataEnd w fs with
    | (Some e, w1, fs1) => (Some e, w1, fs1)
    | (None, w1, fs1) => appendCur env f w1 fs1
    end
  else appendCur env f w fs.

(** The loop of [segWriter.reap] over the closed segments. *)
Fixpoint reapLoop (acked : Z) (l : list segEnd) (fs : dirfs) : list segEnd * dirfs :=
  match l with
  | [] => ([], fs)
  | s :: l' =>
      if se_dataEnd s <=? acked then reapLoop acked l' (fs_remove (segName (se_idx s)) fs)
      else let '(kept, fs') := reapLoop acked l' fs in (s :: kept, fs')
  end.

(** [segWriter.reap]. *)
Definition reap (acked : Z) (w : segWriter) (fs : dirfs) : segWriter * dirfs :=
  let '(kept, fs') := reapLoop acked (w_reapOff w) fs in (w_set_reap w kept, fs').

(** [segWriter.syncNow]. *)
Definition syncNow (w : segWriter) (fs : dirfs) : segWriter * dirfs :=
  let w := if w_flushTimer w then w_set_timer w false else w in
  (w, syncCur w fs).

(** [segWriter.close]. *)
Definition closeWriter (w : segWriter) (fs : dirfs) : segWriter * dirfs :=
  if w_closed w then (w, fs) else
  let w := w_set_closed w in
  let w := if w_flushTimer w then w_set_timer w false else w in
  match w_f w with
  | None => (w, fs)
  | Some h =>
      let fs' := if w_netFS w || w_syncEnb w then file_sync h fs else fs in
      (w_set_file w (Some (fst h, false)) (w_size w), fs')
  end.

(** * The reader *)

(** What the file system shows the reader during one pass of its loop: the
    outcome of opening a name ([ErrNotExist] while the file is not there) and of
    reopening one, the size a stat reports ([None] is an error) and the bytes a
    read can see. The passes of one call may see
    different views, which is how other processes interleave with it. *)
Record view := mkView {
  v_open : string -> result ioErr nat;
  v_reopen : string -> option nat;
  v_size : nat -> option nat;
  v_data : nat -> list byte
}.

Record segReader := mkSegReader {
  r_netFS : bool;
  r_cur : Z;
  r_f : option (string * nat);   (* open file: its name and the file *)
  r_off : nat;
  r_buf : list byte
}.

Definition newSegReader (netFS : bool) : segReader := mkSegReader netFS 0 None 0 [].

Definition r_set (r : segReader) (f : option (string * nat)) (off : nat) (buf : list byte) : segReader :=
  mkSegReader (r_netFS r) (r_cur r) f off buf.

(** [segReader.fill] on the open file [(name, i)]: whether bytes were read, or an error. *)
Definition fill (v : view) (name : string) (i : nat) (r : segReader)
  : segReader * result ioErr bool :=
  let read (i : nat) (r : segReader) :=
    match v_size v i with
    | None => (r, Err ErrIO)
    | Some size =>
        if decide (size <= r_off r)%nat then (r, Ok false) else
        let tmp := take (size - r_off r) (drop (r_off r) (v_data v i)) in
        (r_set r (r_f r) (r_off r + length tmp) (r_buf r ++ tmp),
         Ok (bool_decide (0 < length tmp)%nat))
    end in
  if r_netFS r then
    match v_reopen v name with
    | None => (r_set r None (r_off r) (r_buf r), Ok false)
    | Some i' => read i' (r_set r (Some (name, i')) (r_off r) (r_buf r))
    end
  else read i r.

(** [segReader.advance]. *)
Definition advance (fr : frame) (r : segReader) : segReader * option ioErr :=
  match decodeUint32 (f_payload fr) with
  | None => (r, Some ErrBadUint32)
  | Some next => (mkSegReader (r_netFS r) next None (r_off r) [], None)
  end.

Inductive iterRes := Ret (f : frame) | RetErr (e : ioErr) | Continue.

(** One pass of the loop in [segReader.next]. *)
Definition nextIter (v : view) (r : segReader) : segReader * iterRes :=
  let body (name : string) (i : nat) (r : segReader) :=
    match decodeFrame (r_buf r) with
    | Ok (fr, n) =>
        let r1 := r_set r (r_f r) (r_off r) (drop n (r_buf r)) in
        if decide (f_typ fr = frameROLL) then
          match advance fr r1 with
          | (r2, Some e) => (r2, RetErr e)
          | (r2, None) => (r2, Continue)
          end
        else (r1, Ret fr)
    | Err errCorruptFrame => (r, RetErr ErrCorrupt)
    | Err errIncompleteFrame =>
        match fill v name i r with
        | (r1, Err e) => (r1, RetErr e)
        | (r1, Ok true) => (r1, Continue)
        | (r1, Ok false) => (r1, RetErr ErrIncomplete)
        end
    end in
  match r_f r with
  | None =>
      match v_open v (segName (r_cur r)) with
      | Err e => (r, RetErr e)
      | Ok i => body (segName (r_cur r)) i (r_set r (Some (segName (r_cur r), i)) 0 (r_buf r))
      end
  | Some (name, i) => body name i r
  end.

(** [segReader.next], one view per pass; [None] when the views run out first. *)
Fixpoint next (vs : list view) (r : segReader) : segReader * option (result ioErr frame) :=
  match vs with
  | [] => (r, None)
  | v :: vs' =>
      match nextIter v r with
      | (r', Ret f) => (r', Some (Ok f))
      | (r', RetErr e) => (r', Some (Err e))
      | (r', Continue) => next vs' r'
      end
  end.

(** [segReader.close]. *)
Definition closeReader (r : segReader) : segReader := r_set r None (r_off r) (r_buf r).

(** * The log a writer produces *)

(** The frames of the closed segments and of the current one, without the ROLL
    frames the writer adds. *)
Record slog := mkLog { lg_closed : list (list frame); lg_cur : list frame }.

Definition lg_segs (l : slog) : list (list frame) := lg_closed l ++ [lg_cur l].
Definition lg_frames (l : slog) : list frame := concat (lg_closed l) ++ lg_cur l.

Definition enc_all (fs : list frame) : list byte := concat (map (fun f => appendTo f []) fs).

Definition rollBytes (l : slog) (k : nat) : list byte :=
  if decide (k < length (lg_closed l))%nat then appendTo (rollFrame (u32 (Z.of_nat k + 1))) [] else [].

(** The bytes of segment [k] on disk. *)
Definition segBytes (l : slog) (k : nat) : list byte :=
  enc_all (nth k (lg_segs l) []) ++ rollBytes l k.

(** Frames a connection appends: well formed, and never a ROLL. *)
Definition frame_ok (f : frame) : Prop := frame_wf f /\ f_typ f <> frameROLL.

Record log_ok (l : slog) : Prop := {
  lok_closed : Forall (Forall frame_ok) (lg_closed l);
  lok_cur : Forall frame_ok (lg_cur l);
  lok_count : Z.of_nat (length (lg_closed l)) < 2 ^ 32
}.

(** ** Lemmas on layout *)

Lemma enc_all_app a b : enc_all (a ++ b) = enc_all a ++ enc_all b.
Proof. unfold enc_all. by rewrite map_app, concat_app. Qed.

Lemma enc_all_cons f l : enc_all (f :: l) = appendTo f [] ++ enc_all l.
Proof. done. Qed.

Lemma enc_all_one f : enc_all [f] = appendTo f [].
Proof. cbn. apply app_nil_r. Qed.

Lemma rollFrame_wf k : frame_wf (rollFrame k).
Proof.
  split; [vm_compute; intuition congruence..|]. unfold rollFrame. cbn [f_payload].
  unfold encodeUint32. rewrite length_be_put. vm_compute. congruence.
Qed.

(** A buffer that is a prefix of an encoded frame and what follows it either
    holds the frame or is torn. *)
Lemma decode_prefix f rest buf : frame_wf f -> buf `prefix_of` appendTo f [] ++ rest ->
  (exists b, buf = appendTo f [] ++ b /\ b `prefix_of` rest
     /\ decodeFrame buf = Ok (f, length (appendTo f [])))
  \/ (decodeFrame buf = Err errIncompleteFrame /\ (length buf < length (appendTo f []))%nat).
Proof.
  intros Hf [q Hq]. destruct (decide (length (appendTo f []) <= length buf)%nat) as [Hle|Hgt].
  - left. apply app_eq_inv in Hq as [(b & Hb1 & Hb2)|(b & Hb1 & Hb2)].
    + assert (b = []) as -> by (apply length_zero_iff_nil; rewrite Hb1, length_app in Hle; lia).
      rewrite app_nil_r in Hb1. exists []. rewrite app_nil_r. split; [done|].
      split; [apply prefix_nil|]. rewrite <- Hb1.
      pose proof (decode_encode f [] Hf) as Hd. by rewrite app_nil_r in Hd.
    + exists b. split; [done|]. split; [by exists q|]. rewrite Hb1. by apply decode_encode.
  - right. split; [|lia]. apply (decode_torn f); [done| |lia].
    apply app_eq_inv in Hq as [(b & Hb1 & Hb2)|(b & Hb1 & Hb2)]; [by exists b|].
    rewrite Hb1, length_app in Hgt. lia.
Qed.

Lemma take_prefix_snoc {A} (S d : list A) off n :
  d `prefix_of` S ->
  let tmp := take n (drop off d) in take (off + length tmp) S = take off S ++ tmp.
Proof.
  intros [e ->] tmp. subst tmp. rewrite <- take_take_drop. f_equal.
  destruct (decide (off <= length d)%nat).
  - rewrite drop_app_le by done. rewrite take_app_le by (rewrite length_take; lia).
    rewrite length_take. destruct (decide (n <= length (drop off d))%nat).
    + by rewrite Nat.min_l by lia.
    + rewrite !take_ge by lia. done.
  - rewrite (drop_ge d off) by lia. by rewrite take_nil.
Qed.

(** * Reading the log *)

Section reader.
(** The log, and the file each segment was created as. *)
Context (l : slog) (ino : nat -> nat).

(** A view shows only segments of the log, and of each only a prefix. *)
Record view_ok (v : view) : Prop := {
  vok_open k i : (k <= length (lg_closed l))%nat ->
    v_open v (segName (Z.of_nat k)) = Ok i -> i = ino k;
  vok_reopen k i : (k <= length (lg_closed l))%nat ->
    v_reopen v (segName (Z.of_nat k)) = Some i -> i = ino k;
  vok_data k : (k <= length (lg_closed l))%nat -> v_data v (ino k) `prefix_of` segBytes l k
}.

(** Reopening the segment the reader is in does not fail. *)
Definition can_reopen (v : view) (r : segReader) : Prop := v_reopen v (segName (r_cur r)) <> None.

(** Reopening any segment of the log does not fail. *)
Definition reopens (v : view) : Prop :=
  forall k, (k <= length (lg_closed l))%nat -> v_reopen v (segName (Z.of_nat k)) <> None.

(** The reader is at some point of the log: it has returned [got], and its
    buffer and offset continue from there. *)
Definition reader_at (got : list frame) (r : segReader) : Prop :=
  exists k pre post,
    r_cur r = Z.of_nat k /\ lg_segs l !! k = Some (pre ++ post)
    /\ got = concat (take k (lg_segs l)) ++ pre
    /\ match r_f r with
       | None => pre = [] /\ r_buf r = []
       | Some (name, i) => name = segName (Z.of_nat k) /\ i = ino k
           /\ enc_all pre ++ r_buf r = take (r_off r) (segBytes l k)
           /\ (r_off r <= length (segBytes l k))%nat
       end.

Lemma reader_at_new netFS : reader_at [] (newSegReader netFS).
Proof.
  destruct (lg_segs l) as [|s ss] eqn:E.
  - unfold lg_segs in E. by destruct (lg_closed l).
  - exists 0%nat, [], s. rewrite E. done.
Qed.

Lemma reader_at_prefix got r : reader_at got r -> got `prefix_of` lg_frames l.
Proof.
  intros (k & pre & post & _ & Hs & -> & _).
  replace (lg_frames l) with (concat (lg_segs l))
    by (unfold lg_frames, lg_segs; rewrite concat_app; cbn; by rewrite app_nil_r).
  rewrite <- (take_drop_middle _ _ _ Hs) at 2. rewrite concat_app. cbn [concat].
  rewrite <- app_assoc. apply prefix_app. by eexists.
Qed.

Context (Hl : log_ok l).

Lemma seg_frames_ok k s : lg_segs l !! k = Some s -> Forall frame_ok s.
Proof.
  destruct Hl as [Hc Hu _]. unfold lg_segs. intros [H|[_ H]]%lookup_app_Some.
  - by eapply Forall_lookup_1 in Hc.
  - by apply list_lookup_singleton_Some in H as [_ <-].
Qed.

Lemma segBytes_at k pre post : lg_segs l !! k = Some (pre ++ post) ->
  segBytes l k = enc_all pre ++ enc_all post ++ rollBytes l k.
Proof.
  intros Hs. unfold segBytes. erewrite nth_lookup_Some by done.
  by rewrite enc_all_app, <- app_assoc.
Qed.

Lemma lg_segs_last k s : lg_segs l !! k = Some s -> (k <= length (lg_closed l))%nat.
Proof.
  intros H%lookup_lt_Some. unfold lg_segs in H. rewrite length_app in H. cbn in H. lia.
Qed.

(** What is left in the buffer is a prefix of the rest of the segment. *)
Lemma reader_buf k pre post r :
  lg_segs l !! k = Some (pre ++ post) ->
  enc_all pre ++ r_buf r = take (r_off r) (segBytes l k) ->
  r_buf r `prefix_of` enc_all post ++ rollBytes l k.
Proof.
  intros Hs Hb. rewrite (segBytes_at k pre post Hs) in Hb.
  apply (prefix_app_inv (enc_all pre)). rewrite Hb. apply prefix_take.
Qed.

(** Decoding the buffer gives the next frame, the segment's ROLL, or asks for
    more bytes; it never reports corruption. *)
Lemma decode_next k post buf :
  Forall frame_ok post -> buf `prefix_of` enc_all post ++ rollBytes l k ->
  match decodeFrame buf with
  | Ok (fr, n) =>
      (f_typ fr <> frameROLL /\ exists post', post = fr :: post'
         /\ buf = appendTo fr [] ++ drop n buf)
      \/ (post = [] /\ (k < length (lg_closed l))%nat /\ fr = rollFrame (u32 (Z.of_nat k + 1)))
  | Err e => e = errIncompleteFrame
  end.
Proof.
  intros Hp Hb. destruct post as [|g post].
  - cbn [enc_all map concat app] in Hb. unfold rollBytes in Hb.
    destruct (decide _) as [Hk|]; [|by apply prefix_nil_inv in Hb as ->].
    rewrite <- (app_nil_r (appendTo _ _)) in Hb.
    apply decode_prefix in Hb as [(b & Hb & _ & ->)|[-> _]]; [|done|apply rollFrame_wf].
    right. done.
  - inversion Hp as [|? ? [Hg Ht] Hp']; subst. rewrite enc_all_cons, <- app_assoc in Hb.
    apply decode_prefix in Hb as [(b & Hb & _ & ->)|[-> _]]; [|done|done].
    left. split; [done|]. exists post. split; [done|].
    by rewrite Hb at 2; rewrite drop_app_length.
Qed.

(** One read moves buffer and offset together along the segment. *)
Lemma fill_at v got r name i :
  view_ok v -> (r_netFS r = true -> can_reopen v r) ->
  r_f r = Some (name, i) -> reader_at got r ->
  exists r' b, fill v name i r = (r', b) /\ reader_at got r' /\ r_netFS r' = r_netFS r
    /\ match b with Err e => e = ErrIO | Ok _ => True end.
Proof.
  intros Hv Hre Hf (k & pre & post & Hc & Hs & Hg & Hst). rewrite Hf in Hst.
  destruct Hst as (-> & -> & Hb & Ho). pose proof (lg_segs_last _ _ Hs) as Hk.
  assert (forall r0, r_netFS r0 = r_netFS r -> r_cur r0 = r_cur r -> r_buf r0 = r_buf r ->
    r_off r0 = r_off r -> r_f r0 = Some (segName (Z.of_nat k), ino k) ->
    exists r' b, (match v_size v (ino k) with
      | None => (r0, Err ErrIO)
      | Some size => if decide (size <= r_off r0)%nat then (r0, Ok false) else
         let tmp := take (size - r_off r0) (drop (r_off r0) (v_data v (ino k))) in
         (r_set r0 (r_f r0) (r_off r0 + length tmp) (r_buf r0 ++ tmp),
          Ok (bool_decide (0 < length tmp)%nat)) end) = (r', b)
      /\ reader_at got r' /\ r_netFS r' = r_netFS r
      /\ match b with Err e => e = ErrIO | Ok _ => True end) as Hread.
  { intros r0 E1 E2 E3 E4 E5.
    assert (reader_at got r0) as Hr0.
    { exists k, pre, post. rewrite E2, E3, E4, E5. done. }
    destruct (v_size v (ino k)) as [size|]; [|by exists r0, (Err ErrIO)].
    destruct (decide _); [by exists r0, (Ok false)|].
    eexists _, _. split; [reflexivity|]. split; [|done].
    exists k, pre, post. cbn [r_set r_cur r_f r_off r_buf]. rewrite E2, E3, E4, E5.
    pose proof (take_prefix_snoc (segBytes l k) (v_data v (ino k)) (r_off r) (size - r_off r)
      (vok_data v Hv k Hk)) as Ht. cbn zeta in Ht.
    do 5 (split; [done|]). split; [by rewrite Ht, app_assoc, Hb|].
    apply (f_equal length) in Ht. rewrite length_app, !length_take in Ht. rewrite length_take. lia. }
  unfold fill. destruct (r_netFS r) eqn:Hn; [|by apply Hread].
  destruct (v_reopen v _) as [i'|] eqn:Er; [|by unfold can_reopen in Hre; rewrite Hc in Hre; apply Hre in Er].
  apply (vok_reopen v Hv k) in Er as ->; [|done]. by apply Hread.
Qed.

Lemma decodeUint32_encode z : decodeUint32 (encodeUint32 z) = Some (u32 z).
Proof.
  unfold decodeUint32, encodeUint32. rewrite length_be_put. cbn [decide].
  rewrite be_get_put. done.
Qed.

(** Following the ROLL of segment [k] leads to the start of segment [k + 1]. *)
Lemma advance_at k pre r :
  (k < length (lg_closed l))%nat -> lg_segs l !! k = Some pre ->
  exists r', advance (rollFrame (u32 (Z.of_nat k + 1))) r = (r', None)
    /\ reader_at (concat (take k (lg_segs l)) ++ pre) r' /\ r_netFS r' = r_netFS r
    /\ r_f r' = None /\ r_cur r' = Z.of_nat (S k).
Proof.
  intros Hk Hs. pose proof (lok_count l Hl).
  destruct (lookup_lt_is_Some_2 (lg_segs l) (S k)) as [s' Hs'].
  { unfold lg_segs. rewrite length_app. cbn. lia. }
  unfold advance, rollFrame. cbn [f_payload]. rewrite decodeUint32_encode.
  rewrite !u32_small by (rewrite ?u32_small; lia).
  eexists. split; [reflexivity|]. cbn [r_f r_netFS r_cur]. split; [|split; [done|split; [done|lia]]].
  exists (S k), [], s'. cbn [r_cur r_f r_buf]. split; [lia|]. split; [done|].
  split; [|done]. by rewrite (take_S_r _ _ _ Hs), concat_app, app_nil_r; cbn; rewrite app_nil_r.
Qed.

Lemma reader_at_open v got r i :
  view_ok v -> reader_at got r -> r_f r = None -> v_open v (segName (r_cur r)) = Ok i ->
  reader_at got (r_set r (Some (segName (r_cur r), i)) 0 (r_buf r)).
Proof.
  intros Hv (k & pre & post & Hc & Hs & Hg & Hst) Hf Ho. rewrite Hf in Hst.
  destruct Hst as [-> Hb]. rewrite Hc in *.
  apply (vok_open v Hv k) in Ho as ->; [|by apply lg_segs_last in Hs].
  exists k, [], post. cbn [r_set r_cur r_f r_off r_buf]. rewrite Hb.
  repeat split; try done. lia.
Qed.

(** The body of a pass, once a file is open. *)
Lemma pass_at v got r name i :
  view_ok v -> (r_netFS r = true -> can_reopen v r) -> r_f r = Some (name, i) -> reader_at got r ->
  exists r' res, nextIter v r = (r', res) /\ r_netFS r' = r_netFS r
    /\ match res with
       | Ret f => reader_at (got ++ [f]) r'
       | RetErr e => reader_at got r' /\ (e = ErrIncomplete \/ e = ErrIO)
       | Continue => reader_at got r'
       end.
Proof.
  intros Hv Hre Hf Hr. pose proof Hr as (k & pre & post & Hc & Hs & Hg & Hst).
  rewrite Hf in Hst. destruct Hst as (-> & -> & Hb & Ho).
  unfold nextIter. rewrite Hf. pose proof (seg_frames_ok _ _ Hs) as Hok.
  apply Forall_app in Hok as [_ Hok].
  pose proof (decode_next k post (r_buf r) Hok (reader_buf k pre post r Hs Hb)) as Hd.
  destruct (decodeFrame (r_buf r)) as [[fr n]|e].
  - destruct Hd as [(Ht & post' & -> & Hbuf)|(-> & Hk & ->)].
    + rewrite decide_False by done. eexists _, _. split; [reflexivity|]. split; [done|].
      exists k, (pre ++ [fr]), post'. cbn [r_set r_cur r_f r_off r_buf].
      rewrite <- app_assoc. cbn [app]. split; [done|]. split; [done|].
      split; [by rewrite Hg, app_assoc|].
      split; [done|]. split; [done|]. split; [|done].
      rewrite <- Hb, enc_all_app, <- app_assoc. f_equal. symmetry.
      cbn [enc_all map concat]. by rewrite app_nil_r.
    + rewrite decide_True by done. rewrite app_nil_r in Hs.
      destruct (advance_at k pre (r_set r (Some (segName (Z.of_nat k), ino k)) (r_off r)
        (drop n (r_buf r))) Hk Hs)
        as (r' & -> & Hr' & Hn & _). eexists _, _. split; [reflexivity|].
      split; [done|]. by rewrite Hg.
  - subst e. destruct (fill_at v got r _ _ Hv Hre Hf Hr) as (r' & b & -> & Hr' & Hn & Hbe).
    destruct b as [[]|e]; eexists _, _; (split; [reflexivity|]); (split; [done|]); auto.
Qed.

(** One pass of [next] keeps the reader on the log: a returned frame is the next
    one, and the only errors are "not there yet" and those of the file system. *)
Lemma nextIter_at v got r :
  view_ok v -> (r_netFS r = true -> can_reopen v r) -> reader_at got r ->
  exists r' res, nextIter v r = (r', res) /\ r_netFS r' = r_netFS r
    /\ match res with
       | Ret f => reader_at (got ++ [f]) r'
       | RetErr e => reader_at got r' /\ (e = ErrIncomplete \/ e = ErrIO
           \/ v_open v (segName (r_cur r)) = Err e)
       | Continue => reader_at got r'
       end.
Proof.
  intros Hv Hre Hr. destruct (r_f r) as [[name i]|] eqn:Hf.
  - destruct (pass_at v got r name i Hv Hre Hf Hr) as (r' & res & E & Hn & Hp).
    exists r', res. split; [done|]. split; [done|]. destruct res; [done|destruct Hp as [? [?|?]]; auto|done].
  - destruct (v_open v (segName (r_cur r))) as [i|e] eqn:Ho.
    + pose proof (reader_at_open v got r i Hv Hr Hf Ho) as Hr0.
      destruct (pass_at v got (r_set r (Some (segName (r_cur r), i)) 0 (r_buf r))
        (segName (r_cur r)) i Hv Hre eq_refl Hr0) as (r' & res & E & Hn & Hp).
      exists r', res. split; [rewrite <- E; unfold nextIter; rewrite Hf, Ho; reflexivity|].
      split; [done|]. destruct res; [done|destruct Hp as [? [?|?]]; auto|done].
    + exists r, (RetErr e). unfold nextIter. rewrite Hf, Ho. auto 10.
Qed.

(** A call of [next] under any sequence of views. *)
Lemma next_at vs got r :
  Forall view_ok vs -> (r_netFS r = true -> Forall reopens vs) -> reader_at got r ->
  let '(r', res) := next vs r in
  r_netFS r' = r_netFS r /\
  match res with
  | Some (Ok f) => reader_at (got ++ [f]) r'
  | Some (Err e) => reader_at got r' /\ (e = ErrIncomplete \/ e = ErrIO
      \/ exists v name, v ∈ vs /\ v_open v name = Err e)
  | None => reader_at got r'
  end.
Proof.
  revert r. induction vs as [|v vs IH]; intros r Hvs Hre Hr; [done|].
  apply Forall_cons in Hvs as [Hv Hvs].
  assert (r_netFS r = true -> reopens v /\ Forall reopens vs) as Hre'
    by (intros Hn; by apply Forall_cons, Hre).
  assert (r_netFS r = true -> can_reopen v r) as Hcan.
  { intros Hn. destruct Hr as (k & pre & post & Hc & Hs & _). unfold can_reopen. rewrite Hc.
    apply Hre'; [done|]. by apply lg_segs_last in Hs. }
  destruct (nextIter_at v got r Hv Hcan Hr) as (r' & res & E & Hn & Hp).
  cbn [next]. rewrite E. destruct res as [f|e|].
  - done.
  - split; [done|]. destruct Hp as [Hp He]. split; [done|].
    destruct He as [|[|He]]; auto. right; right. exists v, (segName (r_cur r)).
    split; [apply list_elem_of_here|done].
  - specialize (IH r' Hvs). rewrite Hn in IH.
    specialize (IH (fun H => proj2 (Hre' H)) Hp).
    destruct (next vs r') as [r'' [[f|e]|]]; [done| |done].
    destruct IH as (Hn2 & Hr2 & He). split; [done|]. split; [done|].
    destruct He as [|[|(v' & name & Hin & He)]]; auto. right; right. exists v', name.
    split; [by apply list_elem_of_further|done].
Qed.

(** ** Progress *)

(** A view that shows all of the log from segment [k0] on. *)
Record view_full (k0 : nat) (v : view) : Prop := {
  vf_open k : (k0 <= k <= length (lg_closed l))%nat -> v_open v (segName (Z.of_nat k)) = Ok (ino k);
  vf_reopen k : (k0 <= k <= length (lg_closed l))%nat ->
    v_reopen v (segName (Z.of_nat k)) = Some (ino k);
  vf_size k : (k0 <= k <= length (lg_closed l))%nat -> v_size v (ino k) = Some (length (segBytes l k));
  vf_data k : (k0 <= k <= length (lg_closed l))%nat -> v_data v (ino k) = segBytes l k
}.

(** Passes left before the reader must return: two per segment ahead. *)
Definition passes (r : segReader) : nat :=
  2 * (length (lg_closed l) - Z.to_nat (r_cur r))
  + match r_f r with
    | Some _ => if decide (r_off r = length (segBytes l (Z.to_nat (r_cur r)))) then 0 else 1
    | None => 1
    end.

Lemma more_to_read k pre post :
  lg_segs l !! k = Some (pre ++ post) ->
  concat (take k (lg_segs l)) ++ pre <> lg_frames l ->
  post <> [] \/ (k < length (lg_closed l))%nat.
Proof.
  intros Hs Hne. pose proof (lg_segs_last _ _ Hs).
  destruct (decide (k = length (lg_closed l))) as [->|]; [|right; lia]. left. intros ->.
  apply Hne. unfold lg_segs, lg_frames in *. rewrite take_app_length, app_nil_r in *.
  rewrite lookup_app_r, Nat.sub_diag in Hs by lia. cbn in Hs. by injection Hs as ->.
Qed.

Lemma decode_complete k pre post buf :
  lg_segs l !! k = Some (pre ++ post) -> Forall frame_ok post ->
  post <> [] \/ (k < length (lg_closed l))%nat -> enc_all pre ++ buf = segBytes l k ->
  exists fr n, decodeFrame buf = Ok (fr, n).
Proof.
  intros Hs Hok Hmore Hb. rewrite (segBytes_at _ _ _ Hs) in Hb. apply app_inv_head in Hb as ->.
  destruct post as [|g post].
  - destruct Hmore as [|Hk]; [done|]. cbn [enc_all map concat app]. unfold rollBytes.
    rewrite decide_True by done.
    pose proof (decode_encode (rollFrame (u32 (Z.of_nat k + 1))) [] (rollFrame_wf _)) as Hd.
    rewrite app_nil_r in Hd. rewrite Hd. eauto.
  - inversion Hok as [|? ? [Hg _]]; subst. rewrite enc_all_cons, <- app_assoc.
    rewrite decode_encode by done. eauto.
Qed.

Lemma fill_full k0 v k r :
  view_full k0 v -> (k0 <= k <= length (lg_closed l))%nat ->
  r_f r = Some (segName (Z.of_nat k), ino k) -> (r_off r < length (segBytes l k))%nat ->
  exists r', fill v (segName (Z.of_nat k)) (ino k) r = (r', Ok true)
    /\ r_f r' = Some (segName (Z.of_nat k), ino k) /\ r_cur r' = r_cur r
    /\ r_off r' = length (segBytes l k).
Proof.
  intros Hv Hk Hf Ho.
  assert (take (length (segBytes l k) - r_off r) (drop (r_off r) (segBytes l k))
    = drop (r_off r) (segBytes l k)) as Ht by (apply take_ge; rewrite length_drop; lia).
  unfold fill. destruct (r_netFS r); [rewrite (vf_reopen _ v Hv) by done|];
    rewrite (vf_size _ v Hv), (vf_data _ v Hv) by done; cbn [r_set r_off r_buf r_f];
    rewrite decide_False by lia; rewrite Ht, bool_decide_eq_true_2 by (rewrite length_drop; lia);
    eexists; (split; [reflexivity|]); cbn [r_set r_f r_cur r_off];
    rewrite length_drop; repeat split; try done; lia.
Qed.

(** Under a full view, a pass before the end of the log returns a frame or brings
    the reader closer to one. *)
Lemma pass_full k0 v got r name i :
  view_full k0 v -> Z.of_nat k0 <= r_cur r ->
  reader_at got r -> got <> lg_frames l -> r_f r = Some (name, i) ->
  exists r' res, nextIter v r = (r', res)
    /\ match res with
       | Ret _ => True
       | RetErr _ => False
       | Continue => r_cur r <= r_cur r' /\ (passes r' < 2 * (length (lg_closed l) - Z.to_nat (r_cur r)) + 1)%nat
           /\ (r_off r = length (segBytes l (Z.to_nat (r_cur r))) ->
               passes r' < 2 * (length (lg_closed l) - Z.to_nat (r_cur r)))%nat
       end.
Proof.
  intros Hv Hk0 (k & pre & post & Hc & Hs & Hg & Hst) Hne Hf. rewrite Hc in Hk0.
  pose proof (lg_segs_last _ _ Hs) as Hk. rewrite Hf in Hst. destruct Hst as (-> & -> & Hb & Ho).
  pose proof (seg_frames_ok _ _ Hs) as Hok. apply Forall_app in Hok as [_ Hok].
  subst got. pose proof (more_to_read k pre post Hs Hne) as Hmore.
  pose proof (decode_next k post (r_buf r) Hok (reader_buf k pre post r Hs Hb)) as Hd.
  unfold nextIter. rewrite Hf, Hc, Nat2Z.id. destruct (decodeFrame (r_buf r)) as [[fr n]|e] eqn:Ed.
  - destruct Hd as [(Ht & _)|(-> & Hk' & ->)].
    + rewrite decide_False by done. by eexists _, _.
    + rewrite decide_True by done. rewrite app_nil_r in Hs.
      destruct (advance_at k pre (r_set r (Some (segName (Z.of_nat k), ino k)) (r_off r)
        (drop n (r_buf r))) Hk' Hs) as (r' & -> & _ & _ & Hf' & Hc').
      eexists _, _. split; [reflexivity|]. unfold passes. rewrite Hf', Hc', Nat2Z.id. lia.
  - subst e. assert (r_off r < length (segBytes l k))%nat as Hlt.
    { destruct (decide (r_off r = length (segBytes l k))) as [He|]; [|lia].
      rewrite He, take_ge in Hb by lia.
      destruct (decode_complete k pre post (r_buf r) Hs Hok Hmore Hb) as (? & ? & ?). congruence. }
    destruct (fill_full k0 v k r Hv ltac:(lia) Hf Hlt) as (r' & -> & Hf' & Hc' & Ho').
    eexists _, _. split; [reflexivity|]. unfold passes. rewrite Hf', Hc', Hc, Nat2Z.id, Ho'.
    rewrite decide_True by done. lia.
Qed.

Lemma nextIter_full k0 v got r :
  view_full k0 v -> Z.of_nat k0 <= r_cur r -> reader_at got r -> got <> lg_frames l ->
  exists r' res, nextIter v r = (r', res)
    /\ match res with
       | Ret _ => True
       | RetErr _ => False
       | Continue => (passes r' < passes r)%nat /\ r_cur r <= r_cur r'
       end.
Proof.
  intros Hv Hk0 Hr Hne. destruct (r_f r) as [[name i]|] eqn:Hf.
  - destruct (pass_full k0 v got r name i Hv Hk0 Hr Hne Hf) as (r' & res & -> & Hp).
    exists r', res. split; [done|]. destruct res; [done..|].
    destruct Hp as (Hcur & Hp1 & Hp2). split; [|done].
    unfold passes at 2. rewrite Hf. destruct (decide _) as [He|]; [|lia].
    specialize (Hp2 He). lia.
  - pose proof Hr as (k & pre & post & Hc & Hs & _).
    pose proof (lg_segs_last _ _ Hs) as Hk.
    set (r0 := r_set r (Some (segName (r_cur r), ino k)) 0 (r_buf r)).
    assert (reader_at got r0) as Hr0.
    { destruct Hr as (k2 & pre2 & post2 & Hc2 & Hs2 & Hg2 & Hst). rewrite Hf in Hst.
      destruct Hst as [-> Hb]. assert (k2 = k) as -> by lia.
      exists k, [], post2. unfold r0. cbn [r_set r_cur r_f r_off r_buf]. rewrite Hb, Hc.
      repeat split; try done. lia. }
    destruct (pass_full k0 v got r0 (segName (r_cur r)) (ino k) Hv Hk0 Hr0 Hne eq_refl)
      as (r' & res & E & Hp).
    exists r', res. split.
    { rewrite <- E. unfold nextIter. rewrite Hf. unfold r0 at 1. cbn [r_set r_f].
      rewrite Hc, (vf_open _ v Hv) by lia. unfold r0. by rewrite Hc. }
    destruct res; [done..|]. destruct Hp as (Hcur & Hp & _).
    unfold r0 in Hp, Hcur. cbn [r_set r_cur] in Hp, Hcur. split; [|done].
    unfold passes at 2. rewrite Hf. lia.
Qed.

(** The reader returns: within two passes per remaining segment it delivers. *)
Lemma next_full k0 v got r n :
  view_full k0 v -> view_ok v -> Z.of_nat k0 <= r_cur r ->
  reader_at got r -> got <> lg_frames l -> (passes r < n)%nat ->
  exists r' f, next (replicate n v) r = (r', Some (Ok f)) /\ reader_at (got ++ [f]) r'.
Proof.
  intros Hv Hvo. revert r. induction n as [|n IH]; intros r Hk0 Hr Hne Hn; [lia|].
  assert (can_reopen v r) as Hre.
  { destruct Hr as (k & pre & post & Hc & Hs & _). unfold can_reopen. rewrite Hc in *.
    rewrite (vf_reopen _ v Hv); [done|]. apply lg_segs_last in Hs. lia. }
  destruct (nextIter_full k0 v got r Hv Hk0 Hr Hne) as (r' & res & E & Hp).
  destruct (nextIter_at v got r Hvo (fun _ => Hre) Hr) as (r2 & res2 & E2 & _ & Hp2).
  rewrite E in E2. injection E2 as <- <-.
  cbn [replicate next]. rewrite E. destruct res as [f| |]; [by eauto|done|].
  apply IH; [lia|done|done|lia].
Qed.
End reader.

(** * Writing the log *)

(** What [segWriter.append] does to the log: a new segment once the current one
    is not empty and would grow past [m]. *)
Definition log_rolls (m : Z) (l : slog) (f : frame) : bool :=
  let size := len (enc_all (lg_cur l)) in
  (size >? 0) && (size + len (appendTo f []) >? m).

Definition log_append (m : Z) (l : slog) (f : frame) : slog :=
  if log_rolls m l f
  then mkLog (lg_closed l ++ [lg_cur l]) [f]
  else mkLog (lg_closed l) (lg_cur l ++ [f]).

Definition emptyLog : slog := mkLog [] [].

Lemma segName_inj a b : 0 <= a < 2 ^ 64 -> 0 <= b < 2 ^ 64 -> segName a = segName b -> a = b.
Proof.
  intros Ha Hb H. unfold segName in H. apply string_app_inj_r in H.
  apply (f_equal (fun s => parseDigits s 0)) in H.
  rewrite !parseDigits_padded in H by done. congruence.
Qed.

Lemma lg_frames_append m l f : lg_frames (log_append m l f) = lg_frames l ++ [f].
Proof.
  unfold log_append, lg_frames. destruct (log_rolls _ _ _); cbn [lg_closed lg_cur].
  - by rewrite concat_app; cbn; rewrite app_nil_r, <- app_assoc.
  - by rewrite app_assoc.
Qed.

Lemma segBytes_cur l : segBytes l (length (lg_closed l)) = enc_all (lg_cur l).
Proof.
  unfold segBytes, lg_segs, rollBytes. rewrite decide_False by lia.
  rewrite app_nth2, Nat.sub_diag by lia. apply app_nil_r.
Qed.

Lemma segBytes_closed l k s : lg_closed l !! k = Some s ->
  segBytes l k = enc_all s ++ appendTo (rollFrame (u32 (Z.of_nat k + 1))) [].
Proof.
  intros H. pose proof (lookup_lt_Some _ _ _ H). unfold segBytes, lg_segs, rollBytes.
  rewrite decide_True by done. rewrite app_nth1 by done. by erewrite nth_lookup_Some.
Qed.

(** The bytes of a file, linked or not. *)
Definition fdata (fs : dirfs) (i : nat) : option (list byte) := i_data <$> d_inodes fs !! i.

(** The writer and its directory hold the log [l]: segment [k] is file [k]; the
    closed segments not yet reaped are those of [w_reapOff]. *)
Record writer_at (l : slog) (w : segWriter) (fs : dirfs) : Prop := {
  wa_ok : log_ok l;
  wa_cur : w_cur w = Z.of_nat (length (lg_closed l));
  wa_f : w_f w = Some (length (lg_closed l), negb (w_closed w));
  wa_size : w_size w = len (enc_all (lg_cur l));
  wa_next : d_next fs = S (length (lg_closed l));
  wa_data k : (k <= length (lg_closed l))%nat -> fdata fs k = Some (segBytes l k);
  wa_links name i : d_links fs !! name = Some i <->
    name = segName (Z.of_nat i) /\
    (i = length (lg_closed l) \/ exists e, e ∈ w_reapOff w /\ se_idx e = Z.of_nat i);
  wa_reap e : e ∈ w_reapOff w -> 0 <= se_idx e < Z.of_nat (length (lg_closed l));
  wa_nodup : NoDup (map se_idx (w_reapOff w))
}.

Lemma log_ok_empty : log_ok emptyLog.
Proof. split; cbn; [constructor|constructor|lia]. Qed.

(** A new writer in a fresh directory holds the empty log. *)
Lemma newSegWriter_at rc : exists w fs,
  newSegWriter true true rc emptyDir = Ok (w, fs) /\ writer_at emptyLog w fs
  /\ w_maxSeg w = rc_segmentSize rc /\ w_netFS w = rc_netFS rc /\ w_syncEnb w = rc_sync rc
  /\ w_reapOff w = [] /\ w_flushTimer w = false.
Proof.
  eexists _, _. split; [reflexivity|]. split; [|done].
  split; cbn [w_closed w_cur w_f w_size w_reapOff w_set_file d_next d_inodes d_links
    emptyDir emptyLog lg_closed lg_cur length]; try done.
  - intros k Hk. assert (k = 0%nat) as -> by lia. done.
  - intros name i. change (segName 0) with (segName (Z.of_nat 0)).
    rewrite lookup_insert. case_decide as Hn.
    + subst name. split; [injection 1 as <-; auto|]. intros [_ [->|(e & He & _)]]; [done|].
      by inversion He.
    + rewrite lookup_empty. split; [done|]. intros [-> [->|(e & He & _)]]; [done|].
      by inversion He.
  - intros e He. by inversion He.
  - constructor.
Qed.

Lemma fdata_append i bs fs j :
  fdata (fs_append i bs fs) j = if decide (i = j) then (fun d => d ++ bs) <$> fdata fs j else fdata fs j.
Proof.
  unfold fdata, fs_append. cbn [d_inodes]. rewrite lookup_alter.
  destruct (decide (i = j)) as [<-|]; [|done]. by destruct (d_inodes fs !! i).
Qed.

Lemma fdata_sync h fs j : fdata (file_sync h fs) j = fdata fs j.
Proof.
  unfold file_sync. destruct (snd h); [|done]. unfold fdata, fs_sync. cbn [d_inodes].
  rewrite lookup_alter. destruct (decide (fst h = j)) as [<-|]; [|done].
  by destruct (d_inodes fs !! fst h).
Qed.

Lemma links_sync h fs : d_links (file_sync h fs) = d_links fs /\ d_next (file_sync h fs) = d_next fs.
Proof. unfold file_sync. by destruct (snd h). Qed.

(** ** Append without I/O errors *)

Lemma log_ok_snoc l f : log_ok l -> frame_ok f -> log_ok (mkLog (lg_closed l) (lg_cur l ++ [f])).
Proof. intros [H1 H2 H3] Hf. split; cbn [lg_closed lg_cur]; [done| |done]. by apply Forall_app; split; [|constructor]. Qed.

Lemma log_ok_roll l f : log_ok l -> frame_ok f -> Z.of_nat (S (length (lg_closed l))) < 2 ^ 32 ->
  log_ok (mkLog (lg_closed l ++ [lg_cur l]) [f]).
Proof.
  intros [H1 H2 H3] Hf Hn. split; cbn [lg_closed lg_cur].
  - by apply Forall_app; split; [|constructor].
  - by constructor.
  - rewrite length_app. cbn. lia.
Qed.

(** Closing the current segment leaves the bytes of the others and adds its ROLL. *)
Lemma segBytes_roll l s k : (k <= length (lg_closed l))%nat ->
  segBytes (mkLog (lg_closed l ++ [lg_cur l]) s) k =
  segBytes l k ++ if decide (length (lg_closed l) = k) then appendTo (rollFrame (u32 (Z.of_nat k + 1))) [] else [].
Proof.
  intros Hk. destruct (decide _) as [<-|Hne].
  - rewrite segBytes_cur. erewrite segBytes_closed; [done|]. cbn [lg_closed].
    rewrite lookup_app_r, Nat.sub_diag by lia. done.
  - destruct (lookup_lt_is_Some_2 (lg_closed l) k ltac:(lia)) as [x Hx].
    rewrite app_nil_r, (segBytes_closed l k x Hx). apply segBytes_closed. cbn [lg_closed].
    by rewrite lookup_app_l by lia.
Qed.

Lemma segBytes_snoc l f k : (k <= length (lg_closed l))%nat ->
  segBytes (mkLog (lg_closed l) (lg_cur l ++ [f])) k =
  segBytes l k ++ if decide (length (lg_closed l) = k) then appendTo f [] else [].
Proof.
  intros Hk. destruct (decide _) as [<-|Hne].
  - rewrite segBytes_cur. change (length (lg_closed l)) with
      (length (lg_closed (mkLog (lg_closed l) (lg_cur l ++ [f])))).
    rewrite segBytes_cur. cbn [lg_cur]. rewrite enc_all_app. cbn [enc_all map concat].
    by rewrite app_nil_r.
  - destruct (lookup_lt_is_Some_2 (lg_closed l) k ltac:(lia)) as [x Hx].
    rewrite app_nil_r, (segBytes_closed l k x Hx). by apply segBytes_closed.
Qed.

(** Parameters no operation changes. *)
Definition same_params (w w' : segWriter) : Prop :=
  w_maxSeg w' = w_maxSeg w /\ w_netFS w' = w_netFS w /\ w_syncEnb w' = w_syncEnb w.

(** A directory that differs from one in the writer's invariant only in the bytes
    of the current segment and in what is synced. *)
Lemma openCur_at l w fs :
  log_ok l -> Z.of_nat (length (lg_closed l)) < 2 ^ 32 -> w_closed w = false ->
  w_cur w = Z.of_nat (length (lg_closed l)) -> d_next fs = length (lg_closed l) ->
  (forall k, (k < length (lg_closed l))%nat -> fdata fs k = Some (segBytes l k)) ->
  (forall name i, d_links fs !! name = Some i <-> name = segName (Z.of_nat i) /\
     exists e, e ∈ w_reapOff w /\ se_idx e = Z.of_nat i) ->
  (forall e, e ∈ w_reapOff w -> 0 <= se_idx e < Z.of_nat (length (lg_closed l))) ->
  NoDup (map se_idx (w_reapOff w)) -> lg_cur l = [] ->
  exists w' fs', openCur true w fs = (None, w', fs') /\ writer_at l w' fs' /\ same_params w w'
    /\ w_reapOff w' = w_reapOff w /\ w_closed w' = false.
Proof.
  intros Hl Hn Hcl Hc Hnx Hd Hlk Hr Hnd Hcur.
  assert (d_links fs !! segName (w_cur w) = None) as Hnone.
  { destruct (d_links fs !! segName (w_cur w)) as [i|] eqn:E; [|done].
    apply Hlk in E as (E & e & He & Hi). apply Hr in He. apply segName_inj in E; lia. }
  unfold openCur, fs_open_append. rewrite Hnone. eexists _, _. split; [reflexivity|].
  split; [|repeat split; done]. rewrite Hnx.
  split; cbn [w_set_file w_closed w_cur w_f w_size w_reapOff d_next d_links]; try done.
  - by rewrite Hcl.
  - by rewrite Hcur.
  - intros k Hk. unfold fdata. cbn [d_inodes]. rewrite lookup_insert. case_decide as E.
    + subst k. rewrite segBytes_cur, Hcur. done.
    + apply Hd. lia.
  - intros name i. rewrite lookup_insert, Hc. case_decide as E.
    + subst name. split.
      * injection 1 as <-. auto.
      * intros [E [->|(e & He & Hi)]]; [done|]. apply Hr in He. apply segName_inj in E; lia.
    + rewrite Hlk. split.
      * intros [-> H]. auto.
      * intros [-> [->|H]]; [done|]. auto.
Qed.

(** A sync that may be left out changes neither contents nor links. *)
Lemma fdata_maysync (b : bool) i fs k : fdata (if b then file_sync i fs else fs) k = fdata fs k.
Proof. destruct b; [apply fdata_sync|done]. Qed.

Lemma links_maysync (b : bool) i fs : d_links (if b then file_sync i fs else fs) = d_links fs.
Proof. destruct b; [apply links_sync|done]. Qed.

Lemma roll_at l w fs dataEnd :
  writer_at l w fs -> w_closed w = false -> Z.of_nat (S (length (lg_closed l))) < 2 ^ 32 ->
  exists w' fs', roll envOk dataEnd w fs = (None, w', fs')
    /\ writer_at (mkLog (lg_closed l ++ [lg_cur l]) []) w' fs' /\ same_params w w'
    /\ w_reapOff w' = w_reapOff w ++ [mkSegEnd (w_cur w) dataEnd]
    /\ w_closed w' = false.
Proof.
  intros [Hok Hc Hf Hsz Hnx Hd Hlk Hr Hnd] Ho Hn. unfold roll. rewrite Hf, Ho. cbn [negb].
  rewrite u32_small by lia. cbn [envOk ae_roll ae_open file_write snd fst].
  set (n := length (lg_closed l)) in *. set (l' := mkLog (lg_closed l ++ [lg_cur l]) []).
  assert (length (lg_closed l') = S n) as Hn' by (unfold l'; cbn [lg_closed]; rewrite length_app; cbn; lia).
  match goal with |- context [openCur true ?w1 ?fs1] =>
    destruct (openCur_at l' w1 fs1) as (w' & fs' & E & Hw & Hs & Hre & Ht) end.
  all: cbn [w_set_file w_set_cur w_set_reap w_closed w_cur w_reapOff]; rewrite ?Hn'.
  - destruct Hok as [H1 H2 H3]. split; unfold l'; cbn [lg_closed lg_cur].
    + by apply Forall_app; split; [|constructor].
    + constructor.
    + rewrite length_app. cbn. lia.
  - done.
  - done.
  - lia.
  - destruct (w_netFS w || w_syncEnb w); [rewrite (proj2 (links_sync _ _))|]; done.
  - intros k Hk. unfold l'. rewrite (segBytes_roll l [] k) by (fold n; lia).
    rewrite fdata_maysync, fdata_append, Hd by (fold n; lia). fold n.
    case_decide; [|by rewrite app_nil_r]. subst k. cbn. by rewrite Hc, (u32_small (_ + 1)) by lia.
  - intros name i. rewrite links_maysync. cbn [fs_append d_links]. rewrite Hlk. split; intros [-> H]; (split; [done|]).
    + destruct H as [->|(e & He & Hi)].
      * eexists (mkSegEnd (w_cur w) dataEnd). rewrite elem_of_app, list_elem_of_singleton. auto.
      * exists e. rewrite elem_of_app. auto.
    + destruct H as (e & He & Hi). apply elem_of_app in He as [He|He]; [eauto|].
      apply list_elem_of_singleton in He as ->. cbn [se_idx] in Hi. left. lia.
  - intros e He. apply elem_of_app in He as [He|He]; [apply Hr in He; lia|].
    apply list_elem_of_singleton in He as ->. cbn [se_idx]. lia.
  - rewrite map_app. apply NoDup_app. split; [done|]. split; [|apply NoDup_singleton].
    intros z Hz Hz2. apply list_elem_of_singleton in Hz2 as ->.
    apply list_elem_of_fmap in Hz as (e & He & Hin). apply Hr in Hin. cbn [se_idx] in He. lia.
  - done.
  - exists w', fs'. by rewrite E.
Qed.

Lemma appendCur_at l w fs f :
  writer_at l w fs -> w_closed w = false -> frame_ok f ->
  exists w' fs', appendCur envOk f w fs = (None, w', fs')
    /\ writer_at (mkLog (lg_closed l) (lg_cur l ++ [f])) w' fs' /\ same_params w w'
    /\ w_reapOff w' = w_reapOff w.
Proof.
  intros [Hok Hc Hf Hsz Hnx Hd Hlk Hr Hnd] Ho Hfo. unfold appendCur. rewrite Hf, Ho. cbn [negb].
  cbn [envOk ae_write file_write snd fst].
  set (l' := mkLog (lg_closed l) (lg_cur l ++ [f])).
  set (w1 := w_set_file w (Some (length (lg_closed l), true)) (w_size w + len (appendTo f []))).
  set (fs1 := fs_append (length (lg_closed l)) (appendTo f []) fs).
  assert (forall w2 fs2, w_closed w2 = w_closed w1 -> w_cur w2 = w_cur w1 -> w_f w2 = w_f w1 ->
    w_size w2 = w_size w1 -> w_reapOff w2 = w_reapOff w1 -> d_next fs2 = d_next fs1 ->
    d_links fs2 = d_links fs1 -> (forall k, fdata fs2 k = fdata fs1 k) -> writer_at l' w2 fs2) as Hany.
  { intros w2 fs2 E1 E2 E3 E4 E5 E6 E7 E8.
    split; rewrite ?E1, ?E2, ?E3, ?E4, ?E5, ?E6, ?E7; unfold l'; cbn [lg_closed lg_cur]; try done.
    - by apply log_ok_snoc.
    - unfold w1. cbn [w_set_file w_f w_closed]. by rewrite Ho.
    - unfold w1. cbn [w_set_file w_size]. rewrite enc_all_app, length_app, Hsz.
      cbn [enc_all map concat]. rewrite app_nil_r. lia.
    - intros k Hk. rewrite E8, segBytes_snoc by done. unfold fs1.
      rewrite fdata_append, Hd by done. case_decide; [done|]. by rewrite app_nil_r. }
  destruct (w_netFS w) eqn:Hnet; [|destruct (w_syncEnb w) eqn:Hsync].
  - eexists _, _. split; [reflexivity|]. unfold armFlushLocked. split.
    + apply Hany; try done; by destruct (w_flushTimer w1).
    + unfold same_params. by destruct (w_flushTimer w1).
  - eexists _, _. split; [reflexivity|]. split; [|repeat split; done].
    apply Hany; try done. intros k. apply fdata_sync.
  - eexists _, _. split; [reflexivity|]. split; [|repeat split; done].
    by apply Hany.
Qed.

(** [append] writes the frame at the end of the log. *)
Lemma append_at l w fs f dataEnd :
  writer_at l w fs -> w_closed w = false -> frame_ok f -> Z.of_nat (S (length (lg_closed l))) < 2 ^ 32 ->
  exists w' fs', append envOk f dataEnd w fs = (None, w', fs')
    /\ writer_at (log_append (w_maxSeg w) l f) w' fs' /\ same_params w w'
    /\ w_reapOff w' = w_reapOff w ++
         if log_rolls (w_maxSeg w) l f then [mkSegEnd (w_cur w) dataEnd] else [].
Proof.
  intros Hw Ho Hf Hn. unfold append, log_append, log_rolls.
  rewrite Ho, (wa_size _ _ _ Hw). destruct (_ && _).
  - destruct (roll_at l w fs dataEnd Hw Ho Hn) as (w1 & fs1 & -> & Hw1 & (Hp1 & Hp2 & Hp3) & Hr1 & Ho1).
    destruct (appendCur_at _ w1 fs1 f Hw1 Ho1 Hf) as (w2 & fs2 & -> & Hw2 & (Hq1 & Hq2 & Hq3) & Hr2).
    exists w2, fs2. split; [done|]. split; [done|]. unfold same_params.
    by rewrite Hq1, Hq2, Hq3, Hr2, Hr1.
  - destruct (appendCur_at l w fs f Hw Ho Hf) as (w2 & fs2 & -> & Hw2 & Hq & Hr). exists w2, fs2.
    by rewrite app_nil_r.
Qed.

Lemma log_append_ok m l f : log_ok l -> frame_ok f -> Z.of_nat (S (length (lg_closed l))) < 2 ^ 32 ->
  log_ok (log_append m l f).
Proof.
  intros. unfold log_append. destruct (log_rolls _ _ _); [by apply log_ok_roll|by apply log_ok_snoc].
Qed.

(** ** Reaping *)

Definition reaped (a : Z) (e : segEnd) : bool := se_dataEnd e <=? a.

Lemma reapLoop_spec a es fs :
  let '(kept, fs') := reapLoop a es fs in
  kept = List.filter (fun e => negb (reaped a e)) es
  /\ d_inodes fs' = d_inodes fs /\ d_next fs' = d_next fs
  /\ forall name i, d_links fs' !! name = Some i <->
       d_links fs !! name = Some i
       /\ forall e, e ∈ es -> reaped a e = true -> segName (se_idx e) <> name.
Proof.
  revert fs. induction es as [|e es IH]; intros fs.
  - cbn. do 3 (split; [done|]). intros name i. split; [|by intros [? _]].
    intros H. split; [done|]. intros e He. inversion He.
  - cbn [reapLoop List.filter]. fold (reaped a e). destruct (reaped a e) eqn:Ee; cbn [negb].
    + specialize (IH (fs_remove (segName (se_idx e)) fs)).
      destruct (reapLoop a es _) as [kept fs']. destruct IH as (-> & H2 & H3 & H4).
      do 3 (split; [done|]). intros name i. rewrite H4. cbn [fs_remove d_links].
      rewrite lookup_delete_Some. split.
      * intros [[Hne Hl] Ha]. split; [done|]. intros x [->|Hx]%elem_of_cons Hr; [done|]. by apply Ha.
      * intros [Hl Ha]. split; [split; [|done]|].
        -- apply Ha; [apply list_elem_of_here|done].
        -- intros x Hx. apply Ha. by apply list_elem_of_further.
    + specialize (IH fs). destruct (reapLoop a es fs) as [kept fs']. destruct IH as (-> & H2 & H3 & H4).
      do 3 (split; [done|]). intros name i. rewrite H4. split.
      * intros [Hl Ha]. split; [done|]. intros x [->|Hx]%elem_of_cons Hr; [congruence|]. by apply Ha.
      * intros [Hl Ha]. split; [done|]. intros x Hx. apply Ha. by apply list_elem_of_further.
Qed.

Lemma elem_of_filter_bool {A} (p : A -> bool) (l : list A) x :
  x ∈ List.filter p l <-> x ∈ l /\ p x = true.
Proof. rewrite !list_elem_of_In. apply filter_In. Qed.

Lemma NoDup_map_filter {A B} (f : A -> B) (p : A -> bool) (l : list A) :
  NoDup (map f l) -> NoDup (map f (List.filter p l)).
Proof.
  induction l as [|x l IH]; cbn; [done|]. intros [Hx Hl]%NoDup_cons.
  destruct (p x); [|by apply IH]. cbn. apply NoDup_cons. split; [|by apply IH].
  intros Hin. apply Hx. rewrite list_elem_of_In in *. apply in_map_iff in Hin as (y & <- & Hy).
  apply filter_In in Hy as [Hy _]. by apply in_map.
Qed.

Lemma NoDup_map_inj {A B} (f : A -> B) (l : list A) x y :
  NoDup (map f l) -> x ∈ l -> y ∈ l -> f x = f y -> x = y.
Proof.
  induction l as [|z l IH]; cbn; intros Hnd Hx Hy Hf; [by inversion Hx|].
  apply NoDup_cons in Hnd as [Hz Hnd]. rewrite list_elem_of_In, in_map_iff in Hz.
  apply elem_of_cons in Hx as [->|Hx]; apply elem_of_cons in Hy as [->|Hy].
  - done.
  - exfalso. apply Hz. exists y. by rewrite <- list_elem_of_In.
  - exfalso. apply Hz. exists x. by rewrite <- list_elem_of_In.
  - by apply IH.
Qed.

Lemma reap_at l w fs a :
  writer_at l w fs ->
  let '(w', fs') := reap a w fs in
  writer_at l w' fs' /\ same_params w w'
  /\ w_reapOff w' = List.filter (fun e => negb (reaped a e)) (w_reapOff w).
Proof.
  intros [Hok Hc Hf Hsz Hnx Hd Hlk Hr Hnd]. unfold reap.
  pose proof (reapLoop_spec a (w_reapOff w) fs) as Hs. pose proof (lok_count l Hok).
  destruct (reapLoop a (w_reapOff w) fs) as [kept fs']. destruct Hs as (-> & Hi & Hn & Hl).
  split; [|done]. split; cbn [w_set_reap w_closed w_cur w_f w_size w_reapOff]; try done.
  - by rewrite Hn.
  - intros k Hk. unfold fdata. rewrite Hi. by apply Hd.
  - intros name i. rewrite Hl, Hlk. split.
    + intros [[-> H'] Ha]. split; [done|]. destruct H' as [->|(e & He & Hei)]; [auto|].
      right. exists e. split; [|done]. apply elem_of_filter_bool. split; [done|].
      destruct (reaped a e) eqn:E; [|done]. exfalso. apply (Ha e He E). by rewrite Hei.
    + intros [-> H']. split; [split; [done|]|].
      * destruct H' as [->|(e & He & Hei)]; [auto|]. apply elem_of_filter_bool in He as [He _]. eauto.
      * intros e He E Hn'. apply Hr in He as Hrng. apply segName_inj in Hn'; [|lia|].
        -- destruct H' as [->|(e2 & He2 & Hei)]; [lia|]. apply elem_of_filter_bool in He2 as [He2 E2].
           assert (e = e2) as -> by (eapply NoDup_map_inj; eauto; lia). by rewrite E in E2.
        -- destruct H' as [->|(e2 & He2 & Hei)]; [lia|]. apply elem_of_filter_bool in He2 as [He2 _].
           apply Hr in He2. lia.
  - intros e He. apply elem_of_filter_bool in He as [He _]. by apply Hr.
  - by apply NoDup_map_filter.
Qed.
