(* ===== verification/SegPipe.v ===== *)
(** One direction of a tunnel end to end: the segment writer and the polling
    reader of SegLog.v running concurrently over the same directory, as a step
    relation. The theorems say that the reader delivers the writer's frames in
    order without loss, duplication or corruption, that it makes progress, and
    what the writer's rolls, flushes and reaps preserve. *)

From stdpp Require Import base gmap list numbers strings.
From Stdlib Require Import ZArith Lia.
From Stdlib.Strings Require Import Byte.
From S2P Require Import Prelude GoStr Frame FsConfig SegLog.

(** * The concurrent system *)

(** Writer, directory and reader; [pp_sent] and [pp_got] record the frames
    appended and the frames [next] returned so far. *)
Record pipe := mkPipe {
  pp_w : segWriter;
  pp_fs : dirfs;
  pp_r : segReader;
  pp_sent : list frame;
  pp_got : list frame
}.

(** What a reader may see of the directory: a name opens only as the file linked
    to it, and a file shows some prefix of its bytes (all of them, or fewer while
    an append has not reached the reader yet). *)
Record view_of (fs : dirfs) (v : view) : Prop := {
  vo_open name i : v_open v name = Ok i -> d_links fs !! name = Some i;
  vo_reopen name i : v_reopen v name = Some i -> d_links fs !! name = Some i;
  vo_data i d : fdata fs i = Some d -> v_data v i `prefix_of` d;
  vo_none i : fdata fs i = None -> v_data v i = []
}.

Definition got_of (res : iterRes) : list frame :=
  match res with Ret f => [f] | _ => [] end.

(** DATA payload bytes of a list of frames. *)
Definition data_len (f : frame) : Z := if decide (f_typ f = frameDATA) then len (f_payload f) else 0.
Definition data_total (fs : list frame) : Z := fold_right (fun f n => data_len f + n) 0 fs.

(** The operations of the two processes, in any order. I/O calls of the writer
    succeed, each append is told the DATA bytes written so far (as [Conn.emit]
    does), and on a network file system the reader can reopen its segment. *)
Inductive pipe_step : pipe -> pipe -> Prop :=
| ps_append w fs r sent got f dataEnd w' fs' :
    frame_ok f -> w_cur w + 1 < 2 ^ 32 -> dataEnd = data_total (sent ++ [f]) ->
    append envOk f dataEnd w fs = (None, w', fs') ->
    pipe_step (mkPipe w fs r sent got) (mkPipe w' fs' r (sent ++ [f]) got)
| ps_reap w fs r sent got a w' fs' :
    reap a w fs = (w', fs') ->
    pipe_step (mkPipe w fs r sent got) (mkPipe w' fs' r sent got)
| ps_flush w fs r sent got w' fs' :
    timedFlush w fs = (w', fs') ->
    pipe_step (mkPipe w fs r sent got) (mkPipe w' fs' r sent got)
| ps_sync w fs r sent got w' fs' :
    syncNow w fs = (w', fs') ->
    pipe_step (mkPipe w fs r sent got) (mkPipe w' fs' r sent got)
| ps_close w fs r sent got w' fs' :
    closeWriter w fs = (w', fs') ->
    pipe_step (mkPipe w fs r sent got) (mkPipe w' fs' r sent got)
| ps_pass w fs r sent got v r' res :
    view_of fs v -> (r_netFS r = true -> can_reopen v r) ->
    nextIter v r = (r', res) ->
    pipe_step (mkPipe w fs r sent got) (mkPipe w fs r' sent (got ++ got_of res)).

(** A fresh direction: a new writer in an empty directory and a new reader. *)
Definition pipe_init (rc : resolvedConfig) (netFS : bool) (p : pipe) : Prop :=
  newSegWriter true true rc emptyDir = Ok (pp_w p, pp_fs p)
  /\ pp_r p = newSegReader netFS /\ pp_sent p = [] /\ pp_got p = [].

(** * Lemmas on single operations *)

Lemma view_of_ok l w fs v : writer_at l w fs -> view_of fs v -> view_ok l (fun k => k) v.
Proof.
  intros Hw [Ho Hr Hd _]. pose proof (wa_ok _ _ _ Hw) as Hl. pose proof (lok_count _ Hl).
  assert (forall k i, (k <= length (lg_closed l))%nat ->
    d_links fs !! segName (Z.of_nat k) = Some i -> i = k) as Hlink.
  { intros k i Hk H'. apply (wa_links _ _ _ Hw) in H' as [Hn Hi].
    assert (i <= length (lg_closed l))%nat.
    { destruct Hi as [->|(e & He & Hei)]; [done|]. apply (wa_reap _ _ _ Hw) in He. lia. }
    apply segName_inj in Hn; lia. }
  split.
  - intros k i Hk E. apply (Hlink k); [done|]. by apply Ho.
  - intros k i Hk E. apply (Hlink k); [done|]. by apply Hr.
  - intros k Hk. apply Hd. by apply (wa_data _ _ _ Hw).
Qed.

(** A reader stays where it is when the log grows at its end. *)
Lemma reader_at_grow l l' ino got r :
  (forall k s, lg_segs l !! k = Some s -> exists t, lg_segs l' !! k = Some (s ++ t)
     /\ take k (lg_segs l') = take k (lg_segs l) /\ exists x, segBytes l' k = segBytes l k ++ x) ->
  reader_at l ino got r -> reader_at l' ino got r.
Proof.
  intros H (k & pre & post & Hc & Hs & Hg & Hst).
  destruct (H k _ Hs) as (t & Hs' & Ht & x & Hx).
  exists k, pre, (post ++ t). rewrite app_assoc, Ht. do 3 (split; [done|]).
  destruct (r_f r) as [[name i]|]; [|done]. destruct Hst as (Hn & Hi & Hb & Ho).
  rewrite Hx, length_app, take_app_le by done. repeat split; try done. lia.
Qed.

Lemma reader_at_roll l s ino got r : reader_at l ino got r -> reader_at (mkLog (lg_closed l ++ [lg_cur l]) s) ino got r.
Proof.
  apply reader_at_grow. intros k t Ht. pose proof (lg_segs_last _ _ _ Ht) as Hk.
  exists []. rewrite app_nil_r, segBytes_roll by done. unfold lg_segs at 1 2.
  cbn [lg_closed lg_cur]. fold (lg_segs l). pose proof (lookup_lt_Some _ _ _ Ht).
  rewrite lookup_app_l, take_app_le by lia. eauto.
Qed.

Lemma reader_at_snoc l f ino got r : reader_at l ino got r -> reader_at (mkLog (lg_closed l) (lg_cur l ++ [f])) ino got r.
Proof.
  apply reader_at_grow. intros k s Hs. pose proof (lg_segs_last _ _ _ Hs) as Hk.
  rewrite segBytes_snoc by done. unfold lg_segs in *. cbn [lg_closed lg_cur]. rewrite !take_app_le by done.
  destruct (decide (k = length (lg_closed l))) as [->|].
  - exists [f]. rewrite lookup_app_r, Nat.sub_diag in * by lia. cbn in Hs. injection Hs as <-. repeat split; eauto.
  - exists []. rewrite lookup_app_l in * by lia. rewrite app_nil_r. repeat split; eauto.
Qed.

Lemma reader_at_append m l f ino got r :
  reader_at l ino got r -> reader_at (log_append m l f) ino got r.
Proof. unfold log_append. destruct (log_rolls _ _ _); [apply reader_at_roll|apply reader_at_snoc]. Qed.

Lemma writer_at_same l w fs w' fs' :
  writer_at l w fs -> w_closed w' = w_closed w -> w_cur w' = w_cur w -> w_f w' = w_f w ->
  w_size w' = w_size w -> w_reapOff w' = w_reapOff w -> d_next fs' = d_next fs ->
  d_links fs' = d_links fs -> (forall k, fdata fs' k = fdata fs k) -> writer_at l w' fs'.
Proof.
  intros [] E1 E2 E3 E4 E5 E6 E7 E8.
  split; rewrite ?E1, ?E2, ?E3, ?E4, ?E5, ?E6, ?E7; try done.
  intros k Hk. rewrite E8. auto.
Qed.

Lemma append_open f dataEnd w fs w' fs' env :
  append env f dataEnd w fs = (None, w', fs') -> w_closed w = false.
Proof. unfold append. by destruct (w_closed w). Qed.

Lemma closeWriter_at l w fs w' fs' : writer_at l w fs -> closeWriter w fs = (w', fs') ->
  writer_at l w' fs' /\ same_params w w' /\ w_reapOff w' = w_reapOff w.
Proof.
  intros Hw E. unfold closeWriter in E. destruct (w_closed w) eqn:Hc; [by injection E as <- <-|].
  set (w1 := if w_flushTimer (w_set_closed w)
             then w_set_timer (w_set_closed w) false else w_set_closed w) in E.
  assert (w_f w1 = w_f w /\ w_netFS w1 = w_netFS w /\ w_syncEnb w1 = w_syncEnb w /\ w_closed w1 = true
    /\ w_cur w1 = w_cur w /\ w_size w1 = w_size w /\ w_reapOff w1 = w_reapOff w
    /\ w_maxSeg w1 = w_maxSeg w) as (E1 & E2 & E3 & E4 & E5 & E6 & E7 & E8)
    by (unfold w1; by destruct (w_flushTimer _)).
  rewrite E1, (wa_f _ _ _ Hw), Hc, E2, E3 in E. cbn [negb fst] in E. injection E as <- <-.
  split; [|by repeat split].
  destruct Hw as [Hok Hcu Hf Hsz Hnx Hd Hlk Hr Hnd].
  assert (forall b : bool, d_next (if b then file_sync (length (lg_closed l), true) fs else fs) = d_next fs
    /\ d_links (if b then file_sync (length (lg_closed l), true) fs else fs) = d_links fs
    /\ forall k, fdata (if b then file_sync (length (lg_closed l), true) fs else fs) k = fdata fs k) as Hb.
  { intros []; [|done]. split; [done|]. split; [done|]. intros k. apply fdata_sync. }
  specialize (Hb (w_netFS w || w_syncEnb w)) as (B1 & B2 & B3).
  split; cbn [w_set_file w_cur w_f w_size w_closed w_reapOff]; rewrite ?E4, ?E5, ?E6, ?E7, ?B1, ?B2; try done.
  intros k Hk. rewrite B3. by apply Hd.
Qed.

Lemma timedFlush_at l w fs w' fs' : writer_at l w fs -> timedFlush w fs = (w', fs') ->
  writer_at l w' fs' /\ same_params w w' /\ w_reapOff w' = w_reapOff w.
Proof.
  intros Hw E. unfold timedFlush, syncCur in E. cbn [w_set_timer w_closed w_f] in E.
  destruct (w_closed w) eqn:Hc.
  - injection E as <- <-. split; [|done]. by eapply writer_at_same.
  - rewrite (wa_f _ _ _ Hw) in E. injection E as <- <-.
    split; [|done]. eapply writer_at_same; try done; [by rewrite Hc..|].
    intros k. apply fdata_sync.
Qed.

Lemma syncNow_at l w fs w' fs' : writer_at l w fs -> syncNow w fs = (w', fs') ->
  writer_at l w' fs' /\ same_params w w' /\ w_reapOff w' = w_reapOff w.
Proof.
  intros Hw E. unfold syncNow, syncCur in E.
  replace (w_f (if w_flushTimer w then w_set_timer w false else w)) with (w_f w) in E
    by (by destruct (w_flushTimer w)).
  rewrite (wa_f _ _ _ Hw) in E. injection E as <- <-.
  split; [|by destruct (w_flushTimer w)].
  eapply writer_at_same; try done; try (by destruct (w_flushTimer w)).
  - apply links_sync.
  - apply links_sync.
  - intros k. apply fdata_sync.
Qed.

(** * What the full directory shows *)

(** The view of a reader to which everything in the directory is visible. *)
Definition full_view (fs : dirfs) : view := {|
  v_open name := match d_links fs !! name with Some i => Ok i | None => Err ErrNotExist end;
  v_reopen name := d_links fs !! name;
  v_size i := length <$> fdata fs i;
  v_data i := default [] (fdata fs i) |}.

Lemma full_view_of fs : view_of fs (full_view fs).
Proof.
  split; cbn [full_view v_open v_reopen v_data].
  - intros name i. by destruct (d_links fs !! name); [injection 1 as <-|].
  - done.
  - intros i d ->. done.
  - intros i ->. done.
Qed.

Lemma full_view_full l w fs k0 :
  writer_at l w fs ->
  (forall k, (k0 <= k <= length (lg_closed l))%nat -> d_links fs !! segName (Z.of_nat k) = Some k) ->
  view_full l (fun k => k) k0 (full_view fs).
Proof.
  intros Hw Hlk. split; cbn [full_view v_open v_reopen v_size v_data]; intros k Hk.
  - by rewrite Hlk.
  - by apply Hlk.
  - by rewrite (wa_data _ _ _ Hw) by lia.
  - by rewrite (wa_data _ _ _ Hw) by lia.
Qed.

(** * Sizes *)

(** Every segment of the log is within [m], or is a single frame. *)
Definition log_sized (m : Z) (l : slog) : Prop :=
  Forall (fun s => len (enc_all s) <= m \/ (length s <= 1)%nat) (lg_segs l).

Lemma enc_all_nonempty f s : 0 < len (enc_all (f :: s)).
Proof. rewrite enc_all_cons, length_app. pose proof (appendTo_pos f). lia. Qed.

Lemma log_sized_append m l f : log_sized m l -> log_sized m (log_append m l f).
Proof.
  unfold log_sized, log_append, lg_segs. intros H.
  destruct (log_rolls m l f) eqn:E; unfold log_rolls in E; cbn [lg_closed lg_cur].
  - apply Forall_app. split; [done|]. by constructor; [right|constructor].
  - apply Forall_app in H as [H1 H2]. apply Forall_app. split; [done|].
    constructor; [|constructor]. destruct (lg_cur l) as [|g s]; [by right|]. left.
    pose proof (enc_all_nonempty g s). apply andb_false_iff in E as [E|E]; [lia|].
    rewrite enc_all_app, length_app, enc_all_one. lia.
Qed.

Lemma enc_all_bound m s : Forall frame_ok s -> len (enc_all s) <= m \/ (length s <= 1)%nat ->
  len (enc_all s) <= Z.max m (26 + maxPayload).
Proof.
  assert (0 <= maxPayload) by (vm_compute; congruence).
  intros Hok [H'|H']; [lia|]. destruct s as [|f [|g s]]; [cbn; lia| |cbn in H'; lia].
  inversion Hok as [|? ? [Hf _]]; subst. destruct Hf as [_ _ Hl].
  cbn [enc_all map concat]. rewrite app_nil_r, length_appendTo. unfold headerLen, crcLen. cbn [length]. lia.
Qed.

(** * The invariant of the system *)

Lemma data_len_nonneg f : 0 <= data_len f.
Proof. unfold data_len. destruct (decide _); lia. Qed.

Lemma data_total_app a b : data_total (a ++ b) = data_total a + data_total b.
Proof. induction a as [|f a IH]; cbn; [done|]. fold (data_total (a ++ b)) (data_total a). lia. Qed.

(** The data end recorded with a closed segment covers all DATA up to its end. *)
Definition reap_acc (l : slog) (w : segWriter) : Prop :=
  forall e, e ∈ w_reapOff w ->
    data_total (concat (take (S (Z.to_nat (se_idx e))) (lg_closed l))) <= se_dataEnd e.

(** The writer's parameters are those of its configuration. *)
Definition w_params (rc : resolvedConfig) (w : segWriter) : Prop :=
  w_maxSeg w = rc_segmentSize rc /\ w_netFS w = rc_netFS rc /\ w_syncEnb w = rc_sync rc.

Lemma w_params_same rc w w' : w_params rc w -> same_params w w' -> w_params rc w'.
Proof. unfold w_params, same_params. intros (<- & <- & <-) (-> & -> & ->). done. Qed.

Record pipe_at (rc : resolvedConfig) (l : slog) (p : pipe) : Prop := {
  pa_frames : lg_frames l = pp_sent p;
  pa_params : w_params rc (pp_w p);
  pa_writer : writer_at l (pp_w p) (pp_fs p);
  pa_reader : reader_at l (fun k => k) (pp_got p) (pp_r p);
  pa_sized : log_sized (rc_segmentSize rc) l;
  pa_acc : reap_acc l (pp_w p)
}.

Lemma pipe_init_at rc netFS p : pipe_init rc netFS p -> pipe_at rc emptyLog p.
Proof.
  intros (Hw & Hr & Hs & Hg). destruct (newSegWriter_at rc) as (w & fs & E & Ha & Hm & Hn & Hsy & Hre & _).
  rewrite Hw in E. injection E as <- <-. split; [by rewrite Hs|done|done| | |].
  - rewrite Hr, Hg. apply reader_at_new.
  - constructor; [right; cbn; lia|constructor].
  - intros e He. rewrite Hre in He. inversion He.
Qed.

Lemma reap_acc_append m l w w' f :
  (forall e, e ∈ w_reapOff w -> 0 <= se_idx e < len (lg_closed l)) -> w_cur w = len (lg_closed l) ->
  w_reapOff w' = w_reapOff w ++
    (if log_rolls m l f then [mkSegEnd (w_cur w) (data_total (lg_frames l ++ [f]))] else []) ->
  reap_acc l w -> reap_acc (log_append m l f) w'.
Proof.
  intros Hr Hc Hw Ha e He. rewrite Hw in He. unfold log_append.
  destruct (log_rolls m l f); cbn [lg_closed].
  - apply elem_of_app in He as [He|He%list_elem_of_singleton].
    + rewrite take_app_le; [by apply Ha|]. apply Hr in He. lia.
    + subst e. cbn [se_idx se_dataEnd]. rewrite Hc, Nat2Z.id, take_ge by (rewrite length_app; cbn; lia).
      rewrite concat_app. cbn [concat]. rewrite app_nil_r. fold (lg_frames l).
      rewrite data_total_app. cbn. pose proof (data_len_nonneg f). lia.
  - rewrite app_nil_r in He. by apply Ha.
Qed.

Lemma pipe_step_at rc l p p' : pipe_at rc l p -> pipe_step p p' -> exists l', pipe_at rc l' p'.
Proof.
  intros [Hf Hm Hw Hr Hsz Hac] Hst. destruct Hst as
    [w fs r sent got f dataEnd w' fs' Hfo Hcnt -> E|w fs r sent got a w' fs' E
    |w fs r sent got w' fs' E|w fs r sent got w' fs' E|w fs r sent got w' fs' E
    |w fs r sent got v r' res Hv Hre E];
    cbn [pp_w pp_fs pp_r pp_sent pp_got] in *.
  - destruct (append_at l w fs f (data_total (sent ++ [f])) Hw (append_open _ _ _ _ _ _ _ E) Hfo) as (w2 & fs2 & E2 & Hw2 & Hs2 & Hr2).
    { rewrite (wa_cur _ _ _ Hw) in Hcnt. lia. }
    rewrite E in E2. injection E2 as <- <-. rewrite (proj1 Hm) in *.
    exists (log_append (rc_segmentSize rc) l f). split; cbn [pp_w pp_fs pp_r pp_sent pp_got].
    + by rewrite lg_frames_append, Hf.
    + by eapply w_params_same.
    + done.
    + by apply reader_at_append.
    + by apply log_sized_append.
    + apply (reap_acc_append (rc_segmentSize rc) l w); [apply Hw|apply Hw|by rewrite Hf|done].
  - exists l. pose proof (reap_at l w fs a Hw) as Ha. rewrite E in Ha. destruct Ha as (Ha & Hs & Hre).
    split; cbn [pp_w pp_fs pp_r pp_sent pp_got]; try done; [by eapply w_params_same|].
    intros e He. rewrite Hre in He. apply elem_of_filter_bool in He as [He _]. by apply Hac.
  - exists l. pose proof Hw as Hw2. eapply timedFlush_at in Hw2 as (Hw2 & Hs & Hre); [|done].
    split; cbn [pp_w pp_fs pp_r pp_sent pp_got]; try done; [by eapply w_params_same|].
    unfold reap_acc. by rewrite Hre.
  - exists l. pose proof Hw as Hw2. eapply syncNow_at in Hw2 as (Hw2 & Hs & Hre); [|done].
    split; cbn [pp_w pp_fs pp_r pp_sent pp_got]; try done; [by eapply w_params_same|].
    unfold reap_acc. by rewrite Hre.
  - exists l. pose proof Hw as Hw2. eapply closeWriter_at in Hw2 as (Hw2 & Hs & Hre); [|done].
    split; cbn [pp_w pp_fs pp_r pp_sent pp_got]; try done; [by eapply w_params_same|].
    unfold reap_acc. by rewrite Hre.
  - exists l. destruct (nextIter_at l (fun k => k) (wa_ok _ _ _ Hw) v got r) as (r2 & res2 & E2 & _ & Hp);
      [by eapply view_of_ok|done|done|].
    rewrite E in E2. injection E2 as <- <-.
    split; cbn [pp_w pp_fs pp_r pp_sent pp_got]; try done.
    destruct res; cbn [got_of]; rewrite ?app_nil_r; [done|by destruct Hp|done].
Qed.

Lemma pipe_reach_at rc netFS p0 p :
  pipe_init rc netFS p0 -> star pipe_step p0 p -> exists l, pipe_at rc l p.
Proof.
  intros Hi Hs. apply pipe_init_at in Hi.
  eapply (star_inv pipe_step (fun p => exists l, pipe_at _ l p)); [|done|by eexists].
  intros a b [l Hl] Hst. by eapply pipe_step_at.
Qed.

(** * Flushing *)

(** When the writer forces data out at all (network mode or fsync per append),
    every byte of every file is synced, except bytes of the open segment while a
    flush is pending. *)
Definition flush_inv (w : segWriter) (fs : dirfs) : Prop :=
  w_netFS w || w_syncEnb w = true ->
  forall i nd, d_inodes fs !! i = Some nd ->
    i_synced nd = length (i_data nd)
    \/ (w_netFS w = true /\ w_flushTimer w = true /\ w_f w = Some (i, true)).

Lemma flush_inv_new rc w fs : newSegWriter true true rc emptyDir = Ok (w, fs) -> flush_inv w fs.
Proof.
  intros E. unfold newSegWriter, openCur, fs_open_append in E.
  cbn [negb emptyDir d_links w_cur] in E. rewrite lookup_empty in E. injection E as <- <-.
  intros _ i nd Hi. left. cbn in Hi.
  apply lookup_insert_Some in Hi as [[_ <-]|[_ Hi]]; [done|]. by rewrite lookup_empty in Hi.
Qed.

Lemma flush_inv_syncCur w w' fs :
  flush_inv w fs -> w_f w' = w_f w -> w_netFS w' = w_netFS w -> w_syncEnb w' = w_syncEnb w ->
  flush_inv w' (syncCur w fs)
  /\ (w_netFS w || w_syncEnb w = true ->
      forall i nd, d_inodes (syncCur w fs) !! i = Some nd -> i_synced nd = length (i_data nd)).
Proof.
  intros Hi E1 E2 E3.
  assert (w_netFS w || w_syncEnb w = true -> forall i nd,
    d_inodes (syncCur w fs) !! i = Some nd -> i_synced nd = length (i_data nd)) as Hall.
  { intros Hm i nd Hnd. unfold syncCur in Hnd. destruct (w_f w) as [[j []]|] eqn:Ef;
      [|destruct (Hi Hm i nd Hnd) as [|(_ & _ & ?)]; congruence..].
    unfold file_sync in Hnd. cbn [snd fst fs_sync d_inodes] in Hnd.
    apply lookup_alter_Some in Hnd as [(-> & x & _ & ->)|[Hne Hnd]]; [done|].
    destruct (Hi Hm i nd Hnd) as [|(_ & _ & ?)]; [done|congruence]. }
  split; [|done]. intros Hm. rewrite E2, E3 in Hm. intros i nd Hnd. left. by eapply Hall.
Qed.

Lemma flush_inv_roll dataEnd w fs w' fs' :
  flush_inv w fs -> w_closed w = false -> roll envOk dataEnd w fs = (None, w', fs') ->
  (forall i, d_links fs !! segName (u32 (w_cur w + 1)) = Some i -> False) ->
  flush_inv w' fs' /\ w_closed w' = false.
Proof.
  intros Hi Hcl E Hno. unfold roll in E. destruct (w_f w) as [[j []]|] eqn:Ef; [|done..].
  cbn [envOk ae_roll ae_open file_write snd fst] in E. unfold openCur, fs_open_append in E.
  cbn [w_set_cur w_set_reap w_set_file w_cur] in E.
  set (fs1 := fs_append j _ fs) in E.
  replace (d_links (if w_netFS w || w_syncEnb w then file_sync (j, true) fs1 else fs1))
    with (d_links fs) in E by (by destruct (_ || _)).
  destruct (d_links fs !! _) as [x|] eqn:El; [by edestruct Hno|]. injection E as <- <-.
  split; [|done]. intros Hm i nd Hnd. left. cbn [d_inodes] in Hnd.
  apply lookup_insert_Some in Hnd as [[_ <-]|[_ Hnd]]; [done|].
  cbn [w_set_cur w_set_reap w_set_file w_netFS w_syncEnb] in Hm. rewrite Hm in Hnd.
  unfold file_sync in Hnd. cbn [snd fst fs_sync d_inodes] in Hnd.
  apply lookup_alter_Some in Hnd as [(-> & x & _ & ->)|[Hne Hnd]]; [done|].
  unfold fs1, fs_append in Hnd. cbn [d_inodes] in Hnd. rewrite lookup_alter_ne in Hnd by done.
  destruct (Hi Hm i nd Hnd) as [|(_ & _ & ?)]; [done|congruence].
Qed.

Lemma flush_inv_appendCur f w fs w' fs' :
  flush_inv w fs -> appendCur envOk f w fs = (None, w', fs') -> flush_inv w' fs'.
Proof.
  intros Hi E. unfold appendCur in E. destruct (w_f w) as [[j []]|] eqn:Ef; [|done..].
  cbn [envOk ae_write file_write snd fst] in E.
  assert (forall i nd, i <> j -> w_netFS w || w_syncEnb w = true ->
    d_inodes (fs_append j (appendTo f []) fs) !! i = Some nd -> i_synced nd = length (i_data nd)) as Hne.
  { intros i nd Hij Hm Hnd. unfold fs_append in Hnd. cbn [d_inodes] in Hnd.
    rewrite lookup_alter_ne in Hnd by done.
    destruct (Hi Hm i nd Hnd) as [|(_ & _ & ?)]; [done|congruence]. }
  destruct (w_netFS w) eqn:Hnet; [|destruct (w_syncEnb w) eqn:Hsy].
  - injection E as <- <-. intros Hm i nd Hnd. destruct (decide (i = j)) as [->|Hij]; [|left; by eapply Hne].
    right. unfold armFlushLocked. destruct (w_flushTimer _) eqn:Et; cbn; by rewrite ?Hnet.
  - injection E as <- <-. intros _ i nd Hnd. left. unfold file_sync in Hnd.
    cbn [snd fst fs_sync d_inodes] in Hnd.
    apply lookup_alter_Some in Hnd as [(-> & x & _ & ->)|[Hij Hnd]]; [done|]. by eapply Hne.
  - injection E as <- <-. intros Hm. cbn [w_set_file w_netFS w_syncEnb] in Hm. by rewrite Hnet, Hsy in Hm.
Qed.

Lemma writer_next_free l w fs i : writer_at l w fs -> w_cur w + 1 < 2 ^ 32 ->
  d_links fs !! segName (u32 (w_cur w + 1)) = Some i -> False.
Proof.
  intros Hw Hn H. rewrite (wa_cur _ _ _ Hw) in *. rewrite u32_small in H by lia.
  apply (wa_links _ _ _ Hw) in H as [Hnm Hi].
  destruct Hi as [->|(e & He & Hei)]; [apply segName_inj in Hnm; lia|].
  apply (wa_reap _ _ _ Hw) in He. apply segName_inj in Hnm; lia.
Qed.

Lemma flush_inv_append l f dataEnd w fs w' fs' :
  flush_inv w fs -> writer_at l w fs -> w_cur w + 1 < 2 ^ 32 ->
  append envOk f dataEnd w fs = (None, w', fs') -> flush_inv w' fs'.
Proof.
  intros Hi Hw Hn E. unfold append in E. destruct (w_closed w) eqn:Hc; [done|].
  destruct (_ && _); [|by eapply flush_inv_appendCur].
  destruct (roll envOk dataEnd w fs) as [[[e|] w1] fs1] eqn:Er; [done|].
  eapply flush_inv_roll in Er as [Hi1 _]; [|done|done|intros; by eapply writer_next_free].
  by eapply flush_inv_appendCur.
Qed.

(** The flush callback and [close] leave nothing unsynced. *)
Lemma flush_inv_flush l w fs :
  writer_at l w fs -> flush_inv w fs -> w_netFS w || w_syncEnb w = true ->
  forall i nd, d_inodes (snd (timedFlush w fs)) !! i = Some nd -> i_synced nd = length (i_data nd).
Proof.
  intros Hw Hi Hm i nd. unfold timedFlush. cbn [w_set_timer w_closed].
  destruct (w_closed w) eqn:Hc; cbn [snd].
  - intros Hnd. destruct (Hi Hm i nd Hnd) as [|(_ & _ & E)]; [done|].
    rewrite (wa_f _ _ _ Hw), Hc in E. done.
  - apply (flush_inv_syncCur w w fs Hi); done.
Qed.

Lemma flush_inv_close l w fs :
  writer_at l w fs -> flush_inv w fs -> w_netFS w || w_syncEnb w = true ->
  forall i nd, d_inodes (snd (closeWriter w fs)) !! i = Some nd -> i_synced nd = length (i_data nd).
Proof.
  intros Hw Hi Hm i nd Hnd. unfold closeWriter in Hnd. destruct (w_closed w) eqn:Hc; cbn [snd] in Hnd.
  - destruct (Hi Hm i nd Hnd) as [|(_ & _ & E)]; [done|]. by rewrite (wa_f _ _ _ Hw), Hc in E.
  - assert (d_inodes (syncCur w fs) !! i = Some nd) as Hs.
    { unfold syncCur. destruct (w_flushTimer w) eqn:Et; cbn in Hnd; rewrite Et in Hnd; cbn in Hnd;
        rewrite (wa_f _ _ _ Hw) in Hnd |- *; cbn in Hnd; by rewrite Hm in Hnd. }
    by eapply (flush_inv_syncCur w w fs Hi).
Qed.

Lemma flush_inv_step rc l p p' :
  pipe_at rc l p -> flush_inv (pp_w p) (pp_fs p) -> pipe_step p p' -> flush_inv (pp_w p') (pp_fs p').
Proof.
  intros Ha Hi Hst. pose proof (pa_writer _ _ _ Ha) as Hw. destruct Hst as
    [w fs r sent got f dataEnd w' fs' Hfo Hcnt -> E|w fs r sent got a w' fs' E
    |w fs r sent got w' fs' E|w fs r sent got w' fs' E|w fs r sent got w' fs' E
    |w fs r sent got v r' res Hv Hre E];
    cbn [pp_w pp_fs] in *.
  - by eapply flush_inv_append.
  - unfold reap in E. pose proof (reapLoop_spec a (w_reapOff w) fs) as Hs.
    destruct (reapLoop _ _ _) as [kept fs2]. injection E as <- <-.
    destruct Hs as (_ & Hin & _). unfold flush_inv. by rewrite Hin.
  - pose proof (flush_inv_flush l w fs Hw Hi) as Hall.
    rewrite E in Hall. intros Hm i nd Hnd. left. eapply Hall; [|done].
    eapply timedFlush_at in E as (_ & (_ & <- & <-) & _); done.
  - unfold syncNow in E. injection E as <- <-.
    replace (syncCur (if w_flushTimer w then w_set_timer w false else w) fs) with (syncCur w fs)
      by (by destruct (w_flushTimer w)).
    apply (flush_inv_syncCur w); [done|by destruct (w_flushTimer w)..].
  - pose proof (flush_inv_close l w fs Hw Hi) as Hall.
    rewrite E in Hall. intros Hm i nd Hnd. left. eapply Hall; [|done].
    eapply closeWriter_at in E as (_ & (_ & <- & <-) & _); done.
  - done.
Qed.

Lemma pipe_reach_flush rc netFS p0 p :
  pipe_init rc netFS p0 -> star pipe_step p0 p ->
  exists l, pipe_at rc l p /\ flush_inv (pp_w p) (pp_fs p).
Proof.
  intros Hi Hs.
  eapply (star_inv pipe_step (fun p => exists l, pipe_at _ l p /\ flush_inv (pp_w p) (pp_fs p)));
    [|done|].
  - intros a b (l & Hl & Hf) Hst. destruct (pipe_step_at _ _ _ _ Hl Hst) as [l' Hl'].
    exists l'. split; [done|]. exact (flush_inv_step _ _ _ _ Hl Hf Hst).
  - exists emptyLog. split; [by eapply pipe_init_at|]. destruct Hi as [Hw _]. by eapply flush_inv_new.
Qed.

(** * A concrete run, for the witnesses *)

Definition demo_rc (netFS : bool) : resolvedConfig :=
  mkResolved (10 * Millisecond) (320 * Millisecond) (5 * Millisecond) netFS (5 * Second) (60 * Second)
    (30 * Second) 60 false (10 * Minute) (15 * Minute).

Definition run_init (netFS : bool) : pipe :=
  match newSegWriter true true (demo_rc netFS) emptyDir with
  | Ok (w, fs) => mkPipe w fs (newSegReader netFS) [] []
  | Err _ => mkPipe (mkSegWriter 0 false false 0 0 None 0 true [] false) emptyDir (newSegReader netFS) [] []
  end.

Definition run_append (f : frame) (p : pipe) : pipe :=
  let sent := pp_sent p ++ [f] in
  match append envOk f (data_total sent) (pp_w p) (pp_fs p) with
  | (_, w', fs') => mkPipe w' fs' (pp_r p) sent (pp_got p)
  end.

Definition run_pass (p : pipe) : pipe :=
  let '(r', res) := nextIter (full_view (pp_fs p)) (pp_r p) in
  mkPipe (pp_w p) (pp_fs p) r' (pp_sent p) (pp_got p ++ got_of res).

Definition run_reap (a : Z) (p : pipe) : pipe :=
  let '(w', fs') := reap a (pp_w p) (pp_fs p) in mkPipe w' fs' (pp_r p) (pp_sent p) (pp_got p).

Definition demo_data : frame := mkFrame frameDATA x00 1 0 [x68; x69].
Definition demo_beat : frame := mkFrame frameHeartbeat x00 2 2 (encodeUint64 77).

Lemma run_init_ok netFS : pipe_init (demo_rc netFS) netFS (run_init netFS).
Proof. done. Qed.

Lemma run_append_step f p w' fs' :
  frame_ok f -> w_cur (pp_w p) + 1 < 2 ^ 32 ->
  append envOk f (data_total (pp_sent p ++ [f])) (pp_w p) (pp_fs p) = (None, w', fs') ->
  pipe_step p (run_append f p).
Proof. intros Hf Hc E. unfold run_append. rewrite E. destruct p. by eapply ps_append. Qed.

Lemma run_pass_step p : (r_netFS (pp_r p) = true -> can_reopen (full_view (pp_fs p)) (pp_r p)) ->
  pipe_step p (run_pass p).
Proof.
  intros H. unfold run_pass. destruct (nextIter _ _) as [r' res] eqn:E. destruct p.
  eapply ps_pass; [apply full_view_of|done|done].
Qed.

Lemma run_reap_step a p : pipe_step p (run_reap a p).
Proof. unfold run_reap. destruct (reap a _ _) as [w' fs'] eqn:E. destruct p. by eapply ps_reap. Qed.

Lemma demo_data_ok : frame_ok demo_data.
Proof. split; [frame_wf_eval|discriminate]. Qed.

Lemma demo_beat_ok : frame_ok demo_beat.
Proof. split; [frame_wf_eval|discriminate]. Qed.

(** Append a DATA frame, let the reader take it in two passes, then append a
    heartbeat, which rolls to segment 1. *)
Definition demo_run (netFS : bool) : pipe :=
  run_append demo_beat (run_pass (run_pass (run_append demo_data (run_init netFS)))).

Lemma demo_reach netFS : star pipe_step (run_init netFS) (demo_run netFS).
Proof.
  unfold demo_run.
  eapply star_step; [eapply star_step; [eapply star_step; [eapply star_step; [apply star_refl|]|]|]|].
  - destruct netFS; (eapply run_append_step; [apply demo_data_ok|vm_compute; done|vm_compute; reflexivity]).
  - apply run_pass_step. destruct netFS; intros; vm_compute; congruence.
  - apply run_pass_step. destruct netFS; intros; vm_compute; congruence.
  - destruct netFS; (eapply run_append_step; [apply demo_beat_ok|vm_compute; done|vm_compute; reflexivity]).
Qed.

(** What a reap removes. *)
Lemma reap_removed rc l p a name i w' fs' :
  pipe_at rc l p -> reap a (pp_w p) (pp_fs p) = (w', fs') ->
  d_links (pp_fs p) !! name = Some i -> d_links fs' !! name = None ->
  name = segName (Z.of_nat i) /\ Z.of_nat i < w_cur (pp_w p)
  /\ exists before seg after, pp_sent p = before ++ seg ++ after
    /\ data_total (before ++ seg) <= a
    /\ fdata fs' i = Some (enc_all seg ++ appendTo (rollFrame (Z.of_nat (S i))) []).
Proof.
  intros [Hf _ Hw _ _ Hac] Hre Hl Hn.
  unfold reap in Hre. pose proof (reapLoop_spec a (w_reapOff (pp_w p)) (pp_fs p)) as Hsp.
  destruct (reapLoop _ _ _) as [kept fs2]. injection Hre as <- <-. destruct Hsp as (_ & Hin & _ & Hsp).
  pose proof Hl as Hl2. apply (wa_links _ _ _ Hw) in Hl2 as [-> Hcase]. split; [done|].
  pose proof (lok_count _ (wa_ok _ _ _ Hw)) as Hcnt.
  assert (exists e, e ∈ w_reapOff (pp_w p) /\ reaped a e = true /\ se_idx e = Z.of_nat i) as (e & He & Hra & Hei).
  { destruct (List.find (fun e => reaped a e && (se_idx e =? Z.of_nat i)) (w_reapOff (pp_w p))) as [e|] eqn:Hfd.
    - apply find_some in Hfd as [He Hb]. breflect. exists e. by rewrite list_elem_of_In.
    - exfalso. assert (d_links fs2 !! segName (Z.of_nat i) = Some i) as Hc; [|congruence].
      apply Hsp. split; [done|]. intros e He Hra Hnm. pose proof (wa_reap _ _ _ Hw e He) as Hrg.
      assert (Z.of_nat i <= len (lg_closed l))
        by (destruct Hcase as [->|(e2 & He2 & Hi2)]; [lia|apply (wa_reap _ _ _ Hw) in He2; lia]).
      apply segName_inj in Hnm; [|lia..].
      pose proof (find_none _ _ Hfd e (proj1 (list_elem_of_In _ _) He)) as Hb. cbn beta in Hb.
      by rewrite Hra, Hnm, Z.eqb_refl in Hb. }
  pose proof (wa_reap _ _ _ Hw e He) as Hrg. rewrite (wa_cur _ _ _ Hw). split; [lia|].
  destruct (lookup_lt_is_Some_2 (lg_closed l) i ltac:(lia)) as [seg Hseg].
  exists (concat (take i (lg_closed l))), seg, (concat (drop (S i) (lg_closed l)) ++ lg_cur l).
  split; [|split].
  - rewrite <- Hf. unfold lg_frames. rewrite <- (take_drop_middle _ _ _ Hseg) at 1.
    rewrite concat_app. cbn [concat]. by rewrite <- !app_assoc.
  - apply Hac in He as Ha. rewrite Hei, Nat2Z.id, (take_S_r _ _ _ Hseg), concat_app in Ha.
    cbn [concat] in Ha. rewrite app_nil_r in Ha. unfold reaped in Hra. breflect. lia.
  - unfold fdata. rewrite Hin. fold (fdata (pp_fs p) i).
    rewrite (wa_data _ _ _ Hw), (segBytes_closed _ _ _ Hseg) by lia.
    rewrite u32_small by lia. repeat f_equal. lia.
Qed.

(** * Properties *)

(** C4: one direction is a FIFO. However the writer's appends, rolls, flushes and
    reaps interleave with the reader's passes, and whatever prefixes of the files
    the reader sees, the frames it has returned are a prefix of the frames
    appended: in order, none lost, duplicated or altered. *)
Theorem seglog_fifo rc netFS p0 p :
  pipe_init rc netFS p0 -> star pipe_step p0 p -> pp_got p `prefix_of` pp_sent p.
Proof.
  intros Hi Hs. destruct (pipe_reach_at _ _ _ _ Hi Hs) as (l & [Hf _ _ Hr _ _]).
  rewrite <- Hf. by eapply reader_at_prefix.
Qed.

Lemma seglog_fifo_witness :
  pp_got (demo_run true) `prefix_of` pp_sent (demo_run true) /\ pp_got (demo_run true) = [demo_data].
Proof.
  split; [|vm_compute; reflexivity].
  exact (seglog_fifo (demo_rc true) true _ _ (run_init_ok true) (demo_reach true)).
Defined.

(** C8: the reader makes progress. While a frame is undelivered and the segments
    from the reader's on are still linked, a reader that sees the whole directory
    returns exactly the next frame, within two passes per segment ahead. *)
Theorem seglog_progress rc netFS p0 p :
  pipe_init rc netFS p0 -> star pipe_step p0 p -> pp_got p <> pp_sent p ->
  (forall k, r_cur (pp_r p) <= Z.of_nat k <= w_cur (pp_w p) ->
     d_links (pp_fs p) !! segName (Z.of_nat k) = Some k) ->
  exists n r' f, Z.of_nat n <= 2 * (w_cur (pp_w p) - r_cur (pp_r p)) + 2
    /\ next (replicate n (full_view (pp_fs p))) (pp_r p) = (r', Some (Ok f))
    /\ pp_sent p !! length (pp_got p) = Some f.
Proof.
  intros Hi Hs Hne Hlk. destruct (pipe_reach_at _ _ _ _ Hi Hs) as (l & [Hf _ Hw Hr _ _]).
  pose proof Hr as (k & pre & post & Hc & Hsg & _). apply lg_segs_last in Hsg.
  rewrite (wa_cur _ _ _ Hw) in *. rewrite Hc in *.
  assert (view_full l (fun k => k) k (full_view (pp_fs p))) as Hv.
  { eapply full_view_full; [done|]. intros j Hj. apply Hlk. lia. }
  pose proof (view_of_ok _ _ _ _ Hw (full_view_of (pp_fs p))) as Hvo.
  destruct (next_full l (fun k => k) (wa_ok _ _ _ Hw) k (full_view (pp_fs p)) (pp_got p) (pp_r p)
    (S (passes l (pp_r p))) Hv Hvo) as (r' & f & E & Hr'); [by rewrite Hc|done|congruence|lia|].
  exists (S (passes l (pp_r p))), r', f. split; [|split; [done|]].
  - unfold passes. rewrite Hc, Nat2Z.id. destruct (r_f (pp_r p)); [destruct (decide _)|]; lia.
  - apply reader_at_prefix in Hr'. rewrite Hf in Hr'. destruct Hr' as [t ->].
    rewrite <- app_assoc. rewrite lookup_app_r, Nat.sub_diag by lia. done.
Qed.

Lemma seglog_progress_witness :
  exists n r', next (replicate n (full_view (pp_fs (demo_run true)))) (pp_r (demo_run true))
    = (r', Some (Ok demo_beat)).
Proof.
  destruct (seglog_progress (demo_rc true) true _ _ (run_init_ok true) (demo_reach true))
    as (n & r' & f & _ & E & Hf).
  - vm_compute. discriminate.
  - intros k Hk. assert (k = 0 \/ k = 1)%nat as [->| ->];
      [|reflexivity|reflexivity].
    change (w_cur (pp_w (demo_run true))) with 1 in Hk. lia.
  - exists n, r'. rewrite E. vm_compute in Hf. injection Hf as <-. reflexivity.
Defined.

(** Reaping never touches data still needed. A name that a reap for the
    acknowledged offset [a] removes is a closed segment, all of whose DATA (and
    all before it) lies within the first [a] bytes of the stream; the file's
    bytes are untouched for a reader that still has it open. *)
Theorem seglog_reap_acked rc netFS p0 p a name i w' fs' :
  pipe_init rc netFS p0 -> star pipe_step p0 p ->
  reap a (pp_w p) (pp_fs p) = (w', fs') ->
  d_links (pp_fs p) !! name = Some i -> d_links fs' !! name = None ->
  name = segName (Z.of_nat i) /\ Z.of_nat i < w_cur (pp_w p)
  /\ exists before seg after, pp_sent p = before ++ seg ++ after
    /\ data_total (before ++ seg) <= a
    /\ fdata fs' i = Some (enc_all seg ++ appendTo (rollFrame (Z.of_nat (S i))) []).
Proof.
  intros Hi Hs. destruct (pipe_reach_at _ _ _ _ Hi Hs) as (l & Hat). by apply (reap_removed rc l).
Qed.

Lemma seglog_reap_acked_witness :
  exists before seg after, pp_sent (demo_run false) = before ++ seg ++ after
    /\ data_total (before ++ seg) <= 2.
Proof.
  destruct (seglog_reap_acked (demo_rc false) false _ _ 2 (segName 0) 0 _ _ (run_init_ok false)
    (demo_reach false) (surjective_pairing _)) as (_ & _ & b & s & t & H1 & H2 & _).
  - vm_compute. reflexivity.
  - vm_compute. reflexivity.
  - exists b, s, t. split; assumption.
Defined.

(** Segment files stay bounded: no file of the direction is longer than the
    configured segment size (or one maximal frame, if larger) plus the 30 bytes of
    its ROLL frame. *)
Theorem seglog_segment_bound rc netFS p0 p i d :
  pipe_init rc netFS p0 -> star pipe_step p0 p -> (Z.of_nat i <= w_cur (pp_w p)) ->
  fdata (pp_fs p) i = Some d ->
  len d <= Z.max (rc_segmentSize rc) (26 + maxPayload) + 30.
Proof.
  intros Hi Hs Hle Hd. destruct (pipe_reach_at _ _ _ _ Hi Hs) as (l & [_ _ Hw _ Hsz _]).
  rewrite (wa_cur _ _ _ Hw) in Hle. rewrite (wa_data _ _ _ Hw) in Hd by lia. injection Hd as <-.
  unfold segBytes. rewrite length_app.
  destruct (lookup_lt_is_Some_2 (lg_segs l) i) as [s Hsg].
  { unfold lg_segs. rewrite length_app. cbn. lia. }
  erewrite nth_lookup_Some by done.
  assert (len (enc_all s) <= Z.max (rc_segmentSize rc) (26 + maxPayload)).
  { apply enc_all_bound; [by eapply seg_frames_ok; [apply Hw|]|].
    eapply Forall_lookup_1 in Hsz; [|done]. done. }
  assert (len (rollBytes l i) <= 30); [|lia].
  unfold rollBytes. destruct (decide _); [|cbn; lia].
  rewrite length_appendTo. unfold rollFrame, encodeUint32. cbn [f_payload].
  rewrite length_be_put. vm_compute. congruence.
Qed.

Lemma seglog_segment_bound_witness : exists d,
  fdata (pp_fs (demo_run false)) 0 = Some d /\ len d <= Z.max 60 (26 + maxPayload) + 30.
Proof.
  destruct (fdata (pp_fs (demo_run false)) 0) as [d|] eqn:E; [|vm_compute in E; discriminate].
  exists d. split; [reflexivity|].
  apply (seglog_segment_bound (demo_rc false) false _ _ 0 d (run_init_ok false) (demo_reach false)).
  - vm_compute. discriminate.
  - exact E.
Defined.

(** No append is forgotten by the batched flush. In network mode (or with
    fsync per append) every unsynced byte belongs to the open segment and a flush
    is pending; the flush callback, [syncNow] and [close] each leave nothing
    unsynced. *)
Theorem seglog_flush rc netFS p0 p :
  pipe_init rc netFS p0 -> star pipe_step p0 p -> rc_netFS rc || rc_sync rc = true ->
  flush_inv (pp_w p) (pp_fs p)
  /\ forall fs', fs' = snd (timedFlush (pp_w p) (pp_fs p)) \/ fs' = snd (syncNow (pp_w p) (pp_fs p))
       \/ fs' = snd (closeWriter (pp_w p) (pp_fs p)) ->
     forall i nd, d_inodes fs' !! i = Some nd -> i_synced nd = length (i_data nd).
Proof.
  intros Hi Hs Hm. destruct (pipe_reach_flush _ _ _ _ Hi Hs) as (l & Ha & Hf).
  destruct Ha as [_ (_ & E1 & E2) Hw _ _ _]. split; [done|].
  assert (w_netFS (pp_w p) || w_syncEnb (pp_w p) = true) as Hm' by (by rewrite E1, E2).
  intros fs' [->|[->| ->]].
  - by eapply flush_inv_flush.
  - unfold syncNow. cbn [snd]. intros i nd Hnd.
    eapply (proj2 (flush_inv_syncCur (pp_w p) (pp_w p) _ Hf eq_refl eq_refl eq_refl) Hm').
    by destruct (w_flushTimer (pp_w p)).
  - by eapply flush_inv_close.
Qed.

Lemma seglog_flush_witness :
  let fs := snd (timedFlush (pp_w (demo_run true)) (pp_fs (demo_run true))) in
  exists nd, d_inodes fs !! 1%nat = Some nd /\ i_synced nd = length (i_data nd) /\ i_synced nd = 34%nat.
Proof.
  cbv zeta. eexists. split; [vm_compute; reflexivity|]. split; [|reflexivity].
  apply (proj2 (seglog_flush (demo_rc true) true _ _ (run_init_ok true) (demo_reach true) eq_refl)
    _ (or_introl eq_refl) 1%nat).
  vm_compute. reflexivity.
Defined.

Lemma next_stuck v r e n : nextIter v r = (r, RetErr e) -> next (replicate (S n) v) r = (r, Some (Err e)).
Proof. intros E. cbn [replicate next]. by rewrite E. Qed.

(** A view in which reopening the segment fails once, everything else visible. *)
Definition reopen_fails (fs : dirfs) : view :=
  mkView (v_open (full_view fs)) (fun _ => None) (v_size (full_view fs)) (v_data (full_view fs)).

(** A failed reopen makes the network-mode reader start its segment again.
    [fill] drops the file on a failed reopen and the next pass opens it at offset
    0, so a frame already returned is returned a second time. *)
Theorem seglog_reopen_redelivers :
  let p := run_pass (run_pass (run_append demo_data (run_init true))) in
  let '(r1, res1) := next [reopen_fails (pp_fs p)] (pp_r p) in
  pp_sent p = [demo_data] /\ pp_got p = [demo_data] /\ res1 = Some (Err ErrIncomplete)
  /\ exists r2, next (replicate 2 (full_view (pp_fs p))) r1 = (r2, Some (Ok demo_data)).
Proof. vm_compute. repeat split; try reflexivity. eexists. reflexivity. Qed.

(** In network mode a reap can strand the reader. A control frame that rolls
    the log records the data end already acknowledged, so the reader's own
    acknowledgement removes the segment whose ROLL it has not read; from then on
    every call of [next] reports a missing file although a frame is waiting. *)
Theorem seglog_reap_strands_reader :
  let p := run_reap 2 (demo_run true) in
  let r1 := fst (next [full_view (pp_fs p)] (pp_r p)) in
  star pipe_step (run_init true) p /\ data_total (pp_got p) = 2
  /\ pp_sent p = pp_got p ++ [demo_beat]
  /\ forall n, next (replicate (S n) (full_view (pp_fs p))) r1 = (r1, Some (Err ErrNotExist)).
Proof.
  cbv zeta. split; [eapply star_step; [apply demo_reach|apply run_reap_step]|].
  split; [vm_compute; reflexivity|]. split; [vm_compute; reflexivity|].
  intros n. apply next_stuck. vm_compute. reflexivity.
Qed.
