(* ===== verification/FsConn.v ===== *)
(** One end of a filesystem tunnel (transport/fstun/conn.go, and the handshake of
    dial.go): the send and receive state of a [Conn], flow control, the dispatch of
    received frames, heartbeats, and the SYN exchange that creates it. *)

From stdpp Require Import base gmap list numbers strings.
From Stdlib Require Import ZArith Lia.
From Stdlib.Strings Require Import Byte.
From S2P Require Import Prelude GoStr Frame FsConfig SegLog.

(** * State *)

Inductive role := roleInitiator | roleAcceptor.

#[export] Instance role_eq_dec : EqDecision role.
Proof. solve_decision. Defined.

Definition sendDir (r : role) : string :=
  match r with roleInitiator => "c2s" | roleAcceptor => "s2c" end.
Definition recvDir (r : role) : string :=
  match r with roleInitiator => "s2c" | roleAcceptor => "c2s" end.

(** Errors a caller of [Conn] can see. [CAppend] and [CReader] carry an error of
    the segment log, [CPeer] the reason of an ERROR frame. *)
Inductive connErr :=
| CClosed                     (* net.ErrClosed *)
| CEOF                        (* io.EOF *)
| CTimeout                    (* timeoutErr *)
| CAppend (e : ioErr)
| CReader (e : ioErr)
| CPeer (msg : list byte)
| CIdle (d : Z).

#[export] Instance connErr_eq_dec : EqDecision connErr.
Proof. solve_decision. Defined.

(** The fields guarded by [sendMu]. *)
Record sendState := mkSend {
  sendSeq : Z;       (* uint64 *)
  sentData : Z;      (* uint64 *)
  peerAck : Z;       (* uint64 *)
  lastAckSent : Z;   (* uint64 *)
  sendClosed : bool
}.

(** The fields guarded by [recvMu]. *)
Record recvState := mkRecv {
  recvBuf : list byte;
  recvData : Z;      (* uint64 *)
  recvEOF : bool;
  recvErr : option connErr
}.

(** [dataSig] and [flowSig] are channels of capacity one: a token is there or not.
    [closed], [recvDone] and [dead] are channels that are only ever closed. A zero
    deadline is [None]. *)
Record Conn := mkConn {
  c_cfg : resolvedConfig;
  c_connDir : string;
  c_role : role;
  c_params : synParams;
  c_w : segWriter;
  c_r : segReader;
  c_snd : sendState;
  c_rcv : recvState;
  c_dataSig : bool;
  c_flowSig : bool;
  c_rdDdl : option Z;
  c_wrDdl : option Z;
  c_lastRecv : Z;
  c_closeOnce : bool;
  c_closed : bool;
  c_recvDone : bool;
  c_dead : bool
}.

Definition c_set_w (c : Conn) (w : segWriter) : Conn :=
  mkConn (c_cfg c) (c_connDir c) (c_role c) (c_params c) w (c_r c) (c_snd c) (c_rcv c)
    (c_dataSig c) (c_flowSig c) (c_rdDdl c) (c_wrDdl c) (c_lastRecv c) (c_closeOnce c)
    (c_closed c) (c_recvDone c) (c_dead c).
Definition c_set_r (c : Conn) (r : segReader) : Conn :=
  mkConn (c_cfg c) (c_connDir c) (c_role c) (c_params c) (c_w c) r (c_snd c) (c_rcv c)
    (c_dataSig c) (c_flowSig c) (c_rdDdl c) (c_wrDdl c) (c_lastRecv c) (c_closeOnce c)
    (c_closed c) (c_recvDone c) (c_dead c).
Definition c_set_snd (c : Conn) (s : sendState) : Conn :=
  mkConn (c_cfg c) (c_connDir c) (c_role c) (c_params c) (c_w c) (c_r c) s (c_rcv c)
    (c_dataSig c) (c_flowSig c) (c_rdDdl c) (c_wrDdl c) (c_lastRecv c) (c_closeOnce c)
    (c_closed c) (c_recvDone c) (c_dead c).
Definition c_set_rcv (c : Conn) (s : recvState) : Conn :=
  mkConn (c_cfg c) (c_connDir c) (c_role c) (c_params c) (c_w c) (c_r c) (c_snd c) s
    (c_dataSig c) (c_flowSig c) (c_rdDdl c) (c_wrDdl c) (c_lastRecv c) (c_closeOnce c)
    (c_closed c) (c_recvDone c) (c_dead c).
Definition c_set_sigs (c : Conn) (data flow : bool) : Conn :=
  mkConn (c_cfg c) (c_connDir c) (c_role c) (c_params c) (c_w c) (c_r c) (c_snd c) (c_rcv c)
    data flow (c_rdDdl c) (c_wrDdl c) (c_lastRecv c) (c_closeOnce c)
    (c_closed c) (c_recvDone c) (c_dead c).
Definition c_set_ddl (c : Conn) (rd wr : option Z) : Conn :=
  mkConn (c_cfg c) (c_connDir c) (c_role c) (c_params c) (c_w c) (c_r c) (c_snd c) (c_rcv c)
    (c_dataSig c) (c_flowSig c) rd wr (c_lastRecv c) (c_closeOnce c)
    (c_closed c) (c_recvDone c) (c_dead c).
Definition c_set_lastRecv (c : Conn) (t : Z) : Conn :=
  mkConn (c_cfg c) (c_connDir c) (c_role c) (c_params c) (c_w c) (c_r c) (c_snd c) (c_rcv c)
    (c_dataSig c) (c_flowSig c) (c_rdDdl c) (c_wrDdl c) t (c_closeOnce c)
    (c_closed c) (c_recvDone c) (c_dead c).
Definition c_set_life (c : Conn) (once closed recvDone dead : bool) : Conn :=
  mkConn (c_cfg c) (c_connDir c) (c_role c) (c_params c) (c_w c) (c_r c) (c_snd c) (c_rcv c)
    (c_dataSig c) (c_flowSig c) (c_rdDdl c) (c_wrDdl c) (c_lastRecv c) once
    closed recvDone dead.

(** [newConn]; the goroutines it starts are [recvIter] and [maintTick] below. *)
Definition newConn (cfg : resolvedConfig) (connDir : string) (r : role) (w : segWriter)
    (sr : segReader) (sendSeq : Z) (params : synParams) (now : Z) : Conn :=
  mkConn cfg connDir r params w sr (mkSend sendSeq 0 0 0 false) (mkRecv [] 0 false None)
    false false None None now false false false false.

(** * The send path *)

Definition is_fin_or_error (typ : frameType) : bool :=
  bool_decide (typ = frameFIN) || bool_decide (typ = frameError).

(** [Conn.emit]: one critical section of [sendMu]. *)
Definition emit (env : appendEnv) (typ : frameType) (payload : list byte) (c : Conn) (fs : dirfs)
  : option connErr * Conn * dirfs :=
  let s := c_snd c in
  if sendClosed s && negb (is_fin_or_error typ) then (Some CClosed, c, fs) else
  let f := mkFrame typ x00 (sendSeq s) (sentData s) payload in
  let sent := if decide (typ = frameDATA) then u64 (sentData s + len payload) else sentData s in
  let s' := mkSend (u64 (sendSeq s + 1)) sent (peerAck s) (lastAckSent s) (sendClosed s) in
  let '(e, w, fs') := append env f sent (c_w c) fs in
  (CAppend <$> e, c_set_snd (c_set_w c w) s', fs').

(** [Conn.waitSendWindow] takes [sendMu], then [recvMu], then decides or blocks. *)
Definition windowSample (c : Conn) : bool * Z :=
  let s := c_snd c in
  (sendClosed s, i64 (i64 (p_window (c_params c)) - i64 (u64 (sentData s - peerAck s)))).

Inductive waitOut := WaitErr (e : connErr) | WaitRoom (room : Z) | WaitBlock.

Definition windowCheck (rerr : option connErr) (sample : bool * Z) : waitOut :=
  match rerr with
  | Some e => WaitErr e
  | None =>
      if fst sample then WaitErr CClosed
      else if snd sample >? 0 then WaitRoom (snd sample) else WaitBlock
  end.

(** One pass of [Conn.waitSendWindow] with nothing in between the two locks. *)
Definition waitSendWindow (c : Conn) : waitOut :=
  windowCheck (recvErr (c_rcv c)) (windowSample c).

(** How many bytes of [p] the next DATA frame takes. *)
Definition chunkSize (c : Conn) (room : Z) (p : list byte) : nat :=
  let n := len p in
  let n := if n >? room then room else n in
  let n := if n >? p_maxFrame (c_params c) then p_maxFrame (c_params c) else n in
  Z.to_nat n.

(** [Conn.Write] run alone, for as long as it does not block: bytes written, and
    whether it returned, failed, or waits for window with [rest] to go; [env n] is how
    the I/O of the chunk after [n] bytes comes out. *)
Inductive writeOut := WDone | WFailed (e : connErr) | WBlocked (rest : list byte).

Fixpoint Write (fuel : nat) (env : nat -> appendEnv) (p : list byte) (total : nat) (c : Conn) (fs : dirfs)
  : nat * writeOut * Conn * dirfs :=
  match p, fuel with
  | [], _ => (total, WDone, c, fs)
  | _, O => (total, WBlocked p, c, fs)
  | _, S fuel =>
      match waitSendWindow c with
      | WaitErr e => (total, WFailed e, c, fs)
      | WaitBlock => (total, WBlocked p, c, fs)
      | WaitRoom room =>
          let n := chunkSize c room p in
          match emit (env total) frameDATA (take n p) c fs with
          | (Some e, c1, fs1) => (total, WFailed e, c1, fs1)
          | (None, c1, fs1) => Write fuel env (drop n p) (total + n) c1 fs1
          end
      end
  end.

(** [Conn.sendAck]: the frame, then [lastAckSent] if it went out. *)
Definition markAck (upTo : Z) (c : Conn) : Conn :=
  let s := c_snd c in
  if upTo >? lastAckSent s
  then c_set_snd c (mkSend (sendSeq s) (sentData s) (peerAck s) upTo (sendClosed s)) else c.

Definition sendAck (env : appendEnv) (upTo : Z) (c : Conn) (fs : dirfs) : Conn * dirfs :=
  match emit env frameACK (encodeUint64 upTo) c fs with
  | (None, c1, fs1) => (markAck upTo c1, fs1)
  | (Some _, c1, fs1) => (c1, fs1)
  end.

(** [Conn.maybeAck]: whether the bytes read since the last ACK are a quarter window. *)
Definition ackDue (c : Conn) (rd : Z) : bool :=
  u64 (rd - lastAckSent (c_snd c)) >=? p_window (c_params c) / 4.

Definition maybeAck (env : appendEnv) (c : Conn) (fs : dirfs) : Conn * dirfs :=
  let rd := recvData (c_rcv c) in
  if ackDue c rd then sendAck env rd c fs else (c, fs).

(** * The receive path *)

(** [Conn.signal] on either channel. *)
Definition signalData (c : Conn) : Conn := c_set_sigs c true (c_flowSig c).
Definition signalFlow (c : Conn) : Conn := c_set_sigs c (c_dataSig c) true.

Definition markDead (c : Conn) : Conn :=
  c_set_life c (c_closeOnce c) (c_closed c) (c_recvDone c) true.

Definition failRecv (err : connErr) (c : Conn) : Conn :=
  let s := c_rcv c in
  let c1 := match recvErr s with
            | None => c_set_rcv c (mkRecv (recvBuf s) (recvData s) (recvEOF s) (Some err))
            | Some _ => c
            end in
  markDead (signalFlow (signalData c1)).

Definition defaultPeerError : list byte := String.list_byte_of_string "peer signalled error".

(** [Conn.dispatch]; an ACK also reaps the directory [fs] this end writes. *)
Definition dispatch (f : frame) (c : Conn) (fs : dirfs) : Conn * dirfs :=
  let s := c_rcv c in
  if decide (f_typ f = frameDATA) then
    (signalData (c_set_rcv c (mkRecv (recvBuf s ++ f_payload f) (recvData s) (recvEOF s) (recvErr s))), fs)
  else if decide (f_typ f = frameACK) then
    match decodeUint64 (f_payload f) with
    | None => (c, fs)
    | Some v =>
        let d := c_snd c in
        let ack := if v >? peerAck d then v else peerAck d in
        let c1 := c_set_snd c (mkSend (sendSeq d) (sentData d) ack (lastAckSent d) (sendClosed d)) in
        let '(w, fs') := reap ack (c_w c1) fs in
        (signalFlow (c_set_w c1 w), fs')
    end
  else if decide (f_typ f = frameFIN) then
    (signalData (c_set_rcv c (mkRecv (recvBuf s) (recvData s) true (recvErr s))), fs)
  else if decide (f_typ f = frameError) then
    (failRecv (CPeer (match f_payload f with [] => defaultPeerError | m => m end)) c, fs)
  else (c, fs).

(** One critical section of [Conn.Read] with a buffer of [plen] bytes. *)
Inductive readOut := RData (bs : list byte) (c : Conn) | RErr (e : connErr) | RBlock.

Definition readTry (plen : nat) (c : Conn) : readOut :=
  let s := c_rcv c in
  match recvBuf s with
  | _ :: _ =>
      let n := Nat.min plen (length (recvBuf s)) in
      RData (take n (recvBuf s))
        (c_set_rcv c (mkRecv (drop n (recvBuf s)) (u64 (recvData s + Z.of_nat n)) (recvEOF s) (recvErr s)))
  | [] =>
      match recvErr s with
      | Some e => RErr e
      | None => if recvEOF s then RErr CEOF else RBlock
      end
  end.

(** [Conn.Read] run alone, up to the point where it would block. *)
Definition Read (env : appendEnv) (plen : nat) (c : Conn) (fs : dirfs)
  : option (result connErr (list byte)) * Conn * dirfs :=
  match readTry plen c with
  | RData bs c1 => let '(c2, fs2) := maybeAck env c1 fs in (Some (Ok bs), c2, fs2)
  | RErr e => (Some (Err e), c, fs)
  | RBlock => (None, c, fs)
  end.

(** The select of a blocked [Read] (or [Write], on the flow signal): the token,
    the deadline, or [closed]; [None] keeps waiting. *)
Definition deadline (read : bool) (c : Conn) : option Z := if read then c_rdDdl c else c_wrDdl c.

Inductive wakeOut := Retry (c : Conn) | Return_ (e : connErr).

Definition blockedReady (read : bool) (now : Z) (c : Conn) : list wakeOut :=
  (if (if read then c_dataSig c else c_flowSig c)
   then [Retry (if read then c_set_sigs c false (c_flowSig c) else c_set_sigs c (c_dataSig c) false)]
   else [])
  ++ (match deadline read c with Some d => if d <=? now then [Return_ CTimeout] else [] | None => [] end)
  ++ (if c_closed c then [Return_ CClosed] else []).

(** [SetDeadline], [SetReadDeadline] and [SetWriteDeadline]. *)
Definition wake (c : Conn) : Conn := signalFlow (signalData c).
Definition SetDeadline (t : option Z) (c : Conn) : Conn := wake (c_set_ddl c t t).
Definition SetReadDeadline (t : option Z) (c : Conn) : Conn := wake (c_set_ddl c t (c_wrDdl c)).
Definition SetWriteDeadline (t : option Z) (c : Conn) : Conn := wake (c_set_ddl c (c_rdDdl c) t).

(** An error of [next] that [recvLoop] waits out. *)
Definition waitable (e : ioErr) : bool :=
  match e with ErrIncomplete | ErrNotExist => true | _ => false end.

(** The adaptive poll of [Conn.recvLoop]. *)
Definition pollNext (max cur : Z) : Z :=
  if cur <? max then let cur := i64 (cur * 2) in if cur >? max then max else cur else cur.

Inductive loopOut := LContinue | LSleep | LReturn.

(** One iteration of [Conn.recvLoop], up to its sleep: [cur] is the poll interval,
    [vs] what the passes of [next] see, [fs] the directory this end writes. *)
Definition recvIter (now : Z) (vs : list view) (cur : Z) (c : Conn) (fs : dirfs)
  : option (Conn * dirfs * Z * loopOut) :=
  if c_closed c then Some (c, fs, cur, LReturn) else
  match next vs (c_r c) with
  | (_, None) => None
  | (r, Some (Ok f)) =>
      let '(c1, fs1) := dispatch f (c_set_lastRecv (c_set_r c r) now) fs in
      Some (c1, fs1, rc_pollInterval (c_cfg c),
        if decide (f_typ f = frameError) then LReturn else LContinue)
  | (r, Some (Err e)) =>
      if waitable e then Some (c_set_r c r, fs, pollNext (rc_pollMax (c_cfg c)) cur, LSleep)
      else Some (failRecv (CReader e) (c_set_r c r), fs, cur, LReturn)
  end.

(** One tick of [Conn.maintLoop]; the last component is whether the loop goes on. *)
Definition idle (now : Z) (c : Conn) : bool := now - c_lastRecv c >? rc_idleTimeout (c_cfg c).

Definition maintTick (env1 env2 : appendEnv) (now : Z) (c : Conn) (fs : dirfs) : Conn * dirfs * bool :=
  if idle now c then (failRecv (CIdle (rc_idleTimeout (c_cfg c))) c, fs, false) else
  let rd := recvData (c_rcv c) in
  let '(c1, fs1) := if rd >? lastAckSent (c_snd c) then sendAck env1 rd c fs else (c, fs) in
  let '(_, c2, fs2) := emit env2 frameHeartbeat (encodeUint64 (u64 now)) c1 fs1 in
  (c2, fs2, true).

(** [Conn.Close], in the order of its statements; [closeRest] runs once [recvLoop]
    is gone. *)
Definition closeSend (c : Conn) : Conn :=
  let s := c_snd c in
  c_set_snd c (mkSend (sendSeq s) (sentData s) (peerAck s) (lastAckSent s) true).
Definition closeChan (c : Conn) : Conn :=
  c_set_life c (c_closeOnce c) true (c_recvDone c) (c_dead c).
Definition closeRest (c : Conn) (fs : dirfs) : Conn * dirfs :=
  let '(w, fs') := closeWriter (c_w c) fs in
  (markDead (c_set_r (c_set_w c w) (closeReader (c_r c))), fs').

Definition Close (env : appendEnv) (c : Conn) (fs : dirfs) : Conn * dirfs :=
  if c_closeOnce c then (c, fs) else
  let c := c_set_life c true (c_closed c) (c_recvDone c) (c_dead c) in
  let '(_, c1, fs1) := emit env frameFIN [] c fs in
  let c2 := closeChan (closeSend c1) in
  closeRest (c_set_life c2 true true true (c_dead c2)) fs1.

(** * The handshake (dial.go) *)

Inductive hsErr :=
| HsSendDir (e : ioErr)
| HsWriteSYN (e : ioErr)
| HsExpectedSYN (typ : frameType)
| HsBadParams
| HsReading (e : ioErr)
| HsTimeout
| HsCancelled
| HsVersion (v : Z).

(** What one turn of [waitSYN]'s loop meets: what [next] sees, whether the
    deadline has passed after it, and whether the context ends before the poll. *)
Record synPoll := mkPoll { sp_views : list view; sp_late : bool; sp_cancelled : bool }.

(** [waitSYN]; [None] when the turns given run out. *)
Definition synFrame (f : frame) : result hsErr synParams :=
  if decide (f_typ f = frameSYN) then
    match decodeSynParams (f_payload f) with Some p => Ok p | None => Err HsBadParams end
  else Err (HsExpectedSYN (f_typ f)).

Fixpoint waitSYN (polls : list synPoll) (sr : segReader) : option (result hsErr synParams * segReader) :=
  match polls with
  | [] => None
  | p :: polls =>
      match next (sp_views p) sr with
      | (_, None) => None
      | (sr1, Some (Ok f)) => Some (synFrame f, sr1)
      | (sr1, Some (Err e)) =>
          if negb (waitable e) then Some (Err (HsReading e), sr1)
          else if sp_late p then Some (Err HsTimeout, sr1)
          else if sp_cancelled p then Some (Err HsCancelled, sr1)
          else waitSYN polls sr1
      end
  end.

(** [handshake]'s last step: the version check on the peer's SYN. *)
Definition checkVersion (peer : synParams) : result hsErr synParams :=
  if p_version peer >? protocolVersion then Err (HsVersion (p_version peer)) else Ok peer.

Definition synOf (params : synParams) : frame := mkFrame frameSYN x00 0 0 (encodeSynParams params).

(** The first half of [handshake]: the send direction with our SYN in it. *)
Definition openSend (mkdir_ok open_ok : bool) (env : appendEnv) (rc : resolvedConfig)
    (params : synParams) (fs : dirfs) : result hsErr segWriter * dirfs :=
  match newSegWriter mkdir_ok open_ok rc fs with
  | Err e => (Err (HsSendDir e), fs)
  | Ok (w, fs1) =>
      match append env (synOf params) 0 w fs1 with
      | (Some e, w1, fs2) => (Err (HsWriteSYN e), snd (closeWriter w1 fs2))
      | (None, w1, fs2) => let '(w2, fs3) := syncNow w1 fs2 in (Ok w2, fs3)
      end
  end.

(** [handshake]: [marker_ok] is the outcome of writing the inbox marker; the
    returned flag is whether the doorbell was rung. *)
Definition handshake (mkdir_ok open_ok marker_ok : bool) (env : appendEnv) (polls : list synPoll)
    (now : Z) (rc : resolvedConfig) (params : synParams) (connDir : string) (r : role) (fs : dirfs)
  : option (result hsErr Conn * dirfs * bool) :=
  match openSend mkdir_ok open_ok env rc params fs with
  | (Err e, fs1) => Some (Err e, fs1, false)
  | (Ok w, fs1) =>
      let rang := bool_decide (r = roleInitiator) && marker_ok in
      match waitSYN polls (newSegReader (rc_netFS rc)) with
      | None => None
      | Some (res, sr) =>
          match (let? peer := res in checkVersion peer) with
          | Err e => Some (Err e, snd (closeWriter w fs1), rang)
          | Ok _ => Some (Ok (newConn rc connDir r w sr 1 params now), fs1, rang)
          end
      end
  end.

(** * Lemmas *)

Lemma chunkSize_spec c room p : 0 < room -> 0 < p_maxFrame (c_params c) -> p <> [] ->
  (0 < chunkSize c room p <= length p)%nat /\ Z.of_nat (chunkSize c room p) <= room
  /\ Z.of_nat (chunkSize c room p) <= p_maxFrame (c_params c).
Proof.
  intros Hr Hm Hp. assert (0 < len p) by (destruct p; [done|cbn; lia]).
  unfold chunkSize. rewrite !Z.gtb_ltb.
  repeat case_match; breflect; lia.
Qed.

Lemma chunkSize_le c room p : 0 < room -> Z.of_nat (chunkSize c room p) <= room.
Proof.
  intros Hr. unfold chunkSize. rewrite !Z.gtb_ltb.
  repeat case_match; breflect; lia.
Qed.

Lemma append_closed_same env f dataEnd w fs e w' fs' :
  append env f dataEnd w fs = (e, w', fs') -> w_closed w' = w_closed w.
Proof.
  unfold append. destruct (w_closed w) eqn:Hc; [by injection 1 as <- <- <-|].
  assert (forall w1 fs1, appendCur env f w1 fs1 = (e, w', fs') -> w_closed w' = w_closed w1) as Hcur.
  { intros w1 fs1. unfold appendCur. destruct (w_f w1); [|by injection 1 as <- <- <-].
    destruct (file_write _ _ _ _) as [[]]; [by injection 1 as <- <- <-|].
    unfold armFlushLocked. destruct (w_netFS w1), (w_syncEnb w1);
      try (by injection 1 as <- <- <-); cbn; destruct (w_flushTimer w1); by injection 1 as <- <- <-. }
  destruct (_ && _); [|intros E; by rewrite (Hcur _ _ E)].
  destruct (roll env dataEnd w fs) as [[re w1] fs1] eqn:Er.
  assert (w_closed w1 = w_closed w) as Hr.
  { unfold roll in Er. destruct (w_f w); [|by injection Er as <- <- <-].
    destruct (file_write _ _ _ _) as [[]]; [by injection Er as <- <- <-|].
    unfold openCur in Er. destruct (ae_open env); [|by injection Er as <- <- <-].
    destruct (fs_open_append _ _). by injection Er as <- <- <-. }
  destruct re; [injection 1 as <- <- <-; congruence|]. intros E. rewrite (Hcur _ _ E). congruence.
Qed.

(** One DATA frame goes out on an open connection. *)
Lemma emit_data_at l c fs payload :
  writer_at l (c_w c) fs -> w_closed (c_w c) = false -> sendClosed (c_snd c) = false ->
  0 <= sendSeq (c_snd c) < 2 ^ 64 -> 0 <= sentData (c_snd c) -> sentData (c_snd c) + len payload < 2 ^ 63 ->
  len payload <= maxPayload -> Z.of_nat (S (length (lg_closed l))) < 2 ^ 32 ->
  exists w fs', let f := mkFrame frameDATA x00 (sendSeq (c_snd c)) (sentData (c_snd c)) payload in
    emit envOk frameDATA payload c fs
    = (None, c_set_snd (c_set_w c w) (mkSend (u64 (sendSeq (c_snd c) + 1)) (sentData (c_snd c) + len payload)
               (peerAck (c_snd c)) (lastAckSent (c_snd c)) false), fs')
    /\ writer_at (log_append (w_maxSeg (c_w c)) l f) w fs' /\ w_closed w = false.
Proof.
  intros Hw Ho Hs Hq Hd Hb Hp Hn. unfold emit. rewrite Hs. cbn [andb]. rewrite decide_True by done.
  rewrite u64_small by lia.
  set (f := mkFrame _ _ _ _ _).
  assert (frame_ok f) as Hf.
  { split; [split; cbn; lia|]. unfold f. cbn. discriminate. }
  destruct (append_at l (c_w c) fs f (sentData (c_snd c) + len payload) Hw Ho Hf Hn)
    as (w & fs' & E & Hw' & Hsp & _).
  exists w, fs'. rewrite E. split; [done|]. split; [done|].
  by rewrite (append_closed_same _ _ _ _ _ _ _ _ E).
Qed.

Lemma lg_closed_append m l f : (length (lg_closed (log_append m l f)) <= S (length (lg_closed l)))%nat.
Proof. unfold log_append. destruct (log_rolls m l f); cbn; [rewrite length_app; cbn|]; lia. Qed.

(** The state in which a [Write] runs: an open connection, counters in range. *)
Record write_ok (l : slog) (c : Conn) (fs : dirfs) (p : list byte) : Prop := {
  wo_writer : writer_at l (c_w c) fs;
  wo_open : w_closed (c_w c) = false;
  wo_send : sendClosed (c_snd c) = false;
  wo_err : recvErr (c_rcv c) = None;
  wo_window : 0 < p_window (c_params c) < 2 ^ 63;
  wo_maxFrame : 0 < p_maxFrame (c_params c) <= maxPayload;
  wo_seq : 0 <= sendSeq (c_snd c) < 2 ^ 64;
  wo_ack : 0 <= peerAck (c_snd c) <= sentData (c_snd c);
  wo_flow : sentData (c_snd c) - peerAck (c_snd c) <= p_window (c_params c);
  wo_bytes : sentData (c_snd c) + len p < 2 ^ 63;
  wo_segs : len (lg_closed l) + len p < 2 ^ 32
}.

Definition freeWindow (c : Conn) : Z :=
  p_window (c_params c) - (sentData (c_snd c) - peerAck (c_snd c)).

Lemma waitSendWindow_ok l c fs p : write_ok l c fs p ->
  waitSendWindow c = if freeWindow c >? 0 then WaitRoom (freeWindow c) else WaitBlock.
Proof.
  intros []. unfold waitSendWindow, windowSample, windowCheck, freeWindow.
  by rewrite wo_err0, wo_send0, (u64_small (_ - _)), (i64_small (p_window _)), (i64_small (sentData _ - _)), i64_small by lia.
Qed.

(** What a run of [Write] leaves: [n] bytes of [p] sent as DATA frames. *)
Record wrote (l : slog) (c : Conn) (p : list byte) (n : nat) (c' : Conn) (fs' : dirfs) : Prop := {
  wr_log : exists l' chunks, writer_at l' (c_w c') fs' /\ lg_frames l' = lg_frames l ++ chunks
    /\ concat (map f_payload chunks) = take n p
    /\ Forall (fun f => f_typ f = frameDATA /\ 0 < len (f_payload f) <= p_maxFrame (c_params c)) chunks;
  wr_sent : sentData (c_snd c') = sentData (c_snd c) + Z.of_nat n
}.

Lemma wrote_none l c fs p : writer_at l (c_w c) fs -> wrote l c p 0 c fs.
Proof. intros. split; [|lia]. exists l, []. rewrite app_nil_r. eauto. Qed.

Lemma wrote_step m l c p k n w c' fs' s :
  let f := mkFrame frameDATA x00 (sendSeq (c_snd c)) (sentData (c_snd c)) (take k p) in
  (0 < k <= length p)%nat -> Z.of_nat k <= p_maxFrame (c_params c) ->
  sentData s = sentData (c_snd c) + len (take k p) ->
  wrote (log_append m l f) (c_set_snd (c_set_w c w) s) (drop k p) n c' fs' -> wrote l c p (k + n) c' fs'.
Proof.
  intros f Hk Hm Hs [(l' & chunks & Hw & Hf & Hc & Hall) E].
  cbn [c_set_snd c_set_w c_snd c_params] in *.
  assert (len (take k p) = Z.of_nat k) as Hl by (rewrite length_take; lia).
  split; [|lia]. exists l', (f :: chunks). split; [done|]. split; [|split].
  - by rewrite Hf, lg_frames_append, <- app_assoc.
  - cbn [map concat]. rewrite Hc. cbn [f f_payload]. apply take_take_drop.
  - constructor; [|done]. cbn [f f_typ f_payload]. split; [done|]. lia.
Qed.

(** One round of the loop of [Write]. *)
Lemma Write_round fuel env p total c fs : p <> [] -> Write (S fuel) env p total c fs =
  match waitSendWindow c with
  | WaitErr e => (total, WFailed e, c, fs)
  | WaitBlock => (total, WBlocked p, c, fs)
  | WaitRoom room =>
      let n := chunkSize c room p in
      match emit (env total) frameDATA (take n p) c fs with
      | (Some e, c1, fs1) => (total, WFailed e, c1, fs1)
      | (None, c1, fs1) => Write fuel env (drop n p) (total + n) c1 fs1
      end
  end.
Proof. by destruct p. Qed.

Lemma Write_run fuel : forall l c fs p total, write_ok l c fs p -> (length p <= fuel)%nat ->
  let n := Z.to_nat (Z.min (len p) (freeWindow c)) in
  exists c' fs', Write fuel (fun _ => envOk) p total c fs
    = ((total + n)%nat, (if decide (n = length p) then WDone else WBlocked (drop n p)), c', fs')
    /\ wrote l c p n c' fs'.
Proof.
  induction fuel as [|fuel IH]; intros l c fs p total Hok Hfuel n.
  all: destruct p as [|x p'] eqn:Hp; [|rewrite <- Hp in *].
  1,3: exists c, fs; replace n with 0%nat by (unfold n; cbn; lia);
    rewrite Nat.add_0_r; split; [done|apply wrote_none, Hok].
  { rewrite Hp in Hfuel. cbn in Hfuel. lia. }
  rewrite Write_round by (by rewrite Hp).
  assert (0 < len p) as Hpos by (rewrite Hp; cbn; lia).
  rewrite (waitSendWindow_ok _ _ _ _ Hok), Z.gtb_ltb.
  destruct (0 <? freeWindow c) eqn:Hroom; breflect.
  2: { exists c, fs. assert (n = 0%nat) as -> by (unfold n, freeWindow in *; destruct Hok; lia).
    rewrite decide_False, Nat.add_0_r, drop_0 by lia. split; [done|apply wrote_none, Hok]. }
  destruct (chunkSize_spec c (freeWindow c) p) as (Hk & Hkr & Hkm);
    [done|apply Hok|by rewrite Hp|].
  set (k := chunkSize c (freeWindow c) p) in *. cbv zeta.
  assert (len (take k p) = Z.of_nat k) as Hlk by (rewrite length_take; lia).
  destruct (emit_data_at l c fs (take k p)) as (w & fs1 & E & Hw & Ho); [destruct Hok; try done; lia..|].
  rewrite E. set (c1 := c_set_snd _ _) in *.
  assert (freeWindow c1 = freeWindow c - Z.of_nat k) as Hf1
    by (unfold freeWindow, c1; cbn; rewrite Hlk; lia).
  pose proof (lg_closed_append (w_maxSeg (c_w c)) l (mkFrame frameDATA x00 (sendSeq (c_snd c))
    (sentData (c_snd c)) (take k p))) as Hlg.
  set (l1 := log_append _ _ _) in *.
  destruct (IH l1 c1 fs1 (drop k p) (total + k)%nat) as (c' & fs' & E2 & Hwr).
  - destruct Hok. unfold freeWindow in *. split; [exact Hw|exact Ho|done|done|done|done|apply u64_range|..];
      unfold c1; cbn [c_set_snd c_snd c_params c_set_w sentData peerAck];
      rewrite ?length_drop; lia.
  - rewrite length_drop. lia.
  - exists c', fs'. rewrite Hf1, length_drop in *.
    set (m := Z.to_nat (Z.min (Z.of_nat (length p - k)) (freeWindow c - Z.of_nat k))) in *.
    assert (n = (k + m)%nat) as -> by (subst n m; rewrite <- Hp; lia).
    rewrite E2, Nat.add_assoc. split;
      [|exact (wrote_step (w_maxSeg (c_w c)) l c p k m w c' fs' (c_snd c1) Hk Hkm eq_refl Hwr)].
    repeat f_equal. rewrite drop_drop.
    destruct (decide (m = length p - k)%nat), (decide (k + m = length p)%nat); try done; lia.
Qed.

(** * Properties *)

(** [Write] does what flow control allows and no more. On an open connection
    it sends exactly the first [n] bytes of its argument, where [n] is the smaller
    of the argument's length and the free window, as DATA frames of at most
    [maxFrame] bytes appended to the log; it returns when that is everything and
    otherwise waits with the rest, never failing or looping. *)
Theorem Write_spec l c fs p :
  write_ok l c fs p ->
  let n := Z.to_nat (Z.min (len p) (freeWindow c)) in
  exists c' fs', Write (length p) (fun _ => envOk) p 0 c fs
    = (n, (if decide (n = length p) then WDone else WBlocked (drop n p)), c', fs')
    /\ wrote l c p n c' fs'.
Proof. intros Hok. by apply (Write_run (length p) l c fs p 0 Hok). Qed.

(** A new connection on a fresh send direction. *)
Definition demo_conn (w : segWriter) : Conn :=
  newConn (mkResolved 1 1 1 false 1 1 1 60 false 1 1) "/gpfs/ccb/conn" roleInitiator w
    (newSegReader false) 1 (mkSynParams 1 60 8 4) 0.

Lemma Write_spec_witness :
  exists w fs c' fs', newSegWriter true true (mkResolved 1 1 1 false 1 1 1 60 false 1 1) emptyDir = Ok (w, fs)
    /\ Write 11 (fun _ => envOk) (String.list_byte_of_string "hello world") 0 (demo_conn w) fs
       = (8%nat, WBlocked (String.list_byte_of_string "rld"), c', fs').
Proof.
  destruct (newSegWriter_at (mkResolved 1 1 1 false 1 1 1 60 false 1 1)) as (w & fs & E & Hw & _).
  destruct (Write_spec emptyLog (demo_conn w) fs (String.list_byte_of_string "hello world"))
    as (c' & fs' & H & _).
  - split; try exact Hw; try (vm_compute; done); try (vm_compute; split; congruence).
    injection E as <- <-. reflexivity.
  - exists w, fs, c', fs'. split; [exact E|exact H].
Defined.

(** The poll interval after [k] empty checks in a row. *)
Lemma pollNext_iter k max cur : 0 < cur <= max -> max < 2 ^ 62 ->
  Nat.iter k (pollNext max) cur = Z.min (cur * 2 ^ Z.of_nat k) max.
Proof.
  intros Hc Hm. induction k as [|k IH]; [cbn; lia|].
  change (Nat.iter (S k) (pollNext max) cur) with (pollNext max (Nat.iter k (pollNext max) cur)).
  rewrite IH. unfold pollNext. rewrite Nat2Z.inj_succ, Z.pow_succ_r, Z.gtb_ltb by lia.
  assert (0 < 2 ^ Z.of_nat k) by lia. set (e := 2 ^ Z.of_nat k) in *. clearbody e.
  assert (cur * 1 <= cur * e) by (apply Z.mul_le_mono_nonneg_l; lia).
  replace (cur * (2 * e)) with (2 * (cur * e)) by ring.
  destruct (_ <? max) eqn:E1; breflect; [|lia]. rewrite i64_small by lia.
  destruct (max <? _) eqn:E2; breflect; lia.
Qed.

(** The receive loop's poll backs off exponentially to its cap. While every
    check finds nothing, the k-th sleep is the base interval times 2^k, capped at
    the maximum; a check that finds a frame sets the interval back to the base. *)
Theorem recvLoop_backoff k base max :
  0 < base <= max -> max < 2 ^ 62 ->
  Nat.iter k (pollNext max) base = Z.min (base * 2 ^ Z.of_nat k) max
  /\ forall now vs cur c fs c' fs' cur' f r,
       c_closed c = false -> next vs (c_r c) = (r, Some (Ok f)) ->
       recvIter now vs cur c fs = Some (c', fs', cur', LContinue) -> cur' = rc_pollInterval (c_cfg c).
Proof.
  intros Hb Hm. split; [by apply pollNext_iter|].
  intros now vs cur c fs c' fs' cur' f r Hc Hn E. unfold recvIter in E. rewrite Hc, Hn in E.
  destruct (dispatch _ _ _). by injection E as <- <- <- _.
Qed.

Lemma recvLoop_backoff_witness : Nat.iter 4 (pollNext (320 * Millisecond)) (10 * Millisecond) = 160 * Millisecond.
Proof.
  rewrite (proj1 (recvLoop_backoff 4 (10 * Millisecond) (320 * Millisecond) ltac:(vm_compute; split; congruence)
    ltac:(vm_compute; reflexivity))).
  vm_compute. reflexivity.
Defined.
