(* ===== verification/FsTunnel.v ===== *)
(** A tunnel: two [Conn]s (FsConn.v) over the two directions of one subtree, each
    direction with the writer and reader of SegLog.v. Every goroutine of both
    processes is a thread of one step relation, interleaved at the critical
    sections of the code. The theorems are about the byte stream between the two
    ends, flow control, end of file, and wake-ups. *)

From stdpp Require Import base gmap list numbers strings.
From Stdlib Require Import ZArith Lia.
From Stdlib.Strings Require Import Byte.
From S2P Require Import Prelude GoStr Frame FsConfig SegLog SegPipe FsConn.

(** * Threads *)

(** A caller of [Write]: in its loop with [p] to go, after the first lock of
    [waitSendWindow], with room for a chunk, or blocked in its select. *)
Inductive wrState :=
| WIdle | WLoop (p : list byte) | WSampled (p : list byte) (closed : bool) (room : Z)
| WChunk (p : list byte) (room : Z) | WWait (p : list byte).

(** A caller of [Read], through [maybeAck] and [sendAck]. *)
Inductive rdState :=
| RdIdle | RdWait | RdSample | RdDue (rd : Z) | RdSend (rd : Z) | RdMark (rd : Z).

(** [maintLoop]. *)
Inductive mtState :=
| MtIdle | MtDue (rd : Z) | MtSend (rd : Z) | MtMark (rd : Z) | MtBeat | MtStop.

(** [waitSYN], then [recvLoop]: reading, holding a frame for [dispatch], gone. *)
Inductive rvState := RvSyn | RvNext | RvGot (f : frame) | RvStop.

#[export] Instance rvState_stop_dec (x : rvState) : Decision (x = RvStop).
Proof. destruct x; [right; done..|left; done]. Defined.

(** [Close]: not called, FIN sent, [sendClosed] set, [closed] closed, returned. *)
Inductive clState := ClNo | ClFin | ClSend | ClChan | ClDone.

#[export] Instance clState_eq_dec : EqDecision clState.
Proof. solve_decision. Defined.

(** One process: the connection, the directory it writes, its threads, and as
    history the frames its writer appended and its reader returned, the bytes
    [Write] accepted and the bytes [Read] returned. *)
Record endpoint := mkEp {
  e_c : Conn;
  e_fs : dirfs;
  e_wr : wrState;
  e_rd : rdState;
  e_mt : mtState;
  e_rv : rvState;
  e_cl : clState;
  e_sent : list frame;
  e_got : list frame;
  e_written : list byte;
  e_read : list byte
}.

(** Bytes carried by the DATA frames of a list. *)
Definition data_of (f : frame) : list byte := if decide (f_typ f = frameDATA) then f_payload f else [].
Definition data_bytes (fs : list frame) : list byte := concat (map data_of fs).

Definition frameOf (typ : frameType) (payload : list byte) (c : Conn) : frame :=
  mkFrame typ x00 (sendSeq (c_snd c)) (sentData (c_snd c)) payload.

(** [emit] with its I/O succeeding and its counters within range. *)
Definition emits (typ : frameType) (payload : list byte) (c : Conn) (fs : dirfs) (sent : list frame)
    (ok : bool) (c' : Conn) (fs' : dirfs) (sent' : list frame) : Prop :=
  w_cur (c_w c) + 1 < 2 ^ 32 /\ sentData (c_snd c) + len payload < 2 ^ 63
  /\ exists e, emit envOk typ payload c fs = (e, c', fs')
  /\ match e with
     | None => ok = true /\ sent' = sent ++ [frameOf typ payload c]
     | Some CClosed => ok = false /\ sent' = sent
     | Some _ => False
     end.

Definition afterCheck (p : list byte) (o : waitOut) : wrState :=
  match o with WaitErr _ => WIdle | WaitRoom room => WChunk p room | WaitBlock => WWait p end.

(** What [recvLoop] does with the outcome of one pass of [next]. *)
Definition afterPass (now : Z) (res : iterRes) (c : Conn) : Conn * rvState :=
  match res with
  | Ret f => (c_set_lastRecv c now, RvGot f)
  | Continue => (c, RvNext)
  | RetErr e => if waitable e then (c, RvNext) else (failRecv (CReader e) c, RvStop)
  end.

Definition recvDone (c : Conn) : Conn := c_set_life c (c_closeOnce c) (c_closed c) true (c_dead c).

(** * Steps of one process *)

(** [fin] is the directory the peer writes. *)
Inductive ep_step (fin : dirfs) : endpoint -> endpoint -> Prop :=
| es_syn_wait c fs wr rd mt cl sent got wn rn v r' res :
    view_of fin v -> (r_netFS (c_r c) = true -> can_reopen v (c_r c)) ->
    nextIter v (c_r c) = (r', res) ->
    match res with Ret _ => False | RetErr e => waitable e = true | Continue => True end ->
    ep_step fin (mkEp c fs wr rd mt RvSyn cl sent got wn rn)
                (mkEp (c_set_r c r') fs wr rd mt RvSyn cl sent got wn rn)
| es_syn_ok c fs wr rd mt cl sent got wn rn v r' f peer now :
    view_of fin v -> (r_netFS (c_r c) = true -> can_reopen v (c_r c)) ->
    nextIter v (c_r c) = (r', Ret f) ->
    (let? p := synFrame f in checkVersion p) = Ok peer ->
    ep_step fin (mkEp c fs wr rd mt RvSyn cl sent got wn rn)
                (mkEp (c_set_lastRecv (c_set_r c r') now) fs wr rd mt RvNext cl sent (got ++ [f]) wn rn)
| es_write c fs rd mt rv cl sent got wn rn p :
    rv <> RvSyn ->
    ep_step fin (mkEp c fs WIdle rd mt rv cl sent got wn rn)
                (mkEp c fs (WLoop p) rd mt rv cl sent got wn rn)
| es_wdone c fs rd mt rv cl sent got wn rn :
    ep_step fin (mkEp c fs (WLoop []) rd mt rv cl sent got wn rn)
                (mkEp c fs WIdle rd mt rv cl sent got wn rn)
| es_sample c fs rd mt rv cl sent got wn rn p :
    p <> [] ->
    ep_step fin (mkEp c fs (WLoop p) rd mt rv cl sent got wn rn)
                (mkEp c fs (WSampled p (fst (windowSample c)) (snd (windowSample c)))
                   rd mt rv cl sent got wn rn)
| es_check c fs rd mt rv cl sent got wn rn p closed room :
    ep_step fin (mkEp c fs (WSampled p closed room) rd mt rv cl sent got wn rn)
                (mkEp c fs (afterCheck p (windowCheck (recvErr (c_rcv c)) (closed, room)))
                   rd mt rv cl sent got wn rn)
| es_wwake c fs rd mt rv cl sent got wn rn p now c' :
    Retry c' ∈ blockedReady false now c ->
    ep_step fin (mkEp c fs (WWait p) rd mt rv cl sent got wn rn)
                (mkEp c' fs (WLoop p) rd mt rv cl sent got wn rn)
| es_wfail c fs rd mt rv cl sent got wn rn p now e :
    Return_ e ∈ blockedReady false now c ->
    ep_step fin (mkEp c fs (WWait p) rd mt rv cl sent got wn rn)
                (mkEp c fs WIdle rd mt rv cl sent got wn rn)
| es_data c fs rd mt rv cl sent got wn rn p room n ok c' fs' sent' :
    n = chunkSize c room p -> emits frameDATA (take n p) c fs sent ok c' fs' sent' ->
    ep_step fin (mkEp c fs (WChunk p room) rd mt rv cl sent got wn rn)
                (mkEp c' fs' (if ok then WLoop (drop n p) else WIdle) rd mt rv cl sent' got
                   (if ok then wn ++ take n p else wn) rn)
| es_read c fs wr mt rv cl sent got wn rn plen bs c' :
    rv <> RvSyn -> readTry plen c = RData bs c' ->
    ep_step fin (mkEp c fs wr RdIdle mt rv cl sent got wn rn)
                (mkEp c' fs wr RdSample mt rv cl sent got wn (rn ++ bs))
| es_rblock c fs wr mt rv cl sent got wn rn plen :
    rv <> RvSyn -> readTry plen c = RBlock ->
    ep_step fin (mkEp c fs wr RdIdle mt rv cl sent got wn rn)
                (mkEp c fs wr RdWait mt rv cl sent got wn rn)
| es_rwake c fs wr mt rv cl sent got wn rn now c' :
    Retry c' ∈ blockedReady true now c ->
    ep_step fin (mkEp c fs wr RdWait mt rv cl sent got wn rn)
                (mkEp c' fs wr RdIdle mt rv cl sent got wn rn)
| es_rret c fs wr mt rv cl sent got wn rn now e :
    Return_ e ∈ blockedReady true now c ->
    ep_step fin (mkEp c fs wr RdWait mt rv cl sent got wn rn)
                (mkEp c fs wr RdIdle mt rv cl sent got wn rn)
| es_rsample c fs wr mt rv cl sent got wn rn :
    ep_step fin (mkEp c fs wr RdSample mt rv cl sent got wn rn)
                (mkEp c fs wr (RdDue (recvData (c_rcv c))) mt rv cl sent got wn rn)
| es_rdue c fs wr mt rv cl sent got wn rn d :
    ep_step fin (mkEp c fs wr (RdDue d) mt rv cl sent got wn rn)
                (mkEp c fs wr (if ackDue c d then RdSend d else RdIdle) mt rv cl sent got wn rn)
| es_rsend c fs wr mt rv cl sent got wn rn d ok c' fs' sent' :
    emits frameACK (encodeUint64 d) c fs sent ok c' fs' sent' ->
    ep_step fin (mkEp c fs wr (RdSend d) mt rv cl sent got wn rn)
                (mkEp c' fs' wr (if ok then RdMark d else RdIdle) mt rv cl sent' got wn rn)
| es_rmark c fs wr mt rv cl sent got wn rn d :
    ep_step fin (mkEp c fs wr (RdMark d) mt rv cl sent got wn rn)
                (mkEp (markAck d c) fs wr RdIdle mt rv cl sent got wn rn)
| es_tick c fs wr rd rv cl sent got wn rn now :
    rv <> RvSyn ->
    ep_step fin (mkEp c fs wr rd MtIdle rv cl sent got wn rn)
                (if idle now c
                 then mkEp (failRecv (CIdle (rc_idleTimeout (c_cfg c))) c) fs wr rd MtStop rv cl sent got wn rn
                 else mkEp c fs wr rd (MtDue (recvData (c_rcv c))) rv cl sent got wn rn)
| es_mdue c fs wr rd rv cl sent got wn rn d :
    ep_step fin (mkEp c fs wr rd (MtDue d) rv cl sent got wn rn)
                (mkEp c fs wr rd (if d >? lastAckSent (c_snd c) then MtSend d else MtBeat)
                   rv cl sent got wn rn)
| es_msend c fs wr rd rv cl sent got wn rn d ok c' fs' sent' :
    emits frameACK (encodeUint64 d) c fs sent ok c' fs' sent' ->
    ep_step fin (mkEp c fs wr rd (MtSend d) rv cl sent got wn rn)
                (mkEp c' fs' wr rd (if ok then MtMark d else MtBeat) rv cl sent' got wn rn)
| es_mmark c fs wr rd rv cl sent got wn rn d :
    ep_step fin (mkEp c fs wr rd (MtMark d) rv cl sent got wn rn)
                (mkEp (markAck d c) fs wr rd MtBeat rv cl sent got wn rn)
| es_beat c fs wr rd rv cl sent got wn rn now ok c' fs' sent' :
    emits frameHeartbeat (encodeUint64 (u64 now)) c fs sent ok c' fs' sent' ->
    ep_step fin (mkEp c fs wr rd MtBeat rv cl sent got wn rn)
                (mkEp c' fs' wr rd MtIdle rv cl sent' got wn rn)
| es_mstop c fs wr rd rv cl sent got wn rn :
    c_closed c = true ->
    ep_step fin (mkEp c fs wr rd MtIdle rv cl sent got wn rn)
                (mkEp c fs wr rd MtStop rv cl sent got wn rn)
| es_pass c fs wr rd mt cl sent got wn rn v r' res now c' rv' :
    view_of fin v -> (r_netFS (c_r c) = true -> can_reopen v (c_r c)) ->
    nextIter v (c_r c) = (r', res) -> afterPass now res (c_set_r c r') = (c', rv') ->
    ep_step fin (mkEp c fs wr rd mt RvNext cl sent got wn rn)
                (mkEp (if decide (rv' = RvStop) then recvDone c' else c') fs wr rd mt rv' cl sent
                   (got ++ got_of res) wn rn)
| es_dispatch c fs wr rd mt cl sent got wn rn f c' fs' :
    dispatch f c fs = (c', fs') ->
    ep_step fin (mkEp c fs wr rd mt (RvGot f) cl sent got wn rn)
                (if decide (f_typ f = frameError)
                 then mkEp (recvDone c') fs' wr rd mt RvStop cl sent got wn rn
                 else mkEp c' fs' wr rd mt RvNext cl sent got wn rn)
| es_rvstop c fs wr rd mt cl sent got wn rn :
    c_closed c = true ->
    ep_step fin (mkEp c fs wr rd mt RvNext cl sent got wn rn)
                (mkEp (recvDone c) fs wr rd mt RvStop cl sent got wn rn)
| es_close_fin c fs wr rd mt rv sent got wn rn ok c' fs' sent' :
    rv <> RvSyn ->
    emits frameFIN [] (c_set_life c true (c_closed c) (c_recvDone c) (c_dead c)) fs sent ok c' fs' sent' ->
    ep_step fin (mkEp c fs wr rd mt rv ClNo sent got wn rn)
                (mkEp c' fs' wr rd mt rv ClFin sent' got wn rn)
| es_close_send c fs wr rd mt rv sent got wn rn :
    ep_step fin (mkEp c fs wr rd mt rv ClFin sent got wn rn)
                (mkEp (closeSend c) fs wr rd mt rv ClSend sent got wn rn)
| es_close_chan c fs wr rd mt rv sent got wn rn :
    ep_step fin (mkEp c fs wr rd mt rv ClSend sent got wn rn)
                (mkEp (closeChan c) fs wr rd mt rv ClChan sent got wn rn)
| es_close_rest c fs wr rd mt rv sent got wn rn c' fs' :
    c_recvDone c = true -> closeRest c fs = (c', fs') ->
    ep_step fin (mkEp c fs wr rd mt rv ClChan sent got wn rn)
                (mkEp c' fs' wr rd mt rv ClDone sent got wn rn)
| es_flush c fs wr rd mt rv cl sent got wn rn w' fs' :
    timedFlush (c_w c) fs = (w', fs') ->
    ep_step fin (mkEp c fs wr rd mt rv cl sent got wn rn)
                (mkEp (c_set_w c w') fs' wr rd mt rv cl sent got wn rn)
| es_ddl c fs wr rd mt rv cl sent got wn rn a b :
    ep_step fin (mkEp c fs wr rd mt rv cl sent got wn rn)
                (mkEp (wake (c_set_ddl c a b)) fs wr rd mt rv cl sent got wn rn).

(** * The system *)

Abbreviation tunnel := (endpoint * endpoint)%type.

Inductive tun_step : tunnel -> tunnel -> Prop :=
| ts_left a b a' : ep_step (e_fs b) a a' -> tun_step (a, b) (a', b)
| ts_right a b b' : ep_step (e_fs a) b b' -> tun_step (a, b) (a, b').

(** An end that has written its SYN into an empty send direction and waits for the
    peer's ([handshake] up to [waitSYN]). *)
Definition ep_init (rc : resolvedConfig) (params : synParams) (dir : string) (r : role) (e : endpoint)
  : Prop :=
  exists w fs, openSend true true envOk rc params emptyDir = (Ok w, fs)
  /\ e = mkEp (newConn rc dir r w (newSegReader (rc_netFS rc)) 1 params 0) fs
           WIdle RdIdle MtIdle RvSyn ClNo [synOf params] [] [] [].


(** * Lemmas *)

Ltac ep_simpl :=
  cbn [e_c e_fs e_wr e_rd e_mt e_rv e_cl e_sent e_got e_written e_read
       c_cfg c_connDir c_role c_params c_w c_r c_snd c_rcv c_dataSig c_flowSig c_rdDdl c_wrDdl
       c_lastRecv c_closeOnce c_closed c_recvDone c_dead
       c_set_w c_set_r c_set_snd c_set_rcv c_set_sigs c_set_ddl c_set_lastRecv c_set_life
       signalData signalFlow markDead wake recvDone closeSend closeChan
       sendSeq sentData peerAck lastAckSent sendClosed recvBuf recvData recvEOF recvErr] in *.

Lemma data_bytes_app a b : data_bytes (a ++ b) = data_bytes a ++ data_bytes b.
Proof. unfold data_bytes. by rewrite map_app, concat_app. Qed.

Lemma data_bytes_one f : data_bytes [f] = data_of f.
Proof. unfold data_bytes. cbn. apply app_nil_r. Qed.

Lemma data_bytes_prefix a b : a `prefix_of` b -> data_bytes a `prefix_of` data_bytes b.
Proof. intros [t ->]. rewrite data_bytes_app. by eexists. Qed.

Lemma data_total_bytes fs : data_total fs = len (data_bytes fs).
Proof.
  induction fs as [|f fs IH]; [done|]. change (f :: fs) with ([f] ++ fs).
  rewrite data_total_app, data_bytes_app, length_app, IH, data_bytes_one. cbn.
  unfold data_len, data_of. destruct (decide _); cbn; lia.
Qed.

Lemma data_of_other typ payload c : typ <> frameDATA -> data_of (frameOf typ payload c) = [].
Proof. intros. unfold data_of. by rewrite decide_False. Qed.

Lemma emits_cases typ payload c fs sent ok c' fs' sent' :
  emits typ payload c fs sent ok c' fs' sent' ->
  (ok = false /\ c' = c /\ fs' = fs /\ sent' = sent
     /\ sendClosed (c_snd c) = true /\ is_fin_or_error typ = false)
  \/ (ok = true /\ sent' = sent ++ [frameOf typ payload c]
     /\ w_cur (c_w c) + 1 < 2 ^ 32 /\ sentData (c_snd c) + len payload < 2 ^ 63
     /\ exists w' dataEnd,
         dataEnd = (if decide (typ = frameDATA) then u64 (sentData (c_snd c) + len payload)
                    else sentData (c_snd c))
         /\ append envOk (frameOf typ payload c) dataEnd (c_w c) fs = (None, w', fs')
         /\ c' = c_set_snd (c_set_w c w')
                   (mkSend (u64 (sendSeq (c_snd c) + 1)) dataEnd (peerAck (c_snd c))
                      (lastAckSent (c_snd c)) (sendClosed (c_snd c)))).
Proof.
  intros (Hc & Hb & e & E & He). unfold emit in E.
  destruct (sendClosed (c_snd c) && _) eqn:Hs.
  - injection E as <- <- <-. left. breflect. destruct He as [-> ->]. by repeat split.
  - destruct (append _ _ _ _ _) as [[ae w'] fs2] eqn:Ea. injection E as <- <- <-.
    destruct ae; [done|]. destruct He as [-> ->]. right. eauto 10.
Qed.

Lemma reap_closed_same a w fs : w_closed (fst (reap a w fs)) = w_closed w.
Proof. unfold reap. by destruct (reapLoop _ _ _). Qed.

Lemma encode_decode64 v : 0 <= v < 2 ^ 64 -> decodeUint64 (encodeUint64 v) = Some v.
Proof.
  intros. unfold decodeUint64, encodeUint64. rewrite decide_True by apply length_be_put.
  by rewrite be_get_put_small by lia.
Qed.

(** [dispatch] case by case. *)
Lemma dispatch_cases f c fs c' fs' : dispatch f c fs = (c', fs') ->
  (f_typ f = frameDATA /\ fs' = fs
    /\ c' = signalData (c_set_rcv c (mkRecv (recvBuf (c_rcv c) ++ f_payload f) (recvData (c_rcv c))
              (recvEOF (c_rcv c)) (recvErr (c_rcv c)))))
  \/ (f_typ f = frameACK /\ exists v w, decodeUint64 (f_payload f) = Some v
    /\ reap (Z.max v (peerAck (c_snd c))) (c_w c) fs = (w, fs')
    /\ c' = signalFlow (c_set_w (c_set_snd c (mkSend (sendSeq (c_snd c)) (sentData (c_snd c))
              (Z.max v (peerAck (c_snd c))) (lastAckSent (c_snd c)) (sendClosed (c_snd c)))) w))
  \/ (f_typ f = frameFIN /\ fs' = fs
    /\ c' = signalData (c_set_rcv c (mkRecv (recvBuf (c_rcv c)) (recvData (c_rcv c)) true
              (recvErr (c_rcv c)))))
  \/ (f_typ f = frameError /\ fs' = fs /\ exists e, c' = failRecv e c /\ e <> CEOF)
  \/ (f_typ f <> frameDATA /\ f_typ f <> frameFIN /\ f_typ f <> frameError /\ c' = c /\ fs' = fs
      /\ (f_typ f = frameACK -> decodeUint64 (f_payload f) = None)).
Proof.
  unfold dispatch. destruct (decide (f_typ f = frameDATA)) as [Hd|Hd].
  { injection 1 as <- <-. naive_solver. }
  destruct (decide (f_typ f = frameACK)) as [Ha|Ha].
  { destruct (decodeUint64 _) as [v|] eqn:Ev.
    - cbn [c_set_snd c_w].
      replace (if v >? peerAck (c_snd c) then v else peerAck (c_snd c))
        with (Z.max v (peerAck (c_snd c)))
        by (rewrite Z.gtb_ltb; destruct (_ <? _) eqn:E; breflect; lia).
      destruct (reap _ _ _) as [w fs1] eqn:Er. injection 1 as <- <-. naive_solver.
    - injection 1 as <- <-. rewrite Ha. do 4 right. naive_solver. }
  destruct (decide (f_typ f = frameFIN)) as [Hf|Hf]; [injection 1 as <- <-; naive_solver|].
  destruct (decide (f_typ f = frameError)) as [He|He]; injection 1 as <- <-; naive_solver.
Qed.

(** What [failRecv] leaves alone and what it sets. *)
Lemma failRecv_same e c :
  c_cfg (failRecv e c) = c_cfg c /\ c_params (failRecv e c) = c_params c /\ c_w (failRecv e c) = c_w c
  /\ c_r (failRecv e c) = c_r c /\ c_snd (failRecv e c) = c_snd c
  /\ recvBuf (c_rcv (failRecv e c)) = recvBuf (c_rcv c)
  /\ recvData (c_rcv (failRecv e c)) = recvData (c_rcv c)
  /\ recvEOF (c_rcv (failRecv e c)) = recvEOF (c_rcv c)
  /\ c_closed (failRecv e c) = c_closed c /\ c_recvDone (failRecv e c) = c_recvDone c
  /\ c_closeOnce (failRecv e c) = c_closeOnce c
  /\ c_flowSig (failRecv e c) = true /\ c_dataSig (failRecv e c) = true
  /\ recvErr (c_rcv (failRecv e c)) <> None /\ c_dead (failRecv e c) = true.
Proof. unfold failRecv. destruct (recvErr (c_rcv c)) eqn:E; cbn; rewrite ?E; naive_solver. Qed.

Lemma failRecv_err e c : e <> CEOF ->
  recvErr (c_rcv (failRecv e c)) = recvErr (c_rcv c) \/ recvErr (c_rcv (failRecv e c)) <> Some CEOF.
Proof. unfold failRecv. intros. destruct (recvErr (c_rcv c)) eqn:E; cbn; [by left|right; congruence]. Qed.

Lemma markAck_same d c :
  c_cfg (markAck d c) = c_cfg c /\ c_params (markAck d c) = c_params c /\ c_w (markAck d c) = c_w c
  /\ c_r (markAck d c) = c_r c /\ c_rcv (markAck d c) = c_rcv c
  /\ c_closed (markAck d c) = c_closed c /\ c_recvDone (markAck d c) = c_recvDone c
  /\ c_flowSig (markAck d c) = c_flowSig c /\ c_dataSig (markAck d c) = c_dataSig c
  /\ c_snd (markAck d c) = mkSend (sendSeq (c_snd c)) (sentData (c_snd c)) (peerAck (c_snd c))
       (Z.max d (lastAckSent (c_snd c))) (sendClosed (c_snd c)).
Proof.
  unfold markAck. rewrite Z.gtb_ltb. destruct (_ <? _) eqn:E; breflect; cbn.
  - rewrite Z.max_l by lia. naive_solver.
  - rewrite Z.max_r by lia. destruct (c_snd c). naive_solver.
Qed.

Lemma blocked_retry read now c c' : Retry c' ∈ blockedReady read now c ->
  c' = (if read then c_set_sigs c false (c_flowSig c) else c_set_sigs c (c_dataSig c) false)
  /\ (if read then c_dataSig c else c_flowSig c) = true.
Proof.
  unfold blockedReady. rewrite !elem_of_app. intros [H|[H|H]].
  - destruct (if read then c_dataSig c else c_flowSig c); [|by apply not_elem_of_nil in H].
    apply list_elem_of_singleton in H. by injection H as ->.
  - destruct (deadline read c); [|by apply not_elem_of_nil in H].
    destruct (_ <=? _); [|by apply not_elem_of_nil in H]. by apply list_elem_of_singleton in H.
  - destruct (c_closed c); [|by apply not_elem_of_nil in H]. by apply list_elem_of_singleton in H.
Qed.

(** * Invariants of one process *)

(** An ACK of [v] bytes was sent. *)
Definition acked (v : Z) (sent : list frame) : Prop :=
  exists f, f ∈ sent /\ f_typ f = frameACK /\ f_payload f = encodeUint64 v.

Lemma acked_app v sent t : acked v sent -> acked v (sent ++ t).
Proof. intros (f & Hf & H). exists f. split; [|done]. apply elem_of_app. by left. Qed.

Lemma acked_here v sent c : acked v (sent ++ [frameOf frameACK (encodeUint64 v) c]).
Proof. exists (frameOf frameACK (encodeUint64 v) c). rewrite elem_of_app, list_elem_of_singleton. naive_solver. Qed.

Definition rd_local (rd : rdState) (P Q : Z -> Prop) : Prop :=
  match rd with RdDue d | RdSend d => P d | RdMark d => P d /\ Q d | _ => True end.
Definition mt_local (mt : mtState) (P Q : Z -> Prop) : Prop :=
  match mt with MtDue d | MtSend d => P d | MtMark d => P d /\ Q d | _ => True end.

(** What was sent: the SYN first, then exactly the written bytes as DATA, and only
    ACKs of bytes that were read. *)
Record send_inv (params : synParams) (e : endpoint) : Prop := {
  si_params : c_params (e_c e) = params;
  si_syn : exists rest, e_sent e = synOf params :: rest;
  si_written : data_bytes (e_sent e) = e_written e;
  si_sentData : sentData (c_snd (e_c e)) = len (e_written e);
  si_bound : sentData (c_snd (e_c e)) < 2 ^ 63;
  si_seq : 0 <= sendSeq (c_snd (e_c e)) < 2 ^ 64;
  si_acks f : f ∈ e_sent e -> f_typ f = frameACK ->
    exists v, f_payload f = encodeUint64 v /\ 0 <= v <= recvData (c_rcv (e_c e));
  si_rd : rd_local (e_rd e) (fun d => 0 <= d <= recvData (c_rcv (e_c e))) (fun d => acked d (e_sent e));
  si_mt : mt_local (e_mt e) (fun d => 0 <= d <= recvData (c_rcv (e_c e))) (fun d => acked d (e_sent e));
  si_last : 0 <= lastAckSent (c_snd (e_c e)) <= recvData (c_rcv (e_c e));
  si_last_sent : lastAckSent (c_snd (e_c e)) = 0 \/ acked (lastAckSent (c_snd (e_c e))) (e_sent e)
}.

(** The DATA a frame in hand still has to add to the buffer. *)
Definition pending (rv : rvState) : list byte := match rv with RvGot f => data_of f | _ => [] end.

(** What was received: every byte got is read, buffered or in hand, and [peerAck]
    is the largest ACK dispatched. *)
Record recv_inv (e : endpoint) : Prop := {
  ri_stream : e_read e ++ recvBuf (c_rcv (e_c e)) ++ pending (e_rv e) = data_bytes (e_got e);
  ri_recvData : recvData (c_rcv (e_c e)) = len (e_read e);
  ri_ack f v : f ∈ e_got e -> f_typ f = frameACK -> decodeUint64 (f_payload f) = Some v ->
    v <= peerAck (c_snd (e_c e)) \/ e_rv e = RvGot f;
  ri_peer : peerAck (c_snd (e_c e)) = 0
    \/ exists f, f ∈ e_got e /\ f_typ f = frameACK
         /\ decodeUint64 (f_payload f) = Some (peerAck (c_snd (e_c e)));
  ri_eof : recvEOF (c_rcv (e_c e)) = true ->
    exists pre fin post, e_got e = pre ++ fin :: post /\ f_typ fin = frameFIN
      /\ data_bytes pre `prefix_of` e_read e ++ recvBuf (c_rcv (e_c e));
  ri_err : recvErr (c_rcv (e_c e)) <> Some CEOF;
  ri_syn : e_rv e = RvSyn -> e_got e = []
}.

(** Bytes that may be written now. *)
Definition roomNow (c : Conn) : Z :=
  p_window (c_params c) - (sentData (c_snd c) - peerAck (c_snd c)).

(** The window is never overrun, and a blocked thread has nothing to do unless its
    token is there. *)
Record flow_inv (e : endpoint) : Prop := {
  fi_window : 0 <= roomNow (e_c e);
  fi_wr : match e_wr e with
          | WSampled _ _ room => room <= roomNow (e_c e)
              /\ (room = roomNow (e_c e) \/ c_flowSig (e_c e) = true)
          | WChunk _ room => 0 < room <= roomNow (e_c e)
          | WWait _ => (recvErr (c_rcv (e_c e)) = None /\ roomNow (e_c e) <= 0)
              \/ c_flowSig (e_c e) = true
          | _ => True
          end;
  fi_rd : e_rd e = RdWait ->
    (recvBuf (c_rcv (e_c e)) = [] /\ recvErr (c_rcv (e_c e)) = None /\ recvEOF (c_rcv (e_c e)) = false)
    \/ c_dataSig (e_c e) = true
}.

Definition cl_ge (n : nat) (cl : clState) : bool :=
  match cl with ClNo => n =? 0 | ClFin => n <=? 1 | ClSend => n <=? 2 | ClChan => n <=? 3 | ClDone => n <=? 4 end%nat.

(** How far [Close] has come. *)
Record ctl_inv (e : endpoint) : Prop := {
  ci_send : sendClosed (c_snd (e_c e)) = cl_ge 2 (e_cl e);
  ci_chan : c_closed (e_c e) = cl_ge 3 (e_cl e);
  ci_w : w_closed (c_w (e_c e)) = cl_ge 4 (e_cl e);
  ci_done : c_recvDone (e_c e) = true -> e_rv e = RvStop;
  ci_rest : e_cl e = ClDone -> c_recvDone (e_c e) = true;
  ci_syn : e_rv e = RvSyn -> e_wr e = WIdle /\ e_rd e = RdIdle /\ e_mt e = MtIdle /\ e_cl e = ClNo;
  ci_fin f : f ∈ e_sent e -> f_typ f = frameFIN -> e_cl e <> ClNo;
  ci_got f : e_rv e = RvGot f -> f ∈ e_got e
}.

(** What an end owes to its peer: see [tun_inv]. *)
Record peer_ok (e : endpoint) : Prop := {
  po_got : len (data_bytes (e_got e)) < 2 ^ 63;
  po_ack : 0 <= peerAck (c_snd (e_c e)) <= sentData (c_snd (e_c e))
}.

Ltac step_cases Hst :=
  destruct Hst as
    [c fs wr rd mt cl sent got wn rn v r' res Hv Hre E Hres
    |c fs wr rd mt cl sent got wn rn v r' f peer now Hv Hre E Hpeer
    |c fs rd mt rv cl sent got wn rn p Hrv
    |c fs rd mt rv cl sent got wn rn
    |c fs rd mt rv cl sent got wn rn p Hp
    |c fs rd mt rv cl sent got wn rn p closed room
    |c fs rd mt rv cl sent got wn rn p now c' Hw
    |c fs rd mt rv cl sent got wn rn p now er Hw
    |c fs rd mt rv cl sent got wn rn p room n ok c' fs' sent' Hn Hem
    |c fs wr mt rv cl sent got wn rn plen bs c' Hrv E
    |c fs wr mt rv cl sent got wn rn plen Hrv E
    |c fs wr mt rv cl sent got wn rn now c' Hw
    |c fs wr mt rv cl sent got wn rn now er Hw
    |c fs wr mt rv cl sent got wn rn
    |c fs wr mt rv cl sent got wn rn d
    |c fs wr mt rv cl sent got wn rn d ok c' fs' sent' Hem
    |c fs wr mt rv cl sent got wn rn d
    |c fs wr rd rv cl sent got wn rn now Hrv
    |c fs wr rd rv cl sent got wn rn d
    |c fs wr rd rv cl sent got wn rn d ok c' fs' sent' Hem
    |c fs wr rd rv cl sent got wn rn d
    |c fs wr rd rv cl sent got wn rn now ok c' fs' sent' Hem
    |c fs wr rd rv cl sent got wn rn Hcl
    |c fs wr rd mt cl sent got wn rn v r' res now c' rv' Hv Hre E Ea
    |c fs wr rd mt cl sent got wn rn f c' fs' E
    |c fs wr rd mt cl sent got wn rn Hcl
    |c fs wr rd mt rv sent got wn rn ok c' fs' sent' Hrv Hem
    |c fs wr rd mt rv sent got wn rn
    |c fs wr rd mt rv sent got wn rn
    |c fs wr rd mt rv sent got wn rn c' fs' Hdn E
    |c fs wr rd mt rv cl sent got wn rn w' fs' E
    |c fs wr rd mt rv cl sent got wn rn ddl1 ddl2].

Lemma rd_local_mono rd (P Q P' Q' : Z -> Prop) :
  (forall d, P d -> P' d) -> (forall d, Q d -> Q' d) -> rd_local rd P Q -> rd_local rd P' Q'.
Proof. destruct rd; cbn; intuition auto. Qed.

Lemma mt_local_mono mt (P Q P' Q' : Z -> Prop) :
  (forall d, P d -> P' d) -> (forall d, Q d -> Q' d) -> mt_local mt P Q -> mt_local mt P' Q'.
Proof. destruct mt; cbn; intuition auto. Qed.

Lemma readTry_data plen c bs c' : readTry plen c = RData bs c' ->
  exists rest, recvBuf (c_rcv c) = bs ++ rest
    /\ c' = c_set_rcv c (mkRecv rest (u64 (recvData (c_rcv c) + len bs)) (recvEOF (c_rcv c)) (recvErr (c_rcv c))).
Proof.
  unfold readTry. destruct (recvBuf (c_rcv c)) as [|b buf] eqn:E.
  { destruct (recvErr _); [done|]. by destruct (recvEOF _). }
  set (n := Nat.min plen _). injection 1 as <- <-.
  exists (drop n (b :: buf)). split; [by rewrite take_drop|].
  replace (len (take n (b :: buf))) with (Z.of_nat n) by (rewrite length_take; unfold n; lia). done.
Qed.

Lemma readTry_block plen c : readTry plen c = RBlock ->
  recvBuf (c_rcv c) = [] /\ recvErr (c_rcv c) = None /\ recvEOF (c_rcv c) = false.
Proof.
  unfold readTry. destruct (recvBuf _); [|done]. destruct (recvErr _); [done|]. by destruct (recvEOF _).
Qed.

(** The outcome of a pass of [recvLoop]. *)
Lemma afterPass_cases now res c c' rv' : afterPass now res c = (c', rv') ->
  (exists f, res = Ret f /\ c' = c_set_lastRecv c now /\ rv' = RvGot f)
  \/ (got_of res = [] /\ c' = c /\ rv' = RvNext)
  \/ (got_of res = [] /\ (exists e, c' = failRecv e c /\ e <> CEOF) /\ rv' = RvStop).
Proof.
  destruct res as [f|e|]; cbn.
  - injection 1 as <- <-. eauto.
  - destruct (waitable e); injection 1 as <- <-; eauto 8.
  - injection 1 as <- <-. eauto.
Qed.

(** ** The send side *)

Lemma send_inv_same params e e' :
  send_inv params e -> c_params (e_c e') = c_params (e_c e) -> c_snd (e_c e') = c_snd (e_c e) ->
  e_sent e' = e_sent e -> e_written e' = e_written e ->
  recvData (c_rcv (e_c e)) <= recvData (c_rcv (e_c e')) ->
  (rd_local (e_rd e) (fun d => 0 <= d <= recvData (c_rcv (e_c e))) (fun d => acked d (e_sent e)) ->
   rd_local (e_rd e') (fun d => 0 <= d <= recvData (c_rcv (e_c e))) (fun d => acked d (e_sent e))) ->
  (mt_local (e_mt e) (fun d => 0 <= d <= recvData (c_rcv (e_c e))) (fun d => acked d (e_sent e)) ->
   mt_local (e_mt e') (fun d => 0 <= d <= recvData (c_rcv (e_c e))) (fun d => acked d (e_sent e))) ->
  send_inv params e'.
Proof.
  intros [] E1 E2 E3 E4 Hle Hrd Hmt.
  split; rewrite ?E1, ?E2, ?E3, ?E4; try done.
  - intros f Hf Ht. destruct (si_acks0 f Hf Ht) as (v & Hv & ?). exists v. split; [done|]. lia.
  - eapply rd_local_mono; [| |by apply Hrd]; cbn; [lia|done].
  - eapply mt_local_mono; [| |by apply Hmt]; cbn; [lia|done].
  - lia.
Qed.

(** A frame other than DATA goes out; an ACK only of bytes read. *)
Lemma send_inv_emit params e e' typ payload w' :
  let c := e_c e in
  send_inv params e -> e_sent e' = e_sent e ++ [frameOf typ payload c] -> typ <> frameDATA ->
  (typ = frameACK -> exists v, payload = encodeUint64 v /\ 0 <= v <= recvData (c_rcv c)) ->
  c_params (e_c e') = c_params c -> c_w (e_c e') = w' -> c_rcv (e_c e') = c_rcv c ->
  c_snd (e_c e') = mkSend (u64 (sendSeq (c_snd c) + 1)) (sentData (c_snd c)) (peerAck (c_snd c))
                    (lastAckSent (c_snd c)) (sendClosed (c_snd c)) ->
  e_written e' = e_written e ->
  (rd_local (e_rd e) (fun d => 0 <= d <= recvData (c_rcv c)) (fun d => acked d (e_sent e)) ->
   rd_local (e_rd e') (fun d => 0 <= d <= recvData (c_rcv c)) (fun d => acked d (e_sent e'))) ->
  (mt_local (e_mt e) (fun d => 0 <= d <= recvData (c_rcv c)) (fun d => acked d (e_sent e)) ->
   mt_local (e_mt e') (fun d => 0 <= d <= recvData (c_rcv c)) (fun d => acked d (e_sent e'))) ->
  send_inv params e'.
Proof.
  intros c [] E5 Ht Hack E1 _ E3 E4 E6 Hrd Hmt. unfold c in *.
  split; rewrite ?E1, ?E3, ?E4, ?E5, ?E6; cbn [sendSeq sentData peerAck lastAckSent]; try done.
  - destruct si_syn0 as [rest ->]. by eexists.
  - by rewrite data_bytes_app, data_bytes_one, data_of_other, app_nil_r.
  - apply u64_range.
  - intros f [Hf| ->%list_elem_of_singleton]%elem_of_app Htf; [by apply si_acks0|]. by apply Hack.
  - rewrite <- E5. by apply Hrd.
  - rewrite <- E5. by apply Hmt.
  - destruct si_last_sent0; [by left|right]. by apply acked_app.
Qed.

Lemma rd_local_app rd P sent t : rd_local rd P (fun d => acked d sent) ->
  rd_local rd P (fun d => acked d (sent ++ t)).
Proof. apply rd_local_mono; [done|]. intros. by apply acked_app. Qed.

Lemma mt_local_app mt P sent t : mt_local mt P (fun d => acked d sent) ->
  mt_local mt P (fun d => acked d (sent ++ t)).
Proof. apply mt_local_mono; [done|]. intros. by apply acked_app. Qed.

#[local] Hint Resolve rd_local_app mt_local_app acked_here acked_app : ccb.

Lemma send_inv_data params e e' payload :
  let c := e_c e in
  send_inv params e -> sentData (c_snd c) + len payload < 2 ^ 63 ->
  c_params (e_c e') = c_params c -> c_rcv (e_c e') = c_rcv c ->
  c_snd (e_c e') = mkSend (u64 (sendSeq (c_snd c) + 1)) (u64 (sentData (c_snd c) + len payload))
                    (peerAck (c_snd c)) (lastAckSent (c_snd c)) (sendClosed (c_snd c)) ->
  e_sent e' = e_sent e ++ [frameOf frameDATA payload c] -> e_written e' = e_written e ++ payload ->
  e_rd e' = e_rd e -> e_mt e' = e_mt e -> send_inv params e'.
Proof.
  intros c [] Hb E1 E3 E4 E5 E6 E7 E8. unfold c in *. clear c.
  split; rewrite ?E1, ?E3, ?E4, ?E5, ?E6, ?E7, ?E8;
    cbn [sendSeq sentData peerAck lastAckSent]; try done; auto with ccb.
  - destruct si_syn0 as [rest ->]. by eexists.
  - by rewrite data_bytes_app, data_bytes_one, si_written0.
  - rewrite length_app, u64_small; lia.
  - rewrite u64_small; lia.
  - apply u64_range.
  - intros f [Hf| ->%list_elem_of_singleton]%elem_of_app Htf; [by apply si_acks0|done].
  - destruct si_last_sent0; [by left|right]. by apply acked_app.
Qed.

Lemma send_inv_mark params e e' d :
  send_inv params e -> 0 <= d <= recvData (c_rcv (e_c e)) -> acked d (e_sent e) ->
  e_c e' = markAck d (e_c e) -> e_sent e' = e_sent e -> e_written e' = e_written e ->
  e_rd e' = e_rd e \/ e_rd e' = RdIdle -> e_mt e' = e_mt e \/ e_mt e' = MtBeat ->
  send_inv params e'.
Proof.
  intros [] Hd Ha E1 E2 E3 Hrd Hmt.
  destruct (markAck_same d (e_c e)) as (M1 & M2 & M3 & M4 & M5 & M6 & M7 & M8 & M9 & M10).
  split; rewrite ?E1, ?E2, ?E3, ?M2, ?M5, ?M10; cbn [sendSeq sentData lastAckSent]; try done.
  - by destruct Hrd as [-> | ->].
  - by destruct Hmt as [-> | ->].
  - lia.
  - destruct (Z.max_dec d (lastAckSent (c_snd (e_c e)))) as [-> | ->]; auto.
Qed.

(** The send counters may change in fields the send side does not depend on. *)
Lemma send_inv_snd params e e' :
  send_inv params e -> c_params (e_c e') = c_params (e_c e) -> c_rcv (e_c e') = c_rcv (e_c e) ->
  sendSeq (c_snd (e_c e')) = sendSeq (c_snd (e_c e)) ->
  sentData (c_snd (e_c e')) = sentData (c_snd (e_c e)) ->
  lastAckSent (c_snd (e_c e')) = lastAckSent (c_snd (e_c e)) ->
  e_sent e' = e_sent e -> e_written e' = e_written e -> e_rd e' = e_rd e -> e_mt e' = e_mt e ->
  send_inv params e'.
Proof.
  intros [] E1 E2 E3 E4 E5 E6 E7 E8 E9.
  split; rewrite ?E1, ?E2, ?E3, ?E4, ?E5, ?E6, ?E7, ?E8, ?E9; done.
Qed.

(** Close a case in which nothing the send side depends on changes. *)
Ltac send_same Hs := eapply send_inv_same; [exact Hs|ep_simpl; done..].

(** Two frame types differ. *)
Ltac typ_ne := let H := fresh in intros H; vm_compute in H; discriminate H.
Ltac send_emit Hs := eapply send_inv_emit; [exact Hs|ep_simpl; cbn [rd_local mt_local]; try done; try typ_ne; auto with ccb..].

Lemma send_inv_step params fin e e' :
  send_inv params e -> recv_inv e -> peer_ok e -> ep_step fin e e' -> send_inv params e'.
Proof.
  intros Hs Hr Hpo Hst. step_cases Hst; try (send_same Hs).
  all: try (apply emits_cases in Hem as
    [(-> & -> & -> & -> & _ & _)|(-> & -> & Hcur & Hb & w' & dataEnd & -> & _ & ->)]; [send_same Hs|]).
  - apply blocked_retry in Hw as [-> _]. send_same Hs.
  - eapply send_inv_data; [exact Hs|ep_simpl; done..].
  - apply readTry_data in E as (rest & Hbuf & ->). pose proof Hr as [Hst Hrd _ _ _ _].
    pose proof (po_got _ Hpo) as Hg. ep_simpl.
    rewrite <- Hst, Hbuf, !length_app in Hg.
    eapply send_inv_same; [exact Hs|ep_simpl; try done..]. rewrite u64_small; lia.
  - apply blocked_retry in Hw as [-> _]. send_same Hs.
  - eapply send_inv_same; [exact Hs|ep_simpl; try done..]. destruct Hs; ep_simpl. cbn. lia.
  - eapply send_inv_same; [exact Hs|ep_simpl; try done..]. by destruct (ackDue c d).
  - send_emit Hs. intros _. exists d. by destruct Hs.
  - pose proof (si_rd _ _ Hs) as [Hd Ha]. eapply send_inv_mark; [exact Hs|ep_simpl; eauto..].
  - destruct (failRecv_same (CIdle (rc_idleTimeout (c_cfg c))) c)
      as (M1 & M2 & M3 & M4 & M5 & M6 & M7 & _).
    destruct (idle now c); (eapply send_inv_same; [exact Hs|ep_simpl; try done..]).
    + by rewrite M7.
    + destruct Hs. ep_simpl. cbn. lia.
  - eapply send_inv_same; [exact Hs|ep_simpl; try done..]. by destruct (_ >? _).
  - send_emit Hs. intros _. exists d. by destruct Hs.
  - pose proof (si_mt _ _ Hs) as [Hd Ha]. eapply send_inv_mark; [exact Hs|ep_simpl; eauto..].
  - send_emit Hs.
  - apply afterPass_cases in Ea as [(f & -> & -> & ->)|[(Hg & -> & ->)|(Hg & (er & -> & Her) & ->)]];
      [send_same Hs..|].
    destruct (failRecv_same er (c_set_r c r')) as (M1 & M2 & M3 & M4 & M5 & M6 & M7 & _).
    rewrite decide_True by done. eapply send_inv_same; [exact Hs|ep_simpl; try done..]. by rewrite M7.
  - apply dispatch_cases in E as [(Ht & -> & ->)|[(Ht & v & w & Hv & Hre & ->)|[(Ht & -> & ->)|
      [(Ht & -> & er & -> & Her)|(_ & _ & Ht & -> & -> & _)]]]]; rewrite Ht || idtac.
    + send_same Hs.
    + eapply send_inv_snd; [exact Hs|ep_simpl; done..].
    + send_same Hs.
    + destruct (failRecv_same er c) as (M1 & M2 & M3 & M4 & M5 & M6 & M7 & _).
      rewrite decide_True by done. eapply send_inv_same; [exact Hs|ep_simpl; try done..]. by rewrite M7.
    + rewrite decide_False by done. send_same Hs.
  - send_emit Hs.
  - eapply send_inv_snd; [exact Hs|ep_simpl; done..].
  - unfold closeRest in E. destruct (closeWriter _ _) as [w2 fs2]. injection E as <- <-. send_same Hs.
Qed.

(** ** The receive side *)

Lemma recv_inv_same e e' :
  recv_inv e -> recvBuf (c_rcv (e_c e')) = recvBuf (c_rcv (e_c e)) ->
  recvData (c_rcv (e_c e')) = recvData (c_rcv (e_c e)) ->
  recvEOF (c_rcv (e_c e')) = recvEOF (c_rcv (e_c e)) ->
  peerAck (c_snd (e_c e')) = peerAck (c_snd (e_c e)) ->
  (recvErr (c_rcv (e_c e')) = recvErr (c_rcv (e_c e)) \/ recvErr (c_rcv (e_c e')) <> Some CEOF) ->
  e_got e' = e_got e -> e_read e' = e_read e ->
  (e_rv e' = e_rv e \/ (pending (e_rv e) = [] /\ pending (e_rv e') = [] /\ e_rv e' <> RvSyn
     /\ forall f, e_rv e = RvGot f -> f_typ f <> frameACK \/ decodeUint64 (f_payload f) = None)) ->
  recv_inv e'.
Proof.
  intros [] E1 E2 E3 E4 Herr E5 E6 Hrv.
  split; rewrite ?E1, ?E2, ?E3, ?E4, ?E5, ?E6; try done.
  - destruct Hrv as [-> |(Hp & -> & _)]; [done|]. by rewrite Hp in ri_stream0.
  - intros f v Hf Ht Hd. destruct (ri_ack0 f v Hf Ht Hd) as [|Hg]; [by left|].
    destruct Hrv as [-> |(_ & _ & _ & Hn)]; [by right|]. destruct (Hn f Hg); congruence.
  - by destruct Herr as [-> |].
  - destruct Hrv as [-> |(_ & _ & Hn & _)]; [done|]. by intros ?%Hn.
Qed.

Ltac recv_same Hr := eapply recv_inv_same; [exact Hr|ep_simpl; solve [auto]..].

(** A pass returns the frame [f]. *)
Lemma recv_inv_got e e' f :
  recv_inv e -> (e_rv e = RvNext \/ e_rv e = RvSyn) ->
  (e_rv e' = RvGot f \/ (e_rv e' = RvNext /\ f_typ f = frameSYN)) ->
  c_rcv (e_c e') = c_rcv (e_c e) -> c_snd (e_c e') = c_snd (e_c e) ->
  e_got e' = e_got e ++ [f] -> e_read e' = e_read e -> recv_inv e'.
Proof.
  intros [] Hrv Hrv' E1 E2 E3 E4.
  assert (pending (e_rv e) = []) as Hp by (by destruct Hrv as [-> | ->]).
  split; rewrite ?E1, ?E2, ?E3, ?E4; try done.
  - rewrite data_bytes_app, data_bytes_one, <- ri_stream0, Hp, app_nil_r, <- app_assoc.
    do 2 f_equal. destruct Hrv' as [-> |[-> Hf]]; [done|]. unfold data_of. by rewrite Hf.
  - intros g v [Hg| ->%list_elem_of_singleton]%elem_of_app Ht Hd.
    + destruct (ri_ack0 g v Hg Ht Hd) as [|Hr]; [by left|].
      destruct Hrv as [Hx|Hx]; rewrite Hx in Hr; done.
    + destruct Hrv' as [-> |[_ Hf]]; [by right|]. rewrite Hf in Ht. done.
  - destruct ri_peer0 as [|(g & Hg & ?)]; [by left|right].
    exists g. split; [apply elem_of_app; by left|done].
  - intros He. destruct (ri_eof0 He) as (pre & fin & post & -> & ? & ?).
    exists pre, fin, (post ++ [f]). by rewrite <- app_assoc.
  - destruct Hrv' as [-> |[-> _]]; done.
Qed.

Lemma synFrame_syn f peer : (let? p := synFrame f in checkVersion p) = Ok peer -> f_typ f = frameSYN.
Proof. unfold synFrame. by destruct (decide (f_typ f = frameSYN)). Qed.

(** Case analysis of [recvLoop]'s steps. *)
Ltac pass_case Ea := apply afterPass_cases in Ea as
  [(f & -> & -> & ->)|[(Hg & -> & ->)|(Hg & (er & -> & Her) & ->)]];
  [rewrite decide_False by done|rewrite decide_False by done|rewrite decide_True by done].
Ltac dispatch_case E := apply dispatch_cases in E as
  [(Ht & -> & ->)|[(Ht & v & w & Hv & Hre & ->)|[(Ht & -> & ->)|
    [(Ht & -> & er & -> & Her)|(Htd & Htf & Ht & -> & -> & Hack)]]]];
  [rewrite decide_False by (rewrite Ht; typ_ne)|rewrite decide_False by (rewrite Ht; typ_ne)
  |rewrite decide_False by (rewrite Ht; typ_ne)|rewrite decide_True by done
  |rewrite decide_False by done].
Ltac emit_case Hem := apply emits_cases in Hem as
  [(-> & -> & -> & -> & Hsc & Hfe)|(-> & -> & Hcur & Hb & w' & dataEnd & -> & Hap & ->)].

Lemma data_of_none f : f_typ f <> frameDATA -> data_of f = [].
Proof. intros. unfold data_of. by rewrite decide_False. Qed.

Lemma recv_inv_dispatch e e' f :
  recv_inv e -> e_rv e = RvGot f -> dispatch f (e_c e) (e_fs e) = (e_c e', e_fs e') ->
  e_got e' = e_got e -> e_read e' = e_read e -> f ∈ e_got e ->
  (e_rv e' = RvNext \/ e_rv e' = RvStop) -> recv_inv e'.
Proof.
  intros Hr Hrv E E1 E2 Hin Hrv'.
  assert (pending (e_rv e') = []) as Hp' by (by destruct Hrv' as [-> | ->]).
  assert (e_rv e' <> RvSyn) as Hns by (by destruct Hrv' as [-> | ->]).
  destruct e' as [c' fs' wr' rd' mt' rv' cl' sent' got' wn' rn']. ep_simpl. subst got' rn'.
  apply dispatch_cases in E as
  [(Ht & -> & ->)|[(Ht & v & w & Hv & Hre & ->)|[(Ht & -> & ->)|
    [(Ht & -> & er & -> & Her)|(Htd & Htf & Ht & -> & -> & Hack)]]]].
  - destruct Hr. rewrite Hrv in *. cbn [pending] in *. split; ep_simpl; try done.
    + rewrite Hp', app_nil_r, <- ri_stream0. unfold data_of. by rewrite decide_True.
    + intros g v Hg Htg Hd. left. destruct (ri_ack0 g v Hg Htg Hd) as [|[= ->]]; [done|].
      rewrite Ht in Htg. done.
    + intros He. destruct (ri_eof0 He) as (pre & fin & post & ? & ? & ?). exists pre, fin, post.
      repeat split; try done. rewrite app_assoc. by apply prefix_app_r.
  - destruct Hr. rewrite Hrv in *. cbn [pending] in *. split; ep_simpl; try done.
    + rewrite Hp', <- ri_stream0, data_of_none; [done|]. rewrite Ht. typ_ne.
    + intros g u Hg Htg Hd. left. destruct (ri_ack0 g u Hg Htg Hd) as [|[= ->]]; [lia|].
      rewrite Hd in Hv. injection Hv as ->. lia.
    + destruct (Z.max_dec v (peerAck (c_snd (e_c e)))) as [-> | ->]; [|done]. right. by exists f.
  - destruct Hr. rewrite Hrv in *. cbn [pending] in *. split; ep_simpl; try done.
    + rewrite Hp', <- ri_stream0, data_of_none; [done|]. rewrite Ht. typ_ne.
    + intros g v Hg Htg Hd. left. destruct (ri_ack0 g v Hg Htg Hd) as [|[= ->]]; [done|].
      rewrite Ht in Htg. done.
    + intros _. apply list_elem_of_split in Hin as (pre & post & Hg). exists pre, f, post.
      repeat split; try done. rewrite data_of_none, app_nil_r in ri_stream0 by (rewrite Ht; typ_ne).
      rewrite ri_stream0. apply data_bytes_prefix. rewrite Hg. by eexists.
  - destruct (failRecv_same er (e_c e)) as (M1 & M2 & M3 & M4 & M5 & M6 & M7 & M8 & M9 & M10 & M11 & M12 & M13 & M14 & M15).
    eapply recv_inv_same; [exact Hr|ep_simpl; rewrite ?M5, ?M6, ?M7, ?M8; try done..];
      [by apply failRecv_err|].
    right. rewrite Hrv. cbn [pending]. rewrite data_of_none by (rewrite Ht; typ_ne).
    split; [done|]. split; [done|]. split; [done|]. intros g [= <-]. left. rewrite Ht. typ_ne.
  - eapply recv_inv_same; [exact Hr|ep_simpl; try done..]; [by left|].
    right. rewrite Hrv. cbn [pending]. rewrite data_of_none by done.
    split; [done|]. split; [done|]. split; [done|]. intros g [= <-].
    destruct (decide (f_typ f = frameACK)); auto.
Qed.

Lemma recv_inv_step params fin e e' :
  send_inv params e -> recv_inv e -> peer_ok e -> ep_step fin e e' ->
  (forall f, e_rv e = RvGot f -> f ∈ e_got e) -> recv_inv e'.
Proof.
  intros Hs Hr Hpo Hst Hin. step_cases Hst; try (recv_same Hr).
  all: try (emit_case Hem; recv_same Hr).
  - apply synFrame_syn in Hpeer. eapply recv_inv_got; [exact Hr|ep_simpl; eauto..].
  - apply blocked_retry in Hw as [-> _]. recv_same Hr.
  - apply readTry_data in E as (rest & Hbuf & ->). pose proof (po_got _ Hpo) as Hg.
    destruct Hr. ep_simpl. rewrite <- ri_stream0, Hbuf, !length_app in Hg.
    split; ep_simpl; try done.
    + by rewrite <- ri_stream0, Hbuf, <- !app_assoc.
    + rewrite length_app, u64_small; lia.
    + intros He. destruct (ri_eof0 He) as (pre & fin2 & post & ? & ? & Hpre). exists pre, fin2, post.
      rewrite Hbuf, app_assoc in Hpre. done.
  - apply blocked_retry in Hw as [-> _]. recv_same Hr.
  - destruct (markAck_same d c) as (M1 & M2 & M3 & M4 & M5 & _ & _ & _ & _ & M6).
    eapply recv_inv_same; [exact Hr|ep_simpl; rewrite ?M5, ?M6; auto..].
  - destruct (failRecv_same (CIdle (rc_idleTimeout (c_cfg c))) c)
      as (M1 & M2 & M3 & M4 & M5 & M6 & M7 & M8 & M9 & M10 & M11 & M12 & M13 & M14 & M15).
    destruct (idle now c); [|recv_same Hr].
    eapply recv_inv_same; [exact Hr|ep_simpl; rewrite ?M5, ?M6, ?M7, ?M8; auto..].
    by apply failRecv_err.
  - destruct (markAck_same d c) as (M1 & M2 & M3 & M4 & M5 & _ & _ & _ & _ & M6).
    eapply recv_inv_same; [exact Hr|ep_simpl; rewrite ?M5, ?M6; auto..].
  - pass_case Ea.
    + eapply recv_inv_got; [exact Hr|ep_simpl; eauto..].
    + rewrite Hg, app_nil_r. recv_same Hr.
    + destruct (failRecv_same er (c_set_r c r')) as (M1 & M2 & M3 & M4 & M5 & M6 & M7 & M8 & M9 & M10 & M11 & M12 & M13 & M14 & M15).
      rewrite Hg, app_nil_r.
      eapply recv_inv_same; [exact Hr|ep_simpl; rewrite ?M5, ?M6, ?M7, ?M8; auto..];
        [by apply (failRecv_err er (c_set_r c r'))|].
      right. repeat split; done.
  - assert (recv_inv (mkEp c' fs' wr rd mt RvNext cl sent got wn rn)) as Hn.
    { eapply recv_inv_dispatch; [exact Hr|ep_simpl; eauto..]. }
    destruct (decide _); [|done].
    eapply recv_inv_same; [exact Hn|ep_simpl; auto..]. right. repeat split; done.
  - eapply recv_inv_same; [exact Hr|ep_simpl; auto..]. right. repeat split; done.
  - unfold closeRest in E. destruct (closeWriter _ _) as [w2 fs2]. injection E as <- <-. recv_same Hr.
Qed.

(** ** Flow control and wake-ups *)

Lemma windowSample_room params e :
  send_inv params e -> peer_ok e -> 0 < p_window params < 2 ^ 63 ->
  windowSample (e_c e) = (sendClosed (c_snd (e_c e)), roomNow (e_c e)).
Proof.
  intros [] [_ Ha] Hw. unfold windowSample, roomNow. rewrite si_params0.
  rewrite (u64_small (_ - _)), (i64_small (p_window _)), (i64_small (sentData _ - _)), i64_small by lia. done.
Qed.

Lemma flow_inv_same e e' :
  flow_inv e -> roomNow (e_c e') = roomNow (e_c e) ->
  c_rcv (e_c e') = c_rcv (e_c e) -> e_wr e' = e_wr e -> (e_rd e' = e_rd e \/ e_rd e' <> RdWait) ->
  (c_flowSig (e_c e) = true -> c_flowSig (e_c e') = true) ->
  (c_dataSig (e_c e) = true -> c_dataSig (e_c e') = true) -> flow_inv e'.
Proof.
  intros [] E1 E2 E3 E4 Hf Hd. split; rewrite ?E1, ?E2, ?E3; try done.
  - destruct (e_wr e); intuition auto.
  - intros Hw. destruct E4 as [E4|E4]; [|done]. rewrite E4 in Hw. intuition auto.
Qed.

Ltac flow_same Hf := eapply flow_inv_same; [exact Hf|ep_simpl; solve [auto | by right]..].

(** Both tokens are there and the room has not shrunk. *)
Lemma flow_inv_signalled e e' :
  flow_inv e -> roomNow (e_c e) <= roomNow (e_c e') -> e_wr e' = e_wr e ->
  (e_rd e' = e_rd e \/ e_rd e' <> RdWait) ->
  (c_flowSig (e_c e') = true \/ (roomNow (e_c e') = roomNow (e_c e)
     /\ recvErr (c_rcv (e_c e')) = recvErr (c_rcv (e_c e)) /\ c_flowSig (e_c e') = c_flowSig (e_c e))) ->
  (c_dataSig (e_c e') = true \/ (c_rcv (e_c e') = c_rcv (e_c e) /\ c_dataSig (e_c e') = c_dataSig (e_c e))) ->
  flow_inv e'.
Proof.
  intros [] Hroom E1 E2 Hf Hd. split.
  - lia.
  - rewrite E1. destruct (e_wr e); try done; [| |].
    + destruct fi_wr0 as [? Hs]. split; [lia|]. destruct Hf as [|(E3 & _ & E4)]; [by right|].
      rewrite E3, E4. done.
    + lia.
    + destruct Hf as [|(E3 & E5 & E4)]; [by right|]. by rewrite E3, E4, E5.
  - intros Hw. destruct E2 as [E2|E2]; [|done]. rewrite E2 in Hw.
    destruct Hd as [|(E3 & E4)]; [by right|]. rewrite E3, E4. auto.
Qed.

Lemma roomNow_failRecv er c : roomNow (failRecv er c) = roomNow c.
Proof.
  destruct (failRecv_same er c) as (_ & M2 & _ & _ & M5 & _). unfold roomNow. by rewrite M2, M5.
Qed.

(** A step that records a receive error, or an acknowledgement to send. *)
Ltac flow_failed Hf er c :=
  destruct (failRecv_same er c) as (? & ? & ? & ? & ? & ? & ? & ? & ? & ? & ? & ? & ? & ? & ?);
  eapply flow_inv_signalled; [exact Hf|ep_simpl; auto..];
  pose proof (roomNow_failRecv er c); unfold roomNow in *; ep_simpl; lia.
Ltac flow_marked Hf d c :=
  let M2 := fresh in let M5 := fresh in let M8 := fresh in let M9 := fresh in let M10 := fresh in
  destruct (markAck_same d c) as (_ & M2 & _ & _ & M5 & _ & _ & M8 & M9 & M10);
  eapply flow_inv_same; [exact Hf|ep_simpl; rewrite ?M5, ?M8, ?M9; auto..]; try (by right);
  unfold roomNow; by rewrite M2, M10.

Lemma flow_inv_step params fin e e' :
  send_inv params e -> flow_inv e -> peer_ok e -> 0 < p_window params < 2 ^ 63 ->
  ep_step fin e e' -> flow_inv e'.
Proof.
  intros Hs Hf Hpo Hwin Hst. pose proof (windowSample_room _ _ Hs Hpo Hwin) as Hsample.
  step_cases Hst; ep_simpl; try (flow_same Hf).
  all: try (emit_case Hem; flow_same Hf).
  all: try (destruct Hf; split; done).
  - rewrite Hsample. destruct Hf. split; try done. ep_simpl. split; [done|by left].
  - destruct Hf. split; try done. ep_simpl. unfold windowCheck. cbn [fst snd].
    destruct (recvErr (c_rcv c)) as [er|] eqn:He; [done|]. destruct closed; [done|].
    rewrite Z.gtb_ltb. destruct (0 <? room) eqn:Hr; breflect; cbn [afterCheck]; [lia|].
    destruct fi_wr0 as [? [->|]]; [by left|by right].
  - apply blocked_retry in Hw as [-> _]. destruct Hf. split; done.
  - emit_case Hem.
    + destruct Hf. split; done.
    + destruct Hf. ep_simpl. assert (Z.of_nat n <= room) by (subst n; apply chunkSize_le; lia).
      split; [|done|done]. ep_simpl. unfold roomNow in *. ep_simpl.
      rewrite decide_True by done. destruct Hs. ep_simpl. rewrite u64_small by lia.
      rewrite length_take in *. lia.
  - apply readTry_data in E as (rest & Hbuf & ->). destruct Hf. split; done.
  - apply readTry_block in E. destruct Hf. split; try done. by left.
  - apply blocked_retry in Hw as [-> _]. destruct Hf. split; try done.
  - eapply flow_inv_same; [exact Hf|ep_simpl; try done..]. destruct (ackDue c d); by right.
  - flow_marked Hf d c.
  - destruct (idle now c); [|flow_same Hf]. flow_failed Hf (CIdle (rc_idleTimeout (c_cfg c))) c.
  - flow_marked Hf d c.
  - pass_case Ea; [flow_same Hf..|]. flow_failed Hf er (c_set_r c r').
  - dispatch_case E.
    + eapply flow_inv_signalled; [exact Hf|ep_simpl; auto..]. done.
    + eapply flow_inv_signalled; [exact Hf|ep_simpl; auto..]. unfold roomNow. ep_simpl. lia.
    + eapply flow_inv_signalled; [exact Hf|ep_simpl; auto..]. done.
    + flow_failed Hf er c.
    + flow_same Hf.
  - unfold closeRest in E. destruct (closeWriter _ _) as [w2 fs2]. injection E as <- <-. flow_same Hf.
Qed.

(** ** Closing *)

Lemma ctl_inv_same e e' :
  ctl_inv e -> sendClosed (c_snd (e_c e')) = sendClosed (c_snd (e_c e)) ->
  c_closed (e_c e') = c_closed (e_c e) -> w_closed (c_w (e_c e')) = w_closed (c_w (e_c e)) ->
  c_recvDone (e_c e') = c_recvDone (e_c e) -> e_cl e' = e_cl e ->
  (e_rv e' = e_rv e \/ (e_rv e <> RvStop /\ e_rv e' <> RvSyn /\ forall f, e_rv e' = RvGot f -> f ∈ e_got e')) ->
  e_rv e' <> RvSyn \/ (e_wr e' = e_wr e /\ e_rd e' = e_rd e /\ e_mt e' = e_mt e) ->
  (forall f, f ∈ e_got e -> f ∈ e_got e') ->
  (forall f, f ∈ e_sent e' -> f_typ f = frameFIN -> f ∈ e_sent e) -> ctl_inv e'.
Proof.
  intros [] E1 E2 E3 E4 E5 Hrv Hth Hgot Hsent. split; rewrite ?E1, ?E2, ?E3, ?E4, ?E5; try done.
  - intros Hd. specialize (ci_done0 Hd). destruct Hrv as [->|(? & _)]; done.
  - intros Hs. destruct Hth as [|(-> & -> & ->)]; [done|].
    destruct Hrv as [Hrv|(_ & Hn & _)]; [|done]. rewrite Hrv in Hs. auto.
  - intros f Hf Ht. eauto.
  - intros f Hf. destruct Hrv as [Hrv|(_ & _ & Hn)]; [|auto]. rewrite Hrv in Hf. auto.
Qed.

Ltac ctl_same Hc := eapply ctl_inv_same; [exact Hc|ep_simpl; solve [auto | done]..].

(** A frame other than FIN goes out, or none. *)
Lemma ctl_inv_emit e e' typ payload sent' ok c' fs' :
  ctl_inv e -> emits typ payload (e_c e) (e_fs e) (e_sent e) ok c' fs' sent' -> typ <> frameFIN ->
  e_c e' = c' -> e_sent e' = sent' -> e_cl e' = e_cl e -> e_rv e' = e_rv e -> e_got e' = e_got e ->
  e_rv e' <> RvSyn -> ctl_inv e'.
Proof.
  intros Hc Hem Ht E1 E2 E3 E4 E5 Hn. emit_case Hem.
  - eapply ctl_inv_same; [exact Hc|rewrite ?E1; auto..].
    + by rewrite E5.
    + by rewrite E2.
  - apply append_closed_same in Hap.
    eapply ctl_inv_same; [exact Hc|rewrite ?E1; auto..].
    + by rewrite E5.
    + intros f Hf Htf. rewrite E2 in Hf.
      apply elem_of_app in Hf as [| ->%list_elem_of_singleton]; done.
Qed.

Lemma ctl_not_syn e : ctl_inv e -> e_wr e <> WIdle \/ e_rd e <> RdIdle \/ e_mt e <> MtIdle \/ e_cl e <> ClNo ->
  e_rv e <> RvSyn.
Proof. intros [] H Hs. destruct (ci_syn0 Hs) as (? & ? & ? & ?). intuition congruence. Qed.

Lemma timedFlush_closed w fs w' fs' : timedFlush w fs = (w', fs') -> w_closed w' = w_closed w.
Proof. unfold timedFlush. cbn. by destruct (w_closed w) eqn:E; injection 1 as <- <-. Qed.

Lemma closeWriter_closed w fs w' fs' : closeWriter w fs = (w', fs') -> w_closed w' = true.
Proof.
  unfold closeWriter. destruct (w_closed w) eqn:E; [by injection 1 as <- <-|].
  destruct (w_f _); injection 1 as <- <-; by destruct (w_flushTimer _).
Qed.

Lemma cl_done_stop e : ctl_inv e -> e_rv e <> RvStop -> e_cl e <> ClDone /\ c_recvDone (e_c e) = false.
Proof.
  intros Hc Hrv. split.
  - intros Hd. apply Hrv, (ci_done _ Hc), (ci_rest _ Hc Hd).
  - destruct (c_recvDone (e_c e)) eqn:E; [|done]. by destruct Hrv; apply (ci_done _ Hc).
Qed.

(** [recvLoop] returns. *)
Lemma ctl_inv_stop e e' : ctl_inv e -> e_rv e' = RvStop -> e_cl e' = e_cl e -> c_recvDone (e_c e') = true ->
  sendClosed (c_snd (e_c e')) = sendClosed (c_snd (e_c e)) ->
  c_closed (e_c e') = c_closed (e_c e) -> w_closed (c_w (e_c e')) = w_closed (c_w (e_c e)) ->
  e_sent e' = e_sent e -> ctl_inv e'.
Proof.
  intros [] E1 E2 E3 E4 E5 E6 E7. split; rewrite ?E1, ?E2, ?E3, ?E4, ?E5, ?E6, ?E7; done.
Qed.

Ltac ctl_auto := ep_simpl; try solve [auto | done | right; done | left; done].

Ltac ctl_stopped Hc er c :=
  let M3 := fresh in let M5 := fresh in let M9 := fresh in
  destruct (failRecv_same er c) as (_ & _ & M3 & _ & M5 & _ & _ & _ & M9 & _);
  eapply ctl_inv_stop; [exact Hc|ep_simpl; rewrite ?M3, ?M5, ?M9; ctl_auto..].
Ltac ctl_marked Hc d c :=
  let M3 := fresh in let M6 := fresh in let M7 := fresh in let M10 := fresh in
  destruct (markAck_same d c) as (_ & _ & M3 & _ & _ & M6 & M7 & _ & _ & M10);
  eapply ctl_inv_same; [exact Hc|ep_simpl; rewrite ?M3, ?M6, ?M7, ?M10; ctl_auto..].

(** A close under way is past the SYN. *)
Ltac ctl_past_syn :=
  split; ep_simpl; try done;
  match goal with H : _ -> _ |- _ = RvSyn -> _ => let Hs := fresh in intros Hs; by destruct (H Hs) as (_ & _ & _ & ?) end.

Lemma ctl_inv_step fin e e' : ctl_inv e -> ep_step fin e e' -> ctl_inv e'.
Proof.
  intros Hc Hst. pose proof (ctl_not_syn _ Hc) as Hns.
  step_cases Hst; ep_simpl; try (ctl_same Hc).
  all: try (eapply ctl_inv_emit; [exact Hc|exact Hem|typ_ne|ep_simpl; done..|]; ep_simpl; apply Hns; auto).
  - eapply ctl_inv_same; [exact Hc|ctl_auto..]. intros g Hg. apply elem_of_app. by left.
  - apply blocked_retry in Hw as [-> _]. ctl_same Hc.
  - apply readTry_data in E as (rest & Hbuf & ->). ctl_same Hc.
  - apply blocked_retry in Hw as [-> _]. ctl_same Hc.
  - ctl_marked Hc d c.
  - destruct (failRecv_same (CIdle (rc_idleTimeout (c_cfg c))) c)
      as (M1 & M2 & M3 & M4 & M5 & M6 & M7 & M8 & M9 & M10 & M11 & _).
    destruct (idle now c); [|ctl_same Hc].
    eapply ctl_inv_same; [exact Hc|ep_simpl; rewrite ?M3, ?M5, ?M9, ?M10; ctl_auto..].
  - eapply ctl_inv_same; [exact Hc|ctl_auto..]. left. apply Hns. do 2 right. by left.
  - ctl_marked Hc d c. left. apply Hns. do 2 right. by left.
  - eapply ctl_inv_same; [exact Hc|ctl_auto..]. left. apply Hns. do 3 right.
    intros ->. destruct Hc. ep_simpl. rewrite Hcl in ci_chan0. done.
  - pass_case Ea.
    + eapply ctl_inv_same; [exact Hc|ctl_auto..].
      * right. split; [done|]. split; [done|]. intros g [= <-]. apply elem_of_app. right. by left.
      * intros g Hg. apply elem_of_app. by left.
    + rewrite Hg, app_nil_r. ctl_same Hc.
    + ctl_stopped Hc er (c_set_r c r').
  - dispatch_case E.
    + eapply ctl_inv_same; [exact Hc|ctl_auto..].
    + pose proof (reap_closed_same (Z.max v (peerAck (c_snd c))) (c_w c) fs) as Hrc.
      rewrite Hre in Hrc. eapply ctl_inv_same; [exact Hc|ctl_auto..].
    + eapply ctl_inv_same; [exact Hc|ctl_auto..].
    + ctl_stopped Hc er c.
    + eapply ctl_inv_same; [exact Hc|ctl_auto..].
  - eapply ctl_inv_stop; [exact Hc|ctl_auto..].
  - destruct Hc. emit_case Hem; ep_simpl.
    + rewrite ci_send0 in Hsc. done.
    + apply append_closed_same in Hap. ep_simpl. split; ep_simpl; try done. by rewrite Hap.
  - destruct Hc. ctl_past_syn.
  - destruct Hc. ctl_past_syn.
  - unfold closeRest in E. destruct (closeWriter _ _) as [w2 fs2] eqn:Ew. injection E as <- <-.
    apply closeWriter_closed in Ew. destruct Hc. ctl_past_syn.
  - apply timedFlush_closed in E. ctl_same Hc.
Qed.

(** * The two directions *)

(** The reader of an end and what it returned; a closed one counts as fresh. *)
Definition rdr (e : endpoint) : segReader * list frame :=
  match e_cl e with ClDone => (newSegReader true, []) | _ => (c_r (e_c e), e_got e) end.

(** The direction from [a] to [b] as a pipe. *)
Definition dir_of (a b : endpoint) : pipe :=
  mkPipe (c_w (e_c a)) (e_fs a) (fst (rdr b)) (e_sent a) (snd (rdr b)).

Lemma pipe_at_fresh rc l p netFS :
  pipe_at rc l p -> pipe_at rc l (mkPipe (pp_w p) (pp_fs p) (newSegReader netFS) (pp_sent p) []).
Proof. intros []. split; ep_simpl; try done. apply reader_at_new. Qed.

Lemma frameOf_ok params e typ payload :
  send_inv params e -> typ <> frameROLL -> len payload <= maxPayload -> frame_ok (frameOf typ payload (e_c e)).
Proof.
  intros [] Ht Hl. split; [|done]. split; cbn; [lia| |done]. lia.
Qed.

Lemma maxPayload_small : 8 <= maxPayload.
Proof. vm_compute. congruence. Qed.

(** The writer's half of a direction follows the steps of its end. *)
Lemma dir_step_out rc params fin a a' l r seen :
  send_inv params a -> flow_inv a -> params_ok rc params -> ep_step fin a a' ->
  pipe_at rc l (mkPipe (c_w (e_c a)) (e_fs a) r (e_sent a) seen) ->
  exists l', pipe_at rc l' (mkPipe (c_w (e_c a')) (e_fs a') r (e_sent a') seen).
Proof.
  intros Hs Hf Hpar Hst Hpipe.
  assert (forall c0 typ payload ok c' fs' sent',
    emits typ payload c0 (e_fs a) (e_sent a) ok c' fs' sent' ->
    c_w c0 = c_w (e_c a) -> c_snd c0 = c_snd (e_c a) -> typ <> frameROLL ->
    len payload <= maxPayload ->
    exists l', pipe_at rc l' (mkPipe (c_w c') fs' r sent' seen)) as Hout.
  { intros c0 typ payload ok c' fs' sent' Hem Ew Es Ht Hl. pose proof Hs as [].
    emit_case Hem; [exists l; by rewrite Ew|]. unfold frameOf in *. rewrite Es, Ew in *.
    eapply pipe_step_at; [exact Hpipe|]. ep_simpl. eapply ps_append; [|done| |exact Hap].
    - by eapply frameOf_ok.
    - rewrite data_total_bytes, data_bytes_app, data_bytes_one, si_written0, length_app.
      unfold data_of. cbn [f_typ f_payload].
      destruct (decide _); [rewrite u64_small|]; cbn; lia. }
  assert (forall typ payload, encodeUint64 payload = typ -> len typ <= maxPayload) as H8.
  { intros ? ? <-. unfold encodeUint64. rewrite length_be_put. apply maxPayload_small. }
  step_cases Hst; ep_simpl; try (exists l; exact Hpipe).
  all: try (eapply Hout; [exact Hem|done|done|typ_ne|by eapply H8]).
  - apply blocked_retry in Hw as [-> _]. by exists l.
  - eapply Hout; [exact Hem|done|done|typ_ne|]. rewrite length_take. destruct Hf as [_ Hr _].
    destruct Hs. ep_simpl. pose proof (pok_maxFrame _ _ Hpar).
    destruct p as [|x p]; [cbn; lia|].
    destruct (chunkSize_spec c room (x :: p)) as (? & ? & Hm); [lia|rewrite si_params0; lia|done|].
    rewrite si_params0 in Hm. lia.
  - apply readTry_data in E as (rest & Hbuf & ->). by exists l.
  - apply blocked_retry in Hw as [-> _]. by exists l.
  - destruct (markAck_same d c) as (_ & _ & -> & _). by exists l.
  - destruct (failRecv_same (CIdle (rc_idleTimeout (c_cfg c))) c) as (_ & _ & M3 & _).
    destruct (idle now c); ep_simpl; rewrite ?M3; by exists l.
  - destruct (markAck_same d c) as (_ & _ & -> & _). by exists l.
  - pass_case Ea; ep_simpl; [by exists l..|].
    destruct (failRecv_same er (c_set_r c r')) as (_ & _ & -> & _). by exists l.
  - dispatch_case E; ep_simpl; [by exists l| |by exists l| |by exists l].
    + eapply pipe_step_at; [exact Hpipe|]. by eapply ps_reap.
    + destruct (failRecv_same er c) as (_ & _ & -> & _). by exists l.
  - eapply Hout; [exact Hem|done|done|typ_ne|cbn; pose proof maxPayload_small; lia].
  - unfold closeRest in E. destruct (closeWriter _ _) as [w2 fs2] eqn:Ew. injection E as <- <-.
    eapply pipe_step_at; [exact Hpipe|]. by eapply ps_close.
  - eapply pipe_step_at; [exact Hpipe|]. by eapply ps_flush.
Qed.

(** So does the reader's half. *)
Lemma dir_step_in rc l wtr fin log b b' :
  ctl_inv b -> ep_step fin b b' -> e_cl b' <> ClDone ->
  pipe_at rc l (mkPipe wtr fin (c_r (e_c b)) log (e_got b)) ->
  exists l', pipe_at rc l' (mkPipe wtr fin (c_r (e_c b')) log (e_got b')).
Proof.
  intros Hc Hst Hnd Hpipe. step_cases Hst; ep_simpl; try (exists l; exact Hpipe); try done.
  all: try (emit_case Hem; by exists l).
  - eapply pipe_step_at; [exact Hpipe|]. replace got with (got ++ got_of res) at 2
      by (destruct res; [done|apply app_nil_r..]). by eapply ps_pass.
  - eapply pipe_step_at; [exact Hpipe|]. by eapply (ps_pass wtr fin _ log got v r' (Ret f)).
  - apply blocked_retry in Hw as [-> _]. by exists l.
  - apply readTry_data in E as (rest & Hbuf & ->). by exists l.
  - apply blocked_retry in Hw as [-> _]. by exists l.
  - destruct (markAck_same d c) as (_ & _ & _ & -> & _). by exists l.
  - destruct (failRecv_same (CIdle (rc_idleTimeout (c_cfg c))) c) as (_ & _ & _ & M4 & _).
    destruct (idle now c); ep_simpl; rewrite ?M4; by exists l.
  - destruct (markAck_same d c) as (_ & _ & _ & -> & _). by exists l.
  - eapply pipe_step_at; [exact Hpipe|].
    replace (c_r (if decide (rv' = RvStop) then recvDone c' else c')) with r'; [by eapply ps_pass|].
    pass_case Ea; ep_simpl; [done..|].
    by destruct (failRecv_same er (c_set_r c r')) as (_ & _ & _ & -> & _).
  - dispatch_case E; ep_simpl; [by exists l..| |by exists l].
    destruct (failRecv_same er c) as (_ & _ & _ & -> & _). by exists l.
Qed.

(** * The invariant of a tunnel *)

Record half_inv (params : synParams) (e : endpoint) : Prop := {
  hi_send : send_inv params e;
  hi_recv : recv_inv e;
  hi_flow : flow_inv e;
  hi_ctl : ctl_inv e
}.

(** The direction from [a] to [b]: what [b] got is what [a] sent, in order. *)
Record dir_inv (rc : resolvedConfig) (a b : endpoint) : Prop := {
  di_prefix : e_got b `prefix_of` e_sent a;
  di_pipe : exists l, pipe_at rc l (dir_of a b)
}.

Lemma written_read pa rca a b : half_inv pa a -> half_inv (c_params (e_c b)) b -> dir_inv rca a b ->
  exists rest, e_sent a = e_got b ++ rest
    /\ e_written a = e_read b ++ recvBuf (c_rcv (e_c b)) ++ pending (e_rv b) ++ data_bytes rest.
Proof.
  intros [[]] [_ []] [[rest Hrest] _]. exists rest. split; [done|].
  rewrite <- si_written0, Hrest, data_bytes_app, <- ri_stream0, <- !app_assoc. done.
Qed.

(** [peerAck] never runs ahead of what the peer read. *)
Lemma peerAck_read pa pb rcb a b :
  half_inv pa a -> half_inv pb b -> dir_inv rcb b a ->
  0 <= peerAck (c_snd (e_c a)) <= recvData (c_rcv (e_c b)).
Proof.
  intros [_ [] _ _] [[] _ _ _] [[rest Hrest] _].
  destruct ri_peer0 as [->|(f & Hf & Ht & Hd)]; [lia|].
  destruct (si_acks0 f) as (v & Hv & Hr); [rewrite Hrest; apply elem_of_app; by left|done|].
  rewrite Hv in Hd. unfold decodeUint64, encodeUint64 in Hd.
  rewrite decide_True in Hd by apply length_be_put. apply (inj Some) in Hd.
  rewrite be_get_put in Hd. pose proof (Z.mod_le v (2 ^ (8 * Z.of_nat 8)) ltac:(lia) ltac:(lia)).
  pose proof (Z.mod_pos_bound v (2 ^ (8 * Z.of_nat 8)) ltac:(lia)). lia.
Qed.

Lemma half_peer_ok pa pb rca rcb a b :
  half_inv pa a -> half_inv pb b -> dir_inv rca a b -> dir_inv rcb b a -> peer_ok a.
Proof.
  intros Ha Hb Hab Hba. pose proof (peerAck_read _ _ _ _ _ Ha Hb Hba) as Hack.
  assert (half_inv (c_params (e_c b)) b) as Hb' by (by rewrite (si_params _ _ (hi_send _ _ Hb))).
  assert (half_inv (c_params (e_c a)) a) as Ha' by (by rewrite (si_params _ _ (hi_send _ _ Ha))).
  destruct (written_read _ _ _ _ Ha Hb' Hab) as (r1 & _ & E1).
  split.
  - destruct Hba as [Hp _]. apply data_bytes_prefix in Hp as [t Ht].
    destruct Hb as [[]]. rewrite si_written0 in Ht. rewrite Ht, length_app in si_sentData0. lia.
  - destruct Ha as [[] _ _ _]. destruct Hb as [_ [] _ _].
    rewrite si_sentData0, E1, length_app. lia.
Qed.

Lemma half_inv_step params fin e e' :
  half_inv params e -> peer_ok e -> 0 < p_window params < 2 ^ 63 -> ep_step fin e e' -> half_inv params e'.
Proof.
  intros [] Hpo Hw Hst. split.
  - by eapply send_inv_step.
  - eapply recv_inv_step; [done..|]. apply hi_ctl0.
  - by eapply flow_inv_step.
  - by eapply ctl_inv_step.
Qed.

Lemma ep_step_sent fin e e' : ep_step fin e e' -> e_sent e `prefix_of` e_sent e'.
Proof.
  intros Hst. step_cases Hst; ep_simpl; try done.
  all: try (emit_case Hem; [done|by eexists]).
  - by destruct (idle now c).
  - by destruct (decide _).
Qed.

(** A closed end reads nothing more. *)
Lemma ep_step_done fin e e' : ctl_inv e -> ep_step fin e e' -> e_cl e' = ClDone -> e_got e' = e_got e.
Proof.
  intros Hc Hst Hd.
  assert (e_cl e = ClDone -> e_rv e = RvStop) as Hstop by (intros H; apply Hc; by apply Hc).
  step_cases Hst; ep_simpl; try done.
  - by specialize (Hstop Hd).
  - by destruct (idle now c).
  - by specialize (Hstop Hd).
  - by destruct (decide _).
Qed.

Lemma dir_inv_out rc params fin a a' b :
  half_inv params a -> params_ok rc params -> ep_step fin a a' -> dir_inv rc a b -> dir_inv rc a' b.
Proof.
  intros [Hs _ Hf _] Hpar Hst [Hpre [l Hl]]. split.
  - etrans; [exact Hpre|by eapply ep_step_sent].
  - eapply (dir_step_out rc params fin a a' l (fst (rdr b)) (snd (rdr b))); done.
Qed.

Lemma dir_inv_in rc a b b' :
  ctl_inv b -> ep_step (e_fs a) b b' -> dir_inv rc a b -> dir_inv rc a b'.
Proof.
  intros Hc Hst [Hpre [l Hl]]. unfold dir_of, rdr in *.
  destruct (decide (e_cl b' = ClDone)) as [Hd|Hd].
  - split; [by rewrite (ep_step_done _ _ _ Hc Hst Hd)|]. exists l. unfold dir_of, rdr. rewrite Hd.
    exact (pipe_at_fresh _ _ _ true Hl).
  - assert (e_cl b <> ClDone) as Hd'.
    { intros Hb. apply Hd. clear Hl. step_cases Hst; ep_simpl; try done.
      - by destruct (idle now c).
      - by destruct (decide _). }
    assert (pipe_at rc l (mkPipe (c_w (e_c a)) (e_fs a) (c_r (e_c b)) (e_sent a) (e_got b))) as Hl'
      by (by destruct (e_cl b)).
    destruct (dir_step_in _ _ _ _ _ _ _ Hc Hst Hd Hl') as [l' Hl''].
    split; [|exists l'; unfold dir_of, rdr; by destruct (e_cl b')].
    pose proof (reader_at_prefix _ _ _ _ (pa_reader _ _ _ Hl'')) as Hp.
    by rewrite (pa_frames _ _ _ Hl'') in Hp.
Qed.

Section tunnel.
Context (rca rcb : resolvedConfig) (pa pb : synParams).
Context (Hpa : params_ok rca pa) (Hpb : params_ok rcb pb).

Record tun_inv (s : tunnel) : Prop := {
  ti_a : half_inv pa (fst s);
  ti_b : half_inv pb (snd s);
  ti_ab : dir_inv rca (fst s) (snd s);
  ti_ba : dir_inv rcb (snd s) (fst s)
}.

Lemma tun_inv_step s s' : tun_inv s -> tun_step s s' -> tun_inv s'.
Proof.
  intros [Ha Hb Hab Hba] Hst. pose proof (half_peer_ok _ _ _ _ _ _ Ha Hb Hab Hba) as Hoa.
  pose proof (half_peer_ok _ _ _ _ _ _ Hb Ha Hba Hab) as Hob.
  pose proof (pok_window _ _ Hpa). pose proof (pok_window _ _ Hpb).
  destruct Hst as [a b a' Hst|a b b' Hst]; cbn [fst snd] in *; split; cbn [fst snd]; try done.
  - by eapply half_inv_step.
  - by eapply (dir_inv_out _ pa _ a).
  - eapply (dir_inv_in _ _ a); [apply Ha|done..].
  - by eapply half_inv_step.
  - eapply (dir_inv_in _ _ b); [apply Hb|done..].
  - by eapply (dir_inv_out _ pb _ b).
Qed.

Lemma openSend_pipe rc params netFS w fs :
  openSend true true envOk rc params emptyDir = (Ok w, fs) ->
  (exists l, pipe_at rc l (mkPipe w fs (newSegReader netFS) [synOf params] [])) /\ w_closed w = false.
Proof.
  unfold openSend. destruct (newSegWriter_at rc) as (w0 & fs0 & E0 & Hw0 & _).
  rewrite E0. destruct (append _ _ _ _ _) as [[[|] w1] fs1] eqn:Ea; [done|].
  destruct (syncNow w1 fs1) as [w2 fs2] eqn:Es. injection 1 as <- <-. split.
  - eapply (pipe_reach_at rc netFS (mkPipe w0 fs0 (newSegReader netFS) [] [])); [done|].
    eapply star_step; [eapply star_once|].
    + eapply (ps_append w0 fs0 _ [] [] (synOf params) 0); [|rewrite (wa_cur _ _ _ Hw0); done|done|done].
      split; [|typ_ne]. split; cbn; [lia..|]. vm_compute. congruence.
    + by apply ps_sync.
  - apply append_closed_same in Ea. unfold syncNow in Es. injection Es as <- _.
    unfold newSegWriter in E0. cbn in E0. injection E0 as <- _. by destruct (w_flushTimer w1).
Qed.

Lemma ep_init_inv rc params dir r e : params_ok rc params -> ep_init rc params dir r e ->
  half_inv params e /\ e_got e = [] /\ e_cl e = ClNo
  /\ exists l netFS, pipe_at rc l (mkPipe (c_w (e_c e)) (e_fs e) (newSegReader netFS) (e_sent e) []).
Proof.
  intros Hp (w & fs & E & ->). destruct (openSend_pipe _ _ (rc_netFS rc) _ _ E) as [[l Hl] Hc].
  pose proof (pok_window _ _ Hp).
  split; [|by eauto]. split; split; ep_simpl; cbn; try done; try lia.
  - by eexists.
  - intros f ->%list_elem_of_singleton. typ_ne.
  - by inversion 1.
  - unfold roomNow. cbn. lia.
  - intros f ->%list_elem_of_singleton. typ_ne.
Qed.

Lemma tun_init_inv da db ra rb a b :
  ep_init rca pa da ra a -> ep_init rcb pb db rb b -> tun_inv (a, b).
Proof.
  intros Ha Hb. destruct (ep_init_inv _ _ _ _ _ Hpa Ha) as (Hia & Ga & Ca & la & na & La).
  destruct (ep_init_inv _ _ _ _ _ Hpb Hb) as (Hib & Gb & Cb & lb & nb & Lb).
  assert (forall x, e_cl x = ClNo -> e_got x = [] -> snd (rdr x) = []) as Hr.
  { intros x E1 E2. unfold rdr. by rewrite E1, E2. }
  assert (exists n, fst (rdr a) = newSegReader n) as [n1 R1].
  { destruct Ha as (? & ? & _ & ->). by eexists. }
  assert (exists n, fst (rdr b) = newSegReader n) as [n2 R2].
  { destruct Hb as (? & ? & _ & ->). by eexists. }
  split; cbn [fst snd]; try done; (split; [rewrite ?Ga, ?Gb; apply prefix_nil|]); unfold dir_of;
    rewrite Hr by done; [exists la; rewrite R2|exists lb; rewrite R1].
  - exact (pipe_at_fresh _ _ _ n2 La).
  - exact (pipe_at_fresh _ _ _ n1 Lb).
Qed.

Lemma tun_reach_inv da db ra rb a b s :
  ep_init rca pa da ra a -> ep_init rcb pb db rb b -> star tun_step (a, b) s -> tun_inv s.
Proof.
  intros Ha Hb Hs. eapply (star_inv tun_step tun_inv); [apply tun_inv_step|done|by eapply tun_init_inv].
Qed.

End tunnel.
