(* ===== verification/TunnelRun.v ===== *)
(** Runs and properties of a tunnel (FsTunnel.v): an executable scheduler for its
    step relation, and the theorems about every reachable state. *)

From stdpp Require Import base gmap list numbers strings.
From Stdlib Require Import ZArith Lia.
From Stdlib.Strings Require Import Byte.
From S2P Require Import Prelude GoStr Frame FsConfig SegLog SegPipe FsConn FsTunnel.

(** * Executing the system *)

(** One step of a chosen thread, where it is determined; readers see the whole
    directory of the peer. *)
Inductive act :=
| XSyn (now : Z) | XWrite (p : list byte) | XWriter (now : Z) | XRead (plen : nat) | XReader (now : Z)
| XTick (now : Z) | XMaint (now : Z) | XRecv (now : Z) | XClose | XFlush.

Definition runEmit (typ : frameType) (payload : list byte) (c : Conn) (fs : dirfs) (sent : list frame)
  : option (bool * Conn * dirfs * list frame) :=
  if (w_cur (c_w c) + 1 <? 2 ^ 32) && (sentData (c_snd c) + len payload <? 2 ^ 63) then
    match emit envOk typ payload c fs with
    | (None, c', fs') => Some (true, c', fs', sent ++ [frameOf typ payload c])
    | (Some CClosed, c', fs') => Some (false, c', fs', sent)
    | _ => None
    end
  else None.

Lemma runEmit_emits typ payload c fs sent ok c' fs' sent' :
  runEmit typ payload c fs sent = Some (ok, c', fs', sent') -> emits typ payload c fs sent ok c' fs' sent'.
Proof.
  unfold runEmit. destruct (_ && _) eqn:E; [|done]. breflect. intros Hres.
  split; [done|]. split; [done|].
  destruct (emit _ _ _ _ _) as [[[[]|] c1] fs1]; try done;
    injection Hres as <- <- <- <-; by eexists.
Qed.

Definition runWriter (e : endpoint) : option endpoint :=
  let '(mkEp c fs wr rd mt rv cl sent got wn rn) := e in
  match wr with
  | WIdle => None
  | WLoop [] => Some (mkEp c fs WIdle rd mt rv cl sent got wn rn)
  | WLoop p => Some (mkEp c fs (WSampled p (fst (windowSample c)) (snd (windowSample c)))
                       rd mt rv cl sent got wn rn)
  | WSampled p closed room =>
      Some (mkEp c fs (afterCheck p (windowCheck (recvErr (c_rcv c)) (closed, room))) rd mt rv cl sent got wn rn)
  | WWait p => if c_flowSig c
      then Some (mkEp (c_set_sigs c (c_dataSig c) false) fs (WLoop p) rd mt rv cl sent got wn rn) else None
  | WChunk p room =>
      let n := chunkSize c room p in
      match runEmit frameDATA (take n p) c fs sent with
      | Some (ok, c', fs', sent') =>
          Some (mkEp c' fs' (if ok then WLoop (drop n p) else WIdle) rd mt rv cl sent' got
                  (if ok then wn ++ take n p else wn) rn)
      | None => None
      end
  end.

Definition runReader (e : endpoint) : option endpoint :=
  let '(mkEp c fs wr rd mt rv cl sent got wn rn) := e in
  match rd with
  | RdIdle => None
  | RdWait => if c_dataSig c
      then Some (mkEp (c_set_sigs c false (c_flowSig c)) fs wr RdIdle mt rv cl sent got wn rn) else None
  | RdSample => Some (mkEp c fs wr (RdDue (recvData (c_rcv c))) mt rv cl sent got wn rn)
  | RdDue d => Some (mkEp c fs wr (if ackDue c d then RdSend d else RdIdle) mt rv cl sent got wn rn)
  | RdSend d =>
      match runEmit frameACK (encodeUint64 d) c fs sent with
      | Some (ok, c', fs', sent') =>
          Some (mkEp c' fs' wr (if ok then RdMark d else RdIdle) mt rv cl sent' got wn rn)
      | None => None
      end
  | RdMark d => Some (mkEp (markAck d c) fs wr RdIdle mt rv cl sent got wn rn)
  end.

Definition runMaint (now : Z) (e : endpoint) : option endpoint :=
  let '(mkEp c fs wr rd mt rv cl sent got wn rn) := e in
  match mt with
  | MtIdle | MtStop => None
  | MtDue d => Some (mkEp c fs wr rd (if d >? lastAckSent (c_snd c) then MtSend d else MtBeat)
                       rv cl sent got wn rn)
  | MtSend d =>
      match runEmit frameACK (encodeUint64 d) c fs sent with
      | Some (ok, c', fs', sent') =>
          Some (mkEp c' fs' wr rd (if ok then MtMark d else MtBeat) rv cl sent' got wn rn)
      | None => None
      end
  | MtMark d => Some (mkEp (markAck d c) fs wr rd MtBeat rv cl sent got wn rn)
  | MtBeat =>
      match runEmit frameHeartbeat (encodeUint64 (u64 now)) c fs sent with
      | Some (ok, c', fs', sent') => Some (mkEp c' fs' wr rd MtIdle rv cl sent' got wn rn)
      | None => None
      end
  end.

Definition runRecv (fin : dirfs) (now : Z) (e : endpoint) : option endpoint :=
  let '(mkEp c fs wr rd mt rv cl sent got wn rn) := e in
  if r_netFS (c_r c) then None else
  match rv with
  | RvStop => None
  | RvGot f =>
      let '(c', fs') := dispatch f c fs in
      Some (if decide (f_typ f = frameError)
            then mkEp (recvDone c') fs' wr rd mt RvStop cl sent got wn rn
            else mkEp c' fs' wr rd mt RvNext cl sent got wn rn)
  | RvNext =>
      if c_closed c then Some (mkEp (recvDone c) fs wr rd mt RvStop cl sent got wn rn) else
      let '(r', res) := nextIter (full_view fin) (c_r c) in
      let '(c', rv') := afterPass now res (c_set_r c r') in
      Some (mkEp (if decide (rv' = RvStop) then recvDone c' else c') fs wr rd mt rv' cl sent
              (got ++ got_of res) wn rn)
  | RvSyn =>
      match nextIter (full_view fin) (c_r c) with
      | (r', Ret f) =>
          match (let? p := synFrame f in checkVersion p) with
          | Ok _ => Some (mkEp (c_set_lastRecv (c_set_r c r') now) fs wr rd mt RvNext cl sent
                            (got ++ [f]) wn rn)
          | Err _ => None
          end
      | (r', RetErr e) => if waitable e
          then Some (mkEp (c_set_r c r') fs wr rd mt RvSyn cl sent got wn rn) else None
      | (r', Continue) => Some (mkEp (c_set_r c r') fs wr rd mt RvSyn cl sent got wn rn)
      end
  end.

Definition runClose (e : endpoint) : option endpoint :=
  let '(mkEp c fs wr rd mt rv cl sent got wn rn) := e in
  match cl with
  | ClNo =>
      match rv with
      | RvSyn => None
      | _ =>
        match runEmit frameFIN [] (c_set_life c true (c_closed c) (c_recvDone c) (c_dead c)) fs sent with
        | Some (ok, c', fs', sent') => Some (mkEp c' fs' wr rd mt rv ClFin sent' got wn rn)
        | None => None
        end
      end
  | ClFin => Some (mkEp (closeSend c) fs wr rd mt rv ClSend sent got wn rn)
  | ClSend => Some (mkEp (closeChan c) fs wr rd mt rv ClChan sent got wn rn)
  | ClChan => if c_recvDone c then
      let '(c', fs') := closeRest c fs in Some (mkEp c' fs' wr rd mt rv ClDone sent got wn rn) else None
  | ClDone => None
  end.

Definition runStart (x : act) (e : endpoint) : option endpoint :=
  let '(mkEp c fs wr rd mt rv cl sent got wn rn) := e in
  match rv with
  | RvSyn => None
  | _ =>
    match x, wr, rd, mt with
    | XWrite p, WIdle, _, _ => Some (mkEp c fs (WLoop p) rd mt rv cl sent got wn rn)
    | XRead plen, _, RdIdle, _ =>
        match readTry plen c with
        | RData bs c' => Some (mkEp c' fs wr RdSample mt rv cl sent got wn (rn ++ bs))
        | RBlock => Some (mkEp c fs wr RdWait mt rv cl sent got wn rn)
        | RErr _ => None
        end
    | XTick now, _, _, MtIdle =>
        Some (if idle now c
              then mkEp (failRecv (CIdle (rc_idleTimeout (c_cfg c))) c) fs wr rd MtStop rv cl sent got wn rn
              else mkEp c fs wr rd (MtDue (recvData (c_rcv c))) rv cl sent got wn rn)
    | _, _, _, _ => None
    end
  end.

Definition ep_run (fin : dirfs) (x : act) (e : endpoint) : option endpoint :=
  match x with
  | XWrite _ | XRead _ | XTick _ => runStart x e
  | XWriter _ => runWriter e
  | XReader _ => runReader e
  | XMaint now => runMaint now e
  | XSyn now | XRecv now => runRecv fin now e
  | XClose => runClose e
  | XFlush => let '(w', fs') := timedFlush (c_w (e_c e)) (e_fs e) in
      Some (mkEp (c_set_w (e_c e) w') fs' (e_wr e) (e_rd e) (e_mt e) (e_rv e) (e_cl e) (e_sent e)
              (e_got e) (e_written e) (e_read e))
  end.

Lemma runWriter_step fin e e' : runWriter e = Some e' -> ep_step fin e e'.
Proof.
  destruct e as [c fs wr rd mt rv cl sent got wn rn]. cbn [runWriter].
  destruct wr as [|[|x p]|p closed room|p room|p]; try done.
  - injection 1 as <-. constructor.
  - injection 1 as <-. by constructor.
  - injection 1 as <-. constructor.
  - destruct (runEmit _ _ _ _ _) as [[[[ok c'] fs'] sent']|] eqn:E; [|done]. injection 1 as <-.
    by eapply es_data; [|apply runEmit_emits].
  - destruct (c_flowSig c) eqn:E; [|done]. injection 1 as <-. apply (es_wwake _ _ _ _ _ _ _ _ _ _ _ _ 0).
    unfold blockedReady. rewrite E. apply elem_of_app. left. by apply list_elem_of_singleton.
Qed.

Lemma runReader_step fin e e' : runReader e = Some e' -> ep_step fin e e'.
Proof.
  destruct e as [c fs wr rd mt rv cl sent got wn rn]. cbn [runReader].
  destruct rd; try done.
  - destruct (c_dataSig c) eqn:E; [|done]. injection 1 as <-. apply (es_rwake _ _ _ _ _ _ _ _ _ _ _ 0).
    unfold blockedReady. rewrite E. apply elem_of_app. left. by apply list_elem_of_singleton.
  - injection 1 as <-. constructor.
  - injection 1 as <-. constructor.
  - destruct (runEmit _ _ _ _ _) as [[[[ok c'] fs'] sent']|] eqn:E; [|done]. injection 1 as <-.
    by eapply es_rsend, runEmit_emits.
  - injection 1 as <-. constructor.
Qed.

Lemma runMaint_step fin now e e' : runMaint now e = Some e' -> ep_step fin e e'.
Proof.
  destruct e as [c fs wr rd mt rv cl sent got wn rn]. cbn [runMaint].
  destruct mt; try done.
  - injection 1 as <-. constructor.
  - destruct (runEmit _ _ _ _ _) as [[[[ok c'] fs'] sent']|] eqn:E; [|done]. injection 1 as <-.
    by eapply es_msend, runEmit_emits.
  - injection 1 as <-. constructor.
  - destruct (runEmit _ _ _ _ _) as [[[[ok c'] fs'] sent']|] eqn:E; [|done]. injection 1 as <-.
    by eapply es_beat, runEmit_emits.
Qed.

Lemma runRecv_step fin now e e' : runRecv fin now e = Some e' -> ep_step fin e e'.
Proof.
  destruct e as [c fs wr rd mt rv cl sent got wn rn]. cbn [runRecv].
  destruct (r_netFS (c_r c)) eqn:Hn; [done|].
  destruct rv as [| |f|]; [| | |done].
  - destruct (nextIter _ _) as [r' [f|er|]] eqn:E.
    + destruct (res_bind _ _) eqn:Ep; [|done]. injection 1 as <-.
      eapply (es_syn_ok fin _ _ _ _ _ _ _ _ _ _ _ _ _ _ _ (full_view_of fin)); [congruence|done|exact Ep].
    + destruct (waitable er) eqn:Hw; [|done]. injection 1 as <-.
      eapply (es_syn_wait fin _ _ _ _ _ _ _ _ _ _ _ _ _ (full_view_of fin)); [congruence|done|done].
    + injection 1 as <-.
      eapply (es_syn_wait fin _ _ _ _ _ _ _ _ _ _ _ _ _ (full_view_of fin)); [congruence|done|done].
  - destruct (c_closed c) eqn:Hc; [injection 1 as <-; by constructor|].
    destruct (nextIter _ _) as [r' res] eqn:E. destruct (afterPass _ _ _) as [c' rv'] eqn:Ea.
    injection 1 as <-.
    eapply (es_pass fin _ _ _ _ _ _ _ _ _ _ _ _ _ now _ _ (full_view_of fin)); [congruence|done|done].
  - destruct (dispatch f c fs) as [c' fs'] eqn:E. injection 1 as <-. by constructor.
Qed.

Lemma runClose_step fin e e' : runClose e = Some e' -> ep_step fin e e'.
Proof.
  destruct e as [c fs wr rd mt rv cl sent got wn rn]. cbn [runClose]. destruct cl.
  - intros H. assert (rv <> RvSyn /\ exists ok c' fs' sent',
      runEmit frameFIN [] (c_set_life c true (c_closed c) (c_recvDone c) (c_dead c)) fs sent
        = Some (ok, c', fs', sent') /\ e' = mkEp c' fs' wr rd mt rv ClFin sent' got wn rn)
      as (Hrv & ok & c' & fs' & sent' & E & ->).
    { destruct rv; [done|..]; (split; [done|]);
        destruct (runEmit _ _ _ _ _) as [[[[ok c'] fs'] sent']|]; try done; injection H as <-; eauto 8. }
    by eapply es_close_fin, runEmit_emits.
  - injection 1 as <-. constructor.
  - injection 1 as <-. constructor.
  - destruct (c_recvDone c) eqn:Hd; [|done]. destruct (closeRest c fs) as [c' fs'] eqn:E.
    injection 1 as <-. by constructor.
  - done.
Qed.

Lemma runStart_step fin x e e' : runStart x e = Some e' -> ep_step fin e e'.
Proof.
  destruct e as [c fs wr rd mt rv cl sent got wn rn]. cbn [runStart]. intros H.
  assert (rv <> RvSyn) as Hrv by (by destruct rv).
  replace (match rv with RvSyn => None | _ => _ end) with
    (match x, wr, rd, mt with
     | XWrite p, WIdle, _, _ => Some (mkEp c fs (WLoop p) rd mt rv cl sent got wn rn)
     | XRead plen, _, RdIdle, _ =>
        match readTry plen c with
        | RData bs c' => Some (mkEp c' fs wr RdSample mt rv cl sent got wn (rn ++ bs))
        | RBlock => Some (mkEp c fs wr RdWait mt rv cl sent got wn rn)
        | RErr _ => None
        end
     | XTick now, _, _, MtIdle =>
        Some (if idle now c
              then mkEp (failRecv (CIdle (rc_idleTimeout (c_cfg c))) c) fs wr rd MtStop rv cl sent got wn rn
              else mkEp c fs wr rd (MtDue (recvData (c_rcv c))) rv cl sent got wn rn)
     | _, _, _, _ => None
     end) in H by (by destruct rv).
  destruct x; try done.
  - destruct wr; try done. injection H as <-. by constructor.
  - destruct rd; try done. destruct (readTry plen c) eqn:E; [|done|]; injection H as <-.
    + by eapply es_read.
    + by eapply es_rblock.
  - destruct mt; try done. injection H as <-. by constructor.
Qed.

Lemma ep_run_step fin x e e' : ep_run fin x e = Some e' -> ep_step fin e e'.
Proof.
  destruct x; cbn; eauto using runStart_step, runWriter_step, runReader_step, runMaint_step,
    runRecv_step, runClose_step.
  destruct e as [c fs wr rd mt rv cl sent got wn rn]. cbn.
  destruct (timedFlush (c_w c) fs) as [w' fs'] eqn:E. injection 1 as <-. by constructor.
Qed.

(** A schedule: which end moves, and how. *)
Fixpoint tun_run (xs : list (bool * act)) (s : tunnel) : option tunnel :=
  match xs with
  | [] => Some s
  | (onA, x) :: xs =>
      let '(a, b) := s in
      if onA then match ep_run (e_fs b) x a with Some a' => tun_run xs (a', b) | None => None end
      else match ep_run (e_fs a) x b with Some b' => tun_run xs (a, b') | None => None end
  end.

Lemma tun_run_star xs s s' : tun_run xs s = Some s' -> star tun_step s s'.
Proof.
  revert s. induction xs as [|[[] x] xs IH]; intros [a b]; cbn; [injection 1 as <-; constructor|..].
  - destruct (ep_run _ _ _) as [a'|] eqn:E; [|done]. intros H. eapply star_trans; [|by apply IH].
    apply star_once. constructor. by eapply ep_run_step.
  - destruct (ep_run _ _ _) as [b'|] eqn:E; [|done]. intros H. eapply star_trans; [|by apply IH].
    apply star_once. constructor. by eapply ep_run_step.
Qed.

(** * Reachable tunnels *)

(** A state of a tunnel whose two ends were configured with [rca], [pa] and [rcb],
    [pb]: both have written their SYN, and any interleaving of their threads follows. *)
Definition tun_reach (rca rcb : resolvedConfig) (pa pb : synParams) (a b : endpoint) : Prop :=
  params_ok rca pa /\ params_ok rcb pb
  /\ exists da db ra rb a0 b0, ep_init rca pa da ra a0 /\ ep_init rcb pb db rb b0
       /\ star tun_step (a0, b0) (a, b).

Lemma tun_reach_at rca rcb pa pb a b : tun_reach rca rcb pa pb a b -> tun_inv rca rcb pa pb (a, b).
Proof. intros (Ha & Hb & da & db & ra & rb & a0 & b0 & Ia & Ib & Hs). by eapply tun_reach_inv. Qed.

Lemma half_inv_params p e : half_inv p e -> half_inv (c_params (e_c e)) e.
Proof. intros H. by rewrite (si_params _ _ (hi_send _ _ H)). Qed.

Lemma tun_read_le rca pa pb a b : half_inv pa a -> half_inv pb b -> dir_inv rca a b ->
  recvData (c_rcv (e_c b)) = len (e_read b) /\ sentData (c_snd (e_c a)) = len (e_written a)
  /\ exists t, e_written a = e_read b ++ t.
Proof.
  intros Ha Hb Hab. pose proof (half_inv_params _ _ Hb) as Hb'.
  destruct (written_read _ _ _ _ Ha Hb' Hab) as (rest & _ & E).
  split; [apply Hb|]. split; [apply Ha|]. by eexists.
Qed.

Lemma params_ok_wf rc p : params_ok rc p -> synParams_wf p.
Proof.
  assert (maxPayload < 2 ^ 32) by (vm_compute; done).
  intros []. unfold protocolVersion in *. split; lia.
Qed.

(** * A run *)

Definition demo_params : synParams := mkSynParams 1 60 8 4.

Definition demo_end (r : role) : endpoint :=
  let '(res, fs) := openSend true true envOk (demo_rc false) demo_params emptyDir in
  let w := match res with Ok w => w | Err _ => mkSegWriter 0 false false 0 0 None 0 true [] false end in
  mkEp (newConn (demo_rc false) "/gpfs/ccb/conn" r w (newSegReader (rc_netFS (demo_rc false))) 1 demo_params 0)
    fs WIdle RdIdle MtIdle RvSyn ClNo [synOf demo_params] [] [] [].

(** Both SYNs are read; the initiator writes 11 bytes into a window of 8 and
    blocks; the acceptor receives both frames. *)
Definition demo_sched : list (bool * act) :=
  let A := true in let B := false in
  [(A, XSyn 1); (A, XSyn 1); (B, XSyn 1); (B, XSyn 1);
   (A, XWrite (String.list_byte_of_string "hello world"))]
  ++ replicate 8 (A, XWriter 1) ++ replicate 9 (B, XRecv 2).

(** The acceptor reads five bytes and acknowledges them; the ACK reaches the
    initiator's receive loop. *)
Definition demo_ack : list (bool * act) :=
  [(false, XRead 5)] ++ replicate 4 (false, XReader 2) ++ replicate 4 (true, XRecv 3).

(** The rest is read, the initiator closes and the acceptor sees the FIN. *)
Definition demo_close : list (bool * act) :=
  [(false, XRead 5); (true, XClose); (true, XClose)] ++ replicate 5 (false, XRecv 4).

Definition demo_state (xs : list (bool * act)) : tunnel :=
  default (demo_end roleInitiator, demo_end roleAcceptor)
    (tun_run xs (demo_end roleInitiator, demo_end roleAcceptor)).

Lemma demo_params_ok : params_ok (demo_rc false) demo_params.
Proof. split; vm_compute; intuition congruence. Qed.

Lemma demo_end_init r : ep_init (demo_rc false) demo_params "/gpfs/ccb/conn" r (demo_end r).
Proof.
  unfold ep_init, demo_end. destruct (openSend _ _ _ _ _ _) as [[w|e] fs] eqn:E; [by eauto|].
  vm_compute in E. done.
Qed.

(** The state a schedule ends in is reachable, if every step of it is enabled. *)
Lemma demo_tun xs :
  match tun_run xs (demo_end roleInitiator, demo_end roleAcceptor) with Some _ => True | None => False end ->
  tun_reach (demo_rc false) (demo_rc false) demo_params demo_params
    (fst (demo_state xs)) (snd (demo_state xs)).
Proof.
  unfold demo_state. destruct (tun_run xs _) as [[a b]|] eqn:E; [|done]. intros _.
  split; [apply demo_params_ok|]. split; [apply demo_params_ok|].
  eexists _, _, _, _, _, _. split; [apply demo_end_init|]. split; [apply demo_end_init|].
  by eapply tun_run_star.
Qed.

(** * Properties *)

(** C1: the tunnel is a reliable byte stream in each direction. In every
    reachable state the bytes [Write] accepted at one end are exactly the bytes
    [Read] returned at the other, then its receive buffer, then the frame its
    receive loop holds, then the DATA of the frames not yet received. *)
Theorem tunnel_stream rca rcb pa pb a b :
  tun_reach rca rcb pa pb a b ->
  (exists rest, e_sent a = e_got b ++ rest
     /\ e_written a = e_read b ++ recvBuf (c_rcv (e_c b)) ++ pending (e_rv b) ++ data_bytes rest)
  /\ (exists rest, e_sent b = e_got a ++ rest
     /\ e_written b = e_read a ++ recvBuf (c_rcv (e_c a)) ++ pending (e_rv a) ++ data_bytes rest).
Proof.
  intros [Ha Hb Hab Hba]%tun_reach_at. cbn [fst snd] in *.
  split; eapply written_read; try done; by eapply half_inv_params.
Qed.

Lemma tunnel_stream_witness :
  let a := fst (demo_state (demo_sched ++ demo_ack)) in
  let b := snd (demo_state (demo_sched ++ demo_ack)) in
  e_read b = String.list_byte_of_string "hello"
  /\ exists rest, e_written a = e_read b ++ recvBuf (c_rcv (e_c b)) ++ pending (e_rv b) ++ data_bytes rest.
Proof.
  cbv zeta. split; [vm_compute; reflexivity|].
  destruct (tunnel_stream _ _ _ _ _ _ (demo_tun (demo_sched ++ demo_ack) ltac:(vm_compute; exact I)))
    as [(rest & _ & H) _].
  exists rest. exact H.
Defined.

(** C2: flow control bounds what is in flight. The bytes written at one end and
    not yet read by the application at the other never exceed the writer's window,
    so neither does the receive buffer, and [peerAck] counts only bytes read. *)
Theorem tunnel_window rca rcb pa pb a b :
  tun_reach rca rcb pa pb a b ->
  len (e_written a) - len (e_read b) <= p_window pa
  /\ len (recvBuf (c_rcv (e_c b))) <= p_window pa
  /\ 0 <= peerAck (c_snd (e_c a)) <= len (e_read b).
Proof.
  intros [Ha Hb Hab Hba]%tun_reach_at. cbn [fst snd] in *.
  pose proof (peerAck_read _ _ _ _ _ Ha Hb Hba) as Hack.
  destruct (tun_read_le _ _ _ _ _ Ha Hb Hab) as (E1 & E2 & _).
  destruct (written_read _ _ _ _ Ha (half_inv_params _ _ Hb) Hab) as (rest & _ & E).
  pose proof (fi_window _ (hi_flow _ _ Ha)) as Hw. unfold roomNow in Hw.
  rewrite (si_params _ _ (hi_send _ _ Ha)) in Hw.
  rewrite E, !length_app in E2. rewrite E, !length_app. lia.
Qed.

Lemma tunnel_window_witness :
  let a := fst (demo_state demo_sched) in let b := snd (demo_state demo_sched) in
  e_wr a = WWait (String.list_byte_of_string "rld")
  /\ len (e_written a) = 8 /\ len (recvBuf (c_rcv (e_c b))) <= p_window demo_params.
Proof.
  cbv zeta. split; [vm_compute; reflexivity|]. split; [vm_compute; reflexivity|].
  exact (proj1 (proj2 (tunnel_window _ _ _ _ _ _ (demo_tun demo_sched ltac:(vm_compute; exact I))))).
Defined.

(** C3: end of file comes after the data. When [Read] reports EOF, the peer has
    called [Close], and every byte it wrote before the FIN has been returned by
    [Read]. *)
Theorem tunnel_eof rca rcb pa pb a b plen :
  tun_reach rca rcb pa pb a b -> readTry plen (e_c b) = RErr CEOF ->
  e_cl a <> ClNo
  /\ exists pre fin post, e_sent a = pre ++ fin :: post /\ f_typ fin = frameFIN
    /\ data_bytes pre `prefix_of` e_read b.
Proof.
  intros [Ha Hb Hab Hba]%tun_reach_at Hr. cbn [fst snd] in *.
  unfold readTry in Hr. destruct (recvBuf (c_rcv (e_c b))) eqn:Hbuf; [|done].
  destruct (recvErr _) as [er|] eqn:He.
  { injection Hr as ->. by destruct (ri_err _ (hi_recv _ _ Hb)). }
  destruct (recvEOF _) eqn:Heof; [|done].
  destruct (ri_eof _ (hi_recv _ _ Hb) Heof) as (pre & fin & post & Hg & Ht & Hpre).
  rewrite Hbuf, app_nil_r in Hpre.
  destruct (di_prefix _ _ _ Hab) as [rest Hrest]. rewrite Hg, <- app_assoc in Hrest.
  split; [|by exists pre, fin, (post ++ rest)].
  apply (ci_fin _ (hi_ctl _ _ Ha) fin); [|done]. rewrite Hrest. apply elem_of_app. right. by left.
Qed.

Lemma tunnel_eof_witness :
  let a := fst (demo_state (demo_sched ++ demo_ack ++ demo_close)) in
  let b := snd (demo_state (demo_sched ++ demo_ack ++ demo_close)) in
  readTry 4 (e_c b) = RErr CEOF /\ e_read b = String.list_byte_of_string "hello wo" /\ e_cl a <> ClNo.
Proof.
  cbv zeta. split; [vm_compute; reflexivity|]. split; [vm_compute; reflexivity|].
  refine (proj1 (tunnel_eof _ _ _ _ _ _ 4
    (demo_tun (demo_sched ++ demo_ack ++ demo_close) ltac:(vm_compute; exact I)) _)).
  vm_compute. reflexivity.
Defined.



(** C6: a full window is never a deadlock. If [Write] waits at one end while the
    other application has read everything and nothing is in flight, the other end
    has bytes it has not acknowledged, so its next maintenance tick sends an ACK,
    and dispatching that ACK reopens the whole window and wakes the writer. *)
Theorem tunnel_unstall rca rcb pa pb a b p f fs :
  tun_reach rca rcb pa pb a b ->
  e_wr a = WWait p -> c_flowSig (e_c a) = false -> sendClosed (c_snd (e_c a)) = false ->
  e_read b = e_written a -> e_got a = e_sent b -> e_rv a = RvNext ->
  f_typ f = frameACK -> f_payload f = encodeUint64 (recvData (c_rcv (e_c b))) ->
  lastAckSent (c_snd (e_c b)) < recvData (c_rcv (e_c b))
  /\ let c' := fst (dispatch f (e_c a) fs) in
     waitSendWindow c' = WaitRoom (p_window pa) /\ c_flowSig c' = true.
Proof.
  intros Hreach Hw Hs Hcl Hread Hgot Hrv Ht Hpl. pose proof Hreach as (Hpa & _).
  apply tun_reach_at in Hreach as [Ha Hb Hab Hba]. cbn [fst snd] in *.
  pose proof (fi_wr _ (hi_flow _ _ Ha)) as H. rewrite Hw, Hs in H.
  destruct H as [[He Hr]|]; [|done].
  destruct (tun_read_le _ _ _ _ _ Ha Hb Hab) as (E1 & E2 & _). rewrite Hread in E1.
  pose proof (si_params _ _ (hi_send _ _ Ha)) as Hp. pose proof (pok_window _ _ Hpa).
  pose proof (si_bound _ _ (hi_send _ _ Ha)) as Hbd.
  unfold roomNow in Hr. rewrite Hp in Hr. split.
  - destruct (si_last_sent _ _ (hi_send _ _ Hb)) as [->|(g & Hg & Htg & Hpg)];
      [pose proof (peerAck_read _ _ _ _ _ Ha Hb Hba); lia|].
    pose proof (si_last _ _ (hi_send _ _ Hb)) as Hl. rewrite <- Hgot in Hg.
    destruct (ri_ack _ (hi_recv _ _ Ha) g _ Hg Htg ltac:(rewrite Hpg; apply encode_decode64; lia))
      as [|Hx]; [lia|]. by rewrite Hrv in Hx.
  - destruct (dispatch f (e_c a) fs) as [c' fs'] eqn:Ed. cbn [fst].
    apply dispatch_cases in Ed as [(Ht' & _)|[(_ & v & w & Hv & _ & ->)|[(Ht' & _)|[(Ht' & _)|
      (_ & _ & _ & _ & _ & Hn)]]]]; try (by rewrite Ht in Ht').
    + rewrite Hpl, encode_decode64 in Hv by lia. injection Hv as <-.
      unfold waitSendWindow, windowSample. ep_simpl. split; [|done].
      rewrite He, Hcl, Hp. cbn [windowCheck fst snd].
      rewrite Z.max_l by lia. rewrite E1, E2, Z.sub_diag, (u64_small 0), (i64_small 0), (i64_small (p_window _)), i64_small by lia.
      rewrite Z.sub_0_r, Z.gtb_ltb. destruct (0 <? p_window pa) eqn:Hg; [done|]. breflect. lia.
    + specialize (Hn Ht). rewrite Hpl, encode_decode64 in Hn by lia. done.
Qed.

Lemma tunnel_unstall_witness :
  let a := fst (demo_state (demo_sched ++ [(false, XRead 8)])) in
  let b := snd (demo_state (demo_sched ++ [(false, XRead 8)])) in
  waitSendWindow (fst (dispatch (mkFrame frameACK x00 1 0 (encodeUint64 8)) (e_c a) (e_fs a)))
  = WaitRoom (p_window demo_params).
Proof.
  cbv zeta.
  refine (proj1 (proj2 (tunnel_unstall _ _ _ _ _ _ (String.list_byte_of_string "rld")
    (mkFrame frameACK x00 1 0 (encodeUint64 8)) _
    (demo_tun (demo_sched ++ [(false, XRead 8)]) ltac:(vm_compute; exact I)) _ _ _ _ _ _ _ _)));
    vm_compute; reflexivity.
Defined.

(** The handshake accepts its peer. The first frame an end reads during the
    handshake is the SYN the other end wrote, and [waitSYN]'s check and the version
    check accept it with the peer's parameters. *)
Theorem tunnel_handshake rca rcb pa pb a b v r' f :
  tun_reach rca rcb pa pb a b -> e_rv a = RvSyn ->
  view_of (e_fs b) v -> (r_netFS (c_r (e_c a)) = true -> can_reopen v (c_r (e_c a))) ->
  nextIter v (c_r (e_c a)) = (r', Ret f) ->
  f = synOf pb /\ (let? p := synFrame f in checkVersion p) = Ok pb.
Proof.
  intros Hreach Hrv Hv Hre E. pose proof Hreach as (_ & Hpb & _).
  apply tun_reach_at in Hreach as [Ha Hb Hab Hba]. cbn [fst snd] in *.
  assert (f = synOf pb) as ->.
  { destruct (di_pipe _ _ _ Hba) as [l [Hf _ Hw Hr _ _]].
    destruct (ci_syn _ (hi_ctl _ _ Ha) Hrv) as (_ & _ & _ & Hcl).
    unfold dir_of, rdr in *. rewrite Hcl in *. cbn [pp_w pp_fs pp_r pp_sent pp_got fst snd] in *.
    rewrite (ri_syn _ (hi_recv _ _ Ha) Hrv) in *.
    destruct (nextIter_at l (fun k => k) (wa_ok _ _ _ Hw) v [] (c_r (e_c a))) as (r2 & res & E2 & _ & Hp);
      [by eapply view_of_ok|done|done|].
    rewrite E in E2. injection E2 as <- <-. apply reader_at_prefix in Hp. rewrite Hf in Hp.
    destruct (si_syn _ _ (hi_send _ _ Hb)) as [rest Hs]. rewrite Hs in Hp.
    by apply prefix_cons_inv_1 in Hp. }
  split; [done|]. unfold synFrame. cbn [synOf f_typ f_payload]. rewrite decide_True by done.
  rewrite decodeSynParams_encode by (by eapply params_ok_wf). cbn [res_bind]. unfold checkVersion.
  by rewrite (pok_version _ _ Hpb).
Qed.

Lemma tunnel_handshake_witness :
  let s := demo_state [(true, XSyn 1)] in
  exists r' f, nextIter (full_view (e_fs (snd s))) (c_r (e_c (fst s))) = (r', Ret f)
  /\ (let? p := synFrame f in checkVersion p) = Ok demo_params.
Proof.
  cbv zeta. destruct (nextIter _ _) as [r' [f|er|]] eqn:E; [|vm_compute in E; discriminate..].
  exists r', f. split; [reflexivity|].
  refine (proj2 (tunnel_handshake _ _ _ _ _ _ _ r' f
    (demo_tun [(true, XSyn 1)] ltac:(vm_compute; exact I)) _ (full_view_of _) _ E)).
  - vm_compute. reflexivity.
  - vm_compute. discriminate.
Defined.

(** C7: a segment is unlinked only after its bytes were read. Whatever frame the
    receive loop dispatches, a file it unlinks is a closed segment whose DATA, with
    all DATA before it, the peer's application has already read. *)
Theorem tunnel_reap_read rca rcb pa pb a b f c' fs' name i :
  tun_reach rca rcb pa pb a b -> e_rv a = RvGot f -> dispatch f (e_c a) (e_fs a) = (c', fs') ->
  d_links (e_fs a) !! name = Some i -> d_links fs' !! name = None ->
  exists before seg after, e_sent a = before ++ seg ++ after
    /\ data_bytes (before ++ seg) `prefix_of` e_read b
    /\ fdata fs' i = Some (enc_all seg ++ appendTo (rollFrame (Z.of_nat (S i))) []).
Proof.
  intros [Ha Hb Hab Hba]%tun_reach_at Hrv Ed Hl Hn. cbn [fst snd] in *.
  pose proof (peerAck_read _ _ _ _ _ Ha Hb Hba) as Hack.
  destruct (tun_read_le _ _ _ _ _ Ha Hb Hab) as (E1 & E2 & t & E3).
  apply dispatch_cases in Ed as [(_ & -> & _)|[(Ht & v & w & Hv & Hre & _)|[(_ & -> & _)|[(_ & -> & _)|
    (_ & _ & _ & _ & -> & _)]]]]; [congruence| |congruence..].
  assert (v <= recvData (c_rcv (e_c b))) as Hvb.
  { pose proof (ci_got _ (hi_ctl _ _ Ha) f Hrv) as Hin. destruct (di_prefix _ _ _ Hba) as [rest Hrest].
    destruct (si_acks _ _ (hi_send _ _ Hb) f) as (u & Hu & Hru);
      [rewrite Hrest; apply elem_of_app; by left|done|].
    pose proof (po_got _ (half_peer_ok _ _ _ _ _ _ Hb Ha Hba Hab)) as Hbd.
    pose proof (ri_stream _ (hi_recv _ _ Hb)) as Hst. rewrite <- Hst, length_app in Hbd.
    rewrite Hu, encode_decode64 in Hv by lia. injection Hv as <-. lia. }
  destruct (di_pipe _ _ _ Hab) as [l Hpipe].
  destruct (reap_removed _ _ _ _ name i w fs' Hpipe Hre Hl Hn)
    as (_ & _ & before & seg & after & Hs & Hle & Hf).
  exists before, seg, after. split; [done|]. split; [|done].
  pose proof (si_written _ _ (hi_send _ _ Ha)) as Hwr. unfold dir_of in Hs. cbn [pp_sent] in Hs.
  rewrite Hs, app_assoc, data_bytes_app, E3 in Hwr. rewrite data_total_bytes in Hle.
  eapply app_prefix_le; [exact Hwr|]. lia.
Qed.

Lemma tunnel_reap_read_witness :
  let a := fst (demo_state (demo_sched ++ demo_ack)) in
  let b := snd (demo_state (demo_sched ++ demo_ack)) in
  exists before seg after, e_sent a = before ++ seg ++ after
    /\ data_bytes (before ++ seg) `prefix_of` e_read b.
Proof.
  cbv zeta.
  destruct (tunnel_reap_read _ _ _ _ _ _ (mkFrame frameACK x00 1 0 (encodeUint64 5)) _ _ (segName 0) 0%nat
    (demo_tun (demo_sched ++ demo_ack) ltac:(vm_compute; exact I))
    ltac:(vm_compute; reflexivity) (surjective_pairing _)
    ltac:(vm_compute; reflexivity) ltac:(vm_compute; reflexivity)) as (be & seg & af & H1 & H2 & _).
  exists be, seg, af. split; assumption.
Defined.
