(* ===== verification/IoError.v ===== *)
(** Failing writes of a tunnel end (transport/fstun/conn.go, seglog.go): what an append
    that fails part of the way leaves in the send direction, what the peer's reader
    makes of it, and what [Write] reports. *)

From stdpp Require Import base gmap list numbers strings.
From Stdlib Require Import ZArith Lia.
From Stdlib.Strings Require Import Byte.
From S2P Require Import Prelude GoStr Frame FsConfig SegLog SegPipe FsConn FsTunnel.

(** * A torn log *)

(** The directory [fs] after an append of [f] to the log [l] failed: it shows a reader
    only prefixes of a log [l'] that goes on from [l], perhaps with [f], of which
    some bytes are missing then; segment [k] is file [ino k]. *)
Record torn (l : slog) (f : frame) (l' : slog) (ino : nat -> nat) (fs : dirfs) : Prop := {
  tn_ok : log_ok l';
  tn_grow got r : reader_at l (fun k => k) got r -> reader_at l' ino got r;
  tn_frames : lg_frames l' = lg_frames l \/ (lg_frames l' = lg_frames l ++ [f] /\ lg_cur l' <> []);
  tn_view v : view_of fs v -> view_ok l' ino v;
  tn_data k : (k <= length (lg_closed l))%nat -> exists d, fdata fs k = Some d /\ segBytes l k `prefix_of` d;
  tn_link k i : (k <= length (lg_closed l))%nat -> d_links fs !! segName (Z.of_nat k) = Some i -> i = k;
  tn_short d : lg_frames l' = lg_frames l ++ [f] -> fdata fs (ino (length (lg_closed l'))) = Some d ->
    (length d < length (enc_all (lg_cur l')))%nat
}.

(** Views of a directory whose segments are prefixes of those of [l']. *)
Lemma prefix_view l' ino fs v :
  (forall k i, (k <= length (lg_closed l'))%nat -> d_links fs !! segName (Z.of_nat k) = Some i -> i = ino k) ->
  (forall k d, (k <= length (lg_closed l'))%nat -> fdata fs (ino k) = Some d -> d `prefix_of` segBytes l' k) ->
  view_of fs v -> view_ok l' ino v.
Proof.
  intros Hlink Hpre [Ho Hr Hd Hn]. split.
  - intros k i Hk E. apply (Hlink k); [done|]. by apply Ho.
  - intros k i Hk E. apply (Hlink k); [done|]. by apply Hr.
  - intros k Hk. destruct (fdata fs (ino k)) as [d|] eqn:E; [|rewrite (Hn _ E); apply prefix_nil].
    etrans; [by apply Hd|by apply Hpre].
Qed.

(** A name of the log is linked to its own file, and the name after it to none. *)
Lemma writer_links l w fs k i : writer_at l w fs -> Z.of_nat k < 2 ^ 32 -> d_links fs !! segName (Z.of_nat k) = Some i -> i = k.
Proof.
  intros Hw Hk H'. pose proof (lok_count _ (wa_ok _ _ _ Hw)). apply (wa_links _ _ _ Hw) in H' as [Hn Hi].
  assert (i <= length (lg_closed l))%nat.
  { destruct Hi as [->|(e & He & Hei)]; [done|]. apply (wa_reap _ _ _ Hw) in He. lia. }
  apply segName_inj in Hn; lia.
Qed.

Lemma writer_links_next l w fs : writer_at l w fs -> Z.of_nat (S (length (lg_closed l))) < 2 ^ 32 ->
  d_links fs !! segName (Z.of_nat (S (length (lg_closed l)))) = None.
Proof.
  intros Hw Hk. destruct (d_links fs !! _) as [i|] eqn:E; [|done]. pose proof E as E'. apply (writer_links l w) in E' as ->; [|done..].
  apply (wa_links _ _ _ Hw) in E as [_ [?|(e & He & Hi)]]; [lia|]. apply (wa_reap _ _ _ Hw) in He. lia.
Qed.

Lemma reader_at_ino l ino ino' got r : (forall k, (k <= length (lg_closed l))%nat -> ino' k = ino k) ->
  reader_at l ino got r -> reader_at l ino' got r.
Proof.
  intros He (k & pre & post & Hc & Hs & Hg & Hst). exists k, pre, post. do 3 (split; [done|]).
  destruct (r_f r) as [[name i]|]; [|done]. rewrite He by (by eapply lg_segs_last). done.
Qed.

(** The write of a frame to the open segment fails part of the way. *)
Lemma torn_write l w fs f j : writer_at l w fs -> frame_ok f -> let n := length (lg_closed l) in
  (j < length (appendTo f []))%nat ->
  torn l f (mkLog (lg_closed l) (lg_cur l ++ [f])) (fun k => k) (fs_append n (take j (appendTo f [])) fs).
Proof.
  intros Hw Hf n Hj. pose proof (lok_count _ (wa_ok _ _ _ Hw)) as Hn. split.
  - apply log_ok_snoc; [apply Hw|done].
  - intros got r. apply reader_at_snoc.
  - right. split; [|cbn; by destruct (lg_cur l)]. unfold lg_frames. cbn. by rewrite app_assoc.
  - intros v. apply prefix_view; cbn [lg_closed].
    + intros k i Hk E. apply (writer_links l w fs); [done|lia|done].
    + intros k d Hk. rewrite fdata_append, segBytes_snoc by done. rewrite (wa_data _ _ _ Hw) by done. fold n.
      destruct (decide (n = k)); cbn; intros [= <-]; [|by rewrite app_nil_r]. apply prefix_app, prefix_take.
  - intros k Hk. rewrite fdata_append, (wa_data _ _ _ Hw) by done. case_decide; cbn; eexists; (split; [done|]); [by eexists|done].
  - intros k i Hk E. apply (writer_links l w fs); [done|lia|done].
  - intros d _. cbn [lg_closed lg_cur]. rewrite fdata_append, (wa_data _ _ _ Hw), decide_True by done. cbn. intros [= <-].
    rewrite segBytes_cur, enc_all_app, !length_app, length_take. cbn [enc_all map concat]. rewrite app_nil_r. lia.
Qed.

(** The ROLL frame is not written whole, or the next segment is not opened. *)
Lemma torn_roll l w fs f fs' tail : writer_at l w fs -> let n := length (lg_closed l) in
  Z.of_nat (S n) < 2 ^ 32 -> tail `prefix_of` appendTo (rollFrame (u32 (Z.of_nat n + 1))) [] -> d_links fs' = d_links fs ->
  (forall k, (k <= n)%nat -> fdata fs' k = Some (segBytes l k ++ if decide (n = k) then tail else [])) ->
  exists ino, torn l f (mkLog (lg_closed l ++ [lg_cur l]) []) ino fs'.
Proof.
  intros Hw n Hn Ht Hlk Hd. set (x := fresh (dom (d_inodes fs'))).
  assert (fdata fs' x = None) as Hx.
  { unfold fdata. rewrite (proj1 (not_elem_of_dom _ _)); [done|]. apply is_fresh. }
  set (ino := fun k => if decide (k = S n) then x else k). exists ino.
  assert (length (lg_closed (mkLog (lg_closed l ++ [lg_cur l]) [])) = S n) as Hlen by (cbn; rewrite length_app; cbn; lia).
  assert (lg_frames (mkLog (lg_closed l ++ [lg_cur l]) []) = lg_frames l) as Hfr.
  { unfold lg_frames. cbn. rewrite concat_app. cbn. by rewrite !app_nil_r. }
  split; rewrite ?Hlen.
  - destruct (wa_ok _ _ _ Hw) as [H1 H2 H3]. split; cbn [lg_closed lg_cur]; [|constructor|rewrite length_app; cbn; lia].
    by apply Forall_app; split; [|constructor].
  - intros got r Hr. eapply reader_at_roll, reader_at_ino; [|exact Hr]. intros k Hk. unfold ino. by rewrite decide_False by lia.
  - by left.
  - intros v. apply prefix_view; rewrite Hlen; intros k.
    + intros i Hk. rewrite Hlk. unfold ino. destruct (decide (k = S n)) as [->|]; [by rewrite (writer_links_next l w)|].
      intros E. apply (writer_links l w fs); [done|lia|done].
    + intros d Hk. unfold ino. destruct (decide (k = S n)) as [->|]; [by rewrite Hx|]. rewrite Hd, segBytes_roll by lia. intros [= <-].
      fold n. destruct (decide (n = k)) as [<-|]; [by apply prefix_app|done].
  - intros k Hk. rewrite Hd by done. eexists. split; [done|]. by eexists.
  - intros k i Hk. rewrite Hlk. intros E. apply (writer_links l w fs); [done|lia|done].
  - intros d E. exfalso. rewrite Hfr in E. apply (f_equal length) in E. rewrite length_app in E. cbn in E. lia.
Qed.

(** The same directory, seen from the log before a roll that went well. *)
Lemma torn_before l l1 f l' ino fs : lg_frames l1 = lg_frames l ->
  (forall got r, reader_at l (fun k => k) got r -> reader_at l1 (fun k => k) got r) ->
  (forall k, (k <= length (lg_closed l))%nat -> (k <= length (lg_closed l1))%nat /\ segBytes l k `prefix_of` segBytes l1 k) ->
  torn l1 f l' ino fs -> torn l f l' ino fs.
Proof.
  intros Ef Hg Hp [H1 H2 H3 H4 H5 H6 H7]. rewrite Ef in H3, H7. split; try done; [by eauto| |].
  2: { intros k i Hk. apply H6. by apply Hp. }
  intros k Hk. destruct (Hp k Hk) as [Hk1 Hpk]. destruct (H5 k Hk1) as (d & Hd & Hpd). exists d. split; [done|]. by etrans.
Qed.

Lemma appendCur_torn env l w fs f e w' fs' : writer_at l w fs -> w_closed w = false -> frame_ok f ->
  appendCur env f w fs = (Some e, w', fs') -> e = ErrIO /\ exists l' ino, torn l f l' ino fs'.
Proof.
  intros Hw Ho Hf. unfold appendCur. rewrite (wa_f _ _ _ Hw), Ho. cbn [negb file_write snd fst].
  destruct (ae_write env) as [|j]; [destruct (w_netFS w), (w_syncEnb w); by intros|]. intros [= <- <- <-]. split; [done|].
  eexists _, _. apply (torn_write l w fs f (Nat.min j (pred (length (appendTo f []))))); [done..|]. pose proof (appendTo_pos f). apply Nat.min_lt_iff. right. set (x := length _) in *. clearbody x. lia.
Qed.

(** Any append that fails with an I/O error leaves such a directory. *)
Lemma append_torn env l w fs f dataEnd e w' fs' : writer_at l w fs -> w_closed w = false -> frame_ok f ->
  Z.of_nat (S (length (lg_closed l))) < 2 ^ 32 -> append env f dataEnd w fs = (Some e, w', fs') ->
  e = ErrIO /\ exists l' ino, torn l f l' ino fs'.
Proof.
  intros Hw Ho Hf Hn. unfold append. rewrite Ho. destruct (_ && _); [|by apply appendCur_torn].
  set (n := length (lg_closed l)) in *. set (rf := appendTo (rollFrame (u32 (Z.of_nat n + 1))) []).
  assert ((ae_roll env = WOk /\ ae_open env = true) \/ ~ (ae_roll env = WOk /\ ae_open env = true)) as [[Er Eo]|Hbad]
    by (destruct (ae_roll env), (ae_open env); naive_solver).
  - destruct (roll_at l w fs dataEnd Hw Ho Hn) as (w1 & fs1 & E & Hw1 & _ & _ & Ho1).
    assert (roll env dataEnd w fs = (None, w1, fs1)) as -> by (rewrite <- E; unfold roll; by rewrite Er, Eo).
    intros Ea. destruct (appendCur_torn _ _ _ _ _ _ _ _ Hw1 Ho1 Hf Ea) as (-> & l' & ino & Ht). split; [done|]. exists l', ino.
    eapply torn_before; [| |intros k Hk|exact Ht].
    + unfold lg_frames. cbn. rewrite concat_app. cbn. by rewrite !app_nil_r.
    + intros got r. apply reader_at_roll.
    + cbn [lg_closed]. rewrite length_app, segBytes_roll by done. split; [lia|by eexists].
  - assert (forall fs2 tail, tail `prefix_of` rf -> d_links fs2 = d_links fs ->
      (forall k, fdata fs2 k = fdata (fs_append n tail fs) k) -> exists l' ino, torn l f l' ino fs2) as Hroll.
    { intros fs2 tail Ht Hlk Hfd. eexists. eapply torn_roll; [done|done|exact Ht|done|]. intros k Hk.
      rewrite Hfd, fdata_append, (wa_data _ _ _ Hw) by done. fold n. destruct (decide (n = k)); [done|by rewrite app_nil_r]. }
    unfold roll. rewrite (wa_f _ _ _ Hw), Ho, (wa_cur _ _ _ Hw). fold n. cbn [negb file_write snd fst]. rewrite (u32_small (_ + 1)) by lia.
    assert (rf = appendTo (rollFrame (Z.of_nat n + 1)) []) as <- by (unfold rf; by rewrite u32_small by lia).
    destruct (ae_roll env) as [|j].
    + destruct (ae_open env); [by destruct Hbad|]. cbn [openCur]. intros [= <- <- <-]. split; [done|].
      apply (Hroll _ rf); [done|by rewrite links_maysync|]. intros k. apply fdata_maysync.
    + intros [= <- <- <-]. split; [done|]. eapply Hroll; [apply prefix_take|done|done].
Qed.

(** * Reading a torn log *)

(** The reader has not read past the end of its file. *)
Definition seen (fs : dirfs) (r : segReader) : Prop :=
  match r_f r with Some (_, i) => (r_off r <= length (default [] (fdata fs i)))%nat | None => True end.

Lemma fill_seen l ino fs v got r name i r' b : view_of fs v -> view_ok l ino v -> reader_at l ino got r -> seen fs r ->
  r_f r = Some (name, i) -> fill v name i r = (r', b) -> seen fs r'.
Proof.
  intros Hvo Hvk (k & pre & post & Hc & Hs & _ & Hst) Hsn Hf. pose proof (lg_segs_last _ _ _ Hs) as Hk.
  unfold seen in Hsn. rewrite Hf in Hst, Hsn. destruct Hst as (-> & -> & _).
  assert (length (v_data v (ino k)) <= length (default [] (fdata fs (ino k))))%nat as Hle.
  { destruct (fdata fs (ino k)) as [d|] eqn:E; cbn; [by apply prefix_length, (vo_data _ _ Hvo)|by rewrite (vo_none _ _ Hvo _ E)]. }
  assert (forall r0, r_off r0 = r_off r -> r_f r0 = Some (segName (Z.of_nat k), ino k) ->
    match v_size v (ino k) with
    | None => (r0, Err ErrIO)
    | Some size => if decide (size <= r_off r0)%nat then (r0, Ok false) else
        let tmp := take (size - r_off r0) (drop (r_off r0) (v_data v (ino k))) in
        (r_set r0 (r_f r0) (r_off r0 + length tmp) (r_buf r0 ++ tmp), Ok (bool_decide (0 < length tmp)%nat))
    end = (r', b) -> seen fs r') as Hread.
  { intros r0 E1 E2. destruct (v_size v (ino k)) as [size|]; [destruct (decide _)|]; intros [= <- <-]; unfold seen; cbn; rewrite E2, ?E1; [done| |done].
    rewrite length_take, length_drop. lia. }
  unfold fill. destruct (r_netFS r); [|by apply Hread]. destruct (v_reopen v _) as [i'|] eqn:Er; [|by intros [= <- <-]].
  apply (vok_reopen _ _ _ Hvk k) in Er as ->; [|done]. by apply Hread.
Qed.

Lemma nextIter_seen l ino fs v got r r' res : view_of fs v -> view_ok l ino v -> reader_at l ino got r -> seen fs r ->
  nextIter v r = (r', res) -> seen fs r'.
Proof.
  intros Hvo Hvk Hr Hsn.
  assert (forall name i r0, reader_at l ino got r0 -> seen fs r0 -> r_f r0 = Some (name, i) ->
    match decodeFrame (r_buf r0) with
    | Ok (fr, n) =>
        let r1 := r_set r0 (r_f r0) (r_off r0) (drop n (r_buf r0)) in
        if decide (f_typ fr = frameROLL) then
          match advance fr r1 with (r2, Some e) => (r2, RetErr e) | (r2, None) => (r2, Continue) end
        else (r1, Ret fr)
    | Err errCorruptFrame => (r0, RetErr ErrCorrupt)
    | Err errIncompleteFrame =>
        match fill v name i r0 with
        | (r1, Err e) => (r1, RetErr e) | (r1, Ok true) => (r1, Continue) | (r1, Ok false) => (r1, RetErr ErrIncomplete)
        end
    end = (r', res) -> seen fs r') as Hbody.
  { intros name i r0 Hr0 Hs0 Hf. destruct (decodeFrame (r_buf r0)) as [[fr n]|[]].
    - destruct (decide _); [|by intros [= <- <-]]. unfold advance. destruct (decodeUint32 _); by intros [= <- <-].
    - destruct (fill v name i r0) as [r1 b] eqn:E. eapply fill_seen in E; [|done..]. by destruct b as [[]|]; intros [= <- <-].
    - by intros [= <- <-]. }
  unfold nextIter. destruct (r_f r) as [[name i]|] eqn:Hf; [specialize (Hbody name i r Hr Hsn Hf); by rewrite Hf in Hbody|].
  destruct (v_open v (segName (r_cur r))) as [i|e] eqn:Ho; [|intros [= <- <-]; unfold seen; by rewrite Hf].
  apply Hbody; [by eapply reader_at_open|unfold seen; cbn; lia|done].
Qed.

(** The passes of a reader over the directory [fs]. *)
Inductive rpass (fs : dirfs) : list frame * segReader -> list frame * segReader -> Prop :=
| rp_pass got r v r' res : view_of fs v -> (r_netFS r = true -> can_reopen v r) -> nextIter v r = (r', res) ->
    rpass fs (got, r) (got ++ got_of res, r').

(** A reader of a torn log never returns the frame that is not all there. *)
Lemma torn_got l f l' ino fs got r : torn l f l' ino fs -> reader_at l' ino got r -> seen fs r -> got `prefix_of` lg_frames l.
Proof.
  intros Ht Hr Hsn. pose proof (reader_at_prefix _ _ _ _ Hr) as Hp. destruct (tn_frames _ _ _ _ _ Ht) as [<-|[Ef Hcur]]; [done|].
  rewrite Ef in Hp. destruct Hp as [x Hx]. destruct x as [|y x _] using rev_ind.
  2: { rewrite app_assoc in Hx. apply app_inj_tail in Hx as [-> _]. by eexists. }
  exfalso. rewrite app_nil_r in Hx. destruct Hr as (k & pre & post & Hc & Hs & Hg & Hst). pose proof (lg_segs_last _ _ _ Hs) as Hk.
  rewrite <- Hx, <- Ef in Hg. set (n := length (lg_closed l')) in *.
  assert (k = n /\ pre = lg_cur l') as [-> ->].
  { destruct (decide (k = n)) as [->|Hne].
    - split; [done|]. unfold lg_frames, lg_segs in *. unfold n in *. rewrite lookup_app_r, Nat.sub_diag in Hs by lia. cbn in Hs. injection Hs as Hs.
      rewrite take_app_length in Hg. by apply app_inv_head in Hg.
    - exfalso. assert (lg_frames l' = concat (take k (lg_segs l') ++ (pre ++ post) :: drop (S k) (lg_segs l'))) as E
        by (rewrite take_drop_middle by done; unfold lg_frames, lg_segs; rewrite concat_app; cbn; by rewrite app_nil_r).
      rewrite E, concat_app in Hg. cbn [concat] in Hg. apply (f_equal length) in Hg. rewrite !length_app in Hg.
      assert (0 < length (concat (drop (S k) (lg_segs l'))))%nat; [|lia].
      unfold lg_segs. rewrite drop_app_le by (fold n; lia). rewrite concat_app, length_app. cbn. rewrite app_nil_r.
      destruct (lg_cur l'); [done|cbn; lia]. }
  destruct (r_f r) as [[name i]|] eqn:Hf; [|by destruct Hst]. destruct Hst as (_ & -> & Hb & _). unfold seen in Hsn. rewrite Hf in Hsn.
  apply (f_equal length) in Hb. rewrite length_app, length_take in Hb.
  destruct (fdata fs (ino n)) as [d|] eqn:Ed; cbn in Hsn.
  - pose proof (tn_short _ _ _ _ _ Ht d Ef Ed). lia.
  - destruct (lg_cur l') as [|g gs]; [done|]. rewrite enc_all_cons, length_app in Hb. pose proof (appendTo_pos g). lia.
Qed.

Lemma torn_start l f l' ino fs got r : torn l f l' ino fs -> reader_at l (fun k => k) got r -> seen fs r.
Proof.
  intros Ht (k & pre & post & _ & Hs & _ & Hst). unfold seen. destruct (r_f r) as [[name i]|]; [|done]. destruct Hst as (_ & -> & _ & Ho).
  destruct (tn_data _ _ _ _ _ Ht k (lg_segs_last _ _ _ Hs)) as (d & -> & Hp). cbn. apply prefix_length in Hp. lia.
Qed.

(** Whatever a reader of the log sees of a torn directory, it returns frames of the log
    only and never takes the stream for corrupt. *)
Lemma torn_reads l f l' ino fs got r got' r' : torn l f l' ino fs -> reader_at l (fun k => k) got r ->
  rtc (rpass fs) (got, r) (got', r') ->
  got' `prefix_of` lg_frames l /\ forall v r'' res, view_of fs v -> (r_netFS r' = true -> can_reopen v r') ->
    nextIter v r' = (r'', res) -> res <> RetErr ErrCorrupt \/ v_open v (segName (r_cur r')) = Err ErrCorrupt.
Proof.
  intros Ht Hr Hst. pose proof (torn_start _ _ _ _ _ _ _ Ht Hr) as Hsn. apply (tn_grow _ _ _ _ _ Ht) in Hr.
  remember (got, r) as x eqn:Ex. remember (got', r') as y eqn:Ey. revert got r Ex Hr Hsn.
  induction Hst as [x|x y z Hp _ IH]; intros got r -> Hr Hsn.
  - injection Ey as <- <-. split; [by eapply torn_got|]. intros v r'' res Hv Hre E.
    destruct (nextIter_at _ _ (tn_ok _ _ _ _ _ Ht) v got r (tn_view _ _ _ _ _ Ht v Hv) Hre Hr) as (r2 & res2 & E2 & _ & Hres).
    rewrite E in E2. injection E2 as <- <-. destruct res as [| e|]; [by left| |by left]. destruct Hres as [_ [->|[->|He]]]; [by left..|].
    destruct (decide (e = ErrCorrupt)) as [->|]; [by right|left; congruence].
  - inversion Hp as [got0 r0 v r1 res Hv Hre E]; subst. eapply IH; [done|reflexivity| |].
    + destruct (nextIter_at _ _ (tn_ok _ _ _ _ _ Ht) v got r (tn_view _ _ _ _ _ Ht v Hv) Hre Hr) as (r2 & res2 & E2 & _ & Hres).
      rewrite E in E2. injection E2 as <- <-. destruct res; cbn [got_of]; rewrite ?app_nil_r; [done|by destruct Hres|done].
    + eapply nextIter_seen; [exact Hv|by apply (tn_view _ _ _ _ _ Ht)|exact Hr|done|done].
Qed.

(** * Reading up to the torn end *)

(** The reader [r2] is where [r1] is, or has also read, past the end of the file as [v]
    shows it, bytes that [r1] cannot see. *)
Definition ahead (v : view) (r1 r2 : segReader) : Prop :=
  r_netFS r2 = r_netFS r1 /\ r_cur r2 = r_cur r1 /\ r_f r2 = r_f r1 /\
  match r_f r1 with
  | None => r_buf r2 = r_buf r1
  | Some (_, i) => exists j, r_buf r2 = r_buf r1 ++ j /\ r_off r2 = (r_off r1 + length j)%nat /\ (j = [] \/ v_size v i = Some (r_off r1))
  end.

(** The view [v2] shows the files of [v1] and perhaps more bytes of each. *)
Record view_more (v1 v2 : view) : Prop := {
  vm_open name : v_open v2 name = v_open v1 name;
  vm_reopen name : v_reopen v2 name = v_reopen v1 name;
  vm_size i s : v_size v1 i = Some s -> s = length (v_data v1 i) /\ v_size v2 i = Some (length (v_data v2 i));
  vm_data i : v_data v1 i `prefix_of` v_data v2 i
}.

(** The file the reader has open, or would open, is the one its name leads to. *)
Definition r_stable (v : view) (r : segReader) : Prop :=
  match r_f r with
  | Some (name, i) => v_reopen v name = Some i
  | None => forall i, v_open v (segName (r_cur r)) = Ok i -> v_reopen v (segName (r_cur r)) = Some i
  end.

Lemma decode_more b x fr n : decodeFrame b = Ok (fr, n) -> decodeFrame (b ++ x) = Ok (fr, n) /\ drop n (b ++ x) = drop n b ++ x.
Proof.
  intros E. apply decode_canonical in E as (Hf & -> & E). set (rest := drop _ b) in *. clearbody rest. subst b.
  rewrite <- app_assoc, decode_encode by done. split; [done|]. by rewrite !drop_app_length.
Qed.

Lemma fill_ahead v1 v2 name i r1 r2 r1' : view_more v1 v2 -> r_f r1 = Some (name, i) -> v_reopen v1 name = Some i ->
  ahead v1 r1 r2 -> fill v1 name i r1 = (r1', Ok true) ->
  r_buf r2 = r_buf r1 /\ exists r2', fill v2 name i r2 = (r2', Ok true) /\ ahead v1 r1' r2'.
Proof.
  intros [_ Hre Hsz Hd] Hf Hst (E1 & E2 & E3 & Hj). rewrite Hf in Hj. destruct Hj as (j & Eb & Eo & Hj).
  assert (forall q1 q2, r_netFS q1 = r_netFS r1 -> r_netFS q2 = r_netFS r1 -> r_cur q1 = r_cur r1 -> r_cur q2 = r_cur r1 ->
    r_f q1 = Some (name, i) -> r_f q2 = Some (name, i) -> r_buf q1 = r_buf r1 -> r_buf q2 = r_buf r2 ->
    r_off q1 = r_off r1 -> r_off q2 = r_off r2 ->
    let read v r := match v_size v i with
      | None => (r, Err ErrIO)
      | Some size => if decide (size <= r_off r)%nat then (r, Ok false) else
          let tmp := take (size - r_off r) (drop (r_off r) (v_data v i)) in
          (r_set r (r_f r) (r_off r + length tmp) (r_buf r ++ tmp), Ok (bool_decide (0 < length tmp)%nat))
      end in
    read v1 q1 = (r1', Ok true) -> r_buf r2 = r_buf r1 /\ exists r2', read v2 q2 = (r2', Ok true) /\ ahead v1 r1' r2') as Hread.
  { intros q1 q2 N1 N2 C1 C2 F1 F2 B1 B2 O1 O2. cbv beta zeta. destruct (v_size v1 i) as [s|] eqn:Es; [|done].
    destruct (Hsz _ _ Es) as [-> ->]. rewrite O1, O2. destruct (decide _) as [|Hlt]; [done|].
    assert (j = []) as -> by (destruct Hj as [|Hj]; [done|injection Hj; lia]). cbn in Eo. rewrite Nat.add_0_r in Eo. rewrite app_nil_r in Eb.
    destruct (Hd i) as [x Hx]. rewrite Hx, length_app, Eo. rewrite decide_False by lia. intros [= <- _]. split; [done|].
    eexists. split.
    - f_equal. f_equal. apply bool_decide_eq_true_2. rewrite length_take, length_drop, length_app. lia.
    - unfold ahead. cbn. rewrite F1, F2, N1, N2, C1, C2, B1, B2, Eb. do 3 (split; [done|]). exists x.
      rewrite drop_app_le by lia. rewrite (take_ge (drop _ _)) by (rewrite length_drop; lia).
      rewrite (take_ge (_ ++ x)) by (rewrite length_app, length_drop; lia). rewrite length_app, length_drop.
      split; [by rewrite app_assoc|]. split; [lia|]. right. rewrite Es. f_equal. lia. }
  unfold fill. rewrite Hre, Hst, E1. destruct (r_netFS r1) eqn:En; apply Hread; cbn; congruence.
Qed.

(** A pass of the reader that returns a frame or goes on does the same from further on. *)
Lemma nextIter_ahead v1 v2 r1 r2 r1' res : view_more v1 v2 -> r_stable v1 r1 -> ahead v1 r1 r2 ->
  nextIter v1 r1 = (r1', res) -> (forall e, res <> RetErr e) -> exists r2', nextIter v2 r2 = (r2', res) /\ ahead v1 r1' r2'.
Proof.
  intros Hm Hst Ha.
  assert (forall name i q1 q2, ahead v1 q1 q2 -> r_f q1 = Some (name, i) -> v_reopen v1 name = Some i ->
    let body v r := match decodeFrame (r_buf r) with
      | Ok (fr, n) =>
          let r1 := r_set r (r_f r) (r_off r) (drop n (r_buf r)) in
          if decide (f_typ fr = frameROLL) then match advance fr r1 with (r2, Some e) => (r2, RetErr e) | (r2, None) => (r2, Continue) end
          else (r1, Ret fr)
      | Err errCorruptFrame => (r, RetErr ErrCorrupt)
      | Err errIncompleteFrame =>
          match fill v name i r with
          | (r1, Err e) => (r1, RetErr e) | (r1, Ok true) => (r1, Continue) | (r1, Ok false) => (r1, RetErr ErrIncomplete)
          end
      end in
    body v1 q1 = (r1', res) -> (forall e, res <> RetErr e) -> exists r2', body v2 q2 = (r2', res) /\ ahead v1 r1' r2') as Hbody.
  { intros name i q1 q2 Hq Hf Hre. pose proof Hq as (E1 & E2 & E3 & Hj). rewrite Hf in Hj. destruct Hj as (j & Eb & Eo & Hj). cbv beta zeta.
    destruct (decodeFrame (r_buf q1)) as [[fr n]|[]] eqn:Ed; [| |intros [= <- <-] He; by destruct (He ErrCorrupt)].
    - destruct (decode_more _ j _ _ Ed) as [Ed2 Edr]. rewrite Eb, Ed2, Edr. destruct (decide _).
      + unfold advance. destruct (decodeUint32 _) as [nx|]; intros [= <- <-] He; [|by destruct (He ErrBadUint32)].
        eexists. split; [done|]. unfold ahead. cbn. by rewrite E1.
      + intros [= <- <-] _. eexists. split; [done|]. unfold ahead. cbn. rewrite E1, E2, E3, Hf. eauto 10.
    - destruct (fill v1 name i q1) as [q1' [[]|e]] eqn:Ef; intros [= <- <-] He; [|by edestruct He..].
      destruct (fill_ahead _ _ _ _ _ _ _ Hm Hf Hre Hq Ef) as (-> & q2' & E & Hq'). rewrite Ed, E. eauto. }
  pose proof Ha as (E1 & E2 & E3 & Hj). unfold nextIter. rewrite E2, E3, (vm_open _ _ Hm). unfold r_stable in Hst.
  destruct (r_f r1) as [[name i]|] eqn:Hf.
  - specialize (Hbody name i r1 r2 Ha Hf Hst). cbv beta zeta in Hbody. by rewrite Hf, E3 in Hbody.
  - destruct (v_open v1 _) as [i|e] eqn:Eo; [|intros [= <- <-] He; by edestruct He].
    rewrite Hj. apply Hbody; [|done|by apply Hst]. unfold ahead. cbn. do 3 (split; [done|]). exists []. rewrite app_nil_r. auto.
Qed.

(** The frames a reader that looks at [v] returns one after the other. *)
Inductive reads (v : view) : segReader -> list frame -> segReader -> Prop :=
| rd_nil r : reads v r [] r
| rd_cons n r r1 r2 f fr : next (replicate n v) r = (r1, Some (Ok f)) -> reads v r1 fr r2 -> reads v r (f :: fr) r2.

Lemma nextIter_ret_cur v r r' f : nextIter v r = (r', Ret f) -> r_cur r' = r_cur r.
Proof.
  unfold nextIter, advance. intros E. repeat case_match; simplify_eq; done.
Qed.

Section Deliver.
Context (l : slog) (Hl : log_ok l) (k0 : nat) (v1 v2 : view).
Context (Hfull : view_full l (fun k => k) k0 v1) (Hok : view_ok l (fun k => k) v1) (Hmore : view_more v1 v2).

Lemma stable_at got r : Z.of_nat k0 <= r_cur r -> reader_at l (fun k => k) got r -> r_stable v1 r.
Proof.
  intros Hk0 (k & pre & post & Hc & Hs & _ & Hst). pose proof (lg_segs_last _ _ _ Hs) as Hk. rewrite Hc in Hk0. unfold r_stable.
  destruct (r_f r) as [[name i]|].
  - destruct Hst as (-> & -> & _). apply (vf_reopen _ _ _ _ Hfull). lia.
  - intros i E. rewrite Hc in *. apply (vok_open _ _ _ Hok) in E as ->; [|done]. apply (vf_reopen _ _ _ _ Hfull). lia.
Qed.

Lemma reads_one m : forall got r1 r2, (passes l r1 < m)%nat -> Z.of_nat k0 <= r_cur r1 -> reader_at l (fun k => k) got r1 ->
  got <> lg_frames l -> ahead v1 r1 r2 -> exists n r1' r2' f, next (replicate n v2) r2 = (r2', Some (Ok f))
    /\ reader_at l (fun k => k) (got ++ [f]) r1' /\ ahead v1 r1' r2' /\ Z.of_nat k0 <= r_cur r1'.
Proof.
  induction m as [|m IH]; intros got r1 r2 Hm Hk0 Hr Hne Ha; [lia|].
  assert (can_reopen v1 r1) as Hre.
  { destruct Hr as (k & pre & post & Hc & Hs & _). unfold can_reopen. rewrite Hc in *.
    rewrite (vf_reopen _ _ _ _ Hfull); [done|]. apply lg_segs_last in Hs. lia. }
  destruct (nextIter_full l _ Hl k0 v1 got r1 Hfull Hk0 Hr Hne) as (r1' & res & E & Hp).
  destruct (nextIter_at l _ Hl v1 got r1 Hok (fun _ => Hre) Hr) as (q & res' & E' & _ & Hr'). rewrite E in E'. injection E' as <- <-.
  destruct (nextIter_ahead v1 v2 r1 r2 r1' res Hmore (stable_at _ _ Hk0 Hr) Ha E) as (r2' & E2 & Ha'); [by intros e ->|].
  destruct res as [f|e|]; [|done|].
  - exists 1%nat, r1', r2', f. cbn [replicate next]. rewrite E2. split; [done|]. split; [done|]. split; [done|].
    by rewrite (nextIter_ret_cur _ _ _ _ E).
  - destruct Hp as [Hp Hc]. destruct (IH got r1' r2') as (n & q1 & q2 & f & En & H); [lia|lia|done..|].
    exists (S n), q1, q2, f. cbn [replicate next]. by rewrite E2.
Qed.

Lemma reads_all m : forall got r1 r2, (length (lg_frames l) - length got <= m)%nat -> Z.of_nat k0 <= r_cur r1 ->
  reader_at l (fun k => k) got r1 -> ahead v1 r1 r2 -> exists fr r', reads v2 r2 fr r' /\ got ++ fr = lg_frames l.
Proof.
  induction m as [|m IH]; intros got r1 r2 Hm Hk0 Hr Ha; destruct (decide (got = lg_frames l)) as [->|Hne].
  1,3: exists [], r2; split; [constructor|apply app_nil_r].
  - destruct (reader_at_prefix _ _ _ _ Hr) as [x Hx]. rewrite Hx, length_app in Hm. destruct x; cbn in *; [|lia]. by rewrite app_nil_r in Hx.
  - destruct (reads_one _ got r1 r2 (Nat.lt_succ_diag_r _) Hk0 Hr Hne Ha) as (n & r1' & r2' & f & E & Hr' & Ha' & Hk).
    destruct (IH (got ++ [f]) r1' r2') as (fr & r' & Hrd & Hg); [rewrite length_app; cbn; lia|done..|].
    exists (f :: fr), r'. split; [by econstructor|]. by rewrite <- app_assoc in Hg.
Qed.
End Deliver.

(** The names of the log from segment [k0] on are there. *)
Definition linked (k0 : nat) (l : slog) (fs : dirfs) : Prop :=
  forall k, (k0 <= k <= length (lg_closed l))%nat -> d_links fs !! segName (Z.of_nat k) = Some k.

(** What a reader would see if the failed append had left nothing. *)
Definition cut_view (l : slog) (fs : dirfs) : view :=
  let n := length (lg_closed l) in {|
  v_open := v_open (full_view fs);
  v_reopen := v_reopen (full_view fs);
  v_size i := if decide (i <= n)%nat then Some (length (segBytes l i)) else v_size (full_view fs) i;
  v_data i := if decide (i <= n)%nat then segBytes l i else v_data (full_view fs) i |}.

(** A reader that sees the whole torn directory returns every frame of the log. *)
Lemma torn_delivers l f l' ino fs k0 got r : log_ok l -> torn l f l' ino fs -> linked k0 l fs -> Z.of_nat k0 <= r_cur r ->
  reader_at l (fun k => k) got r -> exists fr r', reads (full_view fs) r fr r' /\ got ++ fr = lg_frames l.
Proof.
  intros Hl Ht Hlk Hk0 Hr. eapply (reads_all l Hl k0 (cut_view l fs) (full_view fs)); [| | |done|done|exact Hr|].
  - split; cbn; intros k Hk; rewrite ?decide_True by lia; try done; by rewrite Hlk.
  - split; cbn; intros k.
    + intros i Hk. destruct (d_links fs !! _) as [i'|] eqn:E; [intros [= ->]|done]. by apply (tn_link _ _ _ _ _ Ht) in E.
    + intros i Hk E. by apply (tn_link _ _ _ _ _ Ht) in E.
    + intros Hk. by rewrite decide_True.
  - split; cbn; [done|done| |].
    + intros i s. destruct (decide _) as [Hi|]; [intros [= <-]|intros E; destruct (fdata fs i); [by injection E as <-|done]].
      destruct (tn_data _ _ _ _ _ Ht i Hi) as (d & -> & _). done.
    + intros i. destruct (decide _) as [Hi|]; [|done]. by destruct (tn_data _ _ _ _ _ Ht i Hi) as (d & -> & Hp).
  - unfold ahead. do 3 (split; [done|]). destruct (r_f r) as [[]|]; [|done]. exists []. rewrite app_nil_r. cbn. auto.
Qed.

(** * Write *)

(** An append that succeeds does what one with no fault does. *)
Lemma append_succeeds env f dataEnd w fs w' fs' :
  append env f dataEnd w fs = (None, w', fs') -> append envOk f dataEnd w fs = (None, w', fs').
Proof.
  assert (forall w1 fs1, appendCur env f w1 fs1 = (None, w', fs') -> appendCur envOk f w1 fs1 = (None, w', fs')) as Hcur.
  { intros w1 fs1. unfold appendCur. destruct (w_f w1) as [[n []]|]; [|done..]. by destruct (ae_write env). }
  unfold append. destruct (w_closed w); [done|]. destruct (_ && _); [|by apply Hcur].
  destruct (roll env dataEnd w fs) as [[[e|] w1] fs1] eqn:E; [done|].
  assert (roll envOk dataEnd w fs = (None, w1, fs1)) as ->; [|by apply Hcur].
  revert E. unfold roll. destruct (w_f w) as [[n []]|]; [|done..]. cbn. destruct (ae_roll env); [|done]. by destruct (ae_open env).
Qed.

Lemma emit_succeeds env typ payload c fs c' fs' :
  emit env typ payload c fs = (None, c', fs') -> emit envOk typ payload c fs = (None, c', fs').
Proof.
  unfold emit. destruct (_ && _); [done|].
  destruct (append env _ _ _ _) as [[[e|] w] fs1] eqn:E; [done|]. by rewrite (append_succeeds _ _ _ _ _ _ _ E).
Qed.

(** No name goes away by an append. *)
Lemma append_links env f dataEnd w fs o w' fs' name i : append env f dataEnd w fs = (o, w', fs') ->
  d_links fs !! name = Some i -> d_links fs' !! name = Some i.
Proof.
  assert (forall out h bs fs0 o0 fs1, file_write out h bs fs0 = (o0, fs1) -> d_links fs1 = d_links fs0) as Hwr.
  { intros out [h []] bs fs0 o0 fs1; cbn; [|by intros [= <- <-]]. destruct out; by intros [= <- <-]. }
  assert (forall w1 fs1, appendCur env f w1 fs1 = (o, w', fs') -> d_links fs' = d_links fs1) as Hcur.
  { intros w1 fs1. unfold appendCur. destruct (w_f w1); [|by intros [= <- <- <-]]. destruct (file_write _ _ _ _) as [[] fs2] eqn:E; apply Hwr in E.
    - by intros [= <- <- <-].
    - destruct (w_netFS w1), (w_syncEnb w1); intros [= <- <- <-]; rewrite ?(proj1 (links_sync _ _)); done. }
  unfold append. destruct (w_closed w); [by intros [= <- <- <-]|]. destruct (_ && _); [|intros E; by rewrite (Hcur _ _ E)].
  destruct (roll env dataEnd w fs) as [[re w1] fs1] eqn:E. intros Ea Hn.
  assert (d_links fs1 !! name = Some i) as Hr; [|destruct re; [by injection Ea as <- <- <-|by rewrite (Hcur _ _ Ea)]].
  revert E. unfold roll. destruct (w_f w) as [w0|]; [|by intros [= <- <- <-]]. destruct (file_write _ _ _ _) as [[] fs2] eqn:E; apply Hwr in E.
  - intros [= <- <- <-]. by rewrite E.
  - pose proof (links_maysync (w_netFS w || w_syncEnb w) w0 fs2) as Hs. rewrite E in Hs. set (fs3 := if w_netFS w || w_syncEnb w then _ else _) in *.
    clearbody fs3. unfold openCur, fs_open_append. rewrite <- Hs in Hn. destruct (ae_open env); [|by intros [= <- <- <-]].
    destruct (d_links fs3 !! segName _) as [i'|] eqn:Eo; intros [= <- <- <-]; [done|]. cbn.
    rewrite lookup_insert_ne; [done|]. intros <-. cbn in Eo. by rewrite Eo in Hn.
Qed.

Lemma emit_links env typ payload c fs o c' fs' name i : emit env typ payload c fs = (o, c', fs') ->
  d_links fs !! name = Some i -> d_links fs' !! name = Some i.
Proof.
  unfold emit. destruct (_ && _); [by intros [= <- <- <-]|].
  destruct (append env _ _ _ _) as [[e w] fs1] eqn:E. intros [= <- <- <-]. by apply (append_links _ _ _ _ _ _ _ _ _ _ E).
Qed.

Lemma linked_next k0 l l1 w fs fs1 : (forall name i, d_links fs !! name = Some i -> d_links fs1 !! name = Some i) -> writer_at l1 w fs1 ->
  (length (lg_closed l1) <= S (length (lg_closed l)))%nat -> linked k0 l fs -> linked k0 l1 fs1.
Proof.
  intros Hk Hw Hn Hl k Hk0. destruct (decide (k = length (lg_closed l1))) as [->|]; [apply (wa_links _ _ _ Hw); auto|].
  apply Hk, Hl. lia.
Qed.

(** What a [Write] that failed after [n] bytes of [p] leaves: the log [lw] has these
    bytes in DATA frames behind the frames of [l], and the directory is that of a
    failed append of one more DATA frame to it, which the send window counts. *)
Record failed (l : slog) (c : Conn) (fs : dirfs) (p : list byte) (n : nat) (c' : Conn) (fs' : dirfs) : Prop := {
  fl_short : (n < length p)%nat;
  fl_log : exists lw f l' ino, torn lw f l' ino fs' /\ log_ok lw /\ (forall k0, linked k0 l fs -> linked k0 lw fs') /\ data_bytes (lg_frames lw) = data_bytes (lg_frames l) ++ take n p
    /\ (forall got r, reader_at l (fun k => k) got r -> reader_at lw (fun k => k) got r)
    /\ 0 < len (f_payload f) /\ f_payload f `prefix_of` drop n p
    /\ sentData (c_snd c') = sentData (c_snd c) + Z.of_nat n + len (f_payload f);
  fl_ack : peerAck (c_snd c') = peerAck (c_snd c);
  fl_params : c_params c' = c_params c
}.

(** A DATA frame that is not appended. *)
Lemma emit_failed env l c fs p k e c' fs' : write_ok l c fs p -> (0 < k <= length p)%nat -> Z.of_nat k <= p_maxFrame (c_params c) ->
  emit env frameDATA (take k p) c fs = (Some e, c', fs') -> e = CAppend ErrIO /\ failed l c fs p 0 c' fs'.
Proof.
  intros [Hw Ho Hs _ _ Hmf Hq Ha Hfl Hb Hsg] Hk Hkm Ee.
  assert (forall k0, linked k0 l fs -> linked k0 l fs') as Hll by (intros k0 Hl q Hq0; by eapply emit_links, Hl).
  revert Ee. unfold emit. rewrite Hs. cbn [andb]. rewrite decide_True by done.
  assert (len (take k p) = Z.of_nat k) as Hlk by (rewrite length_take; lia).
  rewrite u64_small by lia. set (f := mkFrame _ _ _ _ _).
  assert (frame_ok f) as Hf by (split; [split; cbn; lia|]; discriminate).
  destruct (append env _ _ _ _) as [[[e1|] w] fs1] eqn:E; cbn; intros [= <- <- <-].
  destruct (append_torn _ _ _ _ _ _ _ _ _ Hw Ho Hf ltac:(lia) E) as (-> & l' & ino & Ht).
  split; [done|]. split; [lia| |done|done]. exists l, f, l', ino. cbn. rewrite take_0, app_nil_r, drop_0.
  split_and!; [done|apply Hw|done|done|done|lia|apply prefix_take|lia].
Qed.

Lemma failed_step m l c fs fs1 p k n w c' fs' s :
  let f := mkFrame frameDATA x00 (sendSeq (c_snd c)) (sentData (c_snd c)) (take k p) in
  (0 < k <= length p)%nat -> sentData s = sentData (c_snd c) + len (take k p) -> peerAck s = peerAck (c_snd c) ->
  (forall k0, linked k0 l fs -> linked k0 (log_append m l f) fs1) ->
  failed (log_append m l f) (c_set_snd (c_set_w c w) s) fs1 (drop k p) n c' fs' -> failed l c fs p (k + n) c' fs'.
Proof.
  intros f Hk Hs Ha Hl1 [Hsh (lw & g & l' & ino & Ht & Hlo & Hlk & Hd & Hr & Hg & Hp & E) Eack Ep].
  cbn [c_set_snd c_set_w c_snd c_params] in *. rewrite length_drop in Hsh.
  assert (len (take k p) = Z.of_nat k) as Hl by (rewrite length_take; lia).
  split; [lia| |congruence|done]. exists lw, g, l', ino. split_and!; [done|done|by eauto| | |done| |lia].
  - rewrite Hd, lg_frames_append, data_bytes_app, data_bytes_one, <- app_assoc. f_equal. cbn. apply take_take_drop.
  - intros got r H. by apply Hr, reader_at_append.
  - by rewrite drop_drop in Hp.
Qed.

Lemma Write_failed env fuel : forall l c fs p total n e c' fs', write_ok l c fs p ->
  Write fuel env p total c fs = (n, WFailed e, c', fs') ->
  e = CAppend ErrIO /\ exists m, n = (total + m)%nat /\ failed l c fs p m c' fs'.
Proof.
  induction fuel as [|fuel IH]; intros l c fs p total n e c' fs' Hok.
  { by destruct p. }
  destruct (decide (p = [])) as [->|Hp]; [done|]. rewrite Write_round, (waitSendWindow_ok _ _ _ _ Hok), Z.gtb_ltb by done.
  destruct (0 <? freeWindow c) eqn:Hroom; breflect; [|done].
  destruct (chunkSize_spec c (freeWindow c) p) as (Hk & Hkr & Hkm); [done|apply Hok|done|].
  set (k := chunkSize c (freeWindow c) p) in *. cbv zeta.
  assert (len (take k p) = Z.of_nat k) as Hlk by (rewrite length_take; lia).
  destruct (emit (env total) frameDATA (take k p) c fs) as [[[e1|] c1] fs1] eqn:E.
  { intros [= <- <- <- <-]. destruct (emit_failed _ _ _ _ _ _ _ _ _ Hok Hk Hkm E). split; [done|]. exists 0%nat. by rewrite Nat.add_0_r. }
  pose proof (fun name i => emit_links _ _ _ _ _ _ _ _ name i E) as Hlt. apply emit_succeeds in E.
  destruct (emit_data_at l c fs (take k p)) as (w & fs2 & E2 & Hw & Ho); [destruct Hok; try done; lia..|].
  rewrite E in E2. injection E2 as -> ->. set (c1 := c_set_snd _ _) in *. intros EW.
  pose proof (lg_closed_append (w_maxSeg (c_w c)) l (mkFrame frameDATA x00 (sendSeq (c_snd c)) (sentData (c_snd c)) (take k p))) as Hlg.
  set (l1 := log_append _ _ _) in *.
  destruct (IH l1 c1 fs2 (drop k p) (total + k)%nat n e c' fs') as (-> & m & -> & Hf); [|done|].
  - destruct Hok. unfold freeWindow in *. split; [exact Hw|exact Ho|done|done|done|done|apply u64_range|..];
      unfold c1; cbn [c_set_snd c_snd c_params c_set_w sentData peerAck]; rewrite ?length_drop; lia.
  - split; [done|]. exists (k + m)%nat. split; [lia|]. unfold c1 in Hf. eapply failed_step; [done| | | |exact Hf]; [done..|]. intros k0. by eapply linked_next.
Qed.

(** * Properties *)

(** C9: a [Write] that fails reports exactly what it sent. When an append fails,
    whatever part of a frame, of a ROLL frame or of a new segment it leaves behind,
    [Write] returns its error with a count [n] short of the argument. As long as nothing
    more is appended to the directory, however the peer's reader runs on it, the data it
    returns is the stream sent before and at most the first [n] bytes, and it does not
    take the torn frame for corruption; one that sees the whole directory, with its
    segments still linked, returns all of it. (A frame that is appended later, as the next
    heartbeat is, lies behind the torn bytes and is lost: [torn_then_lost].) The send
    window loses more than [n] bytes: the frame that did not go out is counted as
    sent. *)
Theorem Write_error_exact env l c fs p n e c' fs' got r :
  write_ok l c fs p -> reader_at l (fun k => k) got r ->
  Write (length p) env p 0 c fs = (n, WFailed e, c', fs') ->
  let stream := data_bytes (lg_frames l) ++ take n p in
  e = CAppend ErrIO /\ (n < length p)%nat /\ freeWindow c' < freeWindow c - Z.of_nat n
  /\ (forall got' r', rtc (rpass fs') (got, r) (got', r') ->
       data_bytes got' `prefix_of` stream
       /\ forall v r'' res, view_of fs' v -> (r_netFS r' = true -> can_reopen v r') -> nextIter v r' = (r'', res) ->
            res <> RetErr ErrCorrupt \/ v_open v (segName (r_cur r')) = Err ErrCorrupt)
  /\ (linked (Z.to_nat (r_cur r)) l fs -> exists fr r', reads (full_view fs') r fr r' /\ data_bytes (got ++ fr) = stream).
Proof.
  intros Hok Hr E. destruct (Write_failed _ _ _ _ _ _ _ _ _ _ _ Hok E) as (-> & m & -> & [Hsh (lw & f & l' & ino & Ht & Hlo & Hlk & Hd & Hg & Hf & _ & Hs) Ha Hp]).
  cbn [Nat.add]. split; [done|]. split; [done|]. split; [unfold freeWindow; rewrite Hs, Ha, Hp; lia|]. split.
  - intros got' r' Hrun. destruct (torn_reads _ _ _ _ _ _ _ _ _ Ht (Hg _ _ Hr) Hrun) as [Hpre Hc].
    split; [|done]. rewrite <- Hd. by apply data_bytes_prefix.
  - intros Hl. assert (Z.of_nat (Z.to_nat (r_cur r)) <= r_cur r) as Hc by (destruct Hr as (k & _ & _ & -> & _); lia).
    destruct (torn_delivers _ _ _ _ _ _ _ _ Hlo Ht (Hlk _ Hl) Hc (Hg _ _ Hr)) as (fr & r' & Hrd & Hgf). exists fr, r'. split; [done|]. by rewrite Hgf, Hd.
Qed.

(** The append of the chunk at offset 4 writes 3 bytes and fails. *)
Definition demo_env (total : nat) : appendEnv := if decide (total = 4)%nat then mkAppendEnv WOk true (WFail 3) else envOk.

Lemma Write_error_exact_witness :
  exists w fs c' fs', newSegWriter true true (mkResolved 1 1 1 false 1 1 1 60 false 1 1) emptyDir = Ok (w, fs)
    /\ Write 11 demo_env (String.list_byte_of_string "hello world") 0 (demo_conn w) fs = (4%nat, WFailed (CAppend ErrIO), c', fs')
    /\ freeWindow c' < 4
    /\ exists fr r', reads (full_view fs') (newSegReader false) fr r' /\ data_bytes fr = String.list_byte_of_string "hell".
Proof.
  destruct (newSegWriter_at (mkResolved 1 1 1 false 1 1 1 60 false 1 1)) as (w & fs & E & Hw & _).
  destruct (Write 11 demo_env (String.list_byte_of_string "hello world") 0 (demo_conn w) fs) as [[[n o] c'] fs'] eqn:EW.
  assert (n = 4%nat /\ o = WFailed (CAppend ErrIO)) as [-> ->].
  { pose proof E as E'. injection E' as <- <-. apply (f_equal (fun x => fst (fst x))) in EW. vm_compute in EW. by injection EW as <- <-. }
  exists w, fs, c', fs'. split; [done|]. split; [done|].
  destruct (Write_error_exact demo_env emptyLog (demo_conn w) fs (String.list_byte_of_string "hello world") 4
    (CAppend ErrIO) c' fs' [] (newSegReader false)) as (_ & _ & H1 & _ & H2).
  - split; try exact Hw; try (vm_compute; done); try (vm_compute; split; congruence). injection E as <- <-. reflexivity.
  - apply reader_at_new.
  - exact EW.
  - split; [exact H1|]. apply H2. intros k Hk. assert (k = 0)%nat as -> by (cbn in Hk; lia). by apply (wa_links _ _ _ Hw); auto.
Defined.

(** A new connection writes "hello world", the second frame stops after [k] bytes, and a
    heartbeat follows on the connection, which is still open; the peer then reads twice. *)
Definition demo_torn (k : nat) : option (nat * writeOut * list (option (result ioErr frame))) :=
  match newSegWriter true true (mkResolved 1 1 1 false 1 1 1 4096 false 1 1) emptyDir with
  | Ok (w, fs) =>
      let env total := if decide (total = 4)%nat then mkAppendEnv WOk true (WFail k) else envOk in
      let '(n, o, c, fs1) := Write 11 env (String.list_byte_of_string "hello world") 0 (demo_conn w) fs in
      let '(_, _, fs2) := emit envOk frameHeartbeat (encodeUint64 77) c fs1 in
      let '(r1, x) := next (replicate 4 (full_view fs2)) (newSegReader false) in
      let '(_, y) := next (replicate 4 (full_view fs2)) r1 in
      Some (n, o, [x; y])
  | Err _ => None
  end.

(** A frame appended behind a torn one is lost to the peer: after the first frame it takes
    the stream for corrupt when most of the failed frame is there, and for incomplete, its
    length field read across the seam, when only part of the header is. *)
Theorem torn_then_lost : let first := mkFrame frameDATA x00 1 0 (String.list_byte_of_string "hell") in
  demo_torn 3 = Some (4%nat, WFailed (CAppend ErrIO), [Some (Ok first); Some (Err ErrIncomplete)])
  /\ demo_torn 24 = Some (4%nat, WFailed (CAppend ErrIO), [Some (Ok first); Some (Err ErrCorrupt)]).
Proof. split; vm_compute; reflexivity. Qed.
