(* ===== verification/Listener.v ===== *)
(** The acceptor of the filesystem tunnel (listen.go, inbox.go, doorbell.go): how
    it finds new tunnels under its root, accepts each of them once, and sweeps what
    crashed peers left behind. *)

From stdpp Require Import base gmap list strings numbers.
From Stdlib Require Import ZArith Lia Ascii.
From S2P Require Import Prelude GoStr FsConfig SegLog.

#[local] Open Scope string_scope.
#[local] Open Scope Z_scope.

(** * The file system *)

(** An absolute path as its components. *)
Abbreviation path := (list string).

Record inode := mkInode { i_dir : bool; i_mtime : Z }.

#[global] Instance inode_eq_dec : EqDecision inode.
Proof. solve_decision. Defined.

(** The files that exist; what they hold is SegLog.v's business. *)
Abbreviation tree := (gmap (list string) inode).

Definition Stat (p : path) (fs : tree) : option inode := fs !! p.

(** The entries of directory [d], in some order. *)
Definition entryOf (d p : path) : option string :=
  if decide (length p = S (length d) /\ take (length d) p = d) then p !! length d else None.

Definition children (d : path) (fs : tree) : list (string * inode) :=
  omap (fun e => (fun n => (n, e.2)) <$> entryOf d e.1) (map_to_list fs).

(** [os.ReadDir]: [None] is an error. *)
Definition ReadDir (d : path) (fs : tree) : option (list (string * inode)) :=
  match fs !! d with
  | Some i => if i_dir i then Some (children d fs) else None
  | None => None
  end.

(** [os.Remove] and [os.RemoveAll]. *)
Definition Remove (p : path) (fs : tree) : tree := if decide (children p fs = []) then delete p fs else fs.
Definition RemoveAll (p : path) (fs : tree) : tree := filter (fun e => ~ p `prefix_of` e.1) fs.

(** [filepath.Join] of a clean absolute path and further names, cleaned. *)
Definition joinStep (p : path) (c : string) : path :=
  if String.eqb c "" || String.eqb c "." then p else
  if String.eqb c ".." then take (length p - 1) p else (p ++ [c])%list.

Definition Join (p : path) (cs : list string) : path := foldl joinStep p cs.

(** * Names *)

Definition inboxDirName : string := "inbox".
Definition doorbellName : string := ".doorbell".
Definition hashPrefixLen : nat := 2.

Definition connPath (root : path) (id : string) : path :=
  if decide (String.length id <= hashPrefixLen)%nat then Join root [id]
  else Join root [stake hashPrefixLen id; sdrop hashPrefixLen id].

Definition inboxMarkerPath (root : path) (id : string) : path := Join root [inboxDirName; id].

(** The initiator's first segment. *)
Definition synPath (root : path) (id : string) : path := Join (connPath root id) ["c2s"; segName 0].

(** * The doorbell *)

Record doorbellState := mkBell { d_mtimeNanos : Z; d_seen : bool }.

(** [doorbellState.changed]. *)
Definition changed (root : path) (fs : tree) (d : doorbellState) : bool * doorbellState :=
  match Stat (Join root [doorbellName]) fs with
  | None => (false, d)
  | Some fi =>
      let m := i_mtime fi in
      if negb (d_seen d) || negb (m =? d_mtimeNanos d) then (true, mkBell m true) else (false, d)
  end.

(** Creating or truncating a file: [None] is an error, when the name is taken by a
    directory or its own directory does not exist. *)
Definition createFile (p : path) (now : Z) (fs : tree) : option tree :=
  match fs !! take (length p - 1) p with
  | Some d =>
      if negb (i_dir d) then None else
      match fs !! p with
      | Some i => if i_dir i then None else Some (<[p := mkInode false now]> fs)
      | None => Some (<[p := mkInode false now]> fs)
      end
  | None => None
  end.

(** [os.Mkdir], or nothing if the directory is there, as [os.MkdirAll] does for each. *)
Definition mkdirIn (p : path) (now : Z) (fs : tree) : option tree :=
  match fs !! p with
  | Some i => if i_dir i then Some fs else None
  | None =>
      match fs !! take (length p - 1) p with
      | Some d => if i_dir d then Some (<[p := mkInode true now]> fs) else None
      | None => None
      end
  end.

(** [os.MkdirAll]: the tree, and whether the directory is there in the end. *)
Fixpoint mkdirFrom (base : path) (rest : list string) (now : Z) (fs : tree) : tree * bool :=
  match rest with
  | [] => (fs, true)
  | n :: rest =>
      match mkdirIn (base ++ [n])%list now fs with
      | None => (fs, false)
      | Some fs => mkdirFrom (base ++ [n])%list rest now fs
      end
  end.

Definition MkdirAll (p : path) (now : Z) (fs : tree) : tree * bool := mkdirFrom [] p now fs.

(** [ringDoorbell] and [writeInboxMarker], with the tree they leave and whether they
    succeed. The doorbell is stamped with the caller's own clock, which is passed to
    [os.Chtimes]; the marker has the time the file server gives it. *)
Definition ringDoorbell (root : path) (now : Z) (fs : tree) : option tree :=
  createFile (Join root [doorbellName]) now fs.

Definition writeInboxMarker (root : path) (id : string) (now : Z) (fs : tree) : tree * bool :=
  let (fs, made) := MkdirAll (Join root [inboxDirName]) now fs in
  if negb made then (fs, false) else
  match createFile (inboxMarkerPath root id) now fs with
  | None => (fs, false)
  | Some fs => (fs, true)
  end.

(** What the initiator does in [handshake] once its SYN is written, the two clocks
    agreeing. *)
Definition announce (root : path) (id : string) (now : Z) (fs : tree) : tree :=
  let (fs, ok) := writeInboxMarker root id now fs in
  if ok then default fs (ringDoorbell root now fs) else fs.

(** * Scanning *)

Section listener.
Context (root : path).

(** One entry of the loop of [Listener.scanInbox]: the ids accepted so far are
    appended to [started]. *)
Definition scanEntry (st : gset string * tree * list string) (e : string * inode)
  : gset string * tree * list string :=
  let '(seen, fs, started) := st in
  if i_dir e.2 then st else
  let id := e.1 in
  if decide (id ∈ seen) then (seen, Remove (inboxMarkerPath root id) fs, started) else
  match Stat (synPath root id) fs with
  | None => st
  | Some _ => ({[id]} ∪ seen, Remove (inboxMarkerPath root id) fs, (started ++ [id])%list)
  end.

(** [Listener.scanInbox]: the set of tunnels known, the files, and the tunnels
    whose [accept] it starts. *)
Definition scanInbox (seen : gset string) (fs : tree) : gset string * tree * list string :=
  match ReadDir (Join root [inboxDirName]) fs with
  | None => (seen, fs, [])
  | Some entries => foldl scanEntry (seen, fs, []) entries
  end.

(** The [fast] case of [Listener.watchLoop]: poll the doorbell; a ring is good for
    [doorbellRescans] scans. *)
Definition doorbellRescans : nat := 3.

Record watchState := mkWatch { wt_bell : doorbellState; wt_rescans : nat }.

Definition fastTick (w : watchState) (seen : gset string) (fs : tree)
  : watchState * (gset string * tree * list string) :=
  let (rung, bell) := changed root fs (wt_bell w) in
  match (if rung then doorbellRescans else wt_rescans w) with
  | O => (mkWatch bell O, (seen, fs, []))
  | S n => (mkWatch bell n, scanInbox seen fs)
  end.

(** The work tree: the directories [fo/re] that are neither the inbox nor hidden. *)
Definition workDirs (fs : tree) : list (string * string) :=
  match ReadDir root fs with
  | None => []
  | Some fanouts =>
      fanouts ≫= fun fo =>
        if negb (i_dir fo.2) || String.eqb fo.1 inboxDirName || HasPrefix fo.1 "." then [] else
        match ReadDir (root ++ [fo.1])%list fs with
        | None => []
        | Some rests => omap (fun re => if i_dir re.2 then Some (fo.1, re.1) else None) rests
        end
  end.

(** [Listener.startupScan]. *)
Definition startupEntry (fs : tree) (st : gset string * list string) (d : string * string)
  : gset string * list string :=
  let '(seen, started) := st in
  let id := (d.1 +:+ d.2)%string in
  match Stat (synPath root id) fs with
  | None => st
  | Some _ => if decide (id ∈ seen) then st else ({[id]} ∪ seen, (started ++ [id])%list)
  end.

Definition startupScan (seen : gset string) (fs : tree) : gset string * list string :=
  foldl (startupEntry fs) (seen, []) (workDirs fs).

(** * Sweeping *)

(** [subtreeLastActivity]; [None] is the zero time. *)
Definition consider (newest : option Z) (t : Z) : option Z :=
  match newest with Some n => if t >? n then Some t else newest | None => Some t end.

Definition considerStat (fs : tree) (newest : option Z) (p : path) : option Z :=
  match Stat p fs with Some fi => consider newest (i_mtime fi) | None => newest end.

Definition subtreeLastActivity (connDir : path) (fs : tree) : option Z :=
  foldl (fun newest dir =>
           let d := Join connDir [dir] in
           let newest := considerStat fs newest d in
           match ReadDir d fs with
           | None => newest
           | Some entries => foldl (fun n e => consider n (i_mtime e.2)) newest entries
           end)
    (considerStat fs None connDir) ["c2s"; "s2c"].

Definition recent (cutoff : Z) (t : option Z) : bool :=
  match t with Some t => t >? cutoff | None => false end.

(** The two loops of [Listener.ageSweep]: what they check of a marker or a directory,
    and the removal. *)
Definition staleMarker (seen : gset string) (cutoff : Z) (e : string * inode) : bool :=
  if i_dir e.2 then false else
  if decide (e.1 ∈ seen) then false else i_mtime e.2 <? cutoff.

Definition sweepMarker (seen : gset string) (cutoff : Z) (fs : tree) (e : string * inode) : tree :=
  if staleMarker seen cutoff e then Remove (inboxMarkerPath root e.1) fs else fs.

Definition staleDir (seen : gset string) (cutoff : Z) (fs : tree) (d : string * string) : bool :=
  if decide ((d.1 +:+ d.2)%string ∈ seen) then false else
  negb (recent cutoff (subtreeLastActivity (root ++ [d.1; d.2])%list fs)).

Definition sweepDir (seen : gset string) (cutoff : Z) (fs : tree) (d : string * string) : tree :=
  if staleDir seen cutoff fs d then RemoveAll (root ++ [d.1; d.2])%list fs else fs.

Definition ageSweep (threshold now : Z) (seen : gset string) (fs : tree) : tree :=
  let cutoff := now - threshold in
  let fs1 := match ReadDir (Join root [inboxDirName]) fs with
             | Some entries => foldl (sweepMarker seen cutoff) fs entries
             | None => fs
             end in
  foldl (sweepDir seen cutoff) fs1 (workDirs fs1).
End listener.

(** * Lemmas on paths *)

(** A name a directory can hold. *)
Definition name_ok (n : string) : Prop := n <> "" /\ n <> "." /\ n <> "..".

Lemma joinStep_name p n : name_ok n -> joinStep p n = (p ++ [n])%list.
Proof.
  intros (H1%String.eqb_neq & H2%String.eqb_neq & H3%String.eqb_neq). unfold joinStep. by rewrite H1, H2, H3.
Qed.

Lemma Join_names p ns : Forall name_ok ns -> Join p ns = (p ++ ns)%list.
Proof.
  intros Hn. revert p. induction Hn as [|n ns Hn _ IH]; intros p; cbn; [by rewrite app_nil_r|].
  rewrite joinStep_name by done. rewrite IH, <- app_assoc. done.
Qed.

Lemma segName_ok : name_ok (segName 0).
Proof. by repeat split. Qed.

Lemma synPath_app root id : synPath root id = (connPath root id ++ ["c2s"; segName 0])%list.
Proof. apply Join_names. constructor; [by repeat split|]. constructor; [apply segName_ok|constructor]. Qed.

Lemma markerPath_app root id : name_ok id -> inboxMarkerPath root id = (root ++ [inboxDirName; id])%list.
Proof. intros Hid. apply Join_names. constructor; [by repeat split|]. by constructor. Qed.

Lemma inbox_app root : Join root [inboxDirName] = (root ++ [inboxDirName])%list.
Proof. apply Join_names. constructor; [by repeat split|constructor]. Qed.

Lemma marker_not_syn root id id' : name_ok id -> inboxMarkerPath root id <> synPath root id'.
Proof.
  intros Hid. rewrite markerPath_app, synPath_app by done. intros E. apply (f_equal reverse) in E.
  rewrite !reverse_app in E. done.
Qed.

Lemma marker_inj root id id' : name_ok id -> name_ok id' -> inboxMarkerPath root id = inboxMarkerPath root id' -> id = id'.
Proof. intros H1 H2. rewrite !markerPath_app by done. intros E%(inj (app root)). by injection E. Qed.

Lemma entryOf_Some d p n : entryOf d p = Some n <-> p = (d ++ [n])%list.
Proof.
  unfold entryOf. split.
  - destruct (decide _) as [[Hl Ht]|]; [|done]. intros Hn. rewrite <- (take_drop_middle _ _ _ Hn), Ht.
    f_equal. f_equal. apply length_zero_iff_nil. rewrite length_drop. lia.
  - intros ->. rewrite decide_True.
    + by rewrite lookup_app_r, Nat.sub_diag by lia.
    + rewrite length_app, take_app_length. split; [cbn; lia|done].
Qed.

Lemma children_elem d fs n i : (n, i) ∈ children d fs <-> fs !! (d ++ [n])%list = Some i.
Proof.
  unfold children. rewrite list_elem_of_omap. split.
  - intros ([p i'] & Hin%elem_of_map_to_list & E). cbn in E.
    destruct (entryOf d p) as [n'|] eqn:En; [|done]. cbn in E. injection E as -> ->.
    apply entryOf_Some in En as ->. done.
  - intros Hl. exists ((d ++ [n])%list, i). split; [by apply elem_of_map_to_list|]. cbn.
    assert (entryOf d (d ++ [n])%list = Some n) as -> by (by apply entryOf_Some). done.
Qed.

Lemma entries_NoDup d (l : list (path * inode)) : NoDup (l.*1) ->
  NoDup (map fst (omap (fun e : path * inode => (fun n => (n, e.2)) <$> entryOf d e.1) l)).
Proof.
  induction l as [|[p i] l IH]; intros Hnd; [constructor|].
  cbn [fmap list_fmap fst] in Hnd. apply list.NoDup_cons in Hnd as [Hp Hnd]. cbn [omap list_omap fst snd].
  destruct (entryOf d p) as [n|] eqn:En; cbn; [|by apply IH]. constructor; [|by apply IH].
  intros Hin. apply list_elem_of_fmap in Hin as ([n' i'] & E & Hin). cbn in E. subst n'.
  apply list_elem_of_omap in Hin as ([p' i''] & Hin & E'). cbn in E'.
  destruct (entryOf d p') as [n'|] eqn:En'; [|done]. cbn in E'. injection E' as -> _.
  apply entryOf_Some in En, En'. subst p p'. apply Hp. apply list_elem_of_fmap. by exists ((d ++ [n])%list, i'').
Qed.

Lemma children_NoDup d fs : NoDup (map fst (children d fs)).
Proof. apply entries_NoDup, NoDup_fst_map_to_list. Qed.

(** A tree in which only directories have entries, all with proper names. *)
Definition tree_ok (fs : tree) : Prop := forall p n i, fs !! (p ++ [n])%list = Some i ->
  name_ok n /\ exists j, fs !! p = Some j /\ i_dir j = true.

Lemma file_no_children fs p i : tree_ok fs -> fs !! p = Some i -> i_dir i = false -> children p fs = [].
Proof.
  intros Hok Hp Hf. destruct (children p fs) as [|[n j] l] eqn:E; [done|].
  assert ((n, j) ∈ children p fs) as Hin by (rewrite E; left). apply children_elem, Hok in Hin as (_ & k & Hk & Hd). congruence.
Qed.

Lemma Remove_lookup p q fs : q <> p -> Remove p fs !! q = fs !! q.
Proof. intros Hne. unfold Remove. destruct (decide _); [|done]. by rewrite lookup_delete_ne. Qed.

Lemma Remove_file fs p i : tree_ok fs -> fs !! p = Some i -> i_dir i = false -> Remove p fs = delete p fs.
Proof. intros Hok Hp Hf. unfold Remove. by rewrite decide_True by (by eapply file_no_children). Qed.

Lemma delete_file_ok fs p i : tree_ok fs -> fs !! p = Some i -> i_dir i = false -> tree_ok (delete p fs).
Proof.
  intros Hok Hp Hf q n j [Hne Hq]%lookup_delete_Some. destruct (Hok _ _ _ Hq) as (Hn & k & Hk & Hd).
  split; [done|]. exists k. split; [|done]. rewrite lookup_delete_ne; [done|]. intros ->. congruence.
Qed.

Lemma RemoveAll_lookup p q fs : RemoveAll p fs !! q = (if decide (p `prefix_of` q) then None else fs !! q).
Proof.
  unfold RemoveAll. destruct (decide _) as [Hp|Hp].
  - apply map_lookup_filter_None. right. intros i _ Hn. by apply Hn.
  - destruct (fs !! q) as [i|] eqn:E.
    + apply map_lookup_filter_Some. done.
    + apply map_lookup_filter_None. by left.
Qed.

(** ** Scanning *)

(** The files of the inbox, as markers. *)
Definition marker (root : path) (fs : tree) (id : string) : Prop :=
  exists i, fs !! (root ++ [inboxDirName; id])%list = Some i /\ i_dir i = false.

Lemma app_two {A} (l : list A) a b : ((l ++ [a]) ++ [b])%list = (l ++ [a; b])%list.
Proof. by rewrite <- app_assoc. Qed.

(** Some file entry of the list is called [id]. *)
Definition hasFile (l : list (string * inode)) (id : string) : Prop := exists i, (id, i) ∈ l /\ i_dir i = false.

Lemma hasFile_snoc l id i id' : hasFile (l ++ [(id, i)]) id' <-> hasFile l id' \/ (id' = id /\ i_dir i = false).
Proof.
  unfold hasFile. setoid_rewrite elem_of_app. setoid_rewrite list_elem_of_singleton. split.
  - intros (j & [?|[= -> ->]] & ?); eauto.
  - intros [(j & ? & ?)|[-> ?]]; eauto.
Qed.

Section scan.
Context (root : path) (seen0 : gset string) (fs0 : tree).

(** What the scan has done once it has been through the entries of [done]. *)
Record scan_inv (done : list (string * inode)) (st : gset string * tree * list string) : Prop := {
  si_tree : tree_ok st.1.2;
  si_seen : st.1.1 = seen0 ∪ list_to_set st.2;
  si_nodup : NoDup st.2;
  si_started id : id ∈ st.2 <-> (id ∉ seen0) /\ is_Some (Stat (synPath root id) fs0)
    /\ hasFile done id;
  si_gone id i : (id, i) ∈ done -> i_dir i = false -> id ∈ st.1.1 -> st.1.2 !! inboxMarkerPath root id = None;
  si_keep p : (forall id i, (id, i) ∈ done -> i_dir i = false -> id ∈ st.1.1 -> p <> inboxMarkerPath root id) ->
    st.1.2 !! p = fs0 !! p
}.

(** An entry that changes nothing: a directory, or an unknown tunnel without SYN. *)
Lemma scan_skip done st id i : scan_inv done st ->
  i_dir i = true \/ (id ∉ st.1.1) /\ Stat (synPath root id) fs0 = None -> scan_inv (done ++ [(id, i)]) st.
Proof.
  intros [Ht Hs Hnd Hst Hg Hk] Hskip. split; [done|done|done|..].
  - intros id'. rewrite Hst, hasFile_snoc. split; [tauto|]. intros (H1 & H2 & [?|[-> Hd]]); [done|].
    destruct Hskip as [?|[_ Hsy]]; [congruence|]. rewrite Hsy in H2. by destruct H2.
  - intros id' i' [Hin|[= -> ->]%list_elem_of_singleton]%elem_of_app Hd Hse; [by eapply Hg|].
    destruct Hskip as [?|[? _]]; [congruence|done].
  - intros p Hp. apply Hk. intros id' i' Hin. apply Hp, elem_of_app. by left.
Qed.

(** A file of a tunnel that is known afterwards: its marker goes. *)
Lemma scan_unmark done seen fs started seen' started' id i : scan_inv done (seen, fs, started) ->
  tree_ok (delete (inboxMarkerPath root id) fs) -> i_dir i = false -> seen' = seen0 ∪ list_to_set started' -> NoDup started' ->
  (forall id', id' ∈ started' <-> (id' ∉ seen0) /\ is_Some (Stat (synPath root id') fs0) /\ hasFile (done ++ [(id, i)]) id') ->
  id ∈ seen' -> (forall id', id' <> id -> id' ∈ seen' <-> id' ∈ seen) -> id ∉ map fst done ->
  scan_inv (done ++ [(id, i)]) (seen', delete (inboxMarkerPath root id) fs, started').
Proof.
  intros [_ _ _ _ Hg Hk] Htd Hd Hs Hnd Hst Hin Hoth Hnew. cbn [fst snd] in *.
  assert (forall id' i', (id', i') ∈ done -> id' <> id) as Hne.
  { intros id' i' Hi' ->. apply Hnew, list_elem_of_fmap. by exists (id, i'). }
  split; cbn [fst snd]; [done|done|done|done|..].
  - intros id' i' [Hi'|[= -> ->]%list_elem_of_singleton]%elem_of_app Hf Hse; [|apply lookup_delete_eq].
    apply lookup_delete_None. right. eapply Hg; [done..|]. by apply Hoth; [eapply Hne|].
  - intros p Hp. rewrite lookup_delete_ne.
    + apply Hk. intros id' i' Hi' Hf Hse. apply (Hp id' i'); [apply elem_of_app; by left|done|]. by apply Hoth; [eapply Hne|].
    + intros <-. by apply (Hp id i); [apply elem_of_app; right; left|..].
Qed.

(** The entry is a file the scan has not touched yet, and neither are SYN segments. *)
Lemma scan_fresh done st id i : Forall name_ok (map fst (done ++ [(id, i)])) ->
  id ∉ map fst done -> fs0 !! (root ++ [inboxDirName; id])%list = Some i -> scan_inv done st ->
  st.1.2 !! inboxMarkerPath root id = Some i
  /\ (forall id', Stat (synPath root id') st.1.2 = Stat (synPath root id') fs0) /\ id ∉ st.2.
Proof.
  intros Hok Hnew Hfile [Ht Hs Hnd Hst Hg Hk]. rewrite map_app in Hok. apply Forall_app in Hok as [Hok Hid].
  apply Forall_inv in Hid. cbn in Hid.
  assert (forall id' i', (id', i') ∈ done -> name_ok id' /\ id' <> id) as Hdone.
  { intros id' i' Hin. assert (id' ∈ map fst done) as Hin' by (apply list_elem_of_fmap; by exists (id', i')).
    split; [|by intros ->]. rewrite List.Forall_forall in Hok. by apply Hok, list_elem_of_In. }
  split; [|split].
  - rewrite Hk; [by rewrite markerPath_app|]. intros id' i' Hin _ _ E.
    destruct (Hdone _ _ Hin) as [Hok' Hne]. by apply (marker_inj root) in E.
  - intros id'. apply Hk. intros id'' i'' Hin _ _ E. destruct (Hdone _ _ Hin) as [Hok' _].
    by apply (marker_not_syn root id'' id').
  - intros (_ & _ & i' & Hin & _)%Hst. by destruct (Hdone _ _ Hin).
Qed.

Lemma scanEntry_inv done st id i : Forall name_ok (map fst (done ++ [(id, i)])) ->
  id ∉ map fst done -> fs0 !! (root ++ [inboxDirName; id])%list = Some i ->
  scan_inv done st -> scan_inv (done ++ [(id, i)]) (scanEntry root st (id, i)).
Proof.
  intros Hok Hnew Hfile Hi. pose proof Hi as [Ht Hs Hnd Hst _ _].
  destruct (scan_fresh _ _ _ _ Hok Hnew Hfile Hi) as (Hm & Hsyn & Hns).
  destruct st as [[seen fs] started]. cbn [fst snd] in *. unfold scanEntry. cbn [fst snd].
  destruct (i_dir i) eqn:Hd; [apply scan_skip; [done|by left]|].
  assert (Remove (inboxMarkerPath root id) fs = delete (inboxMarkerPath root id) fs
    /\ tree_ok (delete (inboxMarkerPath root id) fs)) as [-> Htd] by (split; [by eapply Remove_file|by eapply delete_file_ok]).
  destruct (decide (id ∈ seen)) as [Hin|Hnin].
  - eapply scan_unmark; [done..| |done|done|done]. intros id'. rewrite Hst, hasFile_snoc. split; [tauto|].
    intros (H1 & H2 & [?|[-> _]]); [tauto|]. exfalso. set_solver.
  - rewrite Hsyn. destruct (Stat (synPath root id) fs0) as [x|] eqn:Hsy; [|apply scan_skip; [done|by right]].
    eapply scan_unmark; [done..| | | | |set_solver|done].
    + rewrite list_to_set_app_L. set_solver.
    + apply list.NoDup_app. split; [done|]. split; [set_solver|apply NoDup_singleton].
    + intros id'. rewrite elem_of_app, Hst, list_elem_of_singleton, hasFile_snoc. split.
      * intros [?| ->]; [tauto|]. split; [set_solver|]. split; [by rewrite Hsy|]. by right.
      * intros (H1 & H2 & [?|[-> ?]]); [by left|by right].
    + set_solver.
Qed.

Lemma scanEntries_inv rest done st : NoDup (map fst (done ++ rest)) -> Forall name_ok (map fst (done ++ rest)) ->
  (forall id i, (id, i) ∈ rest -> fs0 !! (root ++ [inboxDirName; id])%list = Some i) ->
  scan_inv done st -> scan_inv (done ++ rest) (foldl (scanEntry root) st rest).
Proof.
  revert done st. induction rest as [|[id i] rest IH]; intros done st Hnd Hok Hf Hi; [by rewrite app_nil_r|].
  cbn [foldl]. rewrite (cons_middle (id, i)), app_assoc in *. apply IH; [done|done|set_solver|].
  rewrite map_app in Hnd, Hok. apply Forall_app in Hok as [Hok _]. apply list.NoDup_app in Hnd as (Hnd & _ & _).
  apply scanEntry_inv; [done| |apply Hf; by left|done].
  rewrite map_app in Hnd. apply list.NoDup_app in Hnd as (_ & Hd & _). intros Hin. by apply (Hd id); [|left].
Qed.
End scan.

(** ** Sweeping *)

(** A conn id that hashes into the work tree: its two parts are proper names. *)
Definition hashed (id : string) : Prop :=
  name_ok (stake hashPrefixLen id) /\ name_ok (sdrop hashPrefixLen id) /\ (hashPrefixLen < String.length id)%nat.

Lemma connPath_hashed root id : hashed id ->
  connPath root id = (root ++ [stake hashPrefixLen id; sdrop hashPrefixLen id])%list.
Proof.
  intros (H1 & H2 & H3). unfold connPath. rewrite decide_False by lia. apply Join_names.
  constructor; [done|]. constructor; [done|constructor].
Qed.

(** Sweeping a directory spares what is under the path of a known tunnel, and what
    is under a directory with recent activity. *)
Lemma sweepDir_spares root seen cutoff fs d id p : hashed id -> id ∈ seen -> connPath root id `prefix_of` p ->
  sweepDir root seen cutoff fs d !! p = fs !! p.
Proof.
  intros Hid Hin Hp. destruct d as [fo re]. unfold sweepDir, staleDir. cbn [fst snd]. destruct (decide _) as [|Hn]; [done|]. destruct (recent _ _); [done|].
  cbn [negb]. rewrite RemoveAll_lookup. destruct (decide _) as [Hpre|]; [|done]. exfalso. apply Hn.
  rewrite connPath_hashed in Hp by done. destruct Hp as [k1 ->], Hpre as [k2 E].
  rewrite <- !app_assoc in E. apply (inj (app root)) in E. injection E as <- <- _.
  rewrite <- (stake_sdrop hashPrefixLen id) in Hin. exact Hin.
Qed.

Lemma sweepMarker_spares root seen cutoff fs e p :
  (forall id, name_ok id -> p = inboxMarkerPath root id -> id ∈ seen) -> name_ok e.1 ->
  sweepMarker root seen cutoff fs e !! p = fs !! p.
Proof.
  intros Hp He. unfold sweepMarker, staleMarker. destruct (i_dir _); [done|]. destruct (decide _) as [|Hn]; [done|].
  destruct (_ <? _); [|done]. apply Remove_lookup. intros ->. apply Hn. by apply (Hp e.1).
Qed.

Lemma foldl_spares {A} (f : tree -> A -> tree) (l : list A) (p : path) :
  (forall fs a, a ∈ l -> f fs a !! p = fs !! p) -> forall fs, foldl f fs l !! p = fs !! p.
Proof.
  induction l as [|a l IH]; intros Hf fs; [done|]. cbn. rewrite IH; [|set_solver]. apply Hf. by left.
Qed.

Lemma connPath_not_marker root id id' p : hashed id -> name_ok id' -> stake hashPrefixLen id <> inboxDirName ->
  connPath root id `prefix_of` p -> p <> inboxMarkerPath root id'.
Proof.
  intros Hid Hid' Hne [k ->]. rewrite connPath_hashed, markerPath_app by done.
  rewrite <- app_assoc. intros E%(inj (app root)). injection E as E _. done.
Qed.

Lemma stake_not_inbox id : stake hashPrefixLen id <> inboxDirName.
Proof. intros E. pose proof (stake_length hashPrefixLen id) as Hl. rewrite E in Hl. cbn in Hl. unfold hashPrefixLen in Hl. lia. Qed.

Lemma ageSweep_known root threshold now seen fs id p : tree_ok fs -> hashed id -> id ∈ seen ->
  connPath root id `prefix_of` p -> ageSweep root threshold now seen fs !! p = fs !! p.
Proof.
  intros Hok Hid Hin Hp. unfold ageSweep. rewrite foldl_spares by (intros; by eapply sweepDir_spares).
  unfold ReadDir. rewrite inbox_app. destruct (fs !! _) as [i|]; [|done]. destruct (i_dir i); [|done].
  apply foldl_spares. intros fs' [n j] Hc%children_elem. destruct (Hok _ _ _ Hc) as [Hn _].
  apply sweepMarker_spares; [|done]. intros id' Hid' ->. exfalso.
  by apply (connPath_not_marker root id id' _ Hid Hid' (stake_not_inbox id) Hp).
Qed.

(** ** Recent activity *)

Lemma consider_recent cutoff newest t : recent cutoff (consider newest t) = recent cutoff newest || (t >? cutoff).
Proof. destruct newest as [n|]; cbn; [|done]. destruct (t >? n) eqn:E; cbn; lia. Qed.

Lemma consider_all_recent cutoff (l : list (string * inode)) newest :
  recent cutoff (foldl (fun n e => consider n (i_mtime e.2)) newest l)
  = recent cutoff newest || existsb (fun e => i_mtime e.2 >? cutoff) l.
Proof.
  revert newest. induction l as [|e l IH]; intros newest; cbn; [by rewrite orb_false_r|].
  by rewrite IH, consider_recent, orb_assoc.
Qed.

(** File [p] exists and changed after [cutoff]. *)
Definition fresh (cutoff : Z) (fs : tree) (p : path) : Prop := exists i, fs !! p = Some i /\ cutoff < i_mtime i.

Lemma considerStat_recent cutoff fs newest p :
  recent cutoff (considerStat fs newest p) = true <-> recent cutoff newest = true \/ fresh cutoff fs p.
Proof.
  unfold considerStat, Stat, fresh. destruct (fs !! p) as [i|] eqn:E.
  - rewrite consider_recent, orb_true_iff, Z.gtb_lt. split; [intros [?|?]; eauto|].
    intros [?|(j & [= <-] & ?)]; eauto.
  - split; [by left|]. intros [?|(j & ? & _)]; done.
Qed.

Lemma children_recent cutoff d fs :
  existsb (fun e => i_mtime e.2 >? cutoff) (children d fs) = true <-> exists n, fresh cutoff fs (d ++ [n]).
Proof.
  rewrite existsb_exists. unfold fresh. split.
  - intros ([n i] & Hin%list_elem_of_In%children_elem & Hc). cbn in Hc. exists n, i. split; [done|lia].
  - intros (n & i & Hc%children_elem & Hi). exists (n, i). split; [by apply list_elem_of_In|cbn; lia].
Qed.

(** Where a subtree shows activity: its own directory, its two direction
    directories and what these hold. *)
Definition active (cutoff : Z) (fs : tree) (connDir : path) : Prop :=
  fresh cutoff fs connDir \/ exists dir, dir ∈ ["c2s"; "s2c"] /\
    (fresh cutoff fs (connDir ++ [dir]) \/ exists n, fresh cutoff fs (connDir ++ [dir; n])).

Lemma considerDir_recent cutoff fs newest d : tree_ok fs ->
  recent cutoff (match ReadDir d fs with
                 | None => considerStat fs newest d
                 | Some entries => foldl (fun n e => consider n (i_mtime e.2)) (considerStat fs newest d) entries
                 end) = true
  <-> recent cutoff newest = true \/ fresh cutoff fs d \/ exists n, fresh cutoff fs (d ++ [n]).
Proof.
  intros Hok.
  assert ((exists n, fresh cutoff fs (d ++ [n])) -> exists j, fs !! d = Some j /\ i_dir j = true) as Hdir.
  { intros (n & i & Hi & _). by apply Hok in Hi as [_ ?]. }
  unfold ReadDir. destruct (fs !! d) as [i|] eqn:Hd.
  - destruct (i_dir i) eqn:Hi.
    + rewrite consider_all_recent, orb_true_iff, considerStat_recent, children_recent. tauto.
    + rewrite considerStat_recent. split; [tauto|]. intros [?|[?|(j & [= <-] & ?)%Hdir]]; [tauto..|congruence].
  - rewrite considerStat_recent. split; [tauto|]. intros [?|[?|(j & ? & ?)%Hdir]]; [tauto..|done].
Qed.

Lemma subtreeLastActivity_recent cutoff fs connDir : tree_ok fs ->
  recent cutoff (subtreeLastActivity connDir fs) = true <-> active cutoff fs connDir.
Proof.
  intros Hok. unfold subtreeLastActivity, active.
  assert (forall dir, name_ok dir -> Join connDir [dir] = (connDir ++ [dir])%list) as HJ.
  { intros dir Hn. apply Join_names. constructor; [done|constructor]. }
  cbn [foldl]. rewrite !HJ by (by repeat split).
  rewrite !considerDir_recent, considerStat_recent by done. setoid_rewrite app_two. cbn [recent].
  setoid_rewrite elem_of_cons. setoid_rewrite list_elem_of_singleton. split.
  - intros [[[?|?]|?]|?]; [done|by left|right; exists "c2s"; tauto|right; exists "s2c"; tauto].
  - intros [?|(dir & [->| ->] & ?)]; tauto.
Qed.

(** A sweep leaves a work subtree with recent activity alone. *)
Definition same_under (d : path) (fs fs' : tree) : Prop := forall p, d `prefix_of` p -> fs' !! p = fs !! p.

Lemma active_same cutoff fs fs' d : same_under d fs fs' -> active cutoff fs d -> active cutoff fs' d.
Proof.
  intros Hs. assert (forall k, fresh cutoff fs (d ++ k) -> fresh cutoff fs' (d ++ k)) as Hf.
  { intros k (i & Hi & Ht). exists i. by rewrite Hs by (by apply prefix_app_r). }
  assert (fresh cutoff fs d -> fresh cutoff fs' d) as Hf0.
  { specialize (Hf []). by rewrite app_nil_r in Hf. }
  intros [?|(dir & Hd & [?|(n & ?)])]; [left; auto|right; exists dir; split; [done|]..]; [left; auto|right; exists n; auto].
Qed.

Lemma RemoveAll_ok p fs : tree_ok fs -> tree_ok (RemoveAll p fs).
Proof.
  intros Hok q n i. rewrite !RemoveAll_lookup. destruct (decide _) as [|Hn]; [done|]. intros Hq.
  destruct (Hok _ _ _ Hq) as (H1 & j & Hj & Hd). split; [done|]. exists j. rewrite decide_False; [done|].
  intros Hp. apply Hn. by apply prefix_app_r.
Qed.

Lemma Remove_ok p fs : tree_ok fs -> tree_ok (Remove p fs).
Proof.
  intros Hok. unfold Remove. destruct (decide _) as [Hc|]; [|done]. intros q n i [Hne Hq]%lookup_delete_Some.
  destruct (Hok _ _ _ Hq) as (H1 & j & Hj & Hd). split; [done|]. exists j. rewrite lookup_delete_ne; [done|].
  intros ->. apply (not_elem_of_nil (n, i)). rewrite <- Hc. by apply children_elem.
Qed.

Lemma sweepDir_active root seen cutoff fs d fo re : tree_ok fs -> active cutoff fs (root ++ [fo; re]) ->
  tree_ok (sweepDir root seen cutoff fs d) /\ same_under (root ++ [fo; re]) fs (sweepDir root seen cutoff fs d).
Proof.
  intros Hok Ha. destruct d as [fo' re']. unfold sweepDir, staleDir. cbn [fst snd].
  destruct (decide _); [done|]. destruct (recent _ _) eqn:Hr; [done|]. cbn [negb].
  split; [by apply RemoveAll_ok|]. intros p [k1 ->]. rewrite RemoveAll_lookup. destruct (decide _) as [[k2 E]|]; [|done].
  rewrite <- !app_assoc in E. apply (inj (app root)) in E. injection E as <- <- _.
  apply subtreeLastActivity_recent in Ha; [|done]. congruence.
Qed.

Lemma sweepDirs_active root seen cutoff ds fo re fs : tree_ok fs -> active cutoff fs (root ++ [fo; re]) ->
  same_under (root ++ [fo; re]) fs (foldl (sweepDir root seen cutoff) fs ds).
Proof.
  revert fs. induction ds as [|d ds IH]; intros fs Hok Ha; [done|]. cbn [foldl].
  destruct (sweepDir_active root seen cutoff fs d fo re Hok Ha) as [Hok' Hs]. intros p Hp. rewrite IH; [by apply Hs|done| |done].
  by eapply active_same.
Qed.

Lemma sweepMarkers_ok root seen cutoff es fs : tree_ok fs -> tree_ok (foldl (sweepMarker root seen cutoff) fs es).
Proof.
  revert fs. induction es as [|e es IH]; intros fs Hok; [done|]. cbn. apply IH. unfold sweepMarker.
  destruct (staleMarker _ _ _); [by apply Remove_ok|done].
Qed.

Lemma sweepMarkers_work root seen cutoff es fs fo re : Forall (fun e => name_ok e.1) es -> fo <> inboxDirName ->
  same_under (root ++ [fo; re]) fs (foldl (sweepMarker root seen cutoff) fs es).
Proof.
  intros Hes Hfo p [k ->]. apply foldl_spares. intros fs' e He. rewrite List.Forall_forall in Hes. apply list_elem_of_In in He.
  apply sweepMarker_spares; [|by apply Hes]. intros id Hid E. rewrite markerPath_app, <- app_assoc in E by done.
  apply (inj (app root)) in E. injection E as -> _. done.
Qed.

Lemma ageSweep_active root threshold now seen fs fo re : tree_ok fs -> fo <> inboxDirName ->
  active (now - threshold) fs (root ++ [fo; re]) -> same_under (root ++ [fo; re]) fs (ageSweep root threshold now seen fs).
Proof.
  intros Hok Hfo Ha. unfold ageSweep. destruct (ReadDir _ _) as [es|] eqn:E; [|by apply sweepDirs_active].
  assert (Forall (fun e => name_ok e.1) es) as Hes.
  { unfold ReadDir in E. destruct (fs !! _) as [j|]; [|done]. destruct (i_dir j); [|done]. injection E as <-.
    apply List.Forall_forall. intros [n i] Hc%list_elem_of_In%children_elem. by destruct (Hok _ _ _ Hc). }
  pose proof (sweepMarkers_work root seen (now - threshold) es fs fo re Hes Hfo) as Hs.
  intros p Hp. rewrite (sweepDirs_active _ _ _ _ fo re); [by apply Hs|by apply sweepMarkers_ok|by eapply active_same|done].
Qed.

(** * Goroutines *)

(** What a goroutine of the listener is about to do, beside [watchLoop]. *)
Inductive goroutine :=
| GHandshake (id : string)          (* [accept]: the handshake *)
| GForget (id : string)             (* [accept] or [reapWhenDone]: forget the id *)
| GDeliver (id : string)            (* [accept]: hand the pipe to [Accept] *)
| GWait (id : string)               (* [reapWhenDone]: until the pipe is terminal *)
| GReap (id : string)               (* remove the subtree *)
| GUnmark (id : string)             (* remove a lingering marker *)
| GReturn.

(** What the sweep, in the middle of an iteration, is about to remove. *)
Inductive doom := DoomMarker (id : string) | DoomDir (fo re : string).

Record lsys := mkLsys {
  l_seen : gset string;
  l_fs : tree;
  l_gs : gmap nat goroutine;
  l_doomed : option doom;
  l_closed : bool;             (* [ctx] is done *)
  l_now : Z                    (* the clock *)
}.

Definition lstart (fs : tree) (now : Z) : lsys := mkLsys ∅ fs ∅ None false now.

Section steps.
Context (root : path) (threshold : Z).

(** An iteration of the sweep finds something to remove. The cutoff was taken when the
    sweep started, so the clock may have moved on since. *)
Inductive sweep_check : lsys -> lsys -> Prop :=
| sc_marker seen fs gs cl now cutoff id i : cutoff <= now - threshold -> name_ok id -> Stat (inboxMarkerPath root id) fs = Some i ->
    staleMarker seen cutoff (id, i) = true ->
    sweep_check (mkLsys seen fs gs None cl now) (mkLsys seen fs gs (Some (DoomMarker id)) cl now)
| sc_dir seen fs gs cl now cutoff fo re : cutoff <= now - threshold -> fo <> inboxDirName -> HasPrefix fo "." = false ->
    staleDir root seen cutoff fs (fo, re) = true ->
    sweep_check (mkLsys seen fs gs None cl now) (mkLsys seen fs gs (Some (DoomDir fo re)) cl now).

(** It removes it. *)
Inductive sweep_remove : lsys -> lsys -> Prop :=
| sr_marker seen fs gs cl now id :
    sweep_remove (mkLsys seen fs gs (Some (DoomMarker id)) cl now)
      (mkLsys seen (Remove (inboxMarkerPath root id) fs) gs None cl now)
| sr_dir seen fs gs cl now fo re :
    sweep_remove (mkLsys seen fs gs (Some (DoomDir fo re)) cl now)
      (mkLsys seen (RemoveAll (root ++ [fo; re])%list fs) gs None cl now).

(** Steps: [watchLoop] goes through its scans and sweeps entry by entry, the other
    goroutines run in between, peers change files and time passes. Scans and sweeps are
    of one goroutine: none starts while the sweep is between check and removal. *)
Inductive lstep : lsys -> lsys -> Prop :=
| ls_peer seen fs fs' gs dm cl now : lstep (mkLsys seen fs gs dm cl now) (mkLsys seen fs' gs dm cl now)
| ls_clock seen fs gs dm cl now now' : now <= now' -> lstep (mkLsys seen fs gs dm cl now) (mkLsys seen fs gs dm cl now')
| ls_close seen fs gs dm cl now : lstep (mkLsys seen fs gs dm cl now) (mkLsys seen fs gs dm true now)
| ls_scan seen fs gs cl now e seen' fs' : scanEntry root (seen, fs, []) e = (seen', fs', []) ->
    lstep (mkLsys seen fs gs None cl now) (mkLsys seen' fs' gs None cl now)
| ls_scan_accept seen fs gs cl now e seen' fs' id k : scanEntry root (seen, fs, []) e = (seen', fs', [id]) -> gs !! k = None ->
    lstep (mkLsys seen fs gs None cl now) (mkLsys seen' fs' (<[k := GHandshake id]> gs) None cl now)
| ls_startup_accept seen fs gs cl now d seen' id k : startupEntry root fs (seen, []) d = (seen', [id]) -> gs !! k = None ->
    lstep (mkLsys seen fs gs None cl now) (mkLsys seen' fs (<[k := GHandshake id]> gs) None cl now)
| ls_check y y' : sweep_check y y' -> lstep y y'
| ls_remove y y' : sweep_remove y y' -> lstep y y'
| ls_fail seen fs gs dm cl now k id : gs !! k = Some (GHandshake id) ->
    lstep (mkLsys seen fs gs dm cl now) (mkLsys seen fs (<[k := GForget id]> gs) dm cl now)
| ls_established seen fs gs dm cl now k id j : gs !! k = Some (GHandshake id) -> gs !! j = None ->
    lstep (mkLsys seen fs gs dm cl now) (mkLsys seen fs (<[j := GWait id]> (<[k := GDeliver id]> gs)) dm cl now)
| ls_deliver seen fs gs dm cl now k id : gs !! k = Some (GDeliver id) ->
    lstep (mkLsys seen fs gs dm cl now) (mkLsys seen fs (<[k := GReturn]> gs) dm cl now)
| ls_shutdown seen fs gs dm now k id : gs !! k = Some (GWait id) ->
    lstep (mkLsys seen fs gs dm true now) (mkLsys seen fs (<[k := GReturn]> gs) dm true now)
| ls_terminal seen fs gs dm cl now k id : gs !! k = Some (GWait id) ->
    lstep (mkLsys seen fs gs dm cl now) (mkLsys seen fs (<[k := GReap id]> gs) dm cl now)
| ls_reap seen fs gs dm cl now k id : gs !! k = Some (GReap id) ->
    lstep (mkLsys seen fs gs dm cl now) (mkLsys seen (RemoveAll (connPath root id) fs) (<[k := GUnmark id]> gs) dm cl now)
| ls_unmark seen fs gs dm cl now k id : gs !! k = Some (GUnmark id) ->
    lstep (mkLsys seen fs gs dm cl now) (mkLsys seen (Remove (inboxMarkerPath root id) fs) (<[k := GForget id]> gs) dm cl now)
| ls_forget seen fs gs dm cl now k id : gs !! k = Some (GForget id) ->
    lstep (mkLsys seen fs gs dm cl now) (mkLsys (seen ∖ {[id]}) fs (<[k := GReturn]> gs) dm cl now).
End steps.

(** The tunnel a running goroutine is responsible for: it will forget it, or wait for
    it to end. [accept] passes the tunnel on to [reapWhenDone] when it hands it over. *)
Definition owns (g : goroutine) : option string :=
  match g with
  | GHandshake id | GForget id | GWait id | GReap id | GUnmark id => Some id
  | GDeliver _ | GReturn => None
  end.

(** What a doomed marker or directory belongs to. *)
Definition doomedId (d : doom) : string := match d with DoomMarker id => id | DoomDir fo re => fo +:+ re end.

(** The tunnels of running goroutines are known, each has one; while the listener is
    open no other tunnel is known; what is doomed is not known. *)
Record lsys_inv (y : lsys) : Prop := {
  li_seen id : l_closed y = false -> id ∈ l_seen y -> exists k g, l_gs y !! k = Some g /\ owns g = Some id;
  li_own k g id : l_gs y !! k = Some g -> owns g = Some id -> id ∈ l_seen y;
  li_one k k' g g' id : l_gs y !! k = Some g -> l_gs y !! k' = Some g' -> owns g = Some id -> owns g' = Some id -> k = k';
  li_doom d : l_doomed y = Some d -> doomedId d ∉ l_seen y
}.

(** Files, the clock and dooms do not matter, and a goroutine may keep its tunnel. *)
Lemma linv_same y y' : lsys_inv y -> l_seen y' = l_seen y -> l_gs y' = l_gs y ->
  (l_closed y' = false -> l_closed y = false) -> (forall d, l_doomed y' = Some d -> doomedId d ∉ l_seen y) -> lsys_inv y'.
Proof. intros [H1 H2 H3 H4] Es Eg Ec Hd. split; rewrite ?Es, ?Eg; [|done..]. intros id Hc. by apply H1, Ec. Qed.

Lemma linv_move seen fs fs' gs dm cl now k g g' : lsys_inv (mkLsys seen fs gs dm cl now) -> gs !! k = Some g ->
  owns g' = owns g -> lsys_inv (mkLsys seen fs' (<[k := g']> gs) dm cl now).
Proof.
  intros [H1 H2 H3 H4] Hk Ho. cbn in *.
  assert (forall j u id, <[k := g']> gs !! j = Some u -> owns u = Some id -> exists u', gs !! j = Some u' /\ owns u' = Some id) as Hold.
  { intros j u id [[<- <-]|[_ Hj]]%lookup_insert_Some Hu; [exists g; split; [done|congruence]|eauto]. }
  split; cbn; [..|done].
  - intros id Hc Hid. destruct (H1 id Hc Hid) as (j & u & Hj & Hu). destruct (decide (j = k)) as [->|Hne].
    + exists k, g'. rewrite lookup_insert_eq. split; [done|congruence].
    + exists j, u. by rewrite lookup_insert_ne.
  - intros j u id Hj Hu. destruct (Hold _ _ _ Hj Hu) as (u' & ? & ?). by eapply H2.
  - intros j1 j2 u1 u2 id Hj1 Hj2 Hu1 Hu2. destruct (Hold _ _ _ Hj1 Hu1) as (? & ? & ?), (Hold _ _ _ Hj2 Hu2) as (? & ? & ?).
    by eapply H3.
Qed.

(** A new goroutine for a tunnel nobody owned. *)
Lemma linv_new seen fs fs' gs cl now k g id : lsys_inv (mkLsys seen fs gs None cl now) -> gs !! k = None -> owns g = Some id ->
  id ∉ seen -> lsys_inv (mkLsys ({[id]} ∪ seen) fs' (<[k := g]> gs) None cl now).
Proof.
  intros [H1 H2 H3 _] Hk Ho Hn. cbn in *. split; cbn; [..|done].
  - intros id' Hc [->%elem_of_singleton|Hid]%elem_of_union; [exists k, g; by rewrite lookup_insert_eq|].
    destruct (H1 id' Hc Hid) as (j & u & Hj & Hu). exists j, u. rewrite lookup_insert_ne; [done|congruence].
  - intros j u id' [[<- <-]|[_ Hj]]%lookup_insert_Some Hu; [set_solver|]. apply elem_of_union. right. by eapply H2.
  - intros j1 j2 u1 u2 id' [[<- <-]|[? Hj1]]%lookup_insert_Some [[<- <-]|[? Hj2]]%lookup_insert_Some Hu1 Hu2; [done|..|by eapply H3].
    + destruct Hn. rewrite Ho in Hu1. injection Hu1 as <-. by eapply H2.
    + destruct Hn. rewrite Ho in Hu2. injection Hu2 as <-. by eapply H2.
Qed.

(** A goroutine that lets go of its tunnel: it is forgotten, or the listener is closed. *)
Lemma linv_drop seen seen' fs gs dm cl now k g g' id : lsys_inv (mkLsys seen fs gs dm cl now) -> gs !! k = Some g -> owns g = Some id ->
  owns g' = None -> seen' = seen ∖ {[id]} \/ (seen' = seen /\ cl = true) -> lsys_inv (mkLsys seen' fs (<[k := g']> gs) dm cl now).
Proof.
  intros [H1 H2 H3 H4] Hk Ho Ho' Hs. cbn in *. split; cbn.
  - intros id' Hc Hid. destruct Hs as [->|[_ ->]]; [|done]. apply elem_of_difference in Hid as [Hid Hne].
    destruct (H1 id' Hc Hid) as (j & u & Hj & Hu). exists j, u. rewrite lookup_insert_ne; [done|]. intros <-. set_solver.
  - intros j u id' [[<- <-]|[Hne Hj]]%lookup_insert_Some Hu; [congruence|]. pose proof (H2 _ _ _ Hj Hu) as Hin.
    destruct Hs as [->|[-> _]]; [|done]. apply elem_of_difference. split; [done|]. intros ->%elem_of_singleton.
    apply Hne. by eapply H3.
  - intros j1 j2 u1 u2 id' [[<- <-]|[? Hj1]]%lookup_insert_Some [[<- <-]|[? Hj2]]%lookup_insert_Some Hu1 Hu2; try congruence. by eapply H3.
  - intros d Hd. apply H4 in Hd. destruct Hs as [->|[-> _]]; set_solver.
Qed.

(** [accept] passes its tunnel on. *)
Lemma linv_pass seen fs gs dm cl now k g g' j u id : lsys_inv (mkLsys seen fs gs dm cl now) -> gs !! k = Some g -> owns g = Some id ->
  owns g' = None -> gs !! j = None -> owns u = Some id -> lsys_inv (mkLsys seen fs (<[j := u]> (<[k := g']> gs)) dm cl now).
Proof.
  intros [H1 H2 H3 H4] Hk Ho Ho' Hj Hu. cbn in *.
  assert (forall i v id', <[j := u]> (<[k := g']> gs) !! i = Some v -> owns v = Some id' ->
    (i = j /\ id' = id) \/ (i <> k /\ gs !! i = Some v /\ owns v = Some id')) as Hold.
  { intros i v id' [[<- <-]|[_ [[<- <-]|[? ?]]%lookup_insert_Some]]%lookup_insert_Some Hv; [left; split; [done|congruence]|congruence|by right]. }
  split; cbn; [..|done].
  - intros id' Hc Hid. destruct (H1 id' Hc Hid) as (i & v & Hi & Hv). destruct (decide (i = k)) as [->|Hne].
    + exists j, u. rewrite lookup_insert_eq. split; [done|congruence].
    + exists i, v. rewrite !lookup_insert_ne; [done|done|congruence].
  - intros i v id' Hi Hv. destruct (Hold _ _ _ Hi Hv) as [[_ ->]|(_ & ? & ?)]; by eapply H2.
  - intros i1 i2 v1 v2 id' Hi1 Hi2 Hv1 Hv2.
    destruct (Hold _ _ _ Hi1 Hv1) as [[-> ->]|(Hn1 & ? & ?)], (Hold _ _ _ Hi2 Hv2) as [[-> E]|(Hn2 & ? & ?)]; [done| |subst id'|by eapply H3].
    + destruct Hn2. by eapply H3.
    + destruct Hn1. by eapply H3.
Qed.

Lemma scanEntry_cases root seen fs e seen' fs' st : scanEntry root (seen, fs, []) e = (seen', fs', st) ->
  (st = [] /\ seen' = seen) \/ exists id, st = [id] /\ (id ∉ seen) /\ seen' = {[id]} ∪ seen.
Proof.
  unfold scanEntry. intros E. destruct (i_dir e.2); [injection E as <- <- <-; by left|].
  destruct (decide _); [injection E as <- <- <-; by left|].
  destruct (Stat _ _); injection E as <- <- <-; [right; eauto|by left].
Qed.

Lemma check_inv root threshold y y' : sweep_check root threshold y y' -> lsys_inv y -> lsys_inv y'.
Proof.
  intros [seen fs gs cl now cutoff id i _ _ _ Hst|seen fs gs cl now cutoff fo re _ _ _ Hst] Hi;
    (eapply linv_same; [exact Hi|done|done|done|]; intros d [= <-]; cbn).
  - unfold staleMarker in Hst. cbn in Hst. destruct (i_dir i); [done|]. by destruct (decide (id ∈ seen)).
  - unfold staleDir in Hst. cbn in Hst. by destruct (decide (fo +:+ re ∈ seen)).
Qed.

Lemma lstep_inv root threshold y y' : lstep root threshold y y' -> lsys_inv y -> lsys_inv y'.
Proof.
  intros Hst Hi. destruct Hst as [| | |seen fs gs cl now e seen' fs' E|seen fs gs cl now e seen' fs' id k E Hk
    |seen fs gs cl now d seen' id k E Hk|y y' Hc|y y' Hr| | | |seen fs gs dm now k id Hk| | | |seen fs gs dm cl now k id Hk].
  all: try (by eapply linv_move); try (by eapply linv_pass).
  all: try (eapply linv_same; [exact Hi|done|done|done|apply (li_doom _ Hi)]).
  - apply scanEntry_cases in E as [[_ ->]|(id & ? & _)]; [|done]. by eapply linv_same.
  - apply scanEntry_cases in E as [[? _]|(id' & [= <-] & Hn & ->)]; [done|]. by eapply linv_new.
  - unfold startupEntry in E. destruct (Stat _ _); [|done]. destruct (decide _); [done|]. injection E as <- <-.
    by eapply linv_new.
  - by eapply check_inv.
  - destruct Hr; by eapply linv_same.
  - eapply linv_drop; [exact Hi|exact Hk|done..|]. by right.
  - eapply linv_drop; [exact Hi|exact Hk|done..|]. by left.
Qed.

Lemma reachable_inv root threshold fs now y : rtc (lstep root threshold) (lstart fs now) y -> lsys_inv y.
Proof.
  intros Hr. assert (lsys_inv (lstart fs now)) as Hi by (by split).
  induction Hr as [|x z y Hst _ IH]; [done|]. apply IH. by eapply lstep_inv.
Qed.

(** ** What a sweep removes *)

(** What was checked of a doomed marker or directory. *)
Definition checked (root : path) (threshold : Z) (y : lsys) (d : doom) : Prop :=
  match d with
  | DoomMarker id => name_ok id /\ exists i, Stat (inboxMarkerPath root id) (l_fs y) = Some i /\ i_dir i = false /\ i_mtime i < l_now y - threshold
  | DoomDir fo re => fo <> inboxDirName /\ HasPrefix fo "." = false
      /\ (tree_ok (l_fs y) -> ~ active (l_now y - threshold) (l_fs y) (root ++ [fo; re]))
  end.

Lemma active_le cutoff cutoff' fs d : cutoff <= cutoff' -> active cutoff' fs d -> active cutoff fs d.
Proof.
  intros Hle. assert (forall p, Listener.fresh cutoff' fs p -> Listener.fresh cutoff fs p) as Hf.
  { intros p (i & Hi & Ht). exists i. split; [done|lia]. }
  intros [?|(dir & Hd & [?|(n & ?)])]; [left; auto|right; exists dir; split; [done|]..]; [left; auto|right; exists n; auto].
Qed.

Lemma check_checked root threshold y y' d : sweep_check root threshold y y' -> l_doomed y' = Some d -> checked root threshold y d.
Proof.
  intros [seen fs gs cl now cutoff id i Hle Hn Hs Hst|seen fs gs cl now cutoff fo re Hle Hf Hh Hst] [= <-]; cbn.
  - split; [done|]. exists i. split; [done|]. unfold staleMarker in Hst. cbn in Hst. destruct (i_dir i); [done|].
    destruct (decide _); [done|]. split; [done|lia].
  - split; [done|]. split; [done|]. intros Hok Ha. unfold staleDir in Hst. cbn [fst snd] in Hst. destruct (decide _); [done|].
    apply (active_le cutoff), subtreeLastActivity_recent in Ha; [|done|lia]. by rewrite Ha in Hst.
Qed.

(** A doom goes back to a check. *)
Lemma doomed_checked root threshold y0 y d : l_doomed y0 = None -> rtc (lstep root threshold) y0 y -> l_doomed y = Some d ->
  exists y1, rtc (lstep root threshold) y0 y1 /\ rtc (lstep root threshold) y1 y /\ checked root threshold y1 d.
Proof.
  intros H0 Hr. revert y Hr d. refine (rtc_ind_r _ _ _ _); [intros d Hd; congruence|]. intros y z Hr Hst IH d Hd.
  assert (l_doomed y = Some d -> exists y1, rtc (lstep root threshold) y0 y1 /\ rtc (lstep root threshold) y1 z /\ checked root threshold y1 d) as Hkeep.
  { intros (y1 & ? & ? & ?)%IH. exists y1. split_and!; [done| |done]. by eapply rtc_r. }
  pose proof Hst as Hst'. destruct Hst; try (by apply Hkeep); try done.
  - exists y. split; [done|]. split; [by apply rtc_once|]. by eapply check_checked.
  - by match goal with Hx : sweep_remove _ _ _ |- _ => destruct Hx end.
Qed.

Lemma remove_changes root y y' p : sweep_remove root y y' -> Stat p (l_fs y') <> Stat p (l_fs y) ->
  (exists id, l_doomed y = Some (DoomMarker id) /\ p = inboxMarkerPath root id)
  \/ exists fo re, l_doomed y = Some (DoomDir fo re) /\ (root ++ [fo; re])%list `prefix_of` p.
Proof.
  unfold Stat. intros [seen fs gs cl now id|seen fs gs cl now fo re] Hne; cbn in Hne.
  - left. exists id. split; [done|]. destruct (decide (p = inboxMarkerPath root id)); [done|]. by rewrite Remove_lookup in Hne.
  - right. exists fo, re. split; [done|]. rewrite RemoveAll_lookup in Hne. by destruct (decide _).
Qed.

(** Nothing doomed lies under the path of a hashed tunnel that is known. *)
Lemma remove_spares root y y' id p : lsys_inv y -> sweep_remove root y y' -> hashed id -> id ∈ l_seen y ->
  (forall id', l_doomed y = Some (DoomMarker id') -> name_ok id') -> connPath root id `prefix_of` p ->
  Stat p (l_fs y') = Stat p (l_fs y).
Proof.
  intros Hi Hr Hh Hin Hn Hp. destruct (decide (Stat p (l_fs y') = Stat p (l_fs y))) as [|Hne]; [done|exfalso].
  apply (remove_changes root y y' p Hr) in Hne as [(id' & Hd & ->)|(fo & re & Hd & [k2 E])].
  - by apply (connPath_not_marker root id id' _ Hh (Hn _ Hd) (stake_not_inbox id) Hp).
  - apply (li_doom _ Hi _ Hd). cbn. rewrite connPath_hashed in Hp by done. destruct Hp as [k1 ->].
    rewrite <- !app_assoc in E. apply (inj (app root)) in E. injection E as <- <- _. rewrite <- (stake_sdrop hashPrefixLen id) in Hin. exact Hin.
Qed.

(** * The announcement *)

Lemma take_pred_snoc {A} (l : list A) a : take (length (l ++ [a]) - 1) (l ++ [a]) = l.
Proof. rewrite length_app. cbn. by rewrite Nat.add_sub, take_app_length. Qed.

Lemma insert_file_ok fs p n i d : tree_ok fs -> name_ok n -> fs !! p = Some d -> i_dir d = true ->
  (fs !! (p ++ [n])%list = None \/ i_dir i = true \/ exists j, fs !! (p ++ [n])%list = Some j /\ i_dir j = false) ->
  tree_ok (<[(p ++ [n])%list := i]> fs).
Proof.
  intros Hok Hn Hp Hd Hold q m j Hq.
  assert (name_ok m /\ exists k, fs !! q = Some k /\ i_dir k = true) as (Hm & k & Hk & Hkd).
  { apply lookup_insert_Some in Hq as [[E _]|[_ Hq]]; [|by apply Hok in Hq].
    apply app_inj_2 in E as [<- [= <-]]; [eauto|done]. }
  split; [done|]. destruct (decide (q = (p ++ [n])%list)) as [->|Hne].
  - exists i. rewrite lookup_insert_eq. split; [done|]. destruct Hold as [?|[?|(j' & ? & ?)]]; [|done|]; congruence.
  - exists k. by rewrite lookup_insert_ne.
Qed.

Lemma createFile_Some p n now fs fs' : createFile (p ++ [n]) now fs = Some fs' ->
  fs' = <[(p ++ [n])%list := mkInode false now]> fs /\ exists d, fs !! p = Some d /\ i_dir d = true /\
    (fs !! (p ++ [n])%list = None \/ exists j, fs !! (p ++ [n])%list = Some j /\ i_dir j = false).
Proof.
  unfold createFile. rewrite take_pred_snoc. destruct (fs !! p) as [d|]; [|done]. destruct (i_dir d) eqn:Hd; [|done]. cbn.
  destruct (fs !! (p ++ [n])%list) as [j|]; [destruct (i_dir j) eqn:Hj; [done|]|]; intros [= <-]; eauto 10.
Qed.

Lemma createFile_ok p n now fs fs' : tree_ok fs -> name_ok n -> createFile (p ++ [n]) now fs = Some fs' -> tree_ok fs'.
Proof.
  intros Hok Hn (-> & d & Hp & Hd & Ho)%createFile_Some. eapply insert_file_ok; [done..|]. tauto.
Qed.

Lemma mkdirIn_ok p n now fs fs' : tree_ok fs -> name_ok n -> mkdirIn (p ++ [n]) now fs = Some fs' ->
  tree_ok fs' /\ forall q, q <> (p ++ [n])%list -> fs' !! q = fs !! q.
Proof.
  intros Hok Hn. unfold mkdirIn. rewrite take_pred_snoc. destruct (fs !! (p ++ [n])%list) as [i|] eqn:E.
  - destruct (i_dir i); [|done]. by intros [= <-].
  - destruct (fs !! p) as [d|] eqn:Ep; [|done]. destruct (i_dir d) eqn:Hd; [|done]. intros [= <-]. split.
    + eapply insert_file_ok; [done..|]. by left.
    + intros q Hq. by rewrite lookup_insert_ne.
Qed.

Lemma mkdirFrom_ok base rest now fs : tree_ok fs -> Forall name_ok rest -> tree_ok (mkdirFrom base rest now fs).1.
Proof.
  intros Hok Hn. revert base fs Hok. induction Hn as [|n rest Hn _ IH]; intros base fs Hok; [done|]. cbn [mkdirFrom].
  destruct (mkdirIn _ now fs) as [fs'|] eqn:E; [|done]. apply mkdirIn_ok in E as [Hok' _]; [|done..]. by apply IH.
Qed.

(** * What a scan does *)

Lemma children_marker root fs id i : (id, i) ∈ children (root ++ [inboxDirName]) fs
  <-> fs !! (root ++ [inboxDirName; id])%list = Some i.
Proof. by rewrite children_elem, app_two. Qed.

(** The result of a scan, in terms of the files it found. *)
Lemma scanInbox_inv root seen fs : tree_ok fs -> exists entries,
  scan_inv root seen fs entries (scanInbox root seen fs)
  /\ forall id i, (id, i) ∈ entries <-> fs !! (root ++ [inboxDirName; id])%list = Some i.
Proof.
  intros Hok. unfold scanInbox, ReadDir. rewrite inbox_app.
  assert (scan_inv root seen fs [] (seen, fs, [])) as Hnil.
  { split; cbn; [done|set_solver|constructor| | |done].
    - intros id. split; [by intros ?%not_elem_of_nil|]. by intros (_ & _ & i & ?%not_elem_of_nil & _).
    - by intros id i ?%not_elem_of_nil. }
  assert ((forall d, fs !! (root ++ [inboxDirName])%list = Some d -> i_dir d = false) ->
    exists entries, scan_inv root seen fs entries (seen, fs, [])
    /\ forall id i, (id, i) ∈ entries <-> fs !! (root ++ [inboxDirName; id])%list = Some i) as Hnone.
  { intros Hn. exists []. split; [done|]. intros id i. split; [by intros ?%not_elem_of_nil|].
    rewrite <- app_two. intros Hi. destruct (Hok _ _ _ Hi) as (_ & j & Hj & Hd). by rewrite (Hn j Hj) in Hd. }
  destruct (fs !! (root ++ [inboxDirName])%list) as [d|] eqn:Hd; [|by apply Hnone].
  destruct (i_dir d) eqn:Hdd; [|apply Hnone; congruence].
  exists (children (root ++ [inboxDirName]) fs). split; [|apply children_marker].
  apply (scanEntries_inv root seen fs _ []); [apply children_NoDup| |apply children_marker|done].
  apply List.Forall_forall. intros n Hn%list_elem_of_In%list_elem_of_fmap. destruct Hn as ([n' i] & -> & Hc%children_elem).
  by destruct (Hok _ _ _ Hc).
Qed.

Lemma scanInbox_started root seen fs : tree_ok fs ->
  NoDup (scanInbox root seen fs).2 /\ (scanInbox root seen fs).1.1 = seen ∪ list_to_set (scanInbox root seen fs).2
  /\ forall id, id ∈ (scanInbox root seen fs).2
     <-> (id ∉ seen) /\ is_Some (Stat (synPath root id) fs) /\ marker root fs id.
Proof.
  intros Hok. destruct (scanInbox_inv root seen fs Hok) as (es & [_ Hs Hnd Hst _ _] & Hes).
  split; [done|]. split; [done|]. intros id. rewrite Hst. unfold hasFile, marker. by setoid_rewrite Hes.
Qed.

(** Successive polls of the doorbell, each with the view of the files it gets. *)
Fixpoint ticks (root : path) (w : watchState) (seen : gset string) (views : list tree) : gset string * list string :=
  match views with
  | [] => (seen, [])
  | fs :: views =>
      let '(w', (seen', _, started)) := fastTick root w seen fs in
      let '(seen'', started') := ticks root w' seen' views in
      (seen'', (started ++ started')%list)
  end.

(** The scans a poll has left, its own included. *)
Definition budget (root : path) (w : watchState) (fs : tree) : nat :=
  if (changed root fs (wt_bell w)).1 then doorbellRescans else wt_rescans w.

Lemma fastTick_cases root w seen fs :
  (budget root w fs = 0%nat /\ (fastTick root w seen fs).2 = (seen, fs, []))
  \/ ((fastTick root w seen fs).2 = scanInbox root seen fs
      /\ budget root w fs = S (wt_rescans (fastTick root w seen fs).1)).
Proof.
  unfold fastTick, budget. destruct (changed _ _ _) as [[] bell]; cbn; [by right|].
  destruct (wt_rescans w) eqn:E; cbn; [by left|by right].
Qed.

Lemma ticks_cons root w seen fs views : ticks root w seen (fs :: views) =
  let r := (fastTick root w seen fs).2 in
  let t := ticks root (fastTick root w seen fs).1 r.1.1 views in (t.1, (r.2 ++ t.2)%list).
Proof. cbn. destruct (fastTick root w seen fs) as [w' [[seen' ?] st]]. cbn. by destruct (ticks root w' seen' views). Qed.

(** No poll starts a tunnel that is known. *)
Lemma ticks_once root w seen views : Forall tree_ok views ->
  NoDup (ticks root w seen views).2 /\ forall id, id ∈ (ticks root w seen views).2 -> id ∉ seen.
Proof.
  intros Hok. revert w seen. induction Hok as [|fs views Hfs _ IH]; intros w seen; [split; [constructor|set_solver]|].
  rewrite ticks_cons. cbn [fst snd]. specialize (IH (fastTick root w seen fs).1 (fastTick root w seen fs).2.1.1).
  destruct IH as [IH1 IH2]. destruct (fastTick_cases root w seen fs) as [[_ E]|[E _]]; rewrite E in IH1, IH2 |- *; [done|].
  destruct (scanInbox_started root seen fs Hfs) as (Hnd & Hs & Hst). rewrite Hs in IH1, IH2 |- *. split.
  - apply list.NoDup_app. split; [done|]. split; [|done]. intros x Hx Hx'. apply IH2 in Hx'. set_solver.
  - intros id [Hin|Hin]%elem_of_app; [by apply Hst in Hin as [? _]|]. apply IH2 in Hin. set_solver.
Qed.

(** As long as scans are left, a tunnel visible in some poll is started. *)
Lemma ticks_engage root views id : Forall tree_ok views -> (length views <= doorbellRescans)%nat -> forall w seen v,
  (forall fs vs, views = fs :: vs -> length views <= budget root w fs)%nat -> id ∉ seen -> v ∈ views ->
  is_Some (Stat (synPath root id) v) -> marker root v id -> id ∈ (ticks root w seen views).2.
Proof.
  intros Hok. induction Hok as [|fs views Hfs Hok IH]; intros Hlen w seen v Hb Hid Hv Hsyn Hm; [by apply not_elem_of_nil in Hv|].
  rewrite ticks_cons. cbn [fst snd]. apply elem_of_app. specialize (Hb fs views eq_refl). cbn in Hlen, Hb.
  destruct (fastTick_cases root w seen fs) as [[E _]|[E Er]]; [lia|]. rewrite E.
  destruct (scanInbox_started root seen fs Hfs) as (_ & Hs & Hst). rewrite Hs.
  destruct (decide (id ∈ (scanInbox root seen fs).2)) as [|Hn]; [by left|]. right.
  apply elem_of_cons in Hv as [->|Hv]; [by destruct Hn; apply Hst|].
  eapply IH; [lia| |set_solver|done..]. intros fs' vs ->. unfold budget. cbn in *. destruct (changed _ _ _).1; lia.
Qed.

(** ** The claims *)

(** A scan of the inbox engages exactly the tunnels that have a marker, whose
    SYN segment is visible and that are not yet known, each of them once; they
    become known, the markers of known tunnels are removed, and no other file
    changes. *)
Theorem scanInbox_spec root seen fs seen' fs' started : tree_ok fs -> scanInbox root seen fs = (seen', fs', started) ->
  NoDup started /\ seen' = seen ∪ list_to_set started
  /\ (forall id, id ∈ started <-> (id ∉ seen) /\ is_Some (Stat (synPath root id) fs) /\ marker root fs id)
  /\ (forall id, marker root fs id -> id ∈ seen' -> Stat (inboxMarkerPath root id) fs' = None)
  /\ (forall p, (forall id, marker root fs id -> id ∈ seen' -> p <> inboxMarkerPath root id) -> Stat p fs' = Stat p fs).
Proof.
  intros Hok E. destruct (scanInbox_inv root seen fs Hok) as (es & [_ Hs Hnd Hst Hg Hk] & Hes).
  rewrite E in *. cbn [fst snd] in *. split; [done|]. split; [done|]. split; [|split].
  - intros id. rewrite Hst. unfold hasFile, marker. by setoid_rewrite Hes.
  - intros id (i & Hi & Hd) Hin. by apply (Hg id i); [apply Hes| |].
  - intros p Hp. apply Hk. intros id i Hi%Hes Hd Hin. apply Hp; [by exists i|done].
Qed.

(** An initiator that wrote its SYN, dropped its marker and rang the doorbell is
    engaged within the [doorbellRescans] polls a ring is good for, and once only,
    if in one of them the acceptor's view of the files shows both marker and SYN:
    the views after the first may be anything, as stale listings are. *)
Theorem arrival_engaged root id now fs fs1 fs2 w seen views v :
  tree_ok fs -> Forall name_ok root -> name_ok id -> writeInboxMarker root id now fs = (fs1, true) -> ringDoorbell root now fs1 = Some fs2 ->
  d_seen (wt_bell w) = false \/ d_mtimeNanos (wt_bell w) <> now -> id ∉ seen ->
  (length views < doorbellRescans)%nat -> Forall tree_ok views -> v ∈ announce root id now fs :: views ->
  is_Some (Stat (synPath root id) v) -> marker root v id ->
  let started := (ticks root w seen (announce root id now fs :: views)).2 in id ∈ started /\ NoDup started.
Proof.
  intros Hok Hroot Hid Hw Hr Hb Hn Hlen Hvs Hv Hsyn Hm.
  assert (announce root id now fs = fs2) as Ea by (unfold announce; rewrite Hw; by rewrite Hr).
  rewrite Ea in *. unfold writeInboxMarker in Hw. rewrite inbox_app in Hw.
  assert (Forall name_ok (root ++ [inboxDirName])) as Hin by (apply Forall_app; split; [done|constructor; [by repeat split|constructor]]).
  pose proof (mkdirFrom_ok [] _ now fs Hok Hin) as Hok0. fold (MkdirAll (root ++ [inboxDirName]) now fs) in Hok0.
  destruct (MkdirAll _ now fs) as [fs0 []]; [|done]. cbn [fst negb] in Hok0, Hw. destruct (createFile _ now fs0) as [fs3|] eqn:E0; [|done]. injection Hw as ->.
  rewrite markerPath_app, <- app_two in E0 by done. apply createFile_ok in E0 as Hw; [|done..].
  unfold ringDoorbell in Hr. rewrite Join_names in Hr by (constructor; [by repeat split|constructor]).
  assert (name_ok doorbellName) as Hdb by (by repeat split).
  pose proof (createFile_ok _ _ _ _ _ Hw Hdb Hr) as Hok2.
  apply createFile_Some in Hr as [E2 _].
  assert (Forall tree_ok (fs2 :: views)) as Hall by (by constructor). split; [|by apply ticks_once].
  eapply ticks_engage; [done|cbn; lia| |done..]. intros ? ? [= <- <-]. unfold budget.
  assert ((changed root fs2 (wt_bell w)).1 = true) as ->; [|cbn; lia].
  unfold changed, Stat. rewrite Join_names by (constructor; [by repeat split|constructor]).
  rewrite E2, lookup_insert_eq. cbn. destruct Hb as [->|Hb%Z.eqb_neq]; [done|].
  rewrite Z.eqb_sym, Hb. by rewrite orb_true_r.
Qed.

(** C22: no tunnel is accepted twice. In every state of a listener, under any
    interleaving of its scans and sweeps, the goroutines of its tunnels and changes by
    peers, no two running goroutines are responsible for one tunnel, and the tunnel of a
    running goroutine is known, so that scans leave it alone. While the listener is open
    the tunnels known are exactly those of running goroutines: when a goroutine is
    done with its tunnel, the tunnel can be accepted again. *)
Theorem listener_single_accept root threshold fs now y id : rtc (lstep root threshold) (lstart fs now) y ->
  (forall k k' g g', l_gs y !! k = Some g -> l_gs y !! k' = Some g' -> owns g = Some id -> owns g' = Some id -> k = k')
  /\ ((exists k g, l_gs y !! k = Some g /\ owns g = Some id) -> id ∈ l_seen y)
  /\ (l_closed y = false -> id ∈ l_seen y -> exists k g, l_gs y !! k = Some g /\ owns g = Some id).
Proof.
  intros [H1 H2 H3 _]%reachable_inv. split; [intros; by eapply H3|]. split; [|apply H1].
  intros (k & g & Hk & Hg). by eapply H2.
Qed.

(** C23: what the age sweep removes, with goroutines, peers and the clock free to move
    between its check and its removal. The files of an engaged tunnel stay, its id
    being longer than two characters, as newConnID makes them. Whatever is removed is
    the marker of a tunnel that is not engaged and was older than the threshold when it
    was checked, or lies in a work directory whose name is that of no engaged tunnel and
    in which, when it was checked, nothing had changed within the threshold. *)
Theorem ageSweep_spares root threshold fs0 now0 y y' : rtc (lstep root threshold) (lstart fs0 now0) y -> sweep_remove root y y' ->
  (forall k g id p, l_gs y !! k = Some g -> owns g = Some id -> hashed id -> connPath root id `prefix_of` p ->
    Stat p (l_fs y') = Stat p (l_fs y))
  /\ (forall p, Stat p (l_fs y') <> Stat p (l_fs y) ->
    exists y1, rtc (lstep root threshold) (lstart fs0 now0) y1 /\ rtc (lstep root threshold) y1 y
      /\ ((exists id i, p = inboxMarkerPath root id /\ (id ∉ l_seen y)
             /\ Stat p (l_fs y1) = Some i /\ i_dir i = false /\ i_mtime i < l_now y1 - threshold)
          \/ exists fo re, (root ++ [fo; re])%list `prefix_of` p /\ fo <> inboxDirName /\ (fo +:+ re ∉ l_seen y)
             /\ (tree_ok (l_fs y1) -> ~ active (l_now y1 - threshold) (l_fs y1) (root ++ [fo; re])))).
Proof.
  intros Hr Hs. pose proof (reachable_inv _ _ _ _ _ Hr) as Hi.
  pose proof (fun d => doomed_checked root threshold (lstart fs0 now0) y d eq_refl Hr) as Hc. split.
  - intros k g id p Hk Hg Hh Hp. eapply remove_spares; [done..|by eapply li_own| |done].
    by intros id' (y1 & _ & _ & ? & _)%Hc.
  - intros p Hne. destruct (remove_changes root y y' p Hs Hne) as [(id & Hd & ->)|(fo & re & Hd & Hp)];
      destruct (Hc _ Hd) as (y1 & H1 & H2 & Hck); exists y1; (split; [done|]; split; [done|]); pose proof (li_doom _ Hi _ Hd) as Hn.
    + left. destruct Hck as (_ & i & ? & ? & ?). by exists id, i.
    + right. destruct Hck as (? & _ & ?). by exists fo, re.
Qed.

(** The sweep read without interruption is a run of these steps. *)
Lemma sweepDir_steps root threshold cutoff seen fs gs cl now d : cutoff <= now - threshold -> d.1 <> inboxDirName ->
  HasPrefix d.1 "." = false -> rtc (lstep root threshold) (mkLsys seen fs gs None cl now)
    (mkLsys seen (sweepDir root seen cutoff fs d) gs None cl now).
Proof.
  intros Hle H1 H2. unfold sweepDir. destruct (staleDir root seen cutoff fs d) eqn:E; [|done]. destruct d as [fo re].
  eapply rtc_l; [apply ls_check; by eapply (sc_dir _ _ _ _ _ _ _ cutoff fo re)|]. apply rtc_once, ls_remove. apply sr_dir.
Qed.

(** * An example *)

(** [tree_ok], decided. *)
Definition name_okb (n : string) : bool := negb (String.eqb n "" || String.eqb n "." || String.eqb n "..").

Definition tree_okb (fs : tree) : bool :=
  forallb (fun e : path * inode => match list.last e.1 with
                    | None => true
                    | Some n => name_okb n && match fs !! take (length e.1 - 1) e.1 with
                                              | Some j => i_dir j | None => false end
                    end) (map_to_list fs).

Lemma tree_okb_sound fs : tree_okb fs = true -> tree_ok fs.
Proof.
  intros H p n i Hp. unfold tree_okb in H. rewrite forallb_forall in H.
  specialize (H ((p ++ [n])%list, i)). cbn [fst snd] in H. rewrite last_snoc, take_pred_snoc in H.
  apply andb_prop in H as [Hn Hd]; [|by apply list_elem_of_In, elem_of_map_to_list]. split.
  - unfold name_okb in Hn. apply negb_true_iff, orb_false_iff in Hn as [[H1 H2]%orb_false_iff H3].
    by apply String.eqb_neq in H1, H2, H3.
  - destruct (fs !! p) as [j|]; [by exists j|done].
Qed.

Definition exRoot : path := ["srv"].
Definition exFiles : tree :=
  list_to_map [([], mkInode true 1); (["srv"], mkInode true 1); (["srv"; "ab"], mkInode true 1);
               (["srv"; "ab"; "cd"], mkInode true 1); (["srv"; "ab"; "cd"; "c2s"], mkInode true 2);
               (["srv"; "ab"; "cd"; "c2s"; segName 0], mkInode false 3)].

(** The initiator of ["abcd"] announced itself at time 4. *)
Definition exRung : tree := announce exRoot "abcd" 4 exFiles.

Lemma exFiles_ok : tree_ok exFiles.
Proof. apply tree_okb_sound. vm_compute. reflexivity. Qed.

Lemma exRung_ok : tree_ok exRung.
Proof. apply tree_okb_sound. vm_compute. reflexivity. Qed.

(** A clock of 1000, a threshold of 10. The listener once it engaged the tunnel and its
    handshake succeeded. *)
Definition exSys (seen : gset string) (fs : tree) (gs : gmap nat goroutine) (dm : option doom) : lsys := mkLsys seen fs gs dm false 1000.

Definition exGs : gmap nat goroutine := <[1%nat := GWait "abcd"]> (<[0%nat := GDeliver "abcd"]> (<[0%nat := GHandshake "abcd"]> ∅)).
Definition exEngaged : lsys := exSys ({["abcd"]} ∪ ∅) exFiles exGs None.

Lemma exEngaged_reachable : rtc (lstep exRoot 10) (lstart exFiles 1000) exEngaged.
Proof.
  eapply rtc_l; [apply (ls_startup_accept _ _ _ _ _ _ _ ("ab", "cd") ({["abcd"]} ∪ ∅) "abcd" 0%nat); [vm_compute|]; reflexivity|].
  eapply rtc_l; [by apply (ls_established _ _ _ _ _ _ _ _ 0%nat "abcd" 1%nat)|]. apply rtc_refl.
Qed.

(** A crashed peer left [ab/ef]; the sweep dooms it. *)
Definition exResidue : tree := <[["srv"; "ab"; "ef"] := mkInode true 5]> exFiles.

Lemma exDoomed_reachable : rtc (lstep exRoot 10) (lstart exFiles 1000) (exSys ({["abcd"]} ∪ ∅) exResidue exGs (Some (DoomDir "ab" "ef"))).
Proof.
  eapply rtc_r; [eapply rtc_r; [exact exEngaged_reachable|apply ls_peer]|]. apply ls_check.
  apply (sc_dir _ _ _ _ _ _ _ 990); [lia|done..|vm_compute; reflexivity].
Qed.

Lemma exScan : scanInbox exRoot ∅ exRung = ({["abcd"]} ∪ ∅, delete ["srv"; "inbox"; "abcd"] exRung, ["abcd"]).
Proof. apply (bool_decide_unpack _). vm_compute. exact I. Qed.

Lemma exMarker : marker exRoot exRung "abcd".
Proof. exists (mkInode false 4). split; vm_compute; reflexivity. Qed.

Lemma exSyn : Stat (synPath exRoot "abcd") exRung = Some (mkInode false 3).
Proof. vm_compute. reflexivity. Qed.

Lemma some_default {A} (o : option A) (d : A) : match o with Some _ => true | None => false end = true -> o = Some (default d o).
Proof. by destruct o. Qed.

Definition exMarked : tree := (writeInboxMarker exRoot "abcd" 4 exFiles).1.

Lemma exMarked_ok : writeInboxMarker exRoot "abcd" 4 exFiles = (exMarked, true).
Proof. unfold exMarked. rewrite (surjective_pairing (writeInboxMarker _ _ _ _)) at 1. f_equal; vm_compute; reflexivity. Qed.

Lemma exRing_ok : ringDoorbell exRoot 4 exMarked = Some (default ∅ (ringDoorbell exRoot 4 exMarked)).
Proof. apply some_default. vm_compute. reflexivity. Qed.

Lemma scanInbox_spec_witness : exists fs', scanInbox exRoot ∅ exRung = ({["abcd"]} ∪ ∅, fs', ["abcd"])
  /\ Stat (inboxMarkerPath exRoot "abcd") fs' = None.
Proof.
  eexists. split; [exact exScan|].
  apply (scanInbox_spec exRoot ∅ exRung _ _ _ exRung_ok exScan); [exact exMarker|set_solver].
Defined.

Lemma arrival_engaged_witness :
  let started := (ticks exRoot (mkWatch (mkBell 0 false) 0) ∅ [announce exRoot "abcd" 4 exFiles; exFiles]).2 in
  "abcd" ∈ started /\ NoDup started.
Proof.
  apply (arrival_engaged exRoot "abcd" 4 exFiles exMarked (default ∅ (ringDoorbell exRoot 4 exMarked)) (mkWatch (mkBell 0 false) 0) ∅ [exFiles]
    (announce exRoot "abcd" 4 exFiles) exFiles_ok); [by repeat constructor|by repeat split|exact exMarked_ok|exact exRing_ok|by left|
    set_solver|cbn; unfold doorbellRescans; lia|constructor; [exact exFiles_ok|constructor]|by left| |exact exMarker].
  exists (mkInode false 3). exact exSyn.
Defined.

Lemma listener_single_accept_witness : exists k g, l_gs exEngaged !! k = Some g /\ owns g = Some "abcd".
Proof.
  apply (listener_single_accept exRoot 10 exFiles 1000 exEngaged "abcd" exEngaged_reachable); [reflexivity|set_solver].
Defined.

Lemma ageSweep_spares_witness : exists y', sweep_remove exRoot (exSys ({["abcd"]} ∪ ∅) exResidue exGs (Some (DoomDir "ab" "ef"))) y'
  /\ Stat ["srv"; "ab"; "ef"] (l_fs y') = None /\ Stat (synPath exRoot "abcd") (l_fs y') = Some (mkInode false 3).
Proof.
  eexists. assert (sweep_remove exRoot (exSys ({["abcd"]} ∪ ∅) exResidue exGs (Some (DoomDir "ab" "ef"))) _) as Hs by apply sr_dir.
  split; [exact Hs|]. split; [vm_compute; reflexivity|].
  rewrite (proj1 (ageSweep_spares exRoot 10 exFiles 1000 _ _ exDoomed_reachable Hs) 1%nat (GWait "abcd") "abcd");
    [vm_compute; reflexivity|vm_compute; reflexivity|done| |].
  - repeat split; try done. cbn. unfold hashPrefixLen. lia.
  - rewrite synPath_app. by apply prefix_app_r.
Defined.

(** The work subtree of an id of two characters is [root/ab]: the sweep takes its
    [c2s] for the tunnel ["abc2s"], which is not engaged, and removes it. *)
Definition exShort : tree :=
  list_to_map [([], mkInode true 1); (["srv"], mkInode true 1); (["srv"; "ab"], mkInode true 1);
               (["srv"; "ab"; "c2s"], mkInode true 2); (["srv"; "ab"; "c2s"; segName 0], mkInode false 3);
               (["srv"; "inbox"], mkInode true 1); (["srv"; "inbox"; "ab"], mkInode false 1)].

Theorem short_id_swept : exists y y', rtc (lstep exRoot 10) (lstart exShort 1000) y /\ l_seen y = {["ab"]} ∪ ∅
  /\ l_gs y !! 1%nat = Some (GWait "ab") /\ rtc (lstep exRoot 10) y y'
  /\ is_Some (Stat (synPath exRoot "ab") (l_fs y)) /\ Stat (synPath exRoot "ab") (l_fs y') = None.
Proof.
  destruct (scanEntry exRoot (∅, exShort, []) ("ab", mkInode false 1)) as [[seen fs] st] eqn:E.
  assert (seen = {["ab"]} ∪ ∅ /\ fs = delete ["srv"; "inbox"; "ab"] exShort /\ st = ["ab"]) as (-> & -> & ->).
  { split_and!; [replace seen with (seen, fs, st).1.1 by done|replace fs with (seen, fs, st).1.2 by done
      |replace st with (seen, fs, st).2 by done]; rewrite <- E; apply (bool_decide_unpack _); vm_compute; exact I. }
  eexists (exSys _ _ (<[1%nat := GWait "ab"]> (<[0%nat := GDeliver "ab"]> _)) None), _. split_and!.
  - eapply rtc_l; [by eapply (ls_scan_accept _ _ _ _ _ _ _ _ _ _ _ 0%nat)|]. apply rtc_once.
    by apply (ls_established _ _ _ _ _ _ _ _ 0%nat "ab" 1%nat).
  - done.
  - vm_compute. reflexivity.
  - apply (sweepDir_steps _ _ 990 _ _ _ _ _ ("ab", "c2s")); [lia|done..].
  - eexists. vm_compute. reflexivity.
  - vm_compute. reflexivity.
Qed.
