(* ===== verification/DialTree.v ===== *)
(** Dialing through the file system (dial.go, newConnID): the names of conn ids, and
    what any number of concurrent [Dial]s do to the tree under the root while they
    open, announce, wait and, when they fail, clean up, and the acceptor makes and
    removes files of its own. *)

From stdpp Require Import base gmap list strings numbers.
From Stdlib Require Import ZArith Lia Ascii.
From Stdlib.Strings Require Import Byte.
From S2P Require Import Prelude GoStr Frame FsConfig SegLog Listener.

#[local] Open Scope string_scope.
#[local] Open Scope Z_scope.

(** * Conn ids *)

(** [hex.EncodeToString]. *)
Definition hextable : string := "0123456789abcdef".
Definition hexChar (v : N) : ascii := default "0"%char (String.get (N.to_nat v) hextable).

Fixpoint EncodeToString (bs : list byte) : string :=
  match bs with
  | [] => ""
  | b :: bs => String (hexChar (N.shiftr (Byte.to_N b) 4)) (String (hexChar (N.land (Byte.to_N b) 15)) (EncodeToString bs))
  end.

Definition connIDLen : nat := 16.

(** [newConnID]; [rand] is what [rand.Read] filled in, [None] when it failed. *)
Definition newConnID (rand : option (list byte)) : option string := EncodeToString <$> rand.

(** ** Their names *)

Definition hexVal (c : ascii) : option N :=
  let n := N_of_ascii c in
  if ((48 <=? n) && (n <=? 57))%N then Some (n - 48)%N else if ((97 <=? n) && (n <=? 102))%N then Some (n - 87)%N else None.

(** The bytes a hexadecimal text stands for. *)
Fixpoint unhex (s : string) : list byte :=
  match s with
  | String a (String b s) =>
      match hexVal a, hexVal b with
      | Some x, Some y => default x00 (Byte.of_N (16 * x + y)) :: unhex s
      | _, _ => []
      end
  | _ => []
  end.

Definition isHex (c : ascii) : bool := match hexVal c with Some _ => true | None => false end.
Definition hexString (s : string) : bool := forallb isHex (chars s).

Lemma unhex_Encode bs : unhex (EncodeToString bs) = bs.
Proof. induction bs as [|b bs IH]; [done|]. cbn [EncodeToString unhex]. rewrite IH. by destruct b. Qed.

Lemma Encode_hex bs : hexString (EncodeToString bs) = true.
Proof.
  unfold hexString. induction bs as [|b bs IH]; [done|]. cbn [EncodeToString chars forallb]. rewrite IH. by destruct b.
Qed.

Lemma Encode_length bs : String.length (EncodeToString bs) = (2 * length bs)%nat.
Proof. induction bs as [|b bs IH]; [done|]. cbn. rewrite IH. lia. Qed.

Lemma hex_name s : hexString s = true -> s <> "" -> name_ok s.
Proof. intros Hh Hne. split; [done|]. split; intros ->; vm_compute in Hh; congruence. Qed.

Lemma hex_stake n s : hexString s = true -> hexString (stake n s) = true.
Proof.
  unfold hexString. revert s. induction n as [|n IH]; intros [|c s]; cbn; try done. intros [-> Hs]%andb_true_iff. by apply IH.
Qed.

Lemma hex_sdrop n s : hexString s = true -> hexString (sdrop n s) = true.
Proof.
  unfold hexString. revert s. induction n as [|n IH]; intros [|c s]; cbn; try done. intros [_ Hs]%andb_true_iff. by apply IH.
Qed.

(** What a conn id is, for the rest of the transport: a proper name that hashes into
    the work tree. *)
Definition conn_id (id : string) : Prop := exists bs, length bs = connIDLen /\ newConnID (Some bs) = Some id.

Lemma conn_id_hashed id : conn_id id -> hashed id /\ name_ok id.
Proof.
  intros (bs & Hl & [= <-]). pose proof (Encode_hex bs) as Hh. pose proof (Encode_length bs) as Hn. rewrite Hl in Hn. cbn in Hn.
  assert (EncodeToString bs <> "") as Hne by (intros E; rewrite E in Hn; cbn in Hn; lia).
  split; [|by apply hex_name]. unfold hashed. split_and!.
  - apply hex_name; [by apply hex_stake|]. unfold hashPrefixLen. by destruct (EncodeToString bs).
  - apply hex_name; [by apply hex_sdrop|]. intros E. apply (f_equal String.length) in E. rewrite sdrop_length, Hn in E. cbn in E. lia.
  - rewrite Hn. unfold hashPrefixLen. lia.
Qed.

Lemma newConnID_inj bs bs' : newConnID (Some bs) = newConnID (Some bs') -> bs = bs'.
Proof. cbn. intros [= E]. by rewrite <- (unhex_Encode bs), E, unhex_Encode. Qed.

(** * The steps of a dial *)

(** Where [Dial] is. *)
Inductive dialPc :=
| DMkdir                       (* newSegWriter: the directory *)
| DSyn                         (* its first segment, and the SYN *)
| DMark                        (* writeInboxMarker *)
| DRing                        (* ringDoorbell *)
| DWait                        (* waitSYN, and the version check *)
| DRemoveAll                   (* the clean-up of a failed dial *)
| DRemoveMark
| DReturned (ok : bool).

Record dialer := mkDialer { dl_id : string; dl_pc : dialPc }.

(** [Dial] up to [handshake]: no file is touched unless the configuration and the
    random source are good. *)
Definition fsDial (detected : bool) (cfg : Config) (rand : option (list byte)) : option dialer :=
  match resolve detected cfg with
  | Err _ => None
  | Ok _ => match newConnID rand with None => None | Some connID => Some (mkDialer connID DMkdir) end
  end.

Section dial.
Context (root : path).

(** The two directions, as [role.sendDir] names them: the initiator's and the acceptor's. *)
Definition sendPath (id : string) : path := (connPath root id ++ ["c2s"])%list.
Definition recvPath (id : string) : path := (connPath root id ++ ["s2c"])%list.

(** One step of a dial; any system call may fail. Once established, its connection makes
    and unlinks segments of its own direction. *)
Inductive dlStep (id : string) : dialPc -> tree -> dialPc -> tree -> Prop :=
| dl_mkdir fs fs' now : MkdirAll (sendPath id) now fs = (fs', true) -> dlStep id DMkdir fs DSyn fs'
| dl_mkdir_fail fs k now : dlStep id DMkdir fs DRemoveAll (MkdirAll (take k (sendPath id)) now fs).1
| dl_syn fs fs' now : createFile (synPath root id) now fs = Some fs' -> dlStep id DSyn fs DMark fs'
| dl_syn_unwritten fs fs' now : createFile (synPath root id) now fs = Some fs' -> dlStep id DSyn fs DRemoveAll fs'
| dl_syn_fail fs : dlStep id DSyn fs DRemoveAll fs
| dl_mark fs fs' now : writeInboxMarker root id now fs = (fs', true) -> dlStep id DMark fs DRing fs'
| dl_mark_fail fs k now : dlStep id DMark fs DWait (MkdirAll (take k (Join root [inboxDirName])) now fs).1
| dl_ring fs fs' now : ringDoorbell root now fs = Some fs' -> dlStep id DRing fs DWait fs'
| dl_ring_fail fs : dlStep id DRing fs DWait fs
| dl_established fs : dlStep id DWait fs (DReturned true) fs
| dl_wait_fail fs : dlStep id DWait fs DRemoveAll fs
| dl_removeAll fs : dlStep id DRemoveAll fs DRemoveMark (RemoveAll (connPath root id) fs)
| dl_removeMark fs : dlStep id DRemoveMark fs (DReturned false) (Remove (inboxMarkerPath root id) fs)
| dl_segment fs fs' n now : createFile (sendPath id ++ [n])%list now fs = Some fs' -> dlStep id (DReturned true) fs (DReturned true) fs'
| dl_unlink fs n : dlStep id (DReturned true) fs (DReturned true) (Remove (sendPath id ++ [n])%list fs).

(** One step of the acceptor (listen.go, and handshake for its role): it removes a
    marker, makes its direction of a tunnel and segments in it, unlinks those, and removes
    a whole subtree, by [reapWhenDone] or the age sweep; which one, if it does. *)
Inductive acStep : tree -> option path -> tree -> Prop :=
| ac_unmark fs id : conn_id id -> acStep fs None (Remove (inboxMarkerPath root id) fs)
| ac_mkdir fs id k now : conn_id id -> acStep fs None (MkdirAll (take k (recvPath id)) now fs).1
| ac_segment fs id n now fs' : conn_id id -> createFile (recvPath id ++ [n])%list now fs = Some fs' -> acStep fs None fs'
| ac_unlink fs id n : conn_id id -> acStep fs None (Remove (recvPath id ++ [n])%list fs)
| ac_reap fs id : conn_id id -> acStep fs (Some (connPath root id)) (RemoveAll (connPath root id) fs)
| ac_sweep fs fo re : fo <> inboxDirName -> acStep fs (Some (root ++ [fo; re])%list) (RemoveAll (root ++ [fo; re])%list fs).

(** Any number of dials and the acceptor, with the subtrees that one has removed. A new
    conn id is random: no other dial has it, and nothing bears its name yet. *)
Record dialSys := mkDials { ds_fs : tree; ds_dialers : gmap nat dialer; ds_removed : list path }.

Definition logged (r : option path) (rm : list path) : list path := match r with Some p => p :: rm | None => rm end.

Inductive dsStep : dialSys -> dialSys -> Prop :=
| ds_dial fs ds rm k detected cfg rand d : ds !! k = None -> length rand = connIDLen -> fsDial detected cfg (Some rand) = Some d ->
    (forall j e, ds !! j = Some e -> dl_id e <> dl_id d) -> (forall p, inboxMarkerPath root (dl_id d) `prefix_of` p -> fs !! p = None) ->
    dsStep (mkDials fs ds rm) (mkDials fs (<[k := d]> ds) rm)
| ds_run fs ds rm k id pc fs' pc' : ds !! k = Some (mkDialer id pc) -> dlStep id pc fs pc' fs' ->
    dsStep (mkDials fs ds rm) (mkDials fs' (<[k := mkDialer id pc']> ds) rm)
| ds_acceptor fs ds rm r fs' : acStep fs r fs' -> dsStep (mkDials fs ds rm) (mkDials fs' ds (logged r rm)).

(** * What a dial leaves alone *)

(** What belongs to the dial of [id] alone. *)
Definition own (id : string) (p : path) : Prop := connPath root id `prefix_of` p \/ inboxMarkerPath root id `prefix_of` p.

Lemma mkdirIn_lookup p now fs fs' q : mkdirIn p now fs = Some fs' -> q <> p -> fs' !! q = fs !! q.
Proof.
  unfold mkdirIn. intros E Hq. destruct (fs !! p) as [i|]; [destruct (i_dir i); by simplify_eq|].
  destruct (fs !! _) as [d|]; [|done]. destruct (i_dir d); [|done]. simplify_eq. by rewrite lookup_insert_ne.
Qed.

Lemma createFile_lookup p now fs fs' q : createFile p now fs = Some fs' -> q <> p -> fs' !! q = fs !! q.
Proof.
  unfold createFile. intros E Hq. destruct (fs !! _) as [d|]; [|done]. destruct (negb _); [done|].
  destruct (fs !! p) as [i|]; [destruct (i_dir i); [done|]|]; simplify_eq; by rewrite lookup_insert_ne.
Qed.

(** Making directories touches only what leads to the new one. *)
Lemma mkdirFrom_lookup base rest now fs q : ~ q `prefix_of` (base ++ rest)%list -> (mkdirFrom base rest now fs).1 !! q = fs !! q.
Proof.
  revert base fs. induction rest as [|n rest IH]; intros base fs Hq; [done|]. cbn [mkdirFrom].
  destruct (mkdirIn _ now fs) as [fs'|] eqn:E; [|done]. rewrite IH by (by rewrite <- app_assoc).
  eapply mkdirIn_lookup; [exact E|]. intros ->. apply Hq. exists rest. by rewrite <- app_assoc.
Qed.

Lemma MkdirAll_lookup p now fs q : ~ q `prefix_of` p -> (MkdirAll p now fs).1 !! q = fs !! q.
Proof. apply (mkdirFrom_lookup [] p). Qed.

Lemma own_inv id p : conn_id id -> own id p ->
  exists k, p = (root ++ [stake hashPrefixLen id; sdrop hashPrefixLen id] ++ k)%list \/ p = (root ++ [inboxDirName; id] ++ k)%list.
Proof.
  intros [Hh Hn]%conn_id_hashed [[k ->]|[k ->]]; exists k; [left|right].
  - by rewrite connPath_hashed, <- app_assoc.
  - by rewrite markerPath_app, <- app_assoc.
Qed.

Lemma conn_id_split id id' : stake hashPrefixLen id = stake hashPrefixLen id' -> sdrop hashPrefixLen id = sdrop hashPrefixLen id' -> id = id'.
Proof. intros E1 E2. by rewrite <- (stake_sdrop hashPrefixLen id), E1, E2, stake_sdrop. Qed.

(** Two names below the root tell paths apart. *)
Lemma two_names (a b a' b' : string) k k' : (root ++ [a; b] ++ k)%list = (root ++ [a'; b'] ++ k')%list -> a = a' /\ b = b'.
Proof. intros E. apply (inj (app root)) in E. by inversion E. Qed.

(** What is one dial's own is no other's, and no directory another has to make. *)
Lemma own_disjoint id id' p : conn_id id -> conn_id id' -> id <> id' -> own id p -> own id' p -> False.
Proof.
  intros Hid Hid' Hne [k Hp]%own_inv [k' Hp']%own_inv; [|done..]. pose proof (stake_not_inbox id). pose proof (stake_not_inbox id').
  destruct Hp as [-> | ->], Hp' as [E|E]; apply two_names in E as [E1 E2]; try congruence.
  by apply Hne, conn_id_split.
Qed.

Lemma own_not_leading id id' p : conn_id id -> conn_id id' -> id <> id' -> own id' p -> ~ p `prefix_of` sendPath id.
Proof.
  intros Hid Hid' Hne [k' Hp]%own_inv [k E]; [|done]. unfold sendPath in E.
  rewrite connPath_hashed, <- app_assoc in E by (by apply conn_id_hashed). pose proof (stake_not_inbox id).
  destruct Hp as [-> | ->]; rewrite <- !app_assoc in E;
    apply (two_names _ _ _ _ ["c2s"]) in E as [E1 E2]; try congruence. by apply Hne, conn_id_split.
Qed.

Lemma own_deep id p : conn_id id -> own id p -> (length root + 2 <= length p)%nat.
Proof. intros Hid [k [-> | ->]]%own_inv; [..|done]; rewrite !length_app; cbn; lia. Qed.

Lemma own_not_above id p n : conn_id id -> own id p -> name_ok n -> ~ p `prefix_of` Join root [n].
Proof.
  intros Hid Ho Hn Hp%prefix_length. apply own_deep in Ho; [|done]. rewrite Join_names, length_app in Hp by (by constructor). cbn in Hp. lia.
Qed.

Lemma own_not_shared id p n : conn_id id -> own id p -> name_ok n -> p <> Join root [n].
Proof. intros Hid Ho Hn ->. by eapply own_not_above. Qed.

Lemma syn_own id : own id (synPath root id).
Proof. left. rewrite synPath_app. by eexists. Qed.

Lemma marker_own id : own id (inboxMarkerPath root id).
Proof. by right. Qed.

(** Announcing touches the dial's own marker, the inbox and the doorbell. *)
Lemma mark_lookup id now fs fs' ok q : writeInboxMarker root id now fs = (fs', ok) -> ~ q `prefix_of` Join root [inboxDirName] ->
  q <> inboxMarkerPath root id -> fs' !! q = fs !! q.
Proof.
  unfold writeInboxMarker. intros E H1 H2. pose proof (MkdirAll_lookup _ now fs _ H1) as Hm.
  destruct (MkdirAll _ now fs) as [fs1 []]; cbn [negb fst] in *; [|by simplify_eq].
  destruct (createFile _ now fs1) as [fs2|] eqn:E2; simplify_eq; [by rewrite (createFile_lookup _ _ _ _ _ E2 H2)|done].
Qed.

Lemma mkdirSome_lookup k now fs q : ~ q `prefix_of` Join root [inboxDirName] ->
  (MkdirAll (take k (Join root [inboxDirName])) now fs).1 !! q = fs !! q.
Proof. intros Hq. apply MkdirAll_lookup. intros Hp. apply Hq. etrans; [exact Hp|]. apply prefix_take. Qed.

(** The step of a dial leaves alone what is another's. *)
Lemma dlStep_frame id id' pc fs pc' fs' q : dlStep id pc fs pc' fs' -> conn_id id -> conn_id id' -> id <> id' -> own id' q ->
  fs' !! q = fs !! q.
Proof.
  intros Hst Hid Hid' Hne Ho. pose proof (own_disjoint id id' q Hid Hid' Hne) as Hd.
  pose proof (own_not_leading id id' q Hid Hid' Hne Ho) as Hl.
  assert (q <> synPath root id) as Hsyn by (intros ->; apply Hd; [apply syn_own|done]).
  assert (q <> inboxMarkerPath root id) as Hmk by (intros ->; apply Hd; [apply marker_own|done]).
  assert (~ q `prefix_of` Join root [inboxDirName]) as Hin by (eapply own_not_above; [exact Hid'|done|by repeat split]).
  assert (q <> Join root [doorbellName]) as Hb by (eapply own_not_shared; [exact Hid'|done|by repeat split]).
  assert (forall n, q <> (sendPath id ++ [n])%list) as Hseg.
  { intros n ->. apply Hd; [left; unfold sendPath; rewrite <- app_assoc; by eexists|done]. }
  destruct Hst as [fs fs' now E|fs k now|fs fs' now E|fs fs' now E|fs|fs fs' now E|fs k now|fs fs' now E|fs|fs|fs|fs|fs|fs fs' n now E|fs n]; try done.
  - apply (f_equal fst) in E. cbn in E. subst fs'. by apply MkdirAll_lookup.
  - apply MkdirAll_lookup. intros Hp. apply Hl. etrans; [exact Hp|]. apply prefix_take.
  - by eapply createFile_lookup.
  - by eapply createFile_lookup.
  - by eapply mark_lookup.
  - by apply mkdirSome_lookup.
  - by eapply createFile_lookup.
  - rewrite RemoveAll_lookup. destruct (decide _); [|done]. exfalso. apply Hd; [by left|done].
  - by apply Remove_lookup.
  - by eapply createFile_lookup.
  - by apply Remove_lookup.
Qed.

(** * Invariant *)

Definition isFile (fs : tree) (p : path) : Prop := exists i, fs !! p = Some i /\ i_dir i = false.

(** What the tree holds of a dial: its SYN from the moment it is written until it
    returns or cleans up, unless the acceptor removed the subtree; nothing of its
    direction once it cleaned up; its marker is a file, if it is there. *)
Definition dial_at (rm : list path) (fs : tree) (d : dialer) : Prop :=
  match dl_pc d with
  | DMkdir | DSyn | DRemoveAll | DReturned true => True
  | DMark | DRing | DWait => connPath root (dl_id d) ∈ rm \/ isFile fs (synPath root (dl_id d))
  | DRemoveMark | DReturned false => forall p, sendPath (dl_id d) `prefix_of` p -> fs !! p = None
  end
  /\ (dl_pc d = DReturned false -> fs !! inboxMarkerPath root (dl_id d) = None)
  /\ (forall p n, inboxMarkerPath root (dl_id d) `prefix_of` p -> fs !! (p ++ [n])%list = None).

Record dials_inv (y : dialSys) : Prop := {
  di_ids k d : ds_dialers y !! k = Some d -> conn_id (dl_id d);
  di_distinct k k' d d' : ds_dialers y !! k = Some d -> ds_dialers y !! k' = Some d' -> dl_id d = dl_id d' -> k = k';
  di_at k d : ds_dialers y !! k = Some d -> dial_at (ds_removed y) (ds_fs y) d
}.

Lemma send_own id p : sendPath id `prefix_of` p -> own id p.
Proof. intros [k ->]. left. unfold sendPath. rewrite <- app_assoc. by eexists. Qed.

Lemma dial_at_frame rm fs fs' d : dial_at rm fs d -> (forall q, own (dl_id d) q -> fs' !! q = fs !! q) -> dial_at rm fs' d.
Proof.
  intros (H1 & H2 & H3) Hf. unfold dial_at, isFile in *. split_and!.
  - destruct (dl_pc d) as [| | | | | | |[]]; try done; rewrite ?Hf by apply syn_own; try done; intros p Hp; rewrite Hf by (by apply send_own); auto.
  - intros E. rewrite Hf by apply marker_own. auto.
  - intros p n Hp. rewrite Hf; [auto|]. right. by apply prefix_app_r.
Qed.

Lemma createFile_file p now fs fs' : createFile p now fs = Some fs' -> isFile fs' p.
Proof.
  unfold createFile, isFile. intros E. destruct (fs !! _) as [d|]; [|done]. destruct (negb _); [done|].
  exists (mkInode false now). destruct (fs !! p) as [i|]; [destruct (i_dir i); [done|]|]; simplify_eq; by rewrite lookup_insert_eq.
Qed.

(** Nothing a dial makes lies below its marker. *)
Lemma below_marker id p n : conn_id id -> inboxMarkerPath root id `prefix_of` p ->
  let q := (p ++ [n])%list in
  ~ q `prefix_of` sendPath id /\ q <> synPath root id /\ q <> inboxMarkerPath root id /\ ~ q `prefix_of` Join root [inboxDirName] /\ q <> Join root [doorbellName]
  /\ (forall id' k, conn_id id' -> q <> (connPath root id' ++ k)%list).
Proof.
  intros Hid Hp q. pose proof Hid as [Hh Hn]%conn_id_hashed. pose proof (stake_not_inbox id) as Hs.
  assert (own id q) as Ho by (right; by apply prefix_app_r).
  split_and!; try (first [eapply own_not_shared|eapply own_not_above]; [exact Hid|done|by repeat split]).
  - unfold q, sendPath. destruct Hp as [k ->]. rewrite markerPath_app, connPath_hashed by done. intros [k' E].
    rewrite <- !app_assoc in E. by apply (two_names _ _ _ _ ["c2s"]) in E as [E _].
  - unfold q. destruct Hp as [k ->]. rewrite markerPath_app, synPath_app, connPath_hashed by done. intros E.
    rewrite <- !app_assoc in E. by apply (two_names _ _ _ _ (k ++ [n])) in E as [E _].
  - intros E. apply (f_equal length) in E. unfold q in E. destruct Hp as [k ->]. rewrite !length_app in E. cbn in E. lia.
  - intros id' k' [Hh' _]%conn_id_hashed E. unfold q in E. destruct Hp as [k ->]. rewrite markerPath_app, connPath_hashed in E by done.
    rewrite <- !app_assoc in E. apply (two_names _ _ _ _ (k ++ [n])) in E as [E _]. by apply (stake_not_inbox id').
Qed.

Lemma dlStep_below id pc fs pc' fs' p n : dlStep id pc fs pc' fs' -> conn_id id -> inboxMarkerPath root id `prefix_of` p ->
  fs !! (p ++ [n])%list = None -> fs' !! (p ++ [n])%list = None.
Proof.
  intros Hst Hid Hp Hnone. destruct (below_marker id p n Hid Hp) as (Hl & Hsyn & Hmk & Hin & Hb & Hc). set (q := (p ++ [n])%list) in *.
  assert (forall m, q <> (sendPath id ++ [m])%list) as Hseg by (intros m; unfold sendPath; rewrite <- app_assoc; by apply Hc).
  destruct Hst as [fs fs' now E|fs k now|fs fs' now E|fs fs' now E|fs|fs fs' now E|fs k now|fs fs' now E|fs|fs|fs|fs|fs|fs fs' m now E|fs m]; try done.
  - apply (f_equal fst) in E. cbn in E. subst fs'. by rewrite MkdirAll_lookup.
  - rewrite MkdirAll_lookup; [done|]. intros Hq. apply Hl. etrans; [exact Hq|]. apply prefix_take.
  - by rewrite (createFile_lookup _ _ _ _ _ E Hsyn).
  - by rewrite (createFile_lookup _ _ _ _ _ E Hsyn).
  - by rewrite (mark_lookup _ _ _ _ _ _ E Hin Hmk).
  - by rewrite mkdirSome_lookup.
  - by rewrite (createFile_lookup _ _ _ _ _ E Hb).
  - rewrite RemoveAll_lookup. by destruct (decide _).
  - by rewrite Remove_lookup.
  - by rewrite (createFile_lookup _ _ _ _ _ E (Hseg m)).
  - by rewrite Remove_lookup.
Qed.

Lemma syn_not_shared id : conn_id id ->
  synPath root id <> inboxMarkerPath root id /\ ~ synPath root id `prefix_of` Join root [inboxDirName] /\ synPath root id <> Join root [doorbellName].
Proof.
  intros Hid. split_and!; [|eapply own_not_above; [exact Hid|apply syn_own|by repeat split]|eapply own_not_shared; [exact Hid|apply syn_own|by repeat split]].
  intros E. symmetry in E. apply marker_not_syn in E; [done|by apply conn_id_hashed].
Qed.

Lemma dlStep_at rm id pc fs pc' fs' : dlStep id pc fs pc' fs' -> conn_id id -> dial_at rm fs (mkDialer id pc) -> dial_at rm fs' (mkDialer id pc').
Proof.
  intros Hst Hid (H1 & H2 & H3). destruct (syn_not_shared id Hid) as (Hm & Hin & Hb). cbn [dl_id dl_pc] in *. unfold dial_at. cbn [dl_id dl_pc].
  assert (forall p n, inboxMarkerPath root id `prefix_of` p -> fs' !! (p ++ [n])%list = None) as H3'.
  { intros p n Hp. eapply dlStep_below; [exact Hst|done|done|auto]. }
  destruct Hst as [fs fs' now E|fs k now|fs fs' now E|fs fs' now E|fs|fs fs' now E|fs k now|fs fs' now E|fs|fs|fs|fs|fs|fs fs' n now E|fs n]; (split; [|split; [|exact H3']]); try done.
  - right. by eapply createFile_file.
  - unfold isFile in *. by rewrite (mark_lookup _ _ _ _ _ _ E Hin Hm).
  - unfold isFile in *. by rewrite mkdirSome_lookup.
  - unfold isFile in *. by rewrite (createFile_lookup _ _ _ _ _ E Hb).
  - intros p Hp. rewrite RemoveAll_lookup, decide_True; [done|]. etrans; [|exact Hp]. by eexists.
  - intros p Hp. rewrite Remove_lookup; [auto|]. eapply connPath_not_marker; [by apply conn_id_hashed..|apply stake_not_inbox|].
    etrans; [|exact Hp]. by eexists.
  - intros _. unfold Remove. destruct (decide _) as [_|Hc]; [by rewrite lookup_delete_eq|]. exfalso. apply Hc.
    destruct (children (inboxMarkerPath root id) fs) as [|[n i] l] eqn:E; [done|].
    assert ((n, i) ∈ children (inboxMarkerPath root id) fs) as Hin'%children_elem by (rewrite E; left). by rewrite H3 in Hin'.
Qed.

(** ** The acceptor *)

Lemma recv_not_send id id' k p : conn_id id -> conn_id id' -> (recvPath id' ++ k)%list = p -> ~ sendPath id `prefix_of` p.
Proof.
  intros [Hh _]%conn_id_hashed [Hh' _]%conn_id_hashed <- [l E]. unfold recvPath, sendPath in E. rewrite !connPath_hashed in E by done.
  rewrite <- !app_assoc in E. apply (inj (app root)) in E. discriminate E.
Qed.

Lemma send_not_above id id' p : conn_id id -> conn_id id' -> sendPath id `prefix_of` p -> ~ p `prefix_of` recvPath id'.
Proof. intros Hid Hid' Hp Hq. eapply (recv_not_send id id' []); [done|done|by rewrite app_nil_r|]. by etrans. Qed.

(** Unless it removes the subtree, the acceptor leaves the initiator's direction alone. *)
Lemma acStep_frame fs r fs' id p : acStep fs r fs' -> conn_id id -> r <> Some (connPath root id) -> sendPath id `prefix_of` p ->
  fs' !! p = fs !! p.
Proof.
  intros Hst Hid Hr Hp. pose proof Hid as [Hh _]%conn_id_hashed. destruct Hst as [fs id' Hid'|fs id' k now Hid'|fs id' n now fs' Hid' E|fs id' n Hid'|fs id' Hid'|fs fo re Hfo].
  - apply Remove_lookup. eapply (connPath_not_marker root id); [done|by apply conn_id_hashed|apply stake_not_inbox|].
    etrans; [|exact Hp]. by eexists.
  - apply MkdirAll_lookup. intros Hq. apply (send_not_above id id' p); [done..|]. etrans; [exact Hq|]. apply prefix_take.
  - eapply createFile_lookup; [exact E|]. intros E'. symmetry in E'. by apply (recv_not_send id id' [n] p).
  - apply Remove_lookup. intros E'. symmetry in E'. by apply (recv_not_send id id' [n] p).
  - rewrite RemoveAll_lookup. destruct (decide _) as [Hq|]; [|done]. exfalso. apply Hr.
    apply send_own in Hp. destruct (decide (id = id')) as [->|Hne]; [done|]. exfalso. apply (own_disjoint id id' p); [done|done|done|done|by left].
  - rewrite RemoveAll_lookup. destruct (decide _) as [[l ->]|]; [|done]. exfalso. apply Hr. destruct Hp as [k E]. unfold sendPath in E.
    rewrite connPath_hashed in E |- * by done. rewrite <- !app_assoc in E. by apply two_names in E as [-> ->].
Qed.

(** It makes no markers. *)
Lemma acStep_mono fs r fs' id p : acStep fs r fs' -> conn_id id -> inboxMarkerPath root id `prefix_of` p -> fs !! p = None -> fs' !! p = None.
Proof.
  intros Hst Hid [k ->] Hn. pose proof Hid as [_ Hnm]%conn_id_hashed.
  assert (forall id' l, conn_id id' -> (inboxMarkerPath root id ++ k)%list <> (connPath root id' ++ l)%list) as Hne.
  { intros id' l [Hh' _]%conn_id_hashed. rewrite markerPath_app, connPath_hashed by done. rewrite <- !app_assoc.
    intros [E _]%two_names. by apply (stake_not_inbox id'). }
  destruct Hst as [fs id' Hid'|fs id' m now Hid'|fs id' n now fs' Hid' E|fs id' n Hid'|fs id' Hid'|fs fo re Hfo].
  - unfold Remove. destruct (decide _); [|done]. apply lookup_delete_None. by right.
  - rewrite MkdirAll_lookup; [done|]. intros Hq. assert ((inboxMarkerPath root id ++ k)%list `prefix_of` recvPath id') as Hq'
      by (etrans; [exact Hq|apply prefix_take]). destruct Hq' as [l E]. unfold recvPath in E.
    rewrite connPath_hashed, markerPath_app in E by (done || by apply conn_id_hashed). rewrite <- !app_assoc in E.
    apply (two_names _ _ _ _ ["s2c"]) in E as [E _]. by apply (stake_not_inbox id').
  - rewrite (createFile_lookup _ _ _ _ _ E); [done|]. unfold recvPath. rewrite <- app_assoc. by apply Hne.
  - rewrite Remove_lookup; [done|]. unfold recvPath. rewrite <- app_assoc. by apply Hne.
  - rewrite RemoveAll_lookup. by destruct (decide _).
  - rewrite RemoveAll_lookup. by destruct (decide _).
Qed.

Lemma acStep_none fs r fs' id p : acStep fs r fs' -> conn_id id -> sendPath id `prefix_of` p -> fs !! p = None -> fs' !! p = None.
Proof.
  intros Hst Hid Hp Hn. destruct (decide (r = Some (connPath root id))) as [->|Hne]; [|by rewrite (acStep_frame _ _ _ _ _ Hst Hid Hne Hp)].
  inversion Hst; subst; rewrite RemoveAll_lookup; by destruct (decide _).
Qed.

Lemma acStep_at rm fs r fs' d : acStep fs r fs' -> conn_id (dl_id d) -> dial_at rm fs d -> dial_at (logged r rm) fs' d.
Proof.
  intros Hst Hid (H1 & H2 & H3). unfold dial_at. split; [|split].
  - assert (connPath root (dl_id d) ∈ rm \/ isFile fs (synPath root (dl_id d)) ->
      connPath root (dl_id d) ∈ logged r rm \/ isFile fs' (synPath root (dl_id d))) as Hsyn.
    { intros [Hr|Hf]; [left; destruct r; [by right|done]|]. destruct (decide (r = Some (connPath root (dl_id d)))) as [->|Hne]; [left; by left|right].
      unfold isFile. rewrite (acStep_frame _ _ _ _ _ Hst Hid Hne); [done|]. rewrite synPath_app. exists [segName 0]. unfold sendPath. by rewrite <- app_assoc. }
    destruct (dl_pc d) as [| | | | | | |[]]; auto; intros p Hp; eapply acStep_none; eauto.
  - intros E. eapply acStep_mono; eauto.
  - intros p n Hp. eapply acStep_mono; [exact Hst|exact Hid|by apply prefix_app_r|auto].
Qed.

Lemma Dial_id detected cfg rand d : length rand = connIDLen -> fsDial detected cfg (Some rand) = Some d ->
  conn_id (dl_id d) /\ dl_pc d = DMkdir.
Proof. unfold fsDial. intros Hl E. destruct (resolve _ _); [|done]. cbn in E. injection E as <-. split; [by exists rand|done]. Qed.

Lemma dsStep_inv y y' : dsStep y y' -> dials_inv y -> dials_inv y'.
Proof.
  intros Hst [H1 H2 H3]. destruct Hst as [fs ds rm k det cfg rand d Hk Hl Hd Hfr Hmk|fs ds rm k id pc fs' pc' Hk Hst|fs ds rm r fs' Hst]; cbn [ds_fs ds_dialers ds_removed] in *.
  - destruct (Dial_id _ _ _ _ Hl Hd) as [Hid Hpc]. split; cbn [ds_fs ds_dialers ds_removed].
    + intros j e [[_ <-]|[_ Hj]]%lookup_insert_Some; eauto.
    + intros j j' e e' [[<- <-]|[Hn Hj]]%lookup_insert_Some [[<- <-]|[Hn' Hj']]%lookup_insert_Some E; eauto; exfalso; by eapply Hfr.
    + intros j e [[_ <-]|[_ Hj]]%lookup_insert_Some; [|eauto]. unfold dial_at. rewrite Hpc. split_and!; [done|done|].
      intros p n Hp. apply Hmk. by apply prefix_app_r.
  - pose proof (H1 _ _ Hk) as Hid. split; cbn [ds_fs ds_dialers ds_removed].
    + intros j e [[_ <-]|[_ Hj]]%lookup_insert_Some; eauto.
    + intros j j' e e' [[<- <-]|[Hn Hj]]%lookup_insert_Some [[<- <-]|[Hn' Hj']]%lookup_insert_Some E; eauto.
    + intros j e [[_ <-]|[Hn Hj]]%lookup_insert_Some; [by eapply dlStep_at; eauto|].
      eapply dial_at_frame; [eauto|]. intros q Ho. eapply (dlStep_frame id (dl_id e)); [exact Hst|done|eauto| |done]. intros ->. apply Hn. by eapply H2.
  - split; cbn [ds_fs ds_dialers ds_removed]; eauto. intros j e Hj. eapply acStep_at; eauto.
Qed.

Lemma dials_reach fs y : rtc dsStep (mkDials fs ∅ []) y -> dials_inv y.
Proof.
  intros Hr. assert (dials_inv (mkDials fs ∅ [])) as Hi by (split; cbn; intros *; by rewrite lookup_empty).
  remember (mkDials fs ∅ []) as y0. clear Heqy0. induction Hr; eauto using dsStep_inv.
Qed.
End dial.

(** * Claims *)

(** C25: dials do not disturb each other, nor the acceptor them. However many dials run
    at once, fail at any point and clean up, while the acceptor removes markers, makes
    and unlinks segments of its direction and removes subtrees: every conn id is a
    proper name that hashes into the work tree; the SYN of a dial is there from the
    moment it is announced until that dial gives up or returns, unless the acceptor
    removed the whole subtree; of a dial that failed nothing is left of its direction,
    nor its marker; no step of a dial or its connection changes anything under the
    subtree or marker of another; and the acceptor changes nothing in the dial's
    direction, except by removing the whole subtree. *)
Theorem dial_confined root fs y k d : rtc (dsStep root) (mkDials fs ∅ []) y -> ds_dialers y !! k = Some d ->
  hashed (dl_id d) /\ name_ok (dl_id d)
  /\ (dl_pc d ∈ [DMark; DRing; DWait] -> connPath root (dl_id d) ∉ ds_removed y -> isFile (ds_fs y) (synPath root (dl_id d)))
  /\ (dl_pc d = DReturned false -> forall p, sendPath root (dl_id d) `prefix_of` p \/ inboxMarkerPath root (dl_id d) `prefix_of` p ->
       ds_fs y !! p = None)
  /\ (forall k' id' pc pc' fs', k' <> k -> ds_dialers y !! k' = Some (mkDialer id' pc) -> dlStep root id' pc (ds_fs y) pc' fs' ->
       forall p, own root (dl_id d) p -> fs' !! p = ds_fs y !! p)
  /\ (forall r fs', acStep root (ds_fs y) r fs' -> r <> Some (connPath root (dl_id d)) ->
       forall p, sendPath root (dl_id d) `prefix_of` p -> fs' !! p = ds_fs y !! p).
Proof.
  intros Hr Hk. apply dials_reach in Hr as [H1 H2 H3]. pose proof (H1 _ _ Hk) as Hid. destruct (H3 _ _ Hk) as (A1 & A2 & A3).
  split; [by apply conn_id_hashed|]. split; [by apply conn_id_hashed|]. split_and!.
  - clear -A1. intros Hin Hrm. destruct (dl_pc d) as [| | | | | | |[]]; try (by destruct A1); exfalso; clear -Hin; set_solver.
  - intros E. rewrite E in A1. intros p [Hp|[l ->]]; [by apply A1|].
    destruct l as [|x l] using rev_ind; [rewrite app_nil_r; auto|]. rewrite app_assoc. apply A3. by apply prefix_app_r.
  - intros k' id' pc pc' fs' Hne Hk' Hst p Ho. eapply (dlStep_frame root id' (dl_id d)); [exact Hst|by apply (H1 _ _ Hk')|done| |done].
    intros E. apply Hne. by eapply H2.
  - intros r fs' Hst Hne p Hp. by eapply acStep_frame.
Qed.

(** One dial gets as far as waiting; another fails to make its directories. *)
Definition exDialRoot : path := ["srv"].
Definition exDialFs : tree := {[ [] := mkInode true 0; exDialRoot := mkInode true 0 ]}.
Definition exRand (b : byte) : list byte := repeat b connIDLen.
Definition exID (b : byte) : string := EncodeToString (exRand b).
Definition exDialCfg : Config := mkConfig "/srv" 0 0 0 0 0 0 None 0 0 0 false 0 0.

Definition exMade : tree := (MkdirAll (sendPath exDialRoot (exID x0a)) 1 exDialFs).1.
Definition exSynned : tree := default ∅ (createFile (synPath exDialRoot (exID x0a)) 2 exMade).
Definition exDialMarked : tree := (writeInboxMarker exDialRoot (exID x0a) 3 exSynned).1.
Definition exDialRung : tree := default ∅ (ringDoorbell exDialRoot 4 exDialMarked).

Definition exDialers (p q : dialPc) : gmap nat dialer := <[2%nat := mkDialer (exID x0b) q]> {[1%nat := mkDialer (exID x0a) p]}.
Definition exCleaned : tree := Remove (inboxMarkerPath exDialRoot (exID x0b)) (RemoveAll (connPath exDialRoot (exID x0b)) exDialRung).

Lemma exDialSteps :
  MkdirAll (sendPath exDialRoot (exID x0a)) 1 exDialFs = (exMade, true)
  /\ createFile (synPath exDialRoot (exID x0a)) 2 exMade = Some exSynned
  /\ writeInboxMarker exDialRoot (exID x0a) 3 exSynned = (exDialMarked, true)
  /\ ringDoorbell exDialRoot 4 exDialMarked = Some exDialRung.
Proof.
  split_and!; [|apply some_default; vm_compute; reflexivity| |apply some_default; vm_compute; reflexivity].
  - unfold exMade. rewrite (surjective_pairing (MkdirAll _ _ _)) at 1. f_equal.
  - unfold exDialMarked. rewrite (surjective_pairing (writeInboxMarker _ _ _ _)) at 1. f_equal.
Qed.

Lemma exDial_absent (id : string) (fs : tree) : forallb (fun e : path * inode => bool_decide (~ inboxMarkerPath exDialRoot id `prefix_of` e.1)) (map_to_list fs) = true ->
  forall p, inboxMarkerPath exDialRoot id `prefix_of` p -> fs !! p = None.
Proof.
  intros Hf p Hp. destruct (fs !! p) as [i|] eqn:E; [|done]. rewrite forallb_forall in Hf.
  apply elem_of_map_to_list, list_elem_of_In, Hf, bool_decide_eq_true in E. done.
Qed.

Lemma exDial_reached : rtc (dsStep exDialRoot) (mkDials exDialFs ∅ []) (mkDials exCleaned (exDialers DWait (DReturned false)) []).
Proof.
  destruct exDialSteps as (E1 & E2 & E3 & E4).
  eapply rtc_l; [apply (ds_dial _ _ _ _ 1 false exDialCfg (exRand x0a)); [done|done|reflexivity|by intros j e; rewrite lookup_empty|apply exDial_absent; vm_compute; reflexivity]|].
  eapply rtc_l; [eapply (ds_run _ _ _ _ 1); [by rewrite lookup_insert_eq|by eapply dl_mkdir]|]. rewrite insert_insert_eq.
  eapply rtc_l; [eapply (ds_run _ _ _ _ 1); [by rewrite lookup_insert_eq|by eapply dl_syn]|]. rewrite insert_insert_eq.
  eapply rtc_l; [eapply (ds_run _ _ _ _ 1); [by rewrite lookup_insert_eq|by eapply dl_mark]|]. rewrite insert_insert_eq.
  eapply rtc_l; [eapply (ds_run _ _ _ _ 1); [by rewrite lookup_insert_eq|by eapply dl_ring]|]. rewrite insert_insert_eq.
  eapply rtc_l; [apply (ds_dial _ _ _ _ 2 false exDialCfg (exRand x0b)); [done|done|reflexivity| |apply exDial_absent; vm_compute; reflexivity]|].
  { intros j e [[_ <-]|[_ ?]]%lookup_insert_Some; [by vm_compute|]. by rewrite lookup_empty in *. }
  eapply rtc_l; [eapply (ds_run _ _ _ _ 2); [by rewrite lookup_insert_eq|apply (dl_mkdir_fail _ _ _ 0 5)]|]. rewrite insert_insert_eq.
  eapply rtc_l; [eapply (ds_run _ _ _ _ 2); [by rewrite lookup_insert_eq|apply dl_removeAll]|]. rewrite insert_insert_eq.
  eapply rtc_l; [eapply (ds_run _ _ _ _ 2); [by rewrite lookup_insert_eq|apply dl_removeMark]|]. rewrite insert_insert_eq.
  apply rtc_refl.
Qed.

Lemma dial_confined_witness :
  isFile exCleaned (synPath exDialRoot (exID x0a))
  /\ forall p, sendPath exDialRoot (exID x0b) `prefix_of` p -> exCleaned !! p = None.
Proof.
  split.
  - apply (proj1 (proj2 (proj2 (dial_confined exDialRoot exDialFs _ 1 (mkDialer (exID x0a) DWait) exDial_reached eq_refl)))).
    + apply list_elem_of_In. right. right. left. reflexivity.
    + apply not_elem_of_nil.
  - intros p Hp.
    apply (proj1 (proj2 (proj2 (proj2 (dial_confined exDialRoot exDialFs _ 2 (mkDialer (exID x0b) (DReturned false)) exDial_reached eq_refl)))));
      [reflexivity|left; exact Hp].
Defined.
