(* ===== verification/Watch.v ===== *)
(** The acceptor's watch over its root (listen.go): [Listen], the select loop of
    [watchLoop] with its three tickers, and [Accept] and [Close]. *)

From stdpp Require Import base gmap list strings numbers.
From Stdlib Require Import ZArith Lia.
From S2P Require Import Prelude GoStr Frame FsConfig SegLog Listener DialTree.

#[local] Open Scope Z_scope.

(** * Starting *)

(** What a listener is made with; its [seen] set is state of the loop below. *)
Record fsListener := mkListener { ln_cfg : Config; ln_rc : resolvedConfig; ln_params : synParams; ln_root : path }.

Inductive listenErr := LConfig (e : configErr) | LMkdir.

(** [Listen]; [root] is the path the configured root denotes. *)
Definition fsListen (detected : bool) (cfg : Config) (root : path) (now : Z) (fs : tree) : result listenErr (fsListener * tree) :=
  match resolve detected cfg with
  | Err e => Err (LConfig e)
  | Ok (rc, params) =>
      let (fs', made) := MkdirAll root now fs in
      if made then Ok (mkListener cfg rc params root, fs') else Err LMkdir
  end.

Definition slowScanInterval : Z := 30 * Second.

(** [Listener.doorbellInterval]. *)
Definition doorbellInterval (rc : resolvedConfig) : Z :=
  if rc_pollInterval rc >? 0 then rc_pollInterval rc else 25 * Millisecond.

(** * The loop *)

(** The tickers of [watchLoop] and their periods; no ticker of period zero is made. *)
Inductive ticker := TFast | TSlow | TAge.

Definition period (rc : resolvedConfig) (t : ticker) : option Z :=
  match t with
  | TFast => Some (doorbellInterval rc)
  | TSlow => Some slowScanInterval
  | TAge => if rc_ageSweepInterval rc >? 0 then Some (rc_ageSweepInterval rc) else None
  end.

(** The loop's variables, the [seen] set it shares with the other goroutines, the
    tunnels whose [accept] it has started, and those dropped from [seen] since. *)
Record watchVars := mkWatcher {
  wa_bell : watchState;
  wa_seen : gset string;
  wa_started : list string;
  wa_forgot : list string
}.

(** [Listener.forget], called by the goroutines of a tunnel ([accept], [reapWhenDone]). *)
Definition forget (w : watchVars) (id : string) : watchVars :=
  if decide (id ∈ wa_seen w)
  then mkWatcher (wa_bell w) (wa_seen w ∖ {[id]}) (wa_started w) (wa_forgot w ++ [id]) else w.

(** What [watchLoop] does before the loop: one walk of the work tree, and the doorbell
    primed. *)
Definition watchStart (root : path) (fs : tree) : watchVars :=
  let '(seen, started) := startupScan root ∅ fs in
  mkWatcher (mkWatch (changed root fs (mkBell 0 false)).2 0) seen started [].

(** One pass of the select, at time [now] on the files [fs]. *)
Definition watchTick (rc : resolvedConfig) (root : path) (t : ticker) (now : Z) (fs : tree) (w : watchVars) : watchVars * tree :=
  match t with
  | TSlow =>
      let '(seen, fs', started) := scanInbox root (wa_seen w) fs in
      (mkWatcher (wa_bell w) seen (wa_started w ++ started) (wa_forgot w), fs')
  | TAge => (w, ageSweep root (rc_ageSweepThreshold rc) now (wa_seen w) fs)
  | TFast =>
      let '(bell, (seen, fs', started)) := fastTick root (wa_bell w) (wa_seen w) fs in
      (mkWatcher bell seen (wa_started w ++ started) (wa_forgot w), fs')
  end.

(** A run of the loop: each pass sees the files as they are then, after the goroutines
    of some tunnels forgot theirs. A scan looks up a tunnel only at its own entry, so
    one that is forgotten in the middle of a scan is forgotten before or after it. *)
Record pass := mkPass { ps_forget : list string; ps_tick : ticker; ps_now : Z; ps_fs : tree }.

Definition watchPass (rc : resolvedConfig) (root : path) (w : watchVars) (p : pass) : watchVars :=
  (watchTick rc root (ps_tick p) (ps_now p) (ps_fs p) (foldl forget w (ps_forget p))).1.

Definition watchRun (rc : resolvedConfig) (root : path) (ps : list pass) (w : watchVars) : watchVars :=
  foldl (watchPass rc root) w ps.

(** * Accept and Close *)

(** The channel between [accept] and [Accept] has no buffer: a pipe is either handed
    over to a caller or, once the listener is closed, closed by its goroutine. *)
Record handover := mkHand { h_closed : bool; h_offered : list nat; h_accepted : list nat; h_dropped : list nat }.

Inductive handStep : handover -> handover -> Prop :=
| hd_offer c o a d p : p ∉ o ++ a ++ d -> handStep (mkHand c o a d) (mkHand c (p :: o) a d)
| hd_accept c o1 p o2 a d : handStep (mkHand c (o1 ++ p :: o2) a d) (mkHand c (o1 ++ o2) (a ++ [p]) d)
| hd_drop o1 p o2 a d : handStep (mkHand true (o1 ++ p :: o2) a d) (mkHand true (o1 ++ o2) a (d ++ [p]))
| hd_close c o a d : handStep (mkHand c o a d) (mkHand true o a d).

(** * Lemmas *)

(** How often a tunnel is in a log. *)
Definition times (id : string) (l : list string) : nat := length (List.filter (String.eqb id) l).
Definition once (b : bool) : nat := if b then 1 else 0.

Lemma times_app id l l' : times id (l ++ l') = (times id l + times id l')%nat.
Proof. unfold times. by rewrite List.filter_app, length_app. Qed.

Lemma times_nodup id l : NoDup l -> times id l = once (bool_decide (id ∈ l)).
Proof.
  induction 1 as [|x l Hx _ IH]; [done|]. unfold times in *. cbn [List.filter].
  destruct (String.eqb_spec id x) as [<-|Hne]; cbn [length]; rewrite IH.
  - rewrite bool_decide_false by done. rewrite bool_decide_true by (by left). done.
  - f_equal. apply bool_decide_ext. set_solver.
Qed.

(** A tunnel was started as often as it was forgotten, and once more if it is known. *)
Definition balanced (w : watchVars) : Prop :=
  forall id, times id (wa_started w) = (times id (wa_forgot w) + once (bool_decide (id ∈ wa_seen w)))%nat.

(** New tunnels, each once, that were not known. *)
Lemma balanced_more w bell seen' st : balanced w -> NoDup st -> (forall id, id ∈ st -> id ∉ wa_seen w) ->
  seen' = wa_seen w ∪ list_to_set st -> balanced (mkWatcher bell seen' (wa_started w ++ st) (wa_forgot w)).
Proof.
  intros Hb Hnd Hn -> id. cbn [wa_started wa_forgot wa_seen]. rewrite times_app, Hb, (times_nodup id st) by done.
  destruct (decide (id ∈ st)) as [Hin|Hin].
  - rewrite (bool_decide_true (id ∈ st)), (bool_decide_false (id ∈ wa_seen w)), (bool_decide_true (id ∈ _ ∪ _)) by set_solver. cbn. lia.
  - rewrite (bool_decide_false (id ∈ st)) by done. cbn. rewrite Nat.add_0_r. f_equal. f_equal. apply bool_decide_ext. set_solver.
Qed.

Lemma forget_balanced w id : balanced w -> balanced (forget w id) /\ wa_started (forget w id) = wa_started w.
Proof.
  intros Hb. unfold forget. destruct (decide _) as [Hin|]; [|done]. split; [|done]. intros id'. cbn [wa_started wa_forgot wa_seen]. rewrite Hb, times_app.
  destruct (decide (id' = id)) as [->|Hne].
  - rewrite (bool_decide_true (id ∈ wa_seen w)), (bool_decide_false (id ∈ _ ∖ _)) by set_solver.
    unfold times at 3. cbn. rewrite String.eqb_refl. cbn. lia.
  - unfold times at 3. cbn. rewrite (proj2 (String.eqb_neq id' id) Hne). cbn. rewrite Nat.add_0_r. f_equal. f_equal. apply bool_decide_ext. set_solver.
Qed.

Lemma forgets_balanced w ids : balanced w -> balanced (foldl forget w ids) /\ wa_started (foldl forget w ids) = wa_started w.
Proof.
  revert w. induction ids as [|id ids IH]; intros w Hb; [done|]. cbn [foldl]. destruct (forget_balanced w id Hb) as [Hb' <-]. by apply IH.
Qed.

Lemma scan_balanced root fs w bell : tree_ok fs -> balanced w ->
  let r := scanInbox root (wa_seen w) fs in balanced (mkWatcher bell r.1.1 (wa_started w ++ r.2) (wa_forgot w)).
Proof.
  intros Hok Hb. cbv zeta. destruct (scanInbox_started root (wa_seen w) fs Hok) as (Hnd & Hs & Hst).
  apply balanced_more; [done|done| |done]. by intros id [? _]%Hst.
Qed.

Lemma watchTick_balanced rc root t now fs w : tree_ok fs -> balanced w ->
  balanced (watchTick rc root t now fs w).1 /\ wa_started w ⊆ wa_started (watchTick rc root t now fs w).1.
Proof.
  intros Hok Hw. destruct t; cbn [watchTick].
  - pose proof (scan_balanced root fs w (fastTick root (wa_bell w) (wa_seen w) fs).1 Hok Hw) as Hs.
    destruct (fastTick_cases root (wa_bell w) (wa_seen w) fs) as [[_ E]|[E _]];
      destruct (fastTick root (wa_bell w) (wa_seen w) fs) as [b r]; cbn in E; subst r; cbn [fst].
    + unfold balanced. cbn. by rewrite app_nil_r.
    + destruct (scanInbox root (wa_seen w) fs) as [[seen fs'] st]. split; [done|]. cbn. set_solver.
  - pose proof (scan_balanced root fs w (wa_bell w) Hok Hw). destruct (scanInbox root (wa_seen w) fs) as [[seen fs'] st].
    split; [done|]. cbn. set_solver.
  - done.
Qed.

Lemma watchPass_balanced rc root w p : tree_ok (ps_fs p) -> balanced w ->
  balanced (watchPass rc root w p) /\ wa_started w ⊆ wa_started (watchPass rc root w p).
Proof.
  intros Hok Hw. destruct (forgets_balanced w (ps_forget p) Hw) as [Hf <-]. by apply watchTick_balanced.
Qed.

Lemma watchRun_balanced rc root ps w : Forall (fun p => tree_ok (ps_fs p)) ps -> balanced w ->
  balanced (watchRun rc root ps w) /\ wa_started w ⊆ wa_started (watchRun rc root ps w).
Proof.
  intros Hps. revert w. induction Hps as [|p ps Hp _ IH]; intros w Hw; [done|]. cbn [watchRun foldl].
  destruct (watchPass_balanced rc root w p Hp Hw) as [Hw' Hsub]. destruct (IH _ Hw') as [? ?]. split; [done|]. by etrans.
Qed.

(** A slow tick engages what has arrived. *)
Lemma slow_engages rc root now fs w id : tree_ok fs -> is_Some (Stat (synPath root id) fs) -> marker root fs id ->
  id ∈ wa_seen (watchTick rc root TSlow now fs w).1.
Proof.
  intros Hok Hsyn Hm. cbn [watchTick]. destruct (scanInbox_started root (wa_seen w) fs Hok) as (_ & Hs & Hst).
  destruct (scanInbox root (wa_seen w) fs) as [[seen fs'] st]. cbn in *. subst seen.
  destruct (decide (id ∈ wa_seen w)); [set_solver|]. apply elem_of_union_r, elem_of_list_to_set, Hst. done.
Qed.

(** What is known was started. *)
Lemma balanced_started w id : balanced w -> id ∈ wa_seen w -> id ∈ wa_started w.
Proof.
  intros Hb Hin. specialize (Hb id). rewrite bool_decide_true in Hb by done. cbn in Hb.
  destruct (decide (id ∈ wa_started w)) as [|Hn]; [done|exfalso].
  assert (times id (wa_started w) = 0%nat) as E; [|lia]. unfold times. apply length_zero_iff_nil.
  destruct (List.filter _ _) as [|x l] eqn:Ef; [done|]. assert (In x (List.filter (String.eqb id) (wa_started w))) as [Hx Hq]%filter_In
    by (rewrite Ef; by left). apply String.eqb_eq in Hq as <-. by apply list_elem_of_In in Hx.
Qed.

(** ** The start *)

Lemma ReadDir_some fs d n i : tree_ok fs -> fs !! (d ++ [n])%list = Some i -> ReadDir d fs = Some (children d fs).
Proof. intros Hok Hi. destruct (Hok _ _ _ Hi) as (_ & j & Hj & Hd). unfold ReadDir. by rewrite Hj, Hd. Qed.

(** The directory of a tunnel whose SYN is there is found by the walk. *)
Lemma workDirs_elem root fs id : tree_ok fs -> hashed id -> HasPrefix (stake hashPrefixLen id) "." = false ->
  is_Some (Stat (synPath root id) fs) -> (stake hashPrefixLen id, sdrop hashPrefixLen id) ∈ workDirs root fs.
Proof.
  intros Hok Hid Hdot [i Hi]. unfold Stat in Hi. rewrite synPath_app, connPath_hashed in Hi by done.
  set (fo := stake hashPrefixLen id) in *. set (re := sdrop hashPrefixLen id) in *.
  replace ((root ++ [fo; re]) ++ ["c2s"; segName 0])%list with ((((root ++ [fo]) ++ [re]) ++ ["c2s"%string]) ++ [segName 0])%list in Hi
    by (by rewrite <- !app_assoc).
  destruct (Hok _ _ _ Hi) as (_ & i1 & H1 & _). destruct (Hok _ _ _ H1) as (_ & i2 & H2 & D2). destruct (Hok _ _ _ H2) as (_ & i3 & H3 & D3).
  unfold workDirs. rewrite (ReadDir_some _ _ _ _ Hok H3). apply list_elem_of_bind. exists (fo, i3). cbn [fst snd].
  split; [|by apply children_elem]. rewrite D3, Hdot. cbn [negb orb].
  rewrite (proj2 (String.eqb_neq fo inboxDirName) (stake_not_inbox id)). cbn [orb].
  rewrite (ReadDir_some _ _ _ _ Hok H2). apply list_elem_of_omap. exists (re, i2). split; [by apply children_elem|]. cbn. by rewrite D2.
Qed.

Lemma startupEntry_inv root fs st d : NoDup st.2 -> (forall id, id ∈ st.1 <-> id ∈ st.2) ->
  let st' := startupEntry root fs st d in
  NoDup st'.2 /\ (forall id, id ∈ st'.1 <-> id ∈ st'.2) /\ st.1 ⊆ st'.1
  /\ (is_Some (Stat (synPath root (d.1 +:+ d.2)%string) fs) -> (d.1 +:+ d.2)%string ∈ st'.1).
Proof.
  destruct st as [seen started]. cbn [fst snd]. intros Hnd Hin. unfold startupEntry. cbv zeta.
  destruct (Stat _ fs) as [i|]; [|by split_and!; [| | |intros [? ?]]]. destruct (decide _) as [|Hn]; [by split_and!|]. cbn [fst snd].
  split_and!; [|intros id; rewrite elem_of_app, elem_of_union, list_elem_of_singleton, elem_of_singleton, Hin; tauto|set_solver|set_solver].
  apply list.NoDup_app. split; [done|]. split; [|apply NoDup_singleton]. intros x Hx ->%list_elem_of_singleton. by apply Hn, Hin.
Qed.

Lemma startupScan_inv root fs ds st : NoDup st.2 -> (forall id, id ∈ st.1 <-> id ∈ st.2) ->
  let st' := foldl (startupEntry root fs) st ds in
  NoDup st'.2 /\ (forall id, id ∈ st'.1 <-> id ∈ st'.2) /\ st.1 ⊆ st'.1
  /\ forall d, d ∈ ds -> is_Some (Stat (synPath root (d.1 +:+ d.2)%string) fs) -> (d.1 +:+ d.2)%string ∈ st'.1.
Proof.
  revert st. induction ds as [|d ds IH]; intros st H1 H2; cbn [foldl]; [split_and!; try done; by intros ? ?%not_elem_of_nil|].
  destruct (startupEntry_inv root fs st d H1 H2) as (E1 & E2 & E3 & E4). destruct (IH _ E1 E2) as (F1 & F2 & F3 & F4).
  split_and!; [done|done|by etrans|]. intros d' [->|Hd']%elem_of_cons Hs; [by apply F3, E4|by apply F4].
Qed.

Lemma watchStart_inv root fs : balanced (watchStart root fs)
  /\ (tree_ok fs -> forall id, hashed id -> HasPrefix (stake hashPrefixLen id) "." = false -> is_Some (Stat (synPath root id) fs) ->
      id ∈ wa_seen (watchStart root fs)).
Proof.
  unfold watchStart, startupScan. pose proof (startupScan_inv root fs (workDirs root fs) (∅, [])) as Hs. cbv zeta in Hs.
  destruct (foldl _ _ _) as [seen started]. cbn [fst snd] in *. destruct Hs as (H1 & H2 & _ & H4); [constructor|set_solver|].
  split; [intros id; cbn [wa_started wa_forgot wa_seen]; rewrite times_nodup by done; cbn [times List.filter length Nat.add]; f_equal; apply bool_decide_ext; by rewrite H2|]. intros Hok id Hid Hd Hsyn. cbn [wa_seen]. pose proof (H4 _ (workDirs_elem root fs id Hok Hid Hd Hsyn)) as Hin. cbn [fst snd] in Hin.
  rewrite stake_sdrop in Hin. by apply Hin.
Qed.

(** The names [newConnID] makes are not hidden. *)
Lemma conn_id_visible id : conn_id id -> HasPrefix (stake hashPrefixLen id) "." = false.
Proof.
  intros (bs & Hl & [= <-]). destruct bs as [|b bs]; [done|]. cbn [EncodeToString]. unfold hashPrefixLen. cbn [stake HasPrefix].
  by destruct b.
Qed.

Lemma Listen_params detected cfg root now fs0 ln fs1 : config_wf cfg -> fsListen detected cfg root now fs0 = Ok (ln, fs1) ->
  params_ok (ln_rc ln) (ln_params ln) /\ ln_root ln = root.
Proof.
  intros Hwf. unfold fsListen. destruct (resolve detected cfg) as [[rc params]|e] eqn:E; [|done].
  destruct (MkdirAll root now fs0) as [fs' []]; [|done]. intros [= <- <-]. split; [by eapply resolve_ok|done].
Qed.

(** A ticker's period is positive, as [time.NewTicker] demands. *)
Lemma period_pos rc params t d : params_ok rc params -> period rc t = Some d -> 0 < d.
Proof.
  intros Hp. destruct t; cbn [period].
  - intros [= <-]. unfold doorbellInterval. destruct (_ >? 0) eqn:E; [lia|]. vm_compute. done.
  - by intros [= <-].
  - destruct (_ >? 0) eqn:E; [|done]. intros [= <-]. lia.
Qed.

(** [Accept] returns each pipe once, and a pipe is dropped only when the listener is
    closed. *)
Definition handedOnce (h : handover) : Prop :=
  NoDup (h_offered h ++ h_accepted h ++ h_dropped h) /\ (h_closed h = false -> h_dropped h = []).

Lemma handStep_once h h' : handStep h h' -> handedOnce h -> handedOnce h'.
Proof.
  intros Hst [Hnd Hc]. destruct Hst as [c o a d p Hp|c o1 p o2 a d|o1 p o2 a d|c o a d]; unfold handedOnce; cbn in *; split; try done.
  - by constructor.
  - revert Hnd. apply (NoDup_Permutation_proper _ _). rewrite <- !app_assoc. apply Permutation_app_head. cbn.
    rewrite Permutation_middle. apply Permutation_app_head. by rewrite Permutation_middle.
  - revert Hnd. apply (NoDup_Permutation_proper _ _). rewrite <- !app_assoc. apply Permutation_app_head. cbn.
    rewrite !app_assoc. by rewrite <- Permutation_cons_append.
Qed.

Theorem accept_once h : rtc handStep (mkHand false [] [] []) h -> handedOnce h.
Proof.
  intros Hr. assert (handedOnce (mkHand false [] [] [])) as Hi by (split; [constructor|done]).
  remember (mkHand false [] [] []) as h0 eqn:E0. clear E0. induction Hr; eauto using handStep_once.
Qed.

(** * Claims *)

(** C24: a listener finds every tunnel, and accepts it again only after it was
    forgotten. However its tickers fire, whatever the files look like at each pass and
    whichever tunnels are forgotten in between: every ticker it makes has a positive
    period; it started [accept] for each conn id as often as that was forgotten, and
    once more exactly if it is known; it did so for every conn id whose SYN was there when
    it started; a conn id whose marker and SYN a slow scan sees is known after that scan,
    even if the doorbell was never heard, and so was accepted if it was not known before;
    and an age sweep changes nothing under the subtree of a tunnel it knows. *)
Theorem watch_engages detected cfg root now fs0 ln fs1 fs ps :
  config_wf cfg -> fsListen detected cfg root now fs0 = Ok (ln, fs1) -> tree_ok fs -> Forall (fun p => tree_ok (ps_fs p)) ps ->
  let run ps := watchRun (ln_rc ln) (ln_root ln) ps (watchStart (ln_root ln) fs) in
  (forall t d, period (ln_rc ln) t = Some d -> 0 < d)
  /\ (forall id, times id (wa_started (run ps)) = (times id (wa_forgot (run ps)) + once (bool_decide (id ∈ wa_seen (run ps))))%nat)
  /\ (forall id, conn_id id -> is_Some (Stat (synPath root id) fs) -> id ∈ wa_started (run ps))
  /\ (forall id ps1 p ps2, ps = (ps1 ++ p :: ps2)%list -> ps_tick p = TSlow -> is_Some (Stat (synPath root id) (ps_fs p)) ->
       marker root (ps_fs p) id -> id ∈ wa_seen (run (ps1 ++ [p])%list) /\ id ∈ wa_started (run ps))
  /\ (forall id now' fs' p, tree_ok fs' -> conn_id id -> id ∈ wa_seen (run ps) -> connPath root id `prefix_of` p ->
       (watchTick (ln_rc ln) root TAge now' fs' (run ps)).2 !! p = fs' !! p).
Proof.
  intros Hwf Hl Hok Hps. destruct (Listen_params _ _ _ _ _ _ _ Hwf Hl) as [Hpar ->]. cbv zeta.
  destruct (watchStart_inv root fs) as [Hs0 Hst]. destruct (watchRun_balanced (ln_rc ln) root ps _ Hps Hs0) as [Hb Hsub]. split_and!.
  - intros t d. by eapply period_pos.
  - done.
  - intros id Hid Hsyn. apply Hsub, balanced_started, Hst; [done|done|by apply conn_id_hashed|by apply conn_id_visible|done].
  - intros id ps1 p ps2 -> Ht Hsyn Hm. assert ((ps1 ++ p :: ps2) = ((ps1 ++ [p]) ++ ps2))%list as E by (by rewrite <- app_assoc). rewrite E in Hps |- *. clear E. apply Forall_app in Hps as [Hps1 Hps2].
    assert (id ∈ wa_seen (watchRun (ln_rc ln) root (ps1 ++ [p]) (watchStart root fs))) as Hin.
    { unfold watchRun. rewrite foldl_app. cbn [foldl]. unfold watchPass at 1. rewrite Ht. apply Forall_app in Hps1 as [_ Hp%Forall_inv].
      by apply slow_engages. }
    split; [exact Hin|]. destruct (watchRun_balanced (ln_rc ln) root _ _ Hps1 Hs0) as [Hb1 _].
    unfold watchRun at 1. rewrite foldl_app. fold (watchRun (ln_rc ln) root (ps1 ++ [p]) (watchStart root fs)).
    apply (watchRun_balanced (ln_rc ln) root ps2 _ Hps2 Hb1). by apply balanced_started.
  - intros id now' fs' p Hok' Hid Hk Hp. cbn. apply (ageSweep_known _ _ _ _ _ id); [done|by apply conn_id_hashed|done|done].
Qed.

Lemma tree_ok_empty : tree_ok ∅.
Proof. intros p n i. by rewrite lookup_empty. Qed.

Definition exListener : fsListener :=
  mkListener exDialCfg (match resolve false exDialCfg with Ok (rc, _) => rc | Err _ => mkResolved 0 0 0 false 0 0 0 0 false 0 0 end)
    (match resolve false exDialCfg with Ok (_, p) => p | Err _ => mkSynParams 0 0 0 0 end) exRoot.

Lemma exListen : fsListen false exDialCfg exRoot 1 exDialFs = Ok (exListener, exDialFs).
Proof.
  unfold fsListen. assert (MkdirAll exRoot 1 exDialFs = (exDialFs, true)) as -> by (vm_compute; reflexivity). done.
Qed.

(** The doorbell's change is missed; a slow scan finds the tunnel, which is forgotten,
    made again and found again. *)
Definition exPasses : list pass :=
  [mkPass [] TAge 5 exRung; mkPass [] TSlow 30 exRung; mkPass ["abcd"%string] TSlow 60 exRung].

Lemma watch_engages_witness :
  let w := watchRun (ln_rc exListener) exRoot exPasses (watchStart exRoot ∅) in
  "abcd"%string ∈ wa_started w /\ times "abcd" (wa_started w) = (times "abcd" (wa_forgot w) + 1)%nat.
Proof.
  assert (config_wf exDialCfg) as Hwf by (split; vm_compute; split; congruence).
  assert (Forall (fun p => tree_ok (ps_fs p)) exPasses) as Hps by (unfold exPasses; do 3 (constructor; [exact exRung_ok|]); constructor).
  pose proof (watch_engages false exDialCfg exRoot 1 exDialFs exListener exDialFs ∅ _ Hwf exListen tree_ok_empty Hps)
    as (_ & Hb & _ & Hs & _).
  destruct (Hs "abcd"%string [mkPass [] TAge 5 exRung; mkPass [] TSlow 30 exRung] (mkPass ["abcd"%string] TSlow 60 exRung) []) as [H1 H2];
    [reflexivity|reflexivity|exists (mkInode false 3); exact exSyn|exact exMarker|].
  split; [exact H2|]. specialize (Hb "abcd"%string). rewrite (bool_decide_true _ H1) in Hb. exact Hb.
Defined.
