(* ===== verification/Splice.v ===== *)
(** The relay of raw bytes between two connections ([spliceConns] of proxy.go): two
    goroutines that each copy one direction with [io.Copy] and then close both
    connections. *)

From stdpp Require Import base gmap list numbers.
From Stdlib Require Import ZArith Lia.
From Stdlib.Strings Require Import Byte.
From S2P Require Import Prelude.

#[local] Open Scope Z_scope.

(** * Connections *)

(** A connection as the broker holds it: what its peer sent in all ([sent], of which
    [inb] is not read yet), whether the peer ended its stream or broke the
    connection, what the broker wrote to it, and whether the broker closed it. *)
Record link := mkLink {
  sent : list byte;
  inb : list byte;
  fin : bool;
  broken : bool;
  outb : list byte;
  closed : bool
}.

Definition freshLink : link := mkLink [] [] false false [] false.

(** * The goroutines *)

(** Where the goroutine [pipe(dst, src)] is: in the loop of [io.Copy], or at one of
    the statements after it. [PClose clean] remembers, for the theorems, whether the
    copy ended at the end of the stream. *)
Inductive pipeState :=
| PRead
| PWrite (chunk : list byte)
| PCloseDst (clean : bool)
| PCloseSrc (clean : bool)
| PDone (clean : bool).

(** One step of [pipe(dst, src)]; how much [io.Copy] moves at once depends on the
    connections. A read takes bytes that arrived, or reports the end
    of the stream, or fails on a connection closed or broken; a write takes the whole
    chunk, or part of it before it fails. *)
Inductive pipeStep : pipeState -> link -> link -> pipeState -> link -> link -> Prop :=
| ps_read dst src b1 b2 : closed src = false -> b1 <> [] -> inb src = b1 ++ b2 ->
    pipeStep PRead dst src (PWrite b1) dst
      (mkLink (sent src) b2 (fin src) (broken src) (outb src) (closed src))
| ps_eof dst src : closed src = false -> inb src = [] -> fin src = true ->
    pipeStep PRead dst src (PCloseDst true) dst src
| ps_readErr dst src : closed src = true \/ broken src = true -> pipeStep PRead dst src (PCloseDst false) dst src
| ps_write b dst src : closed dst = false ->
    pipeStep (PWrite b) dst src PRead
      (mkLink (sent dst) (inb dst) (fin dst) (broken dst) (outb dst ++ b) (closed dst)) src
| ps_writeErr b b1 b2 dst src : closed dst = true \/ broken dst = true -> b = b1 ++ b2 ->
    pipeStep (PWrite b) dst src (PCloseDst false)
      (mkLink (sent dst) (inb dst) (fin dst) (broken dst) (outb dst ++ b1) (closed dst)) src
| ps_closeDst c dst src :
    pipeStep (PCloseDst c) dst src (PCloseSrc c)
      (mkLink (sent dst) (inb dst) (fin dst) (broken dst) (outb dst) true) src
| ps_closeSrc c dst src :
    pipeStep (PCloseSrc c) dst src (PDone c) dst
      (mkLink (sent src) (inb src) (fin src) (broken src) (outb src) true).

(** What a peer can do to its connection. *)
Inductive peerStep : link -> link -> Prop :=
| pr_send l bs : fin l = false -> peerStep l (mkLink (sent l ++ bs) (inb l ++ bs) (fin l) (broken l) (outb l) (closed l))
| pr_fin l : peerStep l (mkLink (sent l) (inb l) true (broken l) (outb l) (closed l))
| pr_break l : peerStep l (mkLink (sent l) (inb l) (fin l) true (outb l) (closed l)).

(** [spliceConns(c1, c2)]: [sp_fwd] copies from [c2] to [c1], [sp_bwd] back. It
    returns when both goroutines are done. *)
Record spliceState := mkSplice { sp_c1 : link; sp_c2 : link; sp_fwd : pipeState; sp_bwd : pipeState }.

Definition spliceConns (c1 c2 : link) : spliceState := mkSplice c1 c2 PRead PRead.

(** A step of one of the two goroutines; a step of the splice is one of these, or of
    a peer. *)
Inductive goStep : spliceState -> spliceState -> Prop :=
| go_f c1 c2 f b f' c1' c2' : pipeStep f c1 c2 f' c1' c2' -> goStep (mkSplice c1 c2 f b) (mkSplice c1' c2' f' b)
| go_b c1 c2 f b b' c1' c2' : pipeStep b c2 c1 b' c2' c1' -> goStep (mkSplice c1 c2 f b) (mkSplice c1' c2' f b').

Inductive spStep : spliceState -> spliceState -> Prop :=
| sp_go s s' : goStep s s' -> spStep s s'
| sp_p1 c1 c2 f b c1' : peerStep c1 c1' -> spStep (mkSplice c1 c2 f b) (mkSplice c1' c2 f b)
| sp_p2 c1 c2 f b c2' : peerStep c2 c2' -> spStep (mkSplice c1 c2 f b) (mkSplice c1 c2' f b).

Definition isDone (p : pipeState) : bool := match p with PDone _ => true | _ => false end.
Definition returned (s : spliceState) : bool := isDone (sp_fwd s) && isDone (sp_bwd s).

(** * One direction *)

Definition copying (p : pipeState) : bool := match p with PRead | PWrite _ => true | _ => false end.
Definition chunkOf (p : pipeState) : list byte := match p with PWrite b => b | _ => [] end.

(** What the bytes of one direction are doing: while it copies, what was sent is what
    was passed on, the chunk in hand and what waits; afterwards a prefix was passed
    on, all of what was sent if the copy saw the end of the stream. *)
Record dirInv (p : pipeState) (dst src : link) : Prop := {
  di_copy : copying p = true -> sent src = outb dst ++ chunkOf p ++ inb src;
  di_prefix : outb dst `prefix_of` sent src;
  di_clean : match p with PCloseDst true | PCloseSrc true | PDone true => sent src = outb dst /\ fin src = true | _ => True end;
  di_dst : match p with PCloseSrc _ | PDone _ => closed dst = true | _ => True end;
  di_src : match p with PDone _ => closed src = true | _ => True end
}.

Lemma dirInv_own p dst src p' dst' src' : pipeStep p dst src p' dst' src' -> dirInv p dst src -> dirInv p' dst' src'.
Proof.
  intros Hst [H1 H2 H3 H4 H5]. destruct Hst as [dst src b1 b2 Hc _ E|dst src Hc E Hf|dst src _|b dst src Hc|b b1 b2 dst src _ ->|c dst src|c dst src];
    cbn in *.
  - split; cbn; [|done..]. intros _. by rewrite (H1 eq_refl), E.
  - specialize (H1 eq_refl). rewrite E, app_nil_r in H1. by split.
  - by split.
  - specialize (H1 eq_refl). split; cbn; [by rewrite H1, app_assoc| |done..]. rewrite H1, (app_assoc (outb dst)). by apply prefix_app_r.
  - specialize (H1 eq_refl). split; cbn; [done| |done..]. rewrite H1, <- app_assoc, (app_assoc (outb dst)). by apply prefix_app_r.
  - by split.
  - by split.
Qed.

(** The other goroutine changes only what this direction does not look at, or closes
    connections. *)
Record sameDir (dst src dst' src' : link) : Prop := {
  sd_out : outb dst' = outb dst;
  sd_sent : sent src' = sent src;
  sd_in : inb src' = inb src;
  sd_fin : fin src' = fin src;
  sd_dst : closed dst = true -> closed dst' = true;
  sd_src : closed src = true -> closed src' = true
}.

Lemma dirInv_same p dst src dst' src' : sameDir dst src dst' src' -> dirInv p dst src -> dirInv p dst' src'.
Proof.
  intros [E1 E2 E3 E4 E5 E6] [H1 H2 H3 H4 H5]. split; rewrite ?E1, ?E2, ?E3, ?E4; try done.
  - destruct p; auto.
  - destruct p; auto.
Qed.

Lemma pipeStep_other p dst src p' dst' src' : pipeStep p dst src p' dst' src' -> sameDir src dst src' dst'.
Proof. intros []; by split. Qed.

Lemma peerStep_dst l l' src : peerStep l l' -> sameDir l src l' src.
Proof. intros []; by split. Qed.

Lemma dirInv_peer p dst src src' : peerStep src src' -> dirInv p dst src -> dirInv p dst src'.
Proof.
  intros Hst [H1 H2 H3 H4 H5]. destruct Hst as [l bs Hf|l|l]; cbn in *; split; cbn; try done.
  - intros Hp. by rewrite (H1 Hp), !app_assoc.
  - by apply prefix_app_r.
  - destruct p as [| |[]|[]|[]]; try done; destruct H3; congruence.
  - destruct p as [| |[]|[]|[]]; try done; by destruct H3.
Qed.

(** * Both directions *)

Definition spInv (s : spliceState) : Prop := dirInv (sp_fwd s) (sp_c1 s) (sp_c2 s) /\ dirInv (sp_bwd s) (sp_c2 s) (sp_c1 s).

Lemma spInv_step s s' : spStep s s' -> spInv s -> spInv s'.
Proof.
  intros Hst [Hf Hb]. destruct Hst as [s s' [c1 c2 f b f' c1' c2' H|c1 c2 f b b' c1' c2' H]|c1 c2 f b c1' H|c1 c2 f b c2' H]; cbn in *; split; cbn.
  - by eapply dirInv_own.
  - eapply dirInv_same; [by eapply pipeStep_other|done].
  - eapply dirInv_same; [by eapply pipeStep_other|done].
  - by eapply dirInv_own.
  - eapply dirInv_same; [by apply peerStep_dst|done].
  - by eapply dirInv_peer.
  - by eapply dirInv_peer.
  - eapply dirInv_same; [by apply peerStep_dst|done].
Qed.

(** Connections nothing was read from or written to yet; the peers may have sent. *)
Definition untouched (l : link) : Prop := inb l = sent l /\ outb l = [].

Lemma spInv_init c1 c2 : untouched c1 -> untouched c2 -> spInv (spliceConns c1 c2).
Proof.
  intros [E1 O1] [E2 O2]. split; split; cbn; try done; rewrite ?O1, ?O2, ?E1, ?E2; try done; apply prefix_nil.
Qed.

Lemma spInv_reach c1 c2 s : untouched c1 -> untouched c2 -> rtc spStep (spliceConns c1 c2) s -> spInv s.
Proof.
  intros H1 H2 Hr. pose proof (spInv_init c1 c2 H1 H2) as Hi. induction Hr; eauto using spInv_step.
Qed.

(** * The end *)

(** How many steps a goroutine is from its end, once the connections are closed. *)
Definition left (p : pipeState) : nat :=
  match p with PRead | PWrite _ => 3 | PCloseDst _ => 2 | PCloseSrc _ => 1 | PDone _ => 0 end.

Definition stepsLeft (s : spliceState) : nat := left (sp_fwd s) + left (sp_bwd s).

(** Past its copy a goroutine can always step; on closed connections it always can,
    and each step brings it closer to its end. *)
Lemma pipe_enabled p dst src : isDone p = false -> copying p = false \/ (closed dst = true /\ closed src = true) ->
  exists p' dst' src', pipeStep p dst src p' dst' src'.
Proof.
  intros Hd Hc. destruct p as [|b|c|c|c]; try done.
  - destruct Hc as [?|[_ ?]]; [done|]. do 3 eexists. apply ps_readErr. by left.
  - destruct Hc as [?|[? _]]; [done|]. do 3 eexists. apply (ps_writeErr b [] b); [by left|done].
  - do 3 eexists. apply ps_closeDst.
  - do 3 eexists. apply ps_closeSrc.
Qed.

Lemma pipe_closer p dst src p' dst' src' : pipeStep p dst src p' dst' src' ->
  copying p = false \/ (closed dst = true /\ closed src = true) -> (left p' < left p)%nat.
Proof. intros [] Hc; cbn in *; try lia; destruct Hc as [?|[? ?]]; congruence. Qed.

(** Everything a splice does, whatever the two peers and the scheduler do: the bytes
    passed on each way are, in order, the first bytes the other peer sent. *)
Definition passedOn (s : spliceState) : Prop :=
  outb (sp_c1 s) `prefix_of` sent (sp_c2 s) /\ outb (sp_c2 s) `prefix_of` sent (sp_c1 s).

(** A goroutine done cleanly: its copy saw the end of the stream. *)
Definition ended (p : pipeState) : bool := match p with PCloseDst true | PCloseSrc true | PDone true => true | _ => false end.

Lemma dirInv_ended p dst src : dirInv p dst src -> ended p = true -> outb dst = sent src /\ fin src = true.
Proof. intros [_ _ Hc _ _] E. destruct p as [| |[]|[]|[]]; try done; by destruct Hc. Qed.

Lemma dirInv_done p dst src : dirInv p dst src -> isDone p = true -> closed dst = true /\ closed src = true.
Proof. intros [_ _ _ H1 H2] E. by destruct p. Qed.

Lemma spInv_closed s : spInv s -> isDone (sp_fwd s) || isDone (sp_bwd s) = true -> closed (sp_c1 s) = true /\ closed (sp_c2 s) = true.
Proof.
  intros [Hf Hb] [E|E]%orb_true_iff; [by apply (dirInv_done _ _ _ Hf)|]. destruct (dirInv_done _ _ _ Hb E); done.
Qed.

(** While one goroutine is past its copy, the splice moves on until both are done. *)
Lemma sp_moves s : spInv s -> copying (sp_fwd s) && copying (sp_bwd s) = false -> returned s = false -> exists s', goStep s s'.
Proof.
  intros Hi Hc Hr. destruct s as [c1 c2 f b]; unfold returned in *; cbn in *.
  destruct (decide (isDone f = true)) as [Df|Df%not_true_is_false].
  - rewrite Df in Hr. destruct (spInv_closed _ Hi) as [? ?]; [cbn; by rewrite Df|]. cbn in *.
    destruct (pipe_enabled b c2 c1) as (p' & d' & s' & Hp); [done|by right|]. eexists; by apply go_b.
  - destruct (copying f) eqn:Ef; cbn in *.
    + destruct (decide (isDone b = true)) as [Db|Db%not_true_is_false].
      * destruct (spInv_closed _ Hi) as [? ?]; [cbn; by rewrite Db, orb_true_r|]. cbn in *.
        destruct (pipe_enabled f c1 c2) as (p' & d' & s' & Hp); [done|by right|]. eexists; by apply go_f.
      * destruct (pipe_enabled b c2 c1) as (p' & d' & s' & Hp); [done|by left|]. eexists; by apply go_b.
    + destruct (pipe_enabled f c1 c2) as (p' & d' & s' & Hp); [done|by left|]. eexists; by apply go_f.
Qed.

Lemma sp_closer s s' : spInv s -> isDone (sp_fwd s) || isDone (sp_bwd s) = true -> goStep s s' -> (stepsLeft s' < stepsLeft s)%nat.
Proof.
  intros Hi Hd Hg. destruct (spInv_closed s Hi Hd) as [C1 C2]. unfold stepsLeft.
  destruct Hg as [c1 c2 f b f' c1' c2' H|c1 c2 f b b' c1' c2' H]; cbn in *; apply pipe_closer in H; [lia|tauto|lia|tauto].
Qed.

(** * Claims *)

(** C15: [spliceConns], whatever its two goroutines and the two peers do and in whatever
    order: the bytes passed on in each direction are the first bytes the other peer
    sent, in order; a direction whose copy saw the end of the stream has passed on all
    of them; as soon as one goroutine is past its copy the splice keeps moving until it
    returns, and once one goroutine is done every step brings it closer, so that it
    returns after at most three more; then both connections are closed. *)
Theorem splice_relays (c1 c2 : link) (s : spliceState) : untouched c1 -> untouched c2 ->
  rtc spStep (spliceConns c1 c2) s ->
  passedOn s
  /\ (ended (sp_fwd s) = true -> outb (sp_c1 s) = sent (sp_c2 s) /\ fin (sp_c2 s) = true)
  /\ (ended (sp_bwd s) = true -> outb (sp_c2 s) = sent (sp_c1 s) /\ fin (sp_c1 s) = true)
  /\ (copying (sp_fwd s) && copying (sp_bwd s) = false -> returned s = false -> exists s', goStep s s')
  /\ (isDone (sp_fwd s) || isDone (sp_bwd s) = true -> (stepsLeft s <= 3)%nat /\ forall s', goStep s s' -> (stepsLeft s' < stepsLeft s)%nat)
  /\ (returned s = true -> closed (sp_c1 s) = true /\ closed (sp_c2 s) = true).
Proof.
  intros H1 H2 Hr. pose proof (spInv_reach _ _ _ H1 H2 Hr) as Hi. pose proof Hi as [Hf Hb]. split_and!.
  - split; [apply Hf|apply Hb].
  - by apply dirInv_ended.
  - by apply dirInv_ended.
  - by apply sp_moves.
  - intros Hd. split; [|intros s'; by apply sp_closer]. unfold stepsLeft. apply orb_true_iff in Hd as [E|E]; destruct (sp_fwd s), (sp_bwd s); cbn in *; try done; lia.
  - unfold returned. intros [E _]%andb_true_iff. apply spInv_closed; [done|]. by rewrite E.
Qed.

(** One peer sends two bytes and ends; the splice passes them on, closes and returns. *)
Definition talker : link := mkLink [x68; x69] [x68; x69] true false [] false.
Definition heard : spliceState :=
  mkSplice (mkLink [] [] false false [x68; x69] true) (mkLink [x68; x69] [] true false [] true) (PDone true) (PDone false).

Lemma heard_reached : rtc spStep (spliceConns freshLink talker) heard.
Proof.
  eapply rtc_l; [apply sp_go, go_f, (ps_read _ _ [x68; x69] []); [done..]|].
  eapply rtc_l; [apply sp_go, go_f, ps_write; done|].
  eapply rtc_l; [apply sp_go, go_f, ps_eof; done|].
  eapply rtc_l; [apply sp_go, go_f, ps_closeDst|].
  eapply rtc_l; [apply sp_go, go_b, ps_readErr; by left|].
  eapply rtc_l; [apply sp_go, go_f, ps_closeSrc|].
  eapply rtc_l; [apply sp_go, go_b, ps_closeDst|].
  eapply rtc_l; [apply sp_go, go_b, ps_closeSrc|]. apply rtc_refl.
Qed.

Lemma splice_relays_witness : passedOn heard /\ outb (sp_c1 heard) = [x68; x69] /\ closed (sp_c2 heard) = true.
Proof.
  pose proof (splice_relays freshLink talker heard (conj eq_refl eq_refl) (conj eq_refl eq_refl) heard_reached) as (H & E & _ & _ & _ & C).
  split; [exact H|]. split; [exact (proj1 (E eq_refl))|exact (proj2 (C eq_refl))].
Defined.
