(* ===== verification/Contacts.v ===== *)
(** Contact strings and routes (server.go, proxy.go): the CCBID a requester names,
    the contact a target reclaims, the nested contacts of a tunnel, and the hop
    list of a recursive request. What the broker takes from the cedar library
    (control ads, contact and address syntax) is a type class. *)

From stdpp Require Import base list strings numbers.
From Stdlib Require Import ZArith Lia Ascii.
From S2P Require Import Prelude GoStr.

#[local] Open Scope string_scope.
#[local] Open Scope Z_scope.

(** * The cedar library *)

(** Attributes of a control ad, and the commands of the protocol. *)
Inductive attr :=
| AttrCommand | AttrName | AttrClaimID | AttrCCBID | AttrMyAddress | AttrRequestID | AttrResult
| AttrErrorString | AttrProxyMode | AttrCCBStreaming | AttrCCBStreamingRequired | AttrCCBRoute
| AttrCCBOriginalRequester | AttrCCBPriorHop | AttrCCBTTL | AttrCCBAddress.

#[export] Instance attr_eq_dec : EqDecision attr.
Proof. solve_decision. Defined.

Inductive command :=
| CommandRegister | CommandRequest | CommandReverseConnect | CommandProxyConnect
| CommandGetTunnelAddress | CommandAlive.

#[export] Instance command_eq_dec : EqDecision command.
Proof. solve_decision. Defined.

(** A parsed address: [addresses.ParseSinful] returns it beside an error. *)
Record sinful := mkSinful { sin_host : string; sin_port : string; sin_isCCB : bool }.

(** What the broker calls. [ParseSinful] is [None] on an error; the code reads the
    fields of the zero value then. *)
Class Cedar := {
  Ad : Type;
  AdString : Ad -> attr -> string;
  AdInt : Ad -> attr -> option Z;
  AdBool : Ad -> attr -> option bool;
  commandInt : command -> Z;
  ContactString : string -> Z -> string;
  SplitCCBContact : string -> option (string * string);
  ParseSinful : string -> option sinful
}.

(** What the broker relies on: a contact string is an address, a [#] and a decimal
    CCBID, and splitting one takes the CCBID off its end, also for an address that
    is itself a contact. *)
Class CedarLaws `{Cedar} : Prop := {
  contact_shape addr id : exists a, ContactString addr id = a +:+ "#" +:+ FormatUint id;
  split_contact a id : 0 <= id < 2 ^ 64 ->
    SplitCCBContact (a +:+ "#" +:+ FormatUint id) = Some (a, FormatUint id)
}.

(** * Parsing *)

(** [parseTargetID]. *)
Definition parseTargetID (s : string) : option Z := ParseUint (TrimSpace s).

(** [splitRoute]. *)
Definition splitRoute (route : string) : string * string :=
  match Fields route with
  | [] => ("", "")
  | head :: rest => (head, JoinSpace rest)
  end.

Section contacts.
Context `{Cedar}.

(** [parseContactID]. *)
Definition parseContactID (contact : string) : option Z :=
  match SplitCCBContact contact with
  | None => None
  | Some (_, idStr) => ParseUint idStr
  end.

(** [Server.contactString]; [tunnel] is the inside CCB's own contact, if it has one. *)
Definition contactString (publicAddress : string) (tunnel : option string) (id : Z) : string :=
  match tunnel with
  | Some tc => if String.eqb tc "" then ContactString publicAddress id
               else tc +:+ "#" +:+ FormatUint id
  | None => ContactString publicAddress id
  end.

Lemma contactString_shape `{!CedarLaws} addr tunnel id :
  exists a, contactString addr tunnel id = a +:+ "#" +:+ FormatUint id.
Proof.
  unfold contactString. destruct tunnel as [tc|]; [|apply contact_shape].
  destruct (String.eqb tc ""); [apply contact_shape|by exists tc].
Qed.

Lemma parseContactID_contactString `{!CedarLaws} addr tunnel id : 0 <= id < 2 ^ 64 ->
  parseContactID (contactString addr tunnel id) = Some id.
Proof.
  intros Hid. destruct (contactString_shape addr tunnel id) as [a Ha].
  unfold parseContactID. rewrite Ha, split_contact by done. by apply ParseUint_FormatUint.
Qed.
End contacts.

(** [Server.proxyAddrSinful]. *)
Definition proxyAddrSinful (publicAddress : string) : string :=
  "<" +:+ Trim publicAddress "<>" +:+ ">".

(** * Lemmas *)

Lemma parseTargetID_chars s id : parseTargetID s = Some id ->
  Forall (fun c => char_digit c <> None) (chars (TrimSpace s)) /\ TrimSpace s <> ""
  /\ 0 <= id < 2 ^ 64.
Proof.
  unfold parseTargetID, ParseUint. destruct (TrimSpace s) as [|c t] eqn:E; [done|]. rewrite <- E. intros Hp.
  split; [by eapply parseDigits_chars|]. split; [by rewrite E|].
  apply parseDigits_range in Hp; unfold maxUint64 in *; lia.
Qed.

(** Trimming keeps every character that no white-space character contains. *)
Lemma sdrop_has c n s : has c s = true -> has c (sdrop n s) = false ->
  exists k d, (k < n)%nat /\ chars s !! k = Some d /\ Ascii.eqb c d = true.
Proof.
  unfold has. revert s. induction n as [|n IH]; intros s H1 H2; [cbn in H2; congruence|].
  destruct s as [|d s]; [done|]. cbn [sdrop] in H2. cbn in H1.
  destruct (Ascii.eqb c d) eqn:E; [by exists 0%nat, d; repeat split; try lia|].
  destruct (IH s H1 H2) as (k & d' & Hk & Hl & Hd). exists (S k), d'. repeat split; try done. lia.
Qed.

(** No byte of a white-space character is printable ASCII. *)
Lemma space_len_bytes s k d : (k < space_len s)%nat -> chars s !! k = Some d -> ~ 33 <= code d <= 126.
Proof.
  unfold space_len. intros Hk Hd. destruct s as [|a s]; [lia|].
  destruct (((9 <=? code a) && (code a <=? 13)) || (code a =? 32)) eqn:E1.
  { destruct k; [|lia]. cbn in Hd. injection Hd as <-. lia. }
  destruct s as [|b s]; [lia|].
  destruct ((code a =? 0xC2) && _) eqn:E2.
  { destruct k as [|[|]]; [..|lia]; cbn in Hd; injection Hd as <-; lia. }
  destruct s as [|c s]; [lia|]. cbv beta zeta in Hk.
  destruct (_ || _ || _ || _) eqn:E3; [|lia].
  destruct k as [|[|[|]]]; [..|lia]; cbn in Hd; injection Hd as <-; lia.
Qed.

Lemma trimLeft_has c fuel s : 33 <= code c <= 126 -> has c s = true -> has c (trimLeft fuel s) = true.
Proof.
  intros Hc. revert s. induction fuel as [|fuel IH]; intros s Hs; [done|]. cbn [trimLeft].
  destruct (space_len s) as [|n] eqn:En; [done|]. apply IH.
  destruct (has c (sdrop (S n) s)) eqn:E; [done|].
  destruct (sdrop_has c (S n) s Hs E) as (k & d & Hk & Hd & He). apply Ascii.eqb_eq in He as ->.
  destruct (space_len_bytes s k d); [lia|done|done].
Qed.

Lemma trimRight_has c s : 33 <= code c <= 126 -> has c s = true -> has c (trimRight s) = true.
Proof.
  intros Hc. induction s as [|d s IH]; [done|]. intros Hs. cbn [trimRight].
  destruct (blank (String d s)) eqn:Hb.
  - unfold blank in Hb. apply String.eqb_eq in Hb.
    pose proof (trimLeft_has c (String.length (String d s)) (String d s) Hc Hs) as Ht.
    by rewrite Hb in Ht.
  - unfold has in *. cbn in *. destruct (Ascii.eqb c d); [done|]. by apply IH.
Qed.

Lemma TrimSpace_has c s : 33 <= code c <= 126 -> has c s = true -> has c (TrimSpace s) = true.
Proof. intros. apply trimRight_has; [done|]. by apply trimLeft_has. Qed.

Lemma ids_words l : words (map FormatUint l).
Proof.
  apply Forall_map, Forall_forall. intros id _. destruct (FormatUint_graph id). split; [by apply solid_graph|done].
Qed.

(** * Properties *)

(** A requester names exactly one CCBID. [parseTargetID] accepts the decimal
    form of every 64-bit id, and it rejects any string with a printable character
    that is not a digit, such as a nested contact with a [#]. *)
Theorem parseTargetID_strict s :
  (forall id, 0 <= id < 2 ^ 64 -> parseTargetID (FormatUint id) = Some id)
  /\ (forall c, has c s = true -> 33 <= code c <= 126 -> char_digit c = None -> parseTargetID s = None).
Proof.
  split.
  - intros id Hid. unfold parseTargetID. rewrite TrimSpace_graph by apply FormatUint_graph.
    by apply ParseUint_FormatUint.
  - intros c Hs Hc Hd. destruct (parseTargetID s) as [id|] eqn:E; [|done].
    apply parseTargetID_chars in E as (Hall & _ & _).
    pose proof (TrimSpace_has c s Hc Hs) as Ht. unfold has in Ht.
    apply existsb_exists in Ht as (d & Hin & He). apply Ascii.eqb_eq in He as <-.
    rewrite List.Forall_forall in Hall. exfalso. by apply (Hall c).
Qed.

(** A tunnel's route is consumed hop by hop. A route of CCBIDs joined by
    spaces splits into its first id and the route of the others; after as many
    hops as ids the route is empty, and every id is one a hop accepts. *)
Theorem splitRoute_hops id ids :
  Forall (fun i => 0 <= i < 2 ^ 64) (id :: ids) ->
  splitRoute (JoinSpace (map FormatUint (id :: ids))) = (FormatUint id, JoinSpace (map FormatUint ids))
  /\ parseTargetID (fst (splitRoute (JoinSpace (map FormatUint (id :: ids))))) = Some id
  /\ (JoinSpace (map FormatUint ids) = "" <-> ids = []).
Proof.
  intros Hids.
  unfold splitRoute. rewrite Fields_JoinSpace by apply ids_words. cbn [map fst]. split; [done|]. split.
  - unfold parseTargetID. rewrite TrimSpace_graph by apply FormatUint_graph.
    apply ParseUint_FormatUint. by inversion Hids.
  - split; [|by intros ->]. intros E. destruct ids as [|i l]; [done|]. cbn [map JoinSpace] in E.
    pose proof (proj2 (FormatUint_graph i)) as Hne. destruct (FormatUint i); [done|].
    by destruct (map FormatUint l).
Qed.

Lemma splitRoute_hops_witness :
  splitRoute "17 42 8" = ("17", "42 8") /\ parseTargetID (fst (splitRoute "17 42 8")) = Some 17.
Proof.
  pose proof (splitRoute_hops 17 [42; 8] ltac:(repeat constructor; lia)) as (H1 & H2 & _).
  split; [exact H1|exact H2].
Defined.
