(* ===== verification/Reconnect.v ===== *)
(** Reconnect records and the store interface (reconnect.go), with the in-memory
    store as its reference implementation. Clients are proved against the laws of
    the interface, not against an implementation. *)

From stdpp Require Import base gmap list strings numbers.
From Stdlib Require Import ZArith Lia.
From S2P Require Import Prelude GoStr.

(** Times are nanoseconds since the epoch. *)
Record ReconnectRecord := mkRec {
  CCBID : Z;         (* uint64 *)
  Cookie : string;
  PeerIP : string;
  Name : string;
  UpdatedAt : Z
}.

#[export] Instance ReconnectRecord_eq_dec : EqDecision ReconnectRecord.
Proof. solve_decision. Defined.

Definition touch (r : ReconnectRecord) (now : Z) : ReconnectRecord :=
  mkRec (CCBID r) (Cookie r) (PeerIP r) (Name r) now.

(** * The interface *)

(** A store of type [S]; [None] of [Load] is an error. *)
Class ReconnectStore (S : Type) := {
  Load : S -> option (list ReconnectRecord);
  Put : ReconnectRecord -> S -> S;
  Delete : Z -> S -> S;
  CloseStore : S -> S
}.

(** Records stored under their own CCBID. *)
Definition keyed (m : gmap Z ReconnectRecord) : Prop := forall id r, m !! id = Some r -> CCBID r = id.

Definition text_valid (r : ReconnectRecord) : Prop :=
  ValidString (Cookie r) = true /\ ValidString (PeerIP r) = true /\ ValidString (Name r) = true.

(** What a store promises. [contents] are the records a reader will find once the
    store is closed: the last write per CCBID, up to what the store's encoding
    changes ([norm]): it may round times and need not keep text that is not valid
    UTF-8. *)
Class StoreLaws (S : Type) `{ReconnectStore S} := {
  contents : S -> gmap Z ReconnectRecord;
  norm : ReconnectRecord -> ReconnectRecord;
  norm_id r : CCBID (norm r) = CCBID r;
  norm_text r : text_valid r -> Cookie (norm r) = Cookie r /\ PeerIP (norm r) = PeerIP r /\ Name (norm r) = Name r;
  contents_put r s : contents (Put r s) = <[CCBID r := norm r]> (contents s);
  contents_delete id s : contents (Delete id s) = delete id (contents s);
  contents_close s : contents (CloseStore s) = contents s;
  load_close s : keyed (contents s) -> exists l, Load (CloseStore s) = Some l
    /\ forall r, r ∈ l <-> contents s !! CCBID r = Some r
}.

(** Operations on a store. *)
Inductive storeOp := OpPut (r : ReconnectRecord) | OpDelete (id : Z).

Definition applyOp {S : Type} `{ReconnectStore S} (s : S) (o : storeOp) : S :=
  match o with OpPut r => Put r s | OpDelete id => Delete id s end.

(** The records that remain after a sequence of operations. *)
Definition opMap (f : ReconnectRecord -> ReconnectRecord) (m : gmap Z ReconnectRecord) (o : storeOp)
  : gmap Z ReconnectRecord :=
  match o with OpPut r => <[CCBID r := f r]> m | OpDelete id => delete id m end.

Lemma contents_ops {S : Type} `{StoreLaws S} ops s :
  contents (foldl applyOp s ops) = foldl (opMap norm) (contents s) ops.
Proof.
  revert s. induction ops as [|[r|id] ops IH]; intros s; [done|..]; cbn; rewrite IH; f_equal.
  - apply contents_put.
  - apply contents_delete.
Qed.

(** * The in-memory store *)

Record memoryStore := mkMem { recs : gmap Z ReconnectRecord }.

Definition newMemoryStore : memoryStore := mkMem ∅.

Definition memLoad (m : memoryStore) : option (list ReconnectRecord) :=
  Some (map snd (map_to_list (recs m))).
Definition memPut (r : ReconnectRecord) (m : memoryStore) : memoryStore :=
  mkMem (<[CCBID r := r]> (recs m)).
Definition memDelete (id : Z) (m : memoryStore) : memoryStore := mkMem (delete id (recs m)).

#[export] Instance memoryStore_ops : ReconnectStore memoryStore := {
  Load := memLoad; Put := memPut; Delete := memDelete; CloseStore := fun m => m
}.

Lemma elem_of_values (m : gmap Z ReconnectRecord) r :
  r ∈ map snd (map_to_list m) <-> exists id, m !! id = Some r.
Proof.
  rewrite list_elem_of_fmap. split.
  - intros ([id r'] & -> & Hin). exists id. by apply elem_of_map_to_list.
  - intros [id Hid]. exists (id, r). by rewrite elem_of_map_to_list.
Qed.

Lemma keyed_put m r : keyed m -> keyed (<[CCBID r := r]> m).
Proof. intros Hm id r' [[<- <-]|[_ H]]%lookup_insert_Some; [done|by apply Hm]. Qed.

Lemma keyed_delete m id : keyed m -> keyed (delete id m).
Proof. intros Hm id' r [_ H]%lookup_delete_Some. by apply Hm. Qed.

Lemma keyed_op {S : Type} `{StoreLaws S} m o : keyed m -> keyed (opMap norm m o).
Proof.
  intros Hm. destruct o as [r|id]; cbn; [|by apply keyed_delete].
  rewrite <- (norm_id r). by apply keyed_put.
Qed.

Lemma keyed_ops {S : Type} `{StoreLaws S} ops m : keyed m -> keyed (foldl (opMap norm) m ops).
Proof. revert m. induction ops as [|o ops IH]; intros m Hm; [done|]. cbn. apply IH. by apply keyed_op. Qed.

#[export, refine] Instance memoryStore_laws : StoreLaws memoryStore := {
  contents := recs; norm := fun r => r
}.
Proof.
  - done.
  - done.
  - done.
  - done.
  - done.
  - intros m Hk. eexists. split; [reflexivity|]. intros r. rewrite elem_of_values. split.
    + intros [id Hid]. by rewrite (Hk _ _ Hid).
    + eauto.
Defined.
