(* ===== verification/SqliteStore.v ===== *)
(** The SQLite reconnect store (sqlitestore.go): a bounded queue of operations, a
    writer that coalesces them per CCBID and commits each batch in one transaction,
    sealed rows, and loading. It discharges the store contract of Reconnect.v. *)

From stdpp Require Import base gmap list strings numbers.
From Stdlib Require Import ZArith Lia.
From S2P Require Import Prelude GoStr FsConfig Reconnect.

#[local] Open Scope Z_scope.

(** The fields of a record that are encrypted. *)
Record sealedReconnect := mkSealed { p_Cookie : string; p_PeerIP : string; p_Name : string }.

(** The encoding of the secret fields: [encoding/json] and the session cache's
    [seal] and [unseal]. Sealing draws a nonce and may fail. *)
Class Sealing := {
  Plain : Type;
  Sealed : Type;
  Marshal : sealedReconnect -> Plain;
  Unmarshal : Plain -> option sealedReconnect;
  seal : nat -> Plain -> option Sealed;
  unseal : Sealed -> option Plain
}.

(** What the store relies on: what was sealed unseals, JSON reads back what it
    wrote, exactly so when the text is valid UTF-8 (it replaces what is not), and
    some nonce seals. *)
Class SealingLaws `{Sealing} : Prop := {
  unseal_seal n p b : seal n p = Some b -> unseal b = Some p;
  unmarshal_total p : exists p', Unmarshal (Marshal p) = Some p';
  unmarshal_valid p : ValidString (p_Cookie p) = true -> ValidString (p_PeerIP p) = true ->
    ValidString (p_Name p) = true -> Unmarshal (Marshal p) = Some p;
  seal_first p : is_Some (seal 0 p)
}.

Section store.
Context `{Sealing}.

(** * State *)

(** A row of table [reconnect], under its primary key [ccbid]. *)
Record row := mkRow { w_sealed : Sealed; w_updated_at : Z }.

(** Where the writer goroutine is. *)
Inductive writerPhase := WLoop | WDrain | WReturned.

(** [q_table] is the database, [q_ops] the queue, [q_batch] the writer's batch. *)
Record sqliteStore := mkStore {
  q_table : gmap Z row;
  q_ops : list storeOp;
  q_batch : gmap Z storeOp;
  q_done : bool;
  q_phase : writerPhase
}.

Definition opsCap : nat := 1024.

(** [OpenSharedReconnectStore] on a database that has, or gets, the table. *)
Definition OpenSharedReconnectStore (hasDB hasSeal hasUnseal tableOk : bool) (table : gmap Z row)
  : option sqliteStore :=
  if negb hasDB then None else
  if negb hasSeal || negb hasUnseal then None else
  if negb tableOk then None else Some (mkStore table [] ∅ false WLoop).

(** The flush interval it uses. *)
Definition flushInterval (flush : Z) : Z := if flush <=? 0 then 50 * Millisecond else flush.

(** * Reading *)

(** One row of [Load]; [None] is a row it drops. *)
Definition loadRow (id : Z) (w : row) : option ReconnectRecord :=
  match unseal (w_sealed w) with
  | None => None
  | Some plain =>
      match Unmarshal plain with
      | None => None
      | Some p => Some (mkRec id (p_Cookie p) (p_PeerIP p) (p_Name p) (w_updated_at w * Second))
      end
  end.

(** [sqliteStore.Load]; the query may fail. *)
Definition sqliteLoad (queryOk : bool) (s : sqliteStore) : option (list ReconnectRecord) :=
  if queryOk then Some (omap (fun p => loadRow p.1 p.2) (map_to_list (q_table s))) else None.

(** * Writing *)

Definition opID (o : storeOp) : Z := match o with OpPut r => CCBID r | OpDelete id => id end.

(** What the database does with a transaction: whether it begins and commits, which
    statements succeed, the nonces drawn, and the order in which the batch, a Go
    map, is visited. *)
Record dbEnv := mkDb {
  e_begin : bool;
  e_exec : Z -> bool;
  e_nonce : Z -> nat;
  e_commit : bool;
  e_order : list (Z * storeOp)
}.

Definition payloadOf (r : ReconnectRecord) : sealedReconnect := mkSealed (Cookie r) (PeerIP r) (Name r).

(** One statement of the transaction. *)
Definition execOp (env : dbEnv) (t : gmap Z row) (o : storeOp) : option (gmap Z row) :=
  match o with
  | OpDelete id => if e_exec env id then Some (delete id t) else None
  | OpPut r =>
      match seal (e_nonce env (CCBID r)) (Marshal (payloadOf r)) with
      | None => None
      | Some sealed =>
          if e_exec env (CCBID r)
          then Some (<[CCBID r := mkRow sealed (UpdatedAt r / Second)]> t) else None
      end
  end.

Fixpoint execAll (env : dbEnv) (t : gmap Z row) (l : list (Z * storeOp)) : option (gmap Z row) :=
  match l with
  | [] => Some t
  | (_, o) :: l => match execOp env t o with Some t' => execAll env t' l | None => None end
  end.

(** [sqliteStore.commit]: the table afterwards and whether the batch took effect;
    any failure rolls the whole transaction back. *)
Definition commit (env : dbEnv) (batch : gmap Z storeOp) (t : gmap Z row) : gmap Z row * bool :=
  if decide (batch = ∅) then (t, true) else
  if negb (e_begin env) then (t, false) else
  match execAll env t (e_order env) with
  | None => (t, false)
  | Some t' => if e_commit env then (t', true) else (t, false)
  end.

(** ** Steps *)

(** Every step names what callers were promised: an operation entered the queue. *)
Inductive sqEvent := SqAccepted (o : storeOp) | SqDropped (o : storeOp) | SqCommit (ok : bool) | SqQuiet.

Inductive sq_step : sqliteStore -> sqEvent -> sqliteStore -> Prop :=
(* [enqueue]: either case of its select that is ready *)
| sq_send t ops b d ph o : (length ops < opsCap)%nat ->
    sq_step (mkStore t ops b d ph) (SqAccepted o) (mkStore t (ops ++ [o]) b d ph)
| sq_skip t ops b ph o :
    sq_step (mkStore t ops b true ph) (SqDropped o) (mkStore t ops b true ph)
(* [Close] *)
| sq_close t ops b ph :
    sq_step (mkStore t ops b false ph) SqQuiet (mkStore t ops b true ph)
(* [writer]: last write per CCBID wins *)
| sq_recv t o ops b d ph : ph <> WReturned ->
    sq_step (mkStore t (o :: ops) b d ph) SqQuiet (mkStore t ops (<[opID o := o]> b) d ph)
| sq_tick t ops b d env t' ok : e_order env ≡ₚ map_to_list b -> commit env b t = (t', ok) ->
    sq_step (mkStore t ops b d WLoop) (SqCommit ok) (mkStore t' ops ∅ d WLoop)
| sq_drain t ops b :
    sq_step (mkStore t ops b true WLoop) SqQuiet (mkStore t ops b true WDrain)
| sq_exit t b env t' ok : e_order env ≡ₚ map_to_list b -> commit env b t = (t', ok) ->
    sq_step (mkStore t [] b true WDrain) (SqCommit ok) (mkStore t' [] ∅ true WReturned).

(** A run of the store, with its events. *)
Inductive sq_run (s0 : sqliteStore) : list sqEvent -> sqliteStore -> Prop :=
| sqr_nil : sq_run s0 [] s0
| sqr_snoc es s e s' : sq_run s0 es s -> sq_step s e s' -> sq_run s0 (es ++ [e]) s'.

(** * What the table stands for *)

Definition view (t : gmap Z row) : gmap Z ReconnectRecord := map_imap loadRow t.

(** A record as it reads back: text through the encoding, time in whole seconds. *)
Definition stored (r : ReconnectRecord) : ReconnectRecord :=
  match Unmarshal (Marshal (payloadOf r)) with
  | Some p => mkRec (CCBID r) (p_Cookie p) (p_PeerIP p) (p_Name p) (UpdatedAt r / Second * Second)
  | None => r
  end.

Lemma stored_id r : CCBID (stored r) = CCBID r.
Proof. unfold stored. by destruct (Unmarshal _). Qed.

Context `{!SealingLaws}.

Lemma stored_valid r : text_valid r ->
  stored r = mkRec (CCBID r) (Cookie r) (PeerIP r) (Name r) (UpdatedAt r / Second * Second).
Proof. intros (H1 & H2 & H3). unfold stored. by rewrite unmarshal_valid. Qed.

Lemma loadRow_put n r b : seal n (Marshal (payloadOf r)) = Some b ->
  loadRow (CCBID r) (mkRow b (UpdatedAt r / Second)) = Some (stored r).
Proof.
  intros Hs. unfold loadRow, stored. cbn. rewrite (unseal_seal _ _ _ Hs).
  destruct (unmarshal_total (payloadOf r)) as [p' ->]. done.
Qed.

Lemma view_insert t id w r : loadRow id w = Some r -> view (<[id := w]> t) = <[id := r]> (view t).
Proof.
  intros Hr. apply map_eq. intros j. unfold view. rewrite map_lookup_imap.
  destruct (decide (id = j)) as [<-|]; [by rewrite !lookup_insert_eq|].
  by rewrite !lookup_insert_ne, map_lookup_imap.
Qed.

Lemma view_delete t id : view (delete id t) = delete id (view t).
Proof.
  apply map_eq. intros j. unfold view. rewrite map_lookup_imap.
  destruct (decide (id = j)) as [<-|]; [by rewrite !lookup_delete_eq|].
  by rewrite !lookup_delete_ne, map_lookup_imap.
Qed.

Lemma view_exec env t o t' : execOp env t o = Some t' -> view t' = opMap stored (view t) o.
Proof.
  destruct o as [r|id]; cbn.
  - destruct (seal _ _) as [b|] eqn:Hs; [|done]. destruct (e_exec _ _); [|done]. injection 1 as <-.
    apply view_insert. by eapply loadRow_put.
  - destruct (e_exec _ _); [|done]. injection 1 as <-. apply view_delete.
Qed.

Lemma view_execAll env l : forall t t', execAll env t l = Some t' ->
  view t' = foldl (opMap stored) (view t) (map snd l).
Proof.
  induction l as [|[i o] l IH]; intros t t' E; cbn in *; [by injection E as <-|].
  destruct (execOp env t o) as [t1|] eqn:Eo; [|done].
  rewrite <- (view_exec _ _ _ _ Eo). by apply IH.
Qed.

(** ** Coalescing *)

(** The batch that receiving [ops] builds. *)
Definition coalesce (ops : list storeOp) : gmap Z storeOp := foldl (fun (b : gmap Z storeOp) o => <[opID o := o]> b) ∅ ops.

Lemma coalesce_snoc ops o : coalesce (ops ++ [o]) = <[opID o := o]> (coalesce ops).
Proof. unfold coalesce. by rewrite foldl_app. Qed.

Lemma coalesce_id ops i o : coalesce ops !! i = Some o -> opID o = i.
Proof.
  induction ops as [|o' ops IH] using rev_ind; [done|].
  rewrite coalesce_snoc. intros [[<- <-]|[_ Hl]]%lookup_insert_Some; auto.
Qed.

(** What an operation leaves under an id. *)
Definition opAt (o : storeOp) : option ReconnectRecord :=
  match o with OpPut r => Some (stored r) | OpDelete _ => None end.

Lemma opMap_lookup m o i : opMap stored m o !! i = if decide (opID o = i) then opAt o else m !! i.
Proof.
  destruct o as [r|id]; cbn; destruct (decide _) as [<-|];
    by rewrite ?lookup_insert_eq, ?lookup_insert_ne, ?lookup_delete_eq, ?lookup_delete_ne.
Qed.

(** Applying a sequence of operations is applying the last one per id. *)
Lemma foldl_coalesce ops m i : foldl (opMap stored) m ops !! i
  = match coalesce ops !! i with Some o => opAt o | None => m !! i end.
Proof.
  induction ops as [|o ops IH] using rev_ind; [done|].
  rewrite foldl_app, coalesce_snoc. cbn. rewrite opMap_lookup.
  destruct (decide (opID o = i)) as [<-|]; [by rewrite lookup_insert_eq|]. by rewrite lookup_insert_ne.
Qed.

(** So does applying the batch, in whatever order it is visited. *)
Lemma foldl_order (b : gmap Z storeOp) l m i : (forall j o, b !! j = Some o -> opID o = j) ->
  l ≡ₚ map_to_list b ->
  foldl (opMap stored) m (map snd l) !! i = match b !! i with Some o => opAt o | None => m !! i end.
Proof.
  intros Hb Hl. rewrite foldl_coalesce. f_equal.
  assert (forall j o, (j, o) ∈ l <-> b !! j = Some o) as Hin
    by (intros j o; rewrite Hl; apply elem_of_map_to_list).
  assert (NoDup l.*1) as Hnd by (rewrite Hl; apply NoDup_fst_map_to_list).
  assert (forall j o, coalesce (map snd l) !! j = Some o <-> b !! j = Some o) as Hc.
  { intros j o. rewrite <- Hin. clear Hl. assert (forall j o, (j, o) ∈ l -> opID o = j) as Hid
      by (intros j' o' ?; apply Hb; by apply Hin). clear Hin.
    induction l as [|[k q] l IH] using rev_ind; [cbn; rewrite lookup_empty; set_solver|].
    rewrite map_app. cbn [map snd]. rewrite coalesce_snoc. rewrite fmap_app in Hnd. cbn in Hnd.
    apply list.NoDup_app in Hnd as (Hnd & Hdis & _).
    rewrite lookup_insert_Some, IH; [|done|set_solver].
    assert (opID q = k) as -> by (apply Hid; set_solver). rewrite elem_of_app, list_elem_of_singleton. split.
    - intros [[-> ->]|[_ ?]]; [by right|by left].
    - intros [Hj|[= -> ->]]; [|by left]. right. split; [|done]. intros ->.
      apply (Hdis j); [by apply list_elem_of_fmap; exists (j, o)|set_solver]. }
  destruct (coalesce (map snd l) !! i) as [o|] eqn:E1.
  - apply Hc in E1. by rewrite E1.
  - destruct (b !! i) as [o|] eqn:E2; [|done]. apply Hc in E2. congruence.
Qed.

(** A committed batch is the operations it was built from; a failed one is nothing. *)
Lemma commit_view env ops t t' ok : e_order env ≡ₚ map_to_list (coalesce ops) ->
  commit env (coalesce ops) t = (t', ok) ->
  view t' = if ok then foldl (opMap stored) (view t) ops else view t.
Proof.
  intros Ho. unfold commit. destruct (decide _) as [E|_].
  { injection 1 as <- <-. apply map_eq. intros i. by rewrite foldl_coalesce, E, lookup_empty. }
  destruct (e_begin env); cbn; [|by injection 1 as <- <-].
  destruct (execAll _ _ _) as [t1|] eqn:Ex; [|by injection 1 as <- <-].
  destruct (e_commit env); [|by injection 1 as <- <-]. injection 1 as <- <-.
  apply map_eq. intros i. rewrite (view_execAll _ _ _ _ Ex), foldl_coalesce.
  rewrite <- foldl_coalesce, (foldl_order (coalesce ops)); [by rewrite foldl_coalesce| |done].
  apply coalesce_id.
Qed.
(** ** The invariant *)

(** The operations a run accepted, and how its commits went. *)
Definition accepted (es : list sqEvent) : list storeOp :=
  omap (fun e => match e with SqAccepted o => Some o | _ => None end) es.
Definition commits (es : list sqEvent) : list bool :=
  omap (fun e => match e with SqCommit ok => Some ok | _ => None end) es.

(** The operations of the batches that were committed. *)
Definition committed (bs : list (list storeOp * bool)) : list storeOp :=
  mjoin (map (fun b : list storeOp * bool => if b.2 then b.1 else []) bs).

Lemma committed_snoc (bs : list (list storeOp * bool)) (ops : list storeOp) (ok : bool) :
  committed (bs ++ [(ops, ok)]) = committed bs ++ (if ok then ops else []).
Proof. unfold committed. rewrite map_app, join_app. cbn. by rewrite app_nil_r. Qed.

Lemma committed_all bs : Forall (eq true) (map snd bs) -> committed bs = mjoin (map fst bs).
Proof.
  unfold committed. induction bs as [|[ops ok] bs IH]; [done|]. intros Hok.
  apply Forall_cons_iff in Hok as [E Hok]. cbn in E. subst ok. cbn. f_equal. by apply IH.
Qed.

Lemma mjoin_snoc {A} (ls : list (list A)) l : mjoin (ls ++ [l]) = mjoin ls ++ l.
Proof. rewrite join_app. cbn. by rewrite app_nil_r. Qed.

Definition sq_inv (t0 : gmap Z row) (es : list sqEvent) (s : sqliteStore) : Prop :=
  exists (bs : list (list storeOp * bool)) (cur : list storeOp),
    accepted es = mjoin (map fst bs) ++ cur ++ q_ops s
    /\ map snd bs = commits es
    /\ q_batch s = coalesce cur
    /\ view (q_table s) = foldl (opMap stored) (view t0) (committed bs)
    /\ (q_phase s = WReturned -> cur = []).

Lemma commit_inv t0 bs cur env t t' ok :
  view t = foldl (opMap stored) (view t0) (committed bs) ->
  e_order env ≡ₚ map_to_list (coalesce cur) -> commit env (coalesce cur) t = (t', ok) ->
  view t' = foldl (opMap stored) (view t0) (committed (bs ++ [(cur, ok)])).
Proof.
  intros Hv Ho Hc. rewrite (commit_view _ _ _ _ _ Ho Hc), committed_snoc, foldl_app, Hv. by destruct ok.
Qed.

Lemma sq_step_inv t0 es s e s' : sq_inv t0 es s -> sq_step s e s' -> sq_inv t0 (es ++ [e]) s'.
Proof.
  intros (bs & cur & Ha & Hk & Hb & Hv & Hr) Hst.
  destruct Hst as [t ops b d ph o Hl|t ops b ph o|t ops b ph|t o ops b d ph Hph|t ops b d env t' ok Ho Hc
    |t ops b|t b env t' ok Ho Hc]; cbn [q_table q_ops q_batch q_phase] in *;
    unfold sq_inv, accepted, commits in *; rewrite !omap_app; cbn [omap list_omap q_table q_ops q_batch q_phase];
    rewrite ?app_nil_r.
  - exists bs, cur. split; [rewrite Ha, <- !app_assoc; done|]. done.
  - exists bs, cur. done.
  - exists bs, cur. done.
  - exists bs, (cur ++ [o]). split; [rewrite Ha, <- app_assoc; done|]. split; [done|].
    split; [by rewrite coalesce_snoc, Hb|done].
  - subst b. exists (bs ++ [(cur, ok)]), []. rewrite !map_app. cbn [map fst snd]. rewrite mjoin_snoc. split; [by rewrite Ha, <- app_assoc|].
    split; [by rewrite Hk|]. split; [done|]. split; [by eapply commit_inv|done].
  - exists bs, cur. done.
  - subst b. exists (bs ++ [(cur, ok)]), []. rewrite !map_app. cbn [map fst snd]. rewrite mjoin_snoc.
    split; [by rewrite Ha, <- app_assoc, !app_nil_r|]. split; [by rewrite Hk|]. split; [done|].
    split; [by eapply commit_inv|done].
Qed.

Lemma sq_run_inv t0 es s : sq_run (mkStore t0 [] ∅ false WLoop) es s -> sq_inv t0 es s.
Proof.
  induction 1 as [|es s e s' _ IH Hst]; [|by eapply sq_step_inv].
  exists [], []. repeat split.
Qed.

(** * The store contract *)

(** A batch built by the writer has its operations under their own ids. *)
Definition batch_ok (b : gmap Z storeOp) : Prop := forall j o, b !! j = Some o -> opID o = j.

Definition recvOp (s : sqliteStore) : sqliteStore :=
  match q_ops s with
  | o :: ops => mkStore (q_table s) ops (<[opID o := o]> (q_batch s)) (q_done s) (q_phase s)
  | [] => s
  end.

(** [enqueue] run alone: when the queue is full the writer takes an operation first. *)
Definition enqueue (o : storeOp) (s : sqliteStore) : sqliteStore :=
  let s := if decide (length (q_ops s) < opsCap)%nat then s else recvOp s in
  mkStore (q_table s) (q_ops s ++ [o]) (q_batch s) (q_done s) (q_phase s).

(** A database that does not fail. *)
Definition healthy (b : gmap Z storeOp) : dbEnv :=
  mkDb true (fun _ => true) (fun _ => 0%nat) true (map_to_list b).

(** [Close] run alone: the writer drains the queue, commits and returns. *)
Definition sqliteClose (s : sqliteStore) : sqliteStore :=
  let b := foldl (fun (b : gmap Z storeOp) o => <[opID o := o]> b) (q_batch s) (q_ops s) in
  mkStore (commit (healthy b) b (q_table s)).1 [] ∅ true WReturned.

(** The next broker opens the same database. *)
Definition reopen (s : sqliteStore) : sqliteStore := mkStore (q_table s) [] ∅ false WLoop.

Definition pendingView (s : sqliteStore) : gmap Z ReconnectRecord :=
  foldl (opMap stored) (view (q_table s)) (map snd (map_to_list (q_batch s)) ++ q_ops s).

Lemma batch_ok_insert b o : batch_ok b -> batch_ok (<[opID o := o]> b).
Proof. intros Hb j o' [[<- <-]|[_ Hl]]%lookup_insert_Some; [done|by apply Hb]. Qed.

Lemma foldl_insert_lookup (b : gmap Z storeOp) ops i : foldl (fun (b : gmap Z storeOp) o => <[opID o := o]> b) b ops !! i
  = match coalesce ops !! i with Some o => Some o | None => b !! i end.
Proof.
  induction ops as [|o ops IH] using rev_ind; [done|]. rewrite foldl_app, coalesce_snoc. cbn.
  destruct (decide (opID o = i)) as [<-|]; [by rewrite !lookup_insert_eq|]. by rewrite !lookup_insert_ne.
Qed.

Lemma batch_ok_drain b ops : batch_ok b -> batch_ok (foldl (fun (b : gmap Z storeOp) o => <[opID o := o]> b) b ops).
Proof. revert b. induction ops as [|o ops IH]; intros b Hb; [done|]. cbn. by apply IH, batch_ok_insert. Qed.

Lemma pending_lookup b ops m i : batch_ok b ->
  foldl (opMap stored) m (map snd (map_to_list b) ++ ops) !! i
  = match coalesce ops !! i with Some o => opAt o | None => match b !! i with Some o => opAt o | None => m !! i end end.
Proof.
  intros Hb. rewrite foldl_app, foldl_coalesce. destruct (coalesce ops !! i); [done|].
  by apply foldl_order.
Qed.

Lemma execAll_healthy b l t : exists t', execAll (healthy b) t l = Some t'.
Proof.
  revert t. induction l as [|[j o] l IH]; intros t; cbn [execAll]; [eauto|].
  destruct o as [r|id]; cbn [execOp e_exec e_nonce healthy]; [|by apply IH].
  destruct (seal_first (Marshal (payloadOf r))) as [x ->]. apply IH.
Qed.

Lemma close_view s : batch_ok (q_batch s) -> view (q_table (sqliteClose s)) = pendingView s.
Proof.
  intros Hb. apply map_eq. intros i. unfold pendingView. rewrite pending_lookup by done.
  unfold sqliteClose. cbn [q_table]. set (b := foldl _ _ _).
  assert (batch_ok b) as Hb' by (by apply batch_ok_drain).
  assert (b !! i = match coalesce (q_ops s) !! i with Some o => Some o | None => q_batch s !! i end) as Hl
    by apply foldl_insert_lookup.
  unfold commit. destruct (decide (b = ∅)) as [E|_].
  { rewrite E, lookup_empty in Hl. cbn. destruct (coalesce (q_ops s) !! i); [done|]. by rewrite <- Hl. }
  cbn [healthy e_begin negb e_commit e_order]. destruct (execAll_healthy b (map_to_list b) (q_table s)) as [t' Ex].
  rewrite Ex. cbn [fst]. rewrite (view_execAll _ _ _ _ Ex), (foldl_order b) by done. rewrite Hl.
  by destruct (coalesce (q_ops s) !! i).
Qed.

Lemma recvOp_view s : batch_ok (q_batch s) -> batch_ok (q_batch (recvOp s)) /\ pendingView (recvOp s) = pendingView s.
Proof.
  intros Hb. destruct s as [t [|o ops] b d ph]; [done|]. cbn in *.
  assert (batch_ok (<[opID o := o]> b)) as Hb' by (by apply batch_ok_insert). split; [done|].
  unfold pendingView. cbn. apply map_eq. intros i. rewrite !pending_lookup by done.
  replace (coalesce (o :: ops)) with (foldl (fun (b : gmap Z storeOp) o => <[opID o := o]> b) (<[opID o := o]> ∅) ops) by done.
  rewrite foldl_insert_lookup. destruct (coalesce ops !! i); [done|].
  destruct (decide (opID o = i)) as [<-|]; [by rewrite !lookup_insert_eq|]. by rewrite !lookup_insert_ne, lookup_empty.
Qed.

Lemma enqueue_view o s : batch_ok (q_batch s) ->
  batch_ok (q_batch (enqueue o s)) /\ pendingView (enqueue o s) = opMap stored (pendingView s) o.
Proof.
  intros Hb. unfold enqueue. destruct (decide _) as [_|_].
  - split; [done|]. unfold pendingView. cbn. by rewrite app_assoc, foldl_app.
  - destruct (recvOp_view s Hb) as [Hb' Hv]. split; [done|]. rewrite <- Hv. unfold pendingView. cbn.
    by rewrite app_assoc, foldl_app.
Qed.
(** ** They are runs of the store *)

Inductive sq_steps : sqliteStore -> list sqEvent -> sqliteStore -> Prop :=
| sqs_nil s : sq_steps s [] s
| sqs_cons s e s1 es s2 : sq_step s e s1 -> sq_steps s1 es s2 -> sq_steps s (e :: es) s2.

Lemma enqueue_steps o s : q_phase s <> WReturned -> (length (q_ops s) <= opsCap)%nat ->
  exists es, sq_steps s es (enqueue o s) /\ accepted es = [o] /\ commits es = [].
Proof.
  intros Hp Hl. destruct s as [t ops b d ph]. unfold enqueue. cbn [q_ops] in *. destruct (decide _) as [Hlt|Hge].
  - exists [SqAccepted o]. split; [|done]. eapply sqs_cons; [by apply sq_send|apply sqs_nil].
  - destruct ops as [|o' ops]; [cbn in Hge; unfold opsCap in Hge; lia|]. cbn in Hl.
    exists [SqQuiet; SqAccepted o]. split; [|done]. eapply sqs_cons; [by apply sq_recv|].
    eapply sqs_cons; [|apply sqs_nil]. cbn. apply sq_send. lia.
Qed.

Lemma drain_steps t ops b : exists es,
  sq_steps (mkStore t ops b true WDrain) es
    (mkStore t [] (foldl (fun (b : gmap Z storeOp) o => <[opID o := o]> b) b ops) true WDrain)
  /\ accepted es = [] /\ commits es = [].
Proof.
  revert b. induction ops as [|o ops IH]; intros b; [exists []; split; [apply sqs_nil|done]|].
  destruct (IH (<[opID o := o]> b)) as (es & Hes & ? & ?). exists (SqQuiet :: es).
  split; [|done]. eapply sqs_cons; [by apply sq_recv|exact Hes].
Qed.

Lemma sq_steps_app s1 es1 s2 es2 s3 : sq_steps s1 es1 s2 -> sq_steps s2 es2 s3 -> sq_steps s1 (es1 ++ es2) s3.
Proof. induction 1 as [|s e s' es s'' Hst _ IH]; [done|]. intros ?. eapply sqs_cons; [done|by apply IH]. Qed.

Lemma close_steps s : q_phase s = WLoop -> q_done s = false ->
  exists es, sq_steps s es (sqliteClose s) /\ accepted es = [] /\ commits es = [true].
Proof.
  destruct s as [t ops b d ph]. cbn. intros -> ->.
  destruct (drain_steps t ops b) as (es & Hes & Ha & Hc). set (b' := foldl _ b ops) in *.
  destruct (commit (healthy b') b' t) as [t' ok] eqn:Ec.
  assert (ok = true) as ->.
  { unfold commit in Ec. destruct (decide _); [by injection Ec|]. cbn in Ec.
    destruct (execAll_healthy b' (map_to_list b') t) as [t1 Ex]. rewrite Ex in Ec. by injection Ec. }
  exists (SqQuiet :: SqQuiet :: (es ++ [SqCommit true])). split.
  - eapply sqs_cons; [apply sq_close|]. eapply sqs_cons; [apply sq_drain|].
    eapply sq_steps_app; [exact Hes|]. eapply sqs_cons; [|].
    + eapply (sq_exit t b' (healthy b') t' true); [done|exact Ec].
    + unfold sqliteClose. cbn [q_batch q_ops q_table]. fold b'. rewrite Ec. apply sqs_nil.
  - unfold accepted, commits in *. cbn. rewrite !omap_app, Ha, Hc. done.
Qed.

(** ** The instance *)

Record openStore := mkOpen {
  o_store :> sqliteStore;
  o_batch : batch_ok (q_batch o_store);
  o_open : q_phase o_store = WLoop /\ q_done o_store = false
}.

Lemma enqueue_open o s : q_phase s = WLoop /\ q_done s = false ->
  q_phase (enqueue o s) = WLoop /\ q_done (enqueue o s) = false.
Proof. unfold enqueue, recvOp. destruct (decide _), (q_ops s); done. Qed.

Definition openPut (o : storeOp) (s : openStore) : openStore :=
  mkOpen (enqueue o s) (proj1 (enqueue_view o s (o_batch s))) (enqueue_open o s (o_open s)).

Lemma batch_ok_empty : batch_ok ∅.
Proof. intros j o Hj. by rewrite lookup_empty in Hj. Qed.

Definition openClose (s : openStore) : openStore :=
  mkOpen (reopen (sqliteClose s)) batch_ok_empty (conj eq_refl eq_refl).

#[export] Instance sqliteStore_ops : ReconnectStore openStore := {
  Load s := sqliteLoad true s;
  Put r s := openPut (OpPut r) s;
  Delete id s := openPut (OpDelete id) s;
  CloseStore := openClose
}.

Lemma load_view s : exists l, sqliteLoad true s = Some l
  /\ forall r, r ∈ l <-> view (q_table s) !! CCBID r = Some r.
Proof.
  eexists. split; [reflexivity|]. intros r. rewrite list_elem_of_omap. unfold view. rewrite map_lookup_imap. split.
  - intros ([id w] & Hin%elem_of_map_to_list & Hr). cbn in Hr. unfold loadRow in Hr.
    destruct (unseal (w_sealed w)) eqn:E1; [|done]. destruct (Unmarshal _) eqn:E2; [|done].
    injection Hr as <-. cbn. rewrite Hin. cbn. unfold loadRow. by rewrite E1, E2.
  - destruct (q_table s !! CCBID r) as [w|] eqn:Hw; [|done]. cbn. intros Hr.
    exists (CCBID r, w). split; [by apply elem_of_map_to_list|exact Hr].
Qed.

#[export, refine] Instance sqliteStore_laws : StoreLaws openStore := {
  contents s := pendingView s; norm := stored
}.
Proof.
  - apply stored_id.
  - intros r Hr. by rewrite stored_valid.
  - intros r s. apply (enqueue_view (OpPut r) s (o_batch s)).
  - intros id s. apply (enqueue_view (OpDelete id) s (o_batch s)).
  - intros s. cbn. rewrite <- (close_view s (o_batch s)). done.
  - intros s _. destruct (load_view (reopen (sqliteClose s))) as (l & Hl & Hin). exists l.
    split; [exact Hl|]. intros r. rewrite Hin. cbn. by rewrite <- (close_view s (o_batch s)).
Defined.
End store.

(** ** Running it *)

Section exec.
Context `{Sealing}.

Inductive sqCmd := SSend (o : storeOp) | SRecv | SClose | STick | SDrain | SExit.

(** One step against a healthy database; a command that is not possible is skipped. *)
Definition sq_do (c : sqCmd) (s : sqliteStore) : option (sqEvent * sqliteStore) :=
  let '(mkStore t ops b d ph) := s in
  match c, ph with
  | SSend o, _ =>
      if decide (length ops < opsCap)%nat then Some (SqAccepted o, mkStore t (ops ++ [o]) b d ph) else None
  | SClose, _ => if d then None else Some (SqQuiet, mkStore t ops b true ph)
  | SRecv, WReturned => None
  | SRecv, _ => match ops with o :: ops => Some (SqQuiet, mkStore t ops (<[opID o := o]> b) d ph) | [] => None end
  | STick, WLoop => let '(t', ok) := commit (healthy b) b t in Some (SqCommit ok, mkStore t' ops ∅ d WLoop)
  | SDrain, WLoop => if d then Some (SqQuiet, mkStore t ops b true WDrain) else None
  | SExit, WDrain =>
      match ops, d with
      | [], true => let '(t', ok) := commit (healthy b) b t in Some (SqCommit ok, mkStore t' [] ∅ true WReturned)
      | _, _ => None
      end
  | _, _ => None
  end.

Definition sq_exec (cs : list sqCmd) (s : sqliteStore) : list sqEvent * sqliteStore :=
  foldl (fun '(es, s) c => match sq_do c s with Some (e, s') => (es ++ [e], s') | None => (es, s) end) ([], s) cs.

Lemma sq_do_step c s e s' : sq_do c s = Some (e, s') -> sq_step s e s'.
Proof.
  destruct s as [t ops b d ph]. unfold sq_do. destruct c, ph; intros E;
    repeat (case_match; try done); simplify_eq;
    first [by apply sq_send | by apply sq_close | by apply sq_recv | by apply sq_drain
          | eapply (sq_tick _ _ b _ (healthy b)); [reflexivity|eassumption]
          | eapply (sq_exit _ b (healthy b)); [reflexivity|eassumption]].
Qed.

Lemma sq_exec_run cs s : sq_run s (sq_exec cs s).1 (sq_exec cs s).2.
Proof.
  unfold sq_exec. induction cs as [|c cs IH] using rev_ind; [apply sqr_nil|].
  rewrite foldl_app. cbn. destruct (foldl _ _ cs) as [es s1]. cbn in IH.
  destruct (sq_do c s1) as [[e s']|] eqn:E; [|done]. eapply sqr_snoc; [done|by eapply sq_do_step].
Qed.
End exec.

(** * Properties *)

(** C21: batched writes are atomic and ordered. Whatever the interleaving of
    callers, the writer and closing, and whichever transactions fail, the
    operations that entered the queue split, in their order, into the batches the
    writer committed or lost as a whole, the batch it is building and the queue; the
    database always holds exactly what the committed batches leave, each CCBID as
    its last operation there left it. Once the writer has returned, no commit failed
    and nothing was queued after it, [Load] returns exactly the last write per CCBID
    of all accepted operations. *)
Theorem sqlite_batches `{SealingLaws} t0 es s :
  sq_run (mkStore t0 [] ∅ false WLoop) es s ->
  (exists (bs : list (list storeOp * bool)) (cur : list storeOp),
    accepted es = (mjoin (map fst bs) ++ cur ++ q_ops s)%list /\ map snd bs = commits es
    /\ q_batch s = coalesce cur
    /\ view (q_table s) = foldl (opMap stored) (view t0) (committed bs))
  /\ (q_phase s = WReturned -> q_ops s = [] -> Forall (eq true) (commits es) ->
      exists l, sqliteLoad true s = Some l /\
        forall r, r ∈ l <-> foldl (opMap stored) (view t0) (accepted es) !! CCBID r = Some r).
Proof.
  intros (bs & cur & Ha & Hk & Hb & Hv & Hr)%sq_run_inv. split; [eauto 8|].
  intros Hp Hq Hok. destruct (load_view s) as (l & Hl & Hin). exists l. split; [done|]. intros r.
  rewrite Hin, Hv, Ha, Hr, Hq, !app_nil_r by done. rewrite <- Hk in Hok.
  by rewrite committed_all.
Qed.

(** A concrete sealing. *)
#[local] Instance demoSealing : Sealing := {
  Plain := sealedReconnect; Sealed := nat * sealedReconnect; Marshal p := p; Unmarshal := Some;
  seal n p := Some (n, p); unseal b := Some (snd b)
}.

#[local] Instance demoSealing_laws : SealingLaws.
Proof. split; [by intros n p b [= <-]|eauto|done|eauto]. Qed.

Definition demoRec (id : Z) (ck : string) : ReconnectRecord := mkRec id ck "10.0.0.1" "startd" (7 * Second + 5).

(** A put, a newer one for the same id, a commit, then a delete that a close flushes. *)
Definition demo_cmds : list sqCmd :=
  [SSend (OpPut (demoRec 1 "a")); SSend (OpPut (demoRec 2 "b")); SRecv; SRecv; SSend (OpPut (demoRec 1 "c"));
   SRecv; STick; SSend (OpDelete 2); SClose; SDrain; SRecv; SExit].

Definition demo_store_end : list sqEvent * sqliteStore :=
  sq_exec demo_cmds (mkStore ∅ [] ∅ false WLoop).

Lemma sqlite_batches_witness :
  sq_run (mkStore ∅ [] ∅ false WLoop) demo_store_end.1 demo_store_end.2
  /\ exists l, sqliteLoad true demo_store_end.2 = Some l
     /\ forall r, r ∈ l <->
          foldl (opMap stored) (view ∅) [OpPut (demoRec 1 "a"); OpPut (demoRec 2 "b"); OpPut (demoRec 1 "c");
            OpDelete 2] !! CCBID r = Some r.
Proof.
  assert (sq_run (mkStore ∅ [] ∅ false WLoop) demo_store_end.1 demo_store_end.2) as Hr by apply sq_exec_run.
  split; [exact Hr|].
  exact (proj2 (sqlite_batches ∅ _ _ Hr) eq_refl eq_refl
    ltac:(vm_compute; repeat constructor)).
Defined.
