(* ===== verification/Broker.v ===== *)
(** The broker (server.go, request.go, proxy.go): its tables, and the critical
    sections and decisions of its command handlers. Handlers run as threads in
    BrokerSys.v; here are the pieces each of them executes, as functions on the
    server state, and what they do on every branch. *)

From stdpp Require Import base gmap list strings numbers.
From Stdlib Require Import ZArith Lia Ascii.
From S2P Require Import Prelude GoStr FsConfig Contacts Reconnect.

#[local] Open Scope string_scope.
#[local] Open Scope Z_scope.

(** * State *)

(** A connection, as an identity. *)
Abbreviation conn := nat (only parsing).

Record target := mkTarget {
  t_id : Z;
  t_name : string;
  t_cookie : string;
  t_conn : conn
}.

Record replyResult := mkReply { rr_success : bool; rr_errMsg : string }.

(** A pending standard request; [q_reply] is what its channel of capacity one holds. *)
Record request := mkRequest { q_connectID : string; q_reply : option replyResult }.

(** A proxy session: its channel of capacity one and whether [done] is closed. *)
Record proxySession := mkSession {
  x_connectID : string;
  x_requester : conn;
  x_targetCh : option conn;
  x_done : bool
}.

(** Configuration of the broker, as far as the command handlers consult it. *)
Record BrokerConfig := mkBConfig {
  b_PublicAddress : string;
  b_Authorizer : option (string -> string -> string -> bool);
  b_ReconnectAllowAnyIP : bool;
  b_ReconnectTTL : Z;
  b_OutboundProxy : bool;
  b_Upstream : bool
}.

(** The tables. Requests and proxy sessions are shared objects: a handler keeps
    its reference after the table entry is gone. A request's reference is its id;
    a session's is the request number it was created with. *)
Record Server := mkServer {
  s_nextID : Z;                          (* uint64 *)
  s_nextReq : Z;                         (* uint64 *)
  s_targets : gmap Z target;
  s_reconnects : gmap Z ReconnectRecord;
  s_requests : gset Z;
  s_reqObj : gmap Z request;
  s_proxies : gmap string Z;
  s_sessObj : gmap Z proxySession;
  s_tunnelContact : option string
}.

Definition s_set_reg (s : Server) (n : Z) (ts : gmap Z target) (rs : gmap Z ReconnectRecord) : Server :=
  mkServer n (s_nextReq s) ts rs (s_requests s) (s_reqObj s) (s_proxies s) (s_sessObj s) (s_tunnelContact s).
Definition s_set_req (s : Server) (n : Z) (ks : gset Z) (os : gmap Z request) : Server :=
  mkServer (s_nextID s) n (s_targets s) (s_reconnects s) ks os (s_proxies s) (s_sessObj s) (s_tunnelContact s).
Definition s_set_prx (s : Server) (n : Z) (ps : gmap string Z) (os : gmap Z proxySession) : Server :=
  mkServer (s_nextID s) n (s_targets s) (s_reconnects s) (s_requests s) (s_reqObj s) ps os (s_tunnelContact s).

(** * Starting up *)

(** [Server.loadReconnects] on the records of the store: the table, and [nextID]
    past the highest id and a guard. *)
Definition loadRecords (recs : list ReconnectRecord) : gmap Z ReconnectRecord * Z :=
  foldl (fun '(m, mx) r => (<[CCBID r := r]> m, if CCBID r >? mx then CCBID r else mx)) (∅, 0) recs.

Definition loadReconnects (recs : list ReconnectRecord) : Server :=
  let '(m, maxID) := loadRecords recs in
  mkServer (if maxID >? 0 then u64 (maxID + 100) else 0) 0 ∅ m ∅ ∅ ∅ ∅ None.

(** * Authorization *)

(** The levels [RegisterOn] registers each command with. *)
Definition commandPerms (cfg : BrokerConfig) (cmd : command) : list string :=
  match cmd with
  | CommandRegister => ["DAEMON"; "ADVERTISE_STARTD"; "ADVERTISE_SCHEDD"; "ADVERTISE_MASTER"]
  | CommandRequest => ["READ"]
  | CommandProxyConnect => if b_OutboundProxy cfg then ["DAEMON"] else []
  | CommandGetTunnelAddress => if b_Upstream cfg then ["DAEMON"] else []
  | _ => []
  end.

(** [Server.authorize] for a peer known as [user] at [remote]. *)
Definition authorize (cfg : BrokerConfig) (cmd : command) (remote user : string) : bool :=
  match b_Authorizer cfg with
  | None => true
  | Some allow => existsb (fun perm => allow perm remote user) (commandPerms cfg cmd)
  end.

Section broker.
Context `{Cedar}.
Context (cfg : BrokerConfig).

(** * Registration *)

(** Which id and cookie a registration keeps, if it reconnects. *)
Definition reclaim (peerIP prevContact reqCookie : string) (s : Server) : option (Z * string) :=
  if String.eqb prevContact "" || String.eqb reqCookie "" then None else
  match parseContactID prevContact with
  | None => None
  | Some prevID =>
      match s_reconnects s !! prevID with
      | Some rec =>
          if String.eqb (Cookie rec) reqCookie
             && (b_ReconnectAllowAnyIP cfg || String.eqb (PeerIP rec) peerIP)
          then Some (prevID, Cookie rec) else None
      | None => None
      end
  end.

(** The critical section of [Server.handleRegister]. [generated] is what
    [GenerateConnectID] returns, if it is called. *)
Definition register (cn : conn) (peerIP : string) (ad : Ad) (generated : option string) (now : Z)
    (s : Server) : option (target * ReconnectRecord * Server) :=
  let name := AdString ad AttrName in
  let finish (id nextID : Z) (cookie : string) :=
    let t := mkTarget id name cookie cn in
    let rec := mkRec id cookie peerIP name now in
    Some (t, rec, s_set_reg s nextID (<[id := t]> (s_targets s)) (<[id := rec]> (s_reconnects s))) in
  match reclaim peerIP (AdString ad AttrCCBID) (AdString ad AttrClaimID) s with
  | Some (id, cookie) => finish id (s_nextID s) cookie
  | None =>
      match generated with
      | None => None
      | Some cookie => finish (u64 (s_nextID s + 1)) (u64 (s_nextID s + 1)) cookie
      end
  end.

(** Values of the ads the broker builds. *)
Inductive aval := VStr (s : string) | VBool (b : bool) | VCmd (c : command).
Definition outAd : Type := list (attr * aval).

(** The reply to a registration. *)
Definition registerReply (t : target) (s : Server) : outAd :=
  [(AttrCommand, VCmd CommandRegister);
   (AttrCCBID, VStr (contactString (b_PublicAddress cfg) (s_tunnelContact s) (t_id t)));
   (AttrClaimID, VStr (t_cookie t)); (AttrCCBStreaming, VBool true)].

(** [Server.removeTarget]: the state, and the record to persist. *)
Definition removeTarget (id now : Z) (s : Server) : Server * option ReconnectRecord :=
  match s_reconnects s !! id with
  | Some r => (s_set_reg s (s_nextID s) (delete id (s_targets s))
                 (<[id := touch r now]> (s_reconnects s)), Some (touch r now))
  | None => (s_set_reg s (s_nextID s) (delete id (s_targets s)) (s_reconnects s), None)
  end.

(** [Server.SweepReconnects]: the state, and the ids to delete from the store. *)
Definition isStale (now : Z) (s : Server) (p : Z * ReconnectRecord) : bool :=
  bool_decide (s_targets s !! p.1 = None) && (UpdatedAt p.2 <? now - b_ReconnectTTL cfg).

Definition SweepReconnects (now : Z) (s : Server) : Server * list Z :=
  let stale := map fst (List.filter (isStale now s) (map_to_list (s_reconnects s))) in
  (s_set_reg s (s_nextID s) (s_targets s) (foldr delete (s_reconnects s) stale), stale).

(** * Results of standard requests *)

(** [serveTarget]: a heartbeat, or a report for [deliverResult]. *)
Definition isHeartbeat (ad : Ad) : bool :=
  match AdInt ad AttrCommand with Some c => c =? commandInt CommandAlive | None => false end.

(** [Server.deliverResult]: the request it finds, then the send, dropped when the
    channel is full. *)
Definition findRequest (ad : Ad) (s : Server) : option (Z * replyResult) :=
  match ParseUint (AdString ad AttrRequestID) with
  | None => None
  | Some reqID =>
      if decide (reqID ∈ s_requests s) then
        Some (reqID, mkReply (default false (AdBool ad AttrResult)) (AdString ad AttrErrorString))
      else None
  end.

Definition sendReply (reqID : Z) (res : replyResult) (s : Server) : Server :=
  match s_reqObj s !! reqID with
  | Some (mkRequest cid None) =>
      s_set_req s (s_nextReq s) (s_requests s) (<[reqID := mkRequest cid (Some res)]> (s_reqObj s))
  | _ => s
  end.

Definition takeReply (reqID : Z) (s : Server) : option (replyResult * Server) :=
  match s_reqObj s !! reqID with
  | Some (mkRequest cid (Some res)) =>
      Some (res, s_set_req s (s_nextReq s) (s_requests s) (<[reqID := mkRequest cid None]> (s_reqObj s)))
  | _ => None
  end.

(** * Requests *)

Record routeContext := mkRoute { route : string; originalRequester : string; priorHop : string }.

Inductive failMsg :=
| FDenied | FMissing | FBadTarget (s : string) | FNoTarget (id : Z) | FForward | FTimeout
| FTarget (msg : string) | FDuplicate | FProxyForward | FProxyTimeout.

(** [requesterIdentity]. *)
Definition requesterIdentity (user remote : string) : string := user +:+ " at " +:+ remote.

Inductive decision :=
| DFail (m : failMsg)
| DProxy (t : target) (connectID name : string) (rc : routeContext)
| DStandard (t : target) (connectID returnAddr name : string).

(** Whether the return address is itself CCB-routed; an unparsable one is not. *)
Definition returnIsCCB (returnAddr : string) : bool :=
  match ParseSinful returnAddr with Some info => sin_isCCB info | None => false end.

(** [Server.handleRequest] from the ad it read to the mode it chooses. *)
Definition handleRequest (user remote : string) (ad : Ad) (s : Server) : decision :=
  if negb (authorize cfg CommandRequest remote user) then DFail FDenied else
  let targetContact := AdString ad AttrCCBID in
  let connectID := AdString ad AttrClaimID in
  let returnAddr := AdString ad AttrMyAddress in
  let name := AdString ad AttrName in
  let streamingRequired := default false (AdBool ad AttrCCBStreamingRequired) in
  let rt := AdString ad AttrCCBRoute in
  if String.eqb connectID "" || String.eqb returnAddr "" then DFail FMissing else
  match parseTargetID targetContact with
  | None => DFail (FBadTarget targetContact)
  | Some targetID =>
      match s_targets s !! targetID with
      | None => DFail (FNoTarget targetID)
      | Some t =>
          if streamingRequired || returnIsCCB returnAddr || negb (String.eqb rt "") then
            DProxy t connectID name
              (mkRoute rt (requesterIdentity user remote) (proxyAddrSinful (b_PublicAddress cfg)))
          else DStandard t connectID returnAddr name
      end
  end.

(** [Server.handleStandardRequest]: the entry it makes and removes, and the ad it
    forwards to the target. *)
Definition openRequest (connectID : string) (s : Server) : Z * Server :=
  let reqID := u64 (s_nextReq s + 1) in
  (reqID, s_set_req s reqID ({[reqID]} ∪ s_requests s)
            (<[reqID := mkRequest connectID None]> (s_reqObj s))).

Definition closeRequest (reqID : Z) (s : Server) : Server :=
  s_set_req s (s_nextReq s) (s_requests s ∖ {[reqID]}) (s_reqObj s).

Definition standardForward (returnAddr connectID name : string) (reqID : Z) : outAd :=
  [(AttrCommand, VCmd CommandRequest); (AttrMyAddress, VStr returnAddr); (AttrClaimID, VStr connectID);
   (AttrRequestID, VStr (FormatUint reqID)); (AttrName, VStr name)].

(** What a waiting requester is told: [None] of the argument is the timeout. *)
Definition standardOutcome (res : option replyResult) : option failMsg :=
  match res with
  | Some r => if rr_success r then None else Some (FTarget (rr_errMsg r))
  | None => Some FTimeout
  end.

(** [replySuccess] and [replyFailure]; the text of a failure is its [failMsg]. *)
Inductive outMsg :=
| MAd (ad : outAd)
| MSuccess (proxyMode : bool)
| MFailure (m : failMsg)
| MHello (connectID : string) (reqID : Z) (myAddr : string).

(** * Proxy sessions *)

(** The critical section of [proxyRelay]: the session, unless the connect id is
    already in use. The request number is spent either way. *)
Definition openProxy (connectID : string) (requester : conn) (s : Server) : Z * bool * Server :=
  let reqID := u64 (s_nextReq s + 1) in
  match s_proxies s !! connectID with
  | Some _ => (reqID, false, s_set_prx s reqID (s_proxies s) (s_sessObj s))
  | None => (reqID, true, s_set_prx s reqID (<[connectID := reqID]> (s_proxies s))
               (<[reqID := mkSession connectID requester None false]> (s_sessObj s)))
  end.

Definition closeProxy (connectID : string) (s : Server) : Server :=
  s_set_prx s (s_nextReq s) (delete connectID (s_proxies s)) (s_sessObj s).

Definition optAttr (a : attr) (v : string) : outAd :=
  if String.eqb v "" then [] else [(a, VStr v)].

Definition proxyForward (connectID name : string) (reqID : Z) (rc : routeContext) : outAd :=
  ([(AttrCommand, VCmd CommandRequest); (AttrMyAddress, VStr (proxyAddrSinful (b_PublicAddress cfg)));
    (AttrClaimID, VStr connectID); (AttrRequestID, VStr (FormatUint reqID)); (AttrName, VStr name)]
   ++ optAttr AttrCCBRoute (route rc) ++ optAttr AttrCCBOriginalRequester (originalRequester rc)
   ++ optAttr AttrCCBPriorHop (priorHop rc))%list.

(** What the client-facing hop answers before it splices. *)
Definition proxyReplies (connectID : string) (reqID : Z) : list outMsg :=
  [MSuccess true; MHello connectID reqID (proxyAddrSinful (b_PublicAddress cfg))].

(** A send on [targetCh] that does not block, and the receive of the waiting handler. *)
Definition offerTarget (ref : Z) (cn : conn) (s : Server) : option Server :=
  match s_sessObj s !! ref with
  | Some (mkSession cid rq None dn) =>
      Some (s_set_prx s (s_nextReq s) (s_proxies s) (<[ref := mkSession cid rq (Some cn) dn]> (s_sessObj s)))
  | _ => None
  end.

Definition takeTarget (ref : Z) (s : Server) : option (conn * Server) :=
  match s_sessObj s !! ref with
  | Some (mkSession cid rq (Some cn) dn) =>
      Some (cn, s_set_prx s (s_nextReq s) (s_proxies s) (<[ref := mkSession cid rq None dn]> (s_sessObj s)))
  | _ => None
  end.

(** [close(sess.done)]. *)
Definition closeDone (ref : Z) (s : Server) : Server :=
  match s_sessObj s !! ref with
  | Some (mkSession cid rq ch _) =>
      s_set_prx s (s_nextReq s) (s_proxies s) (<[ref := mkSession cid rq ch true]> (s_sessObj s))
  | None => s
  end.

(** [Server.handleReverseConnect] up to its wait for the splice, [ad] being what
    ReadReverseConnectAd returned: no ad, no session, a session that has a target
    already, or the connection handed over to session [ref]. *)
Inductive reverseOut := RNoAd | RNoSession | RSatisfied | RHanded (ref : Z).

Definition handleReverseConnect (cn : conn) (ad : option Ad) (s : Server) : Server * reverseOut :=
  match ad with
  | None => (s, RNoAd)
  | Some ad =>
      match s_proxies s !! AdString ad AttrClaimID with
      | None => (s, RNoSession)
      | Some ref =>
          match offerTarget ref cn s with Some s' => (s', RHanded ref) | None => (s, RSatisfied) end
      end
  end.

(** * Inbound relays *)

(** [Server.startInboundRelay] up to [proxyRelay]: the next hop and the context
    forwarded to it, or [None] when the upstream connection is dropped. *)
Definition startInboundRelay (rt orig : string) (generated : option string) (s : Server)
  : option (target * string * routeContext) :=
  let '(head, tail) := splitRoute rt in
  match parseTargetID head with
  | None => None
  | Some targetID =>
      if String.eqb head "" then None else
      match s_targets s !! targetID, generated with
      | Some t, Some connectID =>
          Some (t, connectID, mkRoute tail orig (proxyAddrSinful (b_PublicAddress cfg)))
      | _, _ => None
      end
  end.
End broker.

(** * Invariant of the registration tables *)

Record srv_ok (s : Server) : Prop := {
  so_next : 0 <= s_nextID s < 2 ^ 64;
  so_rec id r : s_reconnects s !! id = Some r -> CCBID r = id /\ 0 <= id <= s_nextID s;
  so_target id t : s_targets s !! id = Some t -> t_id t = id
    /\ exists r, s_reconnects s !! id = Some r /\ Cookie r = t_cookie t
}.

Lemma so_target_id s id t : srv_ok s -> s_targets s !! id = Some t -> 0 <= id <= s_nextID s.
Proof. intros Hs Ht. destruct (so_target _ Hs id t Ht) as (_ & r & Hr & _). by apply (so_rec _ Hs id r). Qed.

Section broker_lemmas.
Context `{Cedar}.
Context (cfg : BrokerConfig).

Lemma reclaim_spec ip prev ck s id cookie : reclaim cfg ip prev ck s = Some (id, cookie) ->
  parseContactID prev = Some id /\ ck <> ""
  /\ exists r, s_reconnects s !! id = Some r /\ Cookie r = ck /\ cookie = ck
    /\ (b_ReconnectAllowAnyIP cfg = true \/ PeerIP r = ip).
Proof.
  unfold reclaim. destruct (String.eqb prev "" || _) eqn:E; [done|].
  apply orb_false_iff in E as [_ Hck]. apply String.eqb_neq in Hck.
  destruct (parseContactID prev) as [prevID|]; [|done].
  destruct (s_reconnects s !! prevID) as [r|] eqn:Hr; [|done].
  destruct (_ && _) eqn:Hm; [|done]. apply andb_true_iff in Hm as [Hc Hip].
  apply String.eqb_eq in Hc. injection 1 as <- <-. split; [done|]. split; [done|].
  exists r. repeat split; try done. apply orb_true_iff in Hip as [|Hip]; [by left|right].
  by apply String.eqb_eq in Hip.
Qed.

Lemma reclaim_some ip prev ck s id r : parseContactID prev = Some id -> prev <> "" -> ck <> "" ->
  s_reconnects s !! id = Some r -> Cookie r = ck ->
  (b_ReconnectAllowAnyIP cfg = true \/ PeerIP r = ip) -> reclaim cfg ip prev ck s = Some (id, ck).
Proof.
  intros Hp Hne Hck Hr Hc Hip. unfold reclaim.
  apply String.eqb_neq in Hne as ->. apply String.eqb_neq in Hck as ->. cbn [orb].
  rewrite Hp, Hr, Hc, String.eqb_refl. cbn [andb].
  destruct Hip as [->| ->]; [done|]. by rewrite String.eqb_refl, orb_true_r.
Qed.

(** The two ways a registration can go. *)
Lemma register_cases cn ip ad gen now s t rec s' :
  register cfg cn ip ad gen now s = Some (t, rec, s') ->
  exists id nextID cookie,
    t = mkTarget id (AdString ad AttrName) cookie cn
    /\ rec = mkRec id cookie ip (AdString ad AttrName) now
    /\ s' = s_set_reg s nextID (<[id := t]> (s_targets s)) (<[id := rec]> (s_reconnects s))
    /\ ((reclaim cfg ip (AdString ad AttrCCBID) (AdString ad AttrClaimID) s = Some (id, cookie)
           /\ nextID = s_nextID s)
        \/ (reclaim cfg ip (AdString ad AttrCCBID) (AdString ad AttrClaimID) s = None
           /\ gen = Some cookie /\ id = u64 (s_nextID s + 1) /\ nextID = id)).
Proof.
  unfold register. destruct (reclaim _ _ _ _ _) as [[id cookie]|].
  - injection 1 as <- <- <-. eexists _, _, _. repeat split; eauto.
  - destruct gen as [cookie|]; [|done]. injection 1 as <- <- <-. eexists _, _, _. repeat split; eauto 6.
Qed.

Lemma register_ok cn ip ad gen now s t rec s' :
  srv_ok s -> s_nextID s < 2 ^ 64 - 1 -> register cfg cn ip ad gen now s = Some (t, rec, s') -> srv_ok s'.
Proof.
  intros Hs Hn (id & nextID & cookie & -> & -> & -> & Hc)%register_cases.
  assert (s_nextID s <= nextID < 2 ^ 64 /\ 0 <= id <= nextID) as [Hle Hid].
  { pose proof (so_next _ Hs). destruct Hc as [[Hr ->]|(_ & _ & -> & ->)].
    - apply reclaim_spec in Hr as (_ & _ & r & Hr & _). apply (so_rec _ Hs) in Hr. lia.
    - rewrite u64_small by lia. lia. }
  split; cbn [s_set_reg s_nextID s_reconnects s_targets].
  - pose proof (so_next _ Hs). lia.
  - intros i r [[<- <-]|[_ Hr]]%lookup_insert_Some; [done|]. apply (so_rec _ Hs) in Hr. lia.
  - intros i t [[<- <-]|[Hne Ht]]%lookup_insert_Some.
    + split; [done|]. eexists. rewrite lookup_insert_eq. done.
    + destruct (so_target _ Hs i t Ht) as (? & r & Hr & ?). split; [done|].
      exists r. by rewrite lookup_insert_ne.
Qed.

Lemma removeTarget_ok id now s s' rec : srv_ok s -> removeTarget id now s = (s', rec) -> srv_ok s'.
Proof.
  intros Hs E. unfold removeTarget in E.
  destruct (s_reconnects s !! id) as [r|] eqn:Hr; injection E as <- <-;
    split; cbn [s_set_reg s_nextID s_reconnects s_targets]; try apply Hs.
  - intros i r' [[<- <-]|[_ H']]%lookup_insert_Some; [|by apply (so_rec _ Hs)].
    by apply (so_rec _ Hs) in Hr.
  - intros i t [Hne Ht]%lookup_delete_Some. destruct (so_target _ Hs i t Ht) as (? & r' & Hr' & ?).
    split; [done|]. exists r'. by rewrite lookup_insert_ne.
  - intros i t [Hne Ht]%lookup_delete_Some. by apply (so_target _ Hs).
Qed.

Lemma lookup_foldr_delete (l : list Z) (m : gmap Z ReconnectRecord) i r :
  foldr delete m l !! i = Some r <-> (i ∉ l) /\ m !! i = Some r.
Proof.
  induction l as [|j l IH]; cbn; [set_solver|]. rewrite lookup_delete_Some, IH. set_solver.
Qed.

Lemma sweep_stale now s i : i ∈ snd (SweepReconnects cfg now s) <->
  exists r, s_reconnects s !! i = Some r /\ s_targets s !! i = None
    /\ UpdatedAt r < now - b_ReconnectTTL cfg.
Proof.
  cbn [SweepReconnects snd]. rewrite list_elem_of_fmap. split.
  - intros ([j r] & -> & Hin). rewrite list_elem_of_In in Hin. apply filter_In in Hin as [Hin Hst].
    unfold isStale in Hst. cbn [fst snd] in *. breflect. exists r. repeat split; try done.
    apply elem_of_map_to_list, list_elem_of_In. done.
  - intros (r & Hr & Ht & Hu). exists (i, r). split; [done|]. rewrite list_elem_of_In. apply filter_In.
    split; [apply list_elem_of_In; by apply elem_of_map_to_list|]. unfold isStale. cbn [fst snd].
    rewrite bool_decide_true by done. cbn. by apply Z.ltb_lt.
Qed.

Lemma sweep_lookup now s i r : s_reconnects (fst (SweepReconnects cfg now s)) !! i = Some r <->
  s_reconnects s !! i = Some r
  /\ (s_targets s !! i <> None \/ now - b_ReconnectTTL cfg <= UpdatedAt r).
Proof.
  change (s_reconnects (fst (SweepReconnects cfg now s)))
    with (foldr delete (s_reconnects s) (snd (SweepReconnects cfg now s))).
  rewrite lookup_foldr_delete, sweep_stale. split.
  - intros [Hn Hr]. split; [done|]. destruct (decide (s_targets s !! i = None)); [|by left].
    right. destruct (decide (UpdatedAt r < now - b_ReconnectTTL cfg)); [|lia].
    exfalso. apply Hn. eauto.
  - intros [Hr Hk]. split; [|done]. intros (r' & Hr' & Ht & Hu).
    rewrite Hr in Hr'. injection Hr' as <-. destruct Hk; [done|lia].
Qed.

Lemma sweep_ok now s : srv_ok s -> srv_ok (fst (SweepReconnects cfg now s)).
Proof.
  intros Hs. split; [apply Hs|..].
  - intros i r [Hr _]%sweep_lookup. by apply (so_rec _ Hs).
  - intros i t Ht. cbn [SweepReconnects fst s_set_reg s_targets] in Ht.
    destruct (so_target _ Hs i t Ht) as (? & r & Hr & ?). split; [done|]. exists r. split; [|done].
    apply sweep_lookup. split; [done|]. left. congruence.
Qed.

(** ** Loading *)

Lemma loadRecords_spec l m mx : loadRecords l = (m, mx) ->
  0 <= mx /\ (forall i r, m !! i = Some r -> r ∈ l /\ CCBID r = i) /\ (forall r, r ∈ l -> CCBID r <= mx)
  /\ (forall r, r ∈ l -> exists r', m !! CCBID r = Some r') /\ (mx = 0 \/ exists r, r ∈ l /\ CCBID r = mx).
Proof.
  unfold loadRecords. revert m mx. induction l as [|r l IH] using rev_ind; intros m mx E.
  - injection E as <- <-. split; [lia|]. split; [by intros ? ? ?|].
    split; [by intros ? ?%not_elem_of_nil|]. split; [by intros ? ?%not_elem_of_nil|by left].
  - rewrite foldl_app in E. cbn in E. destruct (foldl _ _ l) as [m0 mx0]. injection E as <- <-.
    destruct (IH _ _ eq_refl) as (H1 & H2 & H3 & H4 & H5). rewrite Z.gtb_ltb. clear IH.
    assert (forall q, q ∈ (l ++ [r])%list <-> q ∈ l \/ q = r) as Hin
      by (intros q; by rewrite elem_of_app, list_elem_of_singleton).
    setoid_rewrite Hin. split; [destruct (_ <? _) eqn:E; breflect; lia|]. split; [|split; [|split]].
    + intros i q [[<- <-]|[_ Hl]]%lookup_insert_Some; [by split; [right|]|].
      apply H2 in Hl as [? ?]. auto.
    + intros q [Hq| ->]; [apply H3 in Hq|]; destruct (_ <? _) eqn:E; breflect; lia.
    + intros q [Hq| ->]; [|eexists; apply lookup_insert_eq].
      destruct (decide (CCBID q = CCBID r)) as [->|]; [eexists; apply lookup_insert_eq|].
      rewrite lookup_insert_ne by done. by apply H4.
    + destruct (mx0 <? CCBID r) eqn:E; [right; exists r; auto|].
      destruct H5 as [->|(q & Hq & <-)]; [by left|right]. exists q. auto.
Qed.
End broker_lemmas.

(** * A concrete cedar library *)

(** Ads as attribute lists, contacts as an address, a [#] and an id; used to run
    the model. *)
Fixpoint splitHash (s : string) : option (string * string) :=
  match s with
  | EmptyString => None
  | String c s' =>
      match splitHash s' with
      | Some (a, b) => Some (String c a, b)
      | None => if Ascii.eqb c "#"%char then Some ("", s') else None
      end
  end.

Definition demoAd : Type := list (attr * string).

Definition adLookup (ad : demoAd) (a : attr) : option string :=
  snd <$> List.find (fun p => bool_decide (fst p = a)) ad.

#[local] Instance demoCedar : Cedar := {
  Ad := demoAd;
  AdString ad a := default "" (adLookup ad a);
  AdInt ad a := match adLookup ad a with Some v => ParseUint v | None => None end;
  AdBool ad a := match adLookup ad a with Some v => Some (String.eqb v "true") | None => None end;
  commandInt c := match c with CommandRegister => 67 | CommandRequest => 68 | CommandReverseConnect => 69
                  | CommandProxyConnect => 70 | CommandGetTunnelAddress => 71 | CommandAlive => 441 end;
  ContactString addr id := addr +:+ "#" +:+ FormatUint id;
  SplitCCBContact := splitHash;
  ParseSinful s := Some (mkSinful s "" (has "#"%char s))
}.

Lemma splitHash_none s : has "#"%char s = false -> splitHash s = None.
Proof.
  induction s as [|c s IH]; [done|]. unfold has in *. cbn [chars existsb]. intros Hs.
  apply orb_false_iff in Hs as [Hc Hs]. cbn [splitHash]. rewrite IH by done.
  rewrite Ascii.eqb_sym, Hc. done.
Qed.

Lemma splitHash_last a b : has "#"%char b = false -> splitHash (a +:+ "#" +:+ b) = Some (a, b).
Proof.
  intros Hb. induction a as [|c a IH].
  - rewrite !string_app_nil_l. rewrite string_app_cons, string_app_nil_l. cbn [splitHash].
    by rewrite splitHash_none.
  - rewrite string_app_cons. cbn [splitHash]. by rewrite IH.
Qed.

Lemma FormatUint_no_hash id : 0 <= id < 2 ^ 64 -> has "#"%char (FormatUint id) = false.
Proof.
  intros Hid. destruct (has "#"%char (FormatUint id)) eqn:E; [|done]. unfold has in E.
  apply existsb_exists in E as (c & Hin & Hc). apply Ascii.eqb_eq in Hc as <-.
  pose proof (ParseUint_FormatUint id Hid) as Hp. unfold ParseUint in Hp.
  destruct (FormatUint id) eqn:Ef; [done|]. rewrite <- Ef in *.
  apply parseDigits_chars in Hp. rewrite List.Forall_forall in Hp. by destruct (Hp _ Hin).
Qed.

#[local] Instance demoCedar_laws : CedarLaws.
Proof.
  split.
  - intros addr id. by exists addr.
  - intros a id Hid. apply splitHash_last. by apply FormatUint_no_hash.
Qed.

Definition demo_cfg : BrokerConfig := mkBConfig "broker.example:9618" None false (24 * 3600 * Second) false false.

(** * Properties *)

(** C30: a CCBID is given only to a peer that proves it. A registration either
    reclaims an id whose record has the very cookie the peer presented (and, unless
    reconnects from any address are allowed, its IP), keeping id and cookie, or
    gets an id one above every id ever used with the newly generated cookie; only
    that entry of the tables changes and the tables stay consistent. *)
Theorem register_spec `{Cedar} cfg cn ip ad gen now s t rec s' :
  srv_ok s -> s_nextID s < 2 ^ 64 - 1 -> register cfg cn ip ad gen now s = Some (t, rec, s') ->
  srv_ok s' /\ CCBID rec = t_id t /\ Cookie rec = t_cookie t
  /\ s_targets s' = <[t_id t := t]> (s_targets s) /\ s_reconnects s' = <[t_id t := rec]> (s_reconnects s)
  /\ ((exists old, s_reconnects s !! t_id t = Some old /\ Cookie old = AdString ad AttrClaimID
         /\ t_cookie t = Cookie old /\ (b_ReconnectAllowAnyIP cfg = true \/ PeerIP old = ip)
         /\ s_nextID s' = s_nextID s)
      \/ (gen = Some (t_cookie t) /\ t_id t = s_nextID s + 1 /\ s_nextID s' = t_id t
         /\ s_targets s !! t_id t = None /\ s_reconnects s !! t_id t = None)).
Proof.
  intros Hs Hn E. split; [by eapply register_ok|].
  apply register_cases in E as (id & nextID & cookie & -> & -> & -> & Hc).
  cbn [t_id t_cookie CCBID Cookie s_set_reg s_targets s_reconnects s_nextID].
  do 4 (split; [done|]). pose proof (so_next _ Hs).
  destruct Hc as [[Hr ->]|(_ & -> & -> & ->)]; [left|right].
  - apply reclaim_spec in Hr as (_ & _ & r & Hr & Hck & -> & Hip). exists r. by rewrite Hck.
  - rewrite u64_small by lia. repeat split; try done.
    + destruct (s_targets s !! _) eqn:Ht; [|done]. apply (so_target_id _ _ _ Hs) in Ht. lia.
    + destruct (s_reconnects s !! _) eqn:Hr; [|done]. apply (so_rec _ Hs) in Hr. lia.
Qed.

Definition demo_srv : Server := loadReconnects [mkRec 7 "c00kie" "10.0.0.1" "startd" 0].

Lemma demo_srv_ok : srv_ok demo_srv.
Proof.
  split; [vm_compute; split; congruence|..].
  - intros id r Hr. unfold demo_srv, loadReconnects in *. cbn in *.
    apply lookup_insert_Some in Hr as [[<- <-]|[_ Hr]]; [vm_compute; intuition congruence|].
    by rewrite lookup_empty in Hr.
  - intros id t Ht. cbn in Ht. by rewrite lookup_empty in Ht.
Qed.

Definition demo_ad : demoAd := [(AttrName, "startd"); (AttrClaimID, "c00kie"); (AttrCCBID, "broker.example:9618#7")].

Lemma register_spec_witness : exists t rec s',
  @register demoCedar demo_cfg 3 "10.0.0.1" demo_ad (Some "fresh") 5 demo_srv = Some (t, rec, s')
  /\ t_id t = 7 /\ t_cookie t = "c00kie" /\ srv_ok s'.
Proof.
  eexists _, _, _. split; [vm_compute; reflexivity|]. split; [reflexivity|]. split; [reflexivity|].
  eapply (@register_spec demoCedar demo_cfg 3 "10.0.0.1" demo_ad (Some "fresh") 5 demo_srv);
    [apply demo_srv_ok|vm_compute; reflexivity|vm_compute; reflexivity].
Defined.

(** C31: a restart keeps identities. Whatever store is used, a broker that loads
    the records of a closed store lets a target that presents the contact and
    cookie of a stored record from its recorded IP have its CCBID back, and every
    id it hands out afresh is more than a hundred above every stored id. *)
Theorem restart_keeps_ids `{CedarLaws} {S : Type} `{StoreLaws S} cfg (st : S) recs tunnel id rec cn ad gen now :
  keyed (contents st) -> (forall i r, contents st !! i = Some r -> 0 <= i < 2 ^ 64 - 101) ->
  Load (CloseStore st) = Some recs -> contents st !! id = Some rec -> Cookie rec <> "" ->
  AdString ad AttrCCBID = contactString (b_PublicAddress cfg) tunnel id ->
  AdString ad AttrClaimID = Cookie rec ->
  (exists t rec' s', register cfg cn (PeerIP rec) ad gen now (loadReconnects recs) = Some (t, rec', s')
     /\ t_id t = id /\ t_cookie t = Cookie rec)
  /\ forall cn2 ip2 ad2 gen2 now2 t rec' s', AdString ad2 AttrClaimID = "" ->
     register cfg cn2 ip2 ad2 gen2 now2 (loadReconnects recs) = Some (t, rec', s') ->
     forall i r, contents st !! i = Some r -> 0 < i -> i + 100 < t_id t.
Proof.
  intros Hk Hb Hl Hid Hne Hc Hck. destruct (load_close st Hk) as (l & Hl' & Hin).
  rewrite Hl in Hl'. injection Hl' as <-.
  unfold loadReconnects. destruct (loadRecords recs) as [m mx] eqn:El.
  destruct (loadRecords_spec _ _ _ El) as (H1' & H2' & H3' & H4' & H5').
  assert (forall i r, contents st !! i = Some r -> m !! i = Some r /\ i <= mx) as Hm.
  { intros i r Hi. pose proof (Hk _ _ Hi) as Hi'. assert (r ∈ recs) as Hr by (apply Hin; by rewrite Hi').
    split; [|rewrite <- Hi'; by apply H3']. destruct (H4' _ Hr) as [r' Hr']. rewrite Hi' in Hr'.
    destruct (H2' _ _ Hr') as [Hin' Hid']. apply Hin in Hin'. rewrite Hid', Hi in Hin'. congruence. }
  split.
  - destruct (Hm _ _ Hid) as [Hmid _].
    eassert (reclaim cfg (PeerIP rec) (AdString ad AttrCCBID) (AdString ad AttrClaimID) _ = Some (id, _)) as Hr.
    { eapply (reclaim_some _ _ _ _ (mkServer _ _ _ m _ _ _ _ _)); [| |by rewrite Hck|exact Hmid|done|by right].
      - rewrite Hc. apply parseContactID_contactString. pose proof (Hb _ _ Hid). lia.
      - rewrite Hc. destruct (contactString_shape (b_PublicAddress cfg) tunnel id) as [a ->].
        intros E. apply (f_equal String.length) in E. rewrite !string_length_app in E. cbn in E. lia. }
    unfold register. rewrite Hr. eexists _, _, _. split; [reflexivity|]. by split.
  - intros cn2 ip2 ad2 gen2 now2 t rec' s' Hnone E i r Hi Hpos.
    destruct (Hm _ _ Hi) as [_ Hle].
    apply register_cases in E as (id' & nextID & cookie & -> & -> & -> & [[Hr _]|(_ & _ & -> & _)]).
    { apply reclaim_spec in Hr as (_ & Hx & _). done. }
    cbn [t_id s_nextID]. rewrite Z.gtb_ltb. destruct (0 <? mx) eqn:E0; breflect; [|lia].
    assert (mx < 2 ^ 64 - 101) as Hmx.
    { destruct H5' as [->|(q & Hq & <-)]; [lia|]. apply Hin in Hq. apply Hb in Hq. lia. }
    rewrite (u64_small (mx + 100)), u64_small by lia. lia.
Qed.

Lemma restart_keeps_ids_witness :
  exists t rec' s', @register demoCedar demo_cfg 3 "10.0.0.1" demo_ad None 5
    (loadReconnects [mkRec 7 "c00kie" "10.0.0.1" "startd" 0]) = Some (t, rec', s') /\ t_id t = 7
    /\ t_cookie t = "c00kie".
Proof.
  apply (proj1 (@restart_keeps_ids demoCedar demoCedar_laws memoryStore _ _ demo_cfg (memPut (mkRec 7 "c00kie" "10.0.0.1" "startd" 0) newMemoryStore)
    [mkRec 7 "c00kie" "10.0.0.1" "startd" 0] None 7 (mkRec 7 "c00kie" "10.0.0.1" "startd" 0) 3 demo_ad None 5
    ltac:(refine (keyed_put ∅ (mkRec 7 "c00kie" "10.0.0.1" "startd" 0) _); intros i r Hr; rewrite lookup_empty in Hr; discriminate)
    ltac:(intros i r Hr; cbn in Hr; apply lookup_insert_Some in Hr as [[<- _]|[_ Hr]];
          [lia|rewrite lookup_empty in Hr; discriminate])
    ltac:(reflexivity) ltac:(reflexivity) ltac:(discriminate) ltac:(reflexivity) ltac:(reflexivity))).
Defined.

(** The sweep removes exactly the expired records of targets that are not
    connected: a record survives if and only if its target is connected or it is
    younger than the TTL, the ids it deletes from the store are exactly those of
    the records it dropped, and consistent tables stay consistent. *)
Theorem SweepReconnects_spec cfg now s :
  (forall i r, s_reconnects (fst (SweepReconnects cfg now s)) !! i = Some r <->
     s_reconnects s !! i = Some r /\ (s_targets s !! i <> None \/ now - b_ReconnectTTL cfg <= UpdatedAt r))
  /\ (forall i, i ∈ snd (SweepReconnects cfg now s) <->
     s_reconnects s !! i <> None /\ s_reconnects (fst (SweepReconnects cfg now s)) !! i = None)
  /\ s_targets (fst (SweepReconnects cfg now s)) = s_targets s
  /\ (srv_ok s -> srv_ok (fst (SweepReconnects cfg now s))).
Proof.
  split; [apply sweep_lookup|]. split; [|split; [done|apply sweep_ok]].
  intros i. rewrite sweep_stale. split.
  - intros (r & Hr & Ht & Hu). split; [congruence|].
    destruct (s_reconnects (fst _) !! i) as [r'|] eqn:E; [|done].
    apply sweep_lookup in E as [Hr' Hk]. rewrite Hr in Hr'. injection Hr' as <-. destruct Hk; [done|lia].
  - intros [Hn Hd]. destruct (s_reconnects s !! i) as [r|] eqn:Hr; [|done]. exists r. split; [done|].
    destruct (decide (s_targets s !! i = None)) as [|Ht].
    + split; [done|]. destruct (decide (UpdatedAt r < now - b_ReconnectTTL cfg)); [done|].
      rewrite (proj2 (sweep_lookup cfg now s i r)) in Hd; [done|]. split; [done|right; lia].
    + rewrite (proj2 (sweep_lookup cfg now s i r)) in Hd; [done|]. split; [done|by left].
Qed.

(** A request is served only for an authorized requester that names a
    registered target. It is proxied exactly when the requester asked for
    streaming, its return address is CCB-routed, or there is a route to follow;
    a proxied request names this broker as prior hop and the authenticated
    requester as origin, and keeps the route. *)
Theorem handleRequest_spec `{Cedar} cfg user remote ad s t :
  let connectID := AdString ad AttrClaimID in
  let returnAddr := AdString ad AttrMyAddress in
  let name := AdString ad AttrName in
  let proxied := default false (AdBool ad AttrCCBStreamingRequired) = true
                 \/ returnIsCCB returnAddr = true \/ AdString ad AttrCCBRoute <> "" in
  let served := authorize cfg CommandRequest remote user = true /\ connectID <> "" /\ returnAddr <> ""
    /\ exists id, parseTargetID (AdString ad AttrCCBID) = Some id /\ s_targets s !! id = Some t in
  (handleRequest cfg user remote ad s = DStandard t connectID returnAddr name <-> served /\ ~ proxied)
  /\ (handleRequest cfg user remote ad s
      = DProxy t connectID name (mkRoute (AdString ad AttrCCBRoute) (requesterIdentity user remote)
          (proxyAddrSinful (b_PublicAddress cfg))) <-> served /\ proxied).
Proof.
  cbv zeta. unfold handleRequest.
  destruct (authorize cfg CommandRequest remote user); cbn [negb]; [|split; split; [done|naive_solver..]].
  destruct (String.eqb_spec (AdString ad AttrClaimID) "") as [->|H1]; [split; split; [done|naive_solver..]|].
  destruct (String.eqb_spec (AdString ad AttrMyAddress) "") as [->|H2]; [split; split; [done|naive_solver..]|].
  cbn [orb]. destruct (parseTargetID _) as [id|]; [|split; split; [done|naive_solver..]].
  destruct (s_targets s !! id) as [t'|] eqn:Ht; [|split; split; [done|naive_solver..]].
  destruct (default false _); cbn [orb].
  { split; split; try naive_solver. }
  destruct (returnIsCCB _); cbn [orb]; [split; split; naive_solver|].
  destruct (String.eqb_spec (AdString ad AttrCCBRoute) "") as [->|H3]; cbn [negb]; split; split; naive_solver.
Qed.
