(* ===== verification/BrokerSys.v ===== *)
(** The broker as a concurrent system: every command handler of Broker.v is a
    thread that moves through its critical sections and its reads, writes and
    waits, interleaved in any order with all others. The theorems are invariants
    of every reachable state: identities, pending requests, and proxy sessions. *)

From stdpp Require Import base gmap list strings numbers.
From Stdlib Require Import ZArith Lia.
From S2P Require Import Prelude GoStr FsConfig Contacts Reconnect Broker.

(** * Threads and events *)

Section sys.
Context `{Cedar}.
Context (cfg : BrokerConfig).

(** Where a handler is. The comments name the next thing it does. *)
Inductive thread :=
(* handleRegister *)
| HRegister (cn : nat) (ip : string) (ad : Ad)        (* the critical section *)
| HPut (t : target) (rec : ReconnectRecord)           (* ReconnectStore.Put *)
| HReply (t : target)                                 (* the reply *)
| HServe (t : target)                                 (* serveTarget *)
| HDeliver (t : target) (reqID : Z) (res : replyResult)  (* the send of deliverResult *)
| HRemove (t : target)                                (* removeTarget *)
| HRemovePut (rec : option ReconnectRecord)           (* its Put *)
(* handleRequest, standard mode *)
| HRequest (cn : nat) (user remote : string) (ad : Ad)
| HStd (cn : nat) (t : target) (connectID returnAddr name : string)
| HStdFwd (cn : nat) (t : target) (reqID : Z) (connectID returnAddr name : string)
| HStdWait (cn : nat) (reqID : Z)
| HStdClose (reqID : Z)                               (* the deferred delete *)
(* proxyRelay *)
| HRelay (up : nat) (rt orig : string)                (* startInboundRelay *)
| HPrx (rq : nat) (reply : bool) (t : target) (connectID name : string) (rc : routeContext)
| HPrxFwd (rq : nat) (reply : bool) (t : target) (connectID name : string) (rc : routeContext) (ref : Z)
| HPrxWait (rq : nat) (reply : bool) (connectID : string) (ref : Z)
| HPrxGot (rq : nat) (reply : bool) (connectID : string) (ref : Z) (tc : nat)
| HPrxSplice (rq : nat) (connectID : string) (ref : Z) (tc : nat)
| HPrxClose (connectID : string) (ref : Z)            (* the deferred delete *)
(* handleReverseConnect *)
| HReverse (cn : nat) (connectID : string)
| HOffer (cn : nat) (ref : Z)
| HAwait (cn : nat) (ref : Z)
(* SweepReconnects *)
| HSweep
| HSweepDel (stale : list Z)
| HDone.

Inductive event :=
| EvIssued (t : target)                               (* a registration took effect *)
| EvRequest (cn : nat) (user remote contact cid nm rt : string)  (* a CCB_REQUEST read from [cn] is handled *)
| EvRelay (up : nat) (rt orig : string)               (* a route is taken up for connection [up] *)
| EvStore (o : storeOp)
| EvSent (cn : nat) (m : outMsg)
| EvReply (cn : nat) (reqID : Z) (m : outMsg)         (* the answer to a standard request *)
| EvReport (t : Z) (reqID : Z) (res : replyResult)    (* target [t] reports on a request *)
| EvReverse (cn : nat) (connectID : string)           (* a connection presents a connect id *)
| EvSplice (connectID : string) (ref : Z) (rq tc : nat)
| EvClose (cn : nat).

(** What a request asks for: the target's contact, the connect id, a name and a route. *)
Definition requestEvent (cn : nat) (user remote : string) (ad : Ad) : event :=
  EvRequest cn user remote (AdString ad AttrCCBID) (AdString ad AttrClaimID) (AdString ad AttrName)
    (AdString ad AttrCCBRoute).

(** [Server.proxyFail]. *)
Definition proxyFail (reply : bool) (rq : nat) (m : failMsg) : list event :=
  if reply then [EvSent rq (MFailure m)] else [EvClose rq].

Definition standardReply (res : option replyResult) : outMsg :=
  match standardOutcome res with None => MSuccess false | Some m => MFailure m end.

(** One step of a handler: the server and the thread before and after, and what
    it did. The model has no clock: a wait may end by its timer or its context at
    any time, and nothing is said about how long it takes. A write to a target is
    one step that may fail: [target.write] holds [writeMu] during the whole write, so
    writes to one target follow one another, and a handler that waits for the mutex
    is one whose write step has not been taken yet. The record of a registration is
    read for [Put] outside the lock, so a concurrent [removeTarget] may have stamped
    it already. *)
Inductive hstep : Server -> thread -> Server -> thread -> list event -> Prop :=
| hs_register s cn ip ad gen now t rec s' :
    s_nextID s < 2 ^ 64 - 1 -> register cfg cn ip ad gen now s = Some (t, rec, s') ->
    hstep s (HRegister cn ip ad) s' (HPut t rec) [EvIssued t]
| hs_register_fail s cn ip ad gen now :
    register cfg cn ip ad gen now s = None -> hstep s (HRegister cn ip ad) s HDone []
| hs_put s t rec rec' : rec' = rec \/ (exists now, rec' = touch rec now) ->
    hstep s (HPut t rec) s (HReply t) [EvStore (OpPut rec')]
| hs_reply s t : hstep s (HReply t) s (HServe t) [EvSent (t_conn t) (MAd (registerReply cfg t s))]
| hs_reply_fail s t : hstep s (HReply t) s (HRemove t) []
| hs_alive s t ad : isHeartbeat ad = true ->
    hstep s (HServe t) s (HServe t) [EvSent (t_conn t) (MAd [(AttrCommand, VCmd CommandAlive)])]
| hs_report s t ad reqID res : isHeartbeat ad = false -> findRequest ad s = Some (reqID, res) ->
    hstep s (HServe t) s (HDeliver t reqID res) []
| hs_report_none s t ad : isHeartbeat ad = false -> findRequest ad s = None ->
    hstep s (HServe t) s (HServe t) []
| hs_deliver s t reqID res :
    hstep s (HDeliver t reqID res) (sendReply reqID res s) (HServe t) [EvReport (t_id t) reqID res]
| hs_drop s t : hstep s (HServe t) s (HRemove t) []
| hs_remove s t now s' rec : removeTarget (t_id t) now s = (s', rec) ->
    hstep s (HRemove t) s' (HRemovePut rec) []
| hs_remove_put s rec :
    hstep s (HRemovePut rec) s HDone (match rec with Some r => [EvStore (OpPut r)] | None => [] end)
| hs_request s cn user remote ad T evs :
    (T, evs) = match handleRequest cfg user remote ad s with
               | DFail m => (HDone, [EvSent cn (MFailure m)])
               | DProxy t connectID name rc => (HPrx cn true t connectID name rc, [])
               | DStandard t connectID returnAddr name => (HStd cn t connectID returnAddr name, [])
               end ->
    hstep s (HRequest cn user remote ad) s T (requestEvent cn user remote ad :: evs)
| hs_std s cn t cid ra nm reqID s' :
    s_nextReq s < 2 ^ 64 - 1 -> openRequest cid s = (reqID, s') ->
    hstep s (HStd cn t cid ra nm) s' (HStdFwd cn t reqID cid ra nm) []
| hs_std_fwd s cn t reqID cid ra nm :
    hstep s (HStdFwd cn t reqID cid ra nm) s (HStdWait cn reqID)
      [EvSent (t_conn t) (MAd (standardForward ra cid nm reqID))]
| hs_std_fwd_fail s cn t reqID cid ra nm :
    hstep s (HStdFwd cn t reqID cid ra nm) s (HStdClose reqID) [EvReply cn reqID (MFailure FForward)]
| hs_std_reply s cn reqID res s' : takeReply reqID s = Some (res, s') ->
    hstep s (HStdWait cn reqID) s' (HStdClose reqID) [EvReply cn reqID (standardReply (Some res))]
| hs_std_timeout s cn reqID :
    hstep s (HStdWait cn reqID) s (HStdClose reqID) [EvReply cn reqID (standardReply None)]
| hs_std_cancel s cn reqID : hstep s (HStdWait cn reqID) s (HStdClose reqID) []
| hs_std_close s reqID : hstep s (HStdClose reqID) (closeRequest reqID s) HDone []
| hs_relay s up rt orig gen t cid rc : startInboundRelay cfg rt orig gen s = Some (t, cid, rc) ->
    hstep s (HRelay up rt orig) s (HPrx up false t cid "inbound-relay" rc) [EvRelay up rt orig]
| hs_relay_drop s up rt orig gen : startInboundRelay cfg rt orig gen s = None ->
    hstep s (HRelay up rt orig) s HDone [EvRelay up rt orig; EvClose up]
| hs_prx s rq reply t cid nm rc ref s' :
    s_nextReq s < 2 ^ 64 - 1 -> openProxy cid rq s = (ref, true, s') ->
    hstep s (HPrx rq reply t cid nm rc) s' (HPrxFwd rq reply t cid nm rc ref) []
| hs_prx_dup s rq reply t cid nm rc ref s' :
    s_nextReq s < 2 ^ 64 - 1 -> openProxy cid rq s = (ref, false, s') ->
    hstep s (HPrx rq reply t cid nm rc) s' HDone (proxyFail reply rq FDuplicate)
| hs_prx_fwd s rq reply t cid nm rc ref :
    hstep s (HPrxFwd rq reply t cid nm rc ref) s (HPrxWait rq reply cid ref)
      [EvSent (t_conn t) (MAd (proxyForward cfg cid nm ref rc))]
| hs_prx_fwd_fail s rq reply t cid nm rc ref :
    hstep s (HPrxFwd rq reply t cid nm rc ref) s (HPrxClose cid ref) (proxyFail reply rq FProxyForward)
| hs_prx_take s rq reply cid ref tc s' : takeTarget ref s = Some (tc, s') ->
    hstep s (HPrxWait rq reply cid ref) s' (HPrxGot rq reply cid ref tc) []
| hs_prx_timeout s rq reply cid ref :
    hstep s (HPrxWait rq reply cid ref) s (HPrxClose cid ref) (proxyFail reply rq FProxyTimeout)
| hs_prx_cancel s rq reply cid ref : hstep s (HPrxWait rq reply cid ref) s (HPrxClose cid ref) []
| hs_prx_answer s rq (reply : bool) cid ref tc :
    hstep s (HPrxGot rq reply cid ref tc) s (HPrxSplice rq cid ref tc)
      ((if reply then map (EvSent rq) (proxyReplies cfg cid ref) else []) ++ [EvSplice cid ref rq tc])
| hs_prx_answer_fail s rq cid ref tc (n : nat) : (n < 2)%nat ->
    hstep s (HPrxGot rq true cid ref tc) (closeDone ref s) (HPrxClose cid ref)
      (map (EvSent rq) (take n (proxyReplies cfg cid ref)) ++ [EvClose tc])
| hs_prx_splice s rq cid ref tc :
    hstep s (HPrxSplice rq cid ref tc) (closeDone ref s) (HPrxClose cid ref) [EvClose rq; EvClose tc]
| hs_prx_close s cid ref : hstep s (HPrxClose cid ref) (closeProxy cid s) HDone []
| hs_reverse s cn cid ref : s_proxies s !! cid = Some ref ->
    hstep s (HReverse cn cid) s (HOffer cn ref) [EvReverse cn cid]
| hs_reverse_none s cn cid : s_proxies s !! cid = None -> hstep s (HReverse cn cid) s HDone []
| hs_offer s cn ref s' : offerTarget ref cn s = Some s' -> hstep s (HOffer cn ref) s' (HAwait cn ref) []
| hs_offer_full s cn ref : offerTarget ref cn s = None -> hstep s (HOffer cn ref) s HDone []
| hs_await s cn ref x : s_sessObj s !! ref = Some x -> x_done x = true ->
    hstep s (HAwait cn ref) s HDone []
| hs_await_cancel s cn ref : hstep s (HAwait cn ref) s HDone []
| hs_sweep s now s' stale : SweepReconnects cfg now s = (s', stale) ->
    hstep s HSweep s' (HSweepDel stale) []
| hs_sweep_del s stale :
    hstep s (HSweepDel stale) s HDone (map (fun id => EvStore (OpDelete id)) stale).

(** * The system *)

Record bsys := mkSys { y_srv : Server; y_thr : gmap nat thread; y_ev : list event }.

(** A command arrives (a registration only if authorized), a route is relayed, or
    the sweep timer fires. *)
Inductive spawnable : thread -> Prop :=
| sp_register cn ip remote user ad :
    authorize cfg CommandRegister remote user = true -> spawnable (HRegister cn ip ad)
| sp_request cn user remote ad : spawnable (HRequest cn user remote ad)
| sp_reverse cn cid : spawnable (HReverse cn cid)
| sp_relay up rt orig : spawnable (HRelay up rt orig)
| sp_sweep : spawnable HSweep.

Inductive bstep : bsys -> bsys -> Prop :=
| bs_spawn s thr ev i T : thr !! i = None -> spawnable T ->
    bstep (mkSys s thr ev) (mkSys s (<[i := T]> thr) ev)
| bs_run s thr ev i T s' T' evs : thr !! i = Some T -> hstep s T s' T' evs ->
    bstep (mkSys s thr ev) (mkSys s' (<[i := T']> thr) (ev ++ evs)).

(** A broker that has just started. *)
Definition started (y : bsys) : Prop :=
  srv_ok (y_srv y) /\ s_targets (y_srv y) = ∅ /\ s_requests (y_srv y) = ∅ /\ s_reqObj (y_srv y) = ∅
  /\ s_proxies (y_srv y) = ∅ /\ s_sessObj (y_srv y) = ∅ /\ s_nextReq (y_srv y) = 0
  /\ y_thr y = ∅ /\ y_ev y = [].

(** * Identities *)

(** A record a handler is about to persist. *)
Definition rec_of (T : thread) : option ReconnectRecord :=
  match T with HPut _ r => Some r | HRemovePut (Some r) => Some r | _ => None end.

(** Cookie [ck] is bound to CCBID [id] somewhere: it was issued, is in the table,
    went to the store, or is on its way there. *)
Inductive known (y : bsys) (id : Z) (ck : string) : Prop :=
| kn_issued t : EvIssued t ∈ y_ev y -> t_id t = id -> t_cookie t = ck -> known y id ck
| kn_store r : EvStore (OpPut r) ∈ y_ev y -> CCBID r = id -> Cookie r = ck -> known y id ck
| kn_table r : s_reconnects (y_srv y) !! id = Some r -> Cookie r = ck -> known y id ck
| kn_thread i T r : y_thr y !! i = Some T -> rec_of T = Some r -> CCBID r = id -> Cookie r = ck ->
    known y id ck.

Record id_inv (y : bsys) : Prop := {
  id_srv : srv_ok (y_srv y);
  id_bound id ck : known y id ck -> 0 <= id <= s_nextID (y_srv y);
  id_fun id ck ck' : known y id ck -> known y id ck' -> ck = ck'
}.

(** What a step of a handler may add to what is known. *)
Definition step_known (s : Server) (T : thread) (s' : Server) (T' : thread) (evs : list event) : Prop :=
  exists new : option (Z * string),
  let old id ck := (exists r, s_reconnects s !! id = Some r /\ Cookie r = ck)
                   \/ (exists r, rec_of T = Some r /\ CCBID r = id /\ Cookie r = ck) in
  let ok id ck := old id ck \/ new = Some (id, ck) in
  match new with Some (id, _) => s_nextID s < id /\ id <= s_nextID s' | None => True end
  /\ (forall t, EvIssued t ∈ evs -> ok (t_id t) (t_cookie t))
  /\ (forall r, EvStore (OpPut r) ∈ evs -> ok (CCBID r) (Cookie r))
  /\ (forall id r, s_reconnects s' !! id = Some r -> ok id (Cookie r))
  /\ (forall r, rec_of T' = Some r -> ok (CCBID r) (Cookie r)).

Lemma sendReply_reg reqID res s : s_reconnects (sendReply reqID res s) = s_reconnects s
  /\ s_nextID (sendReply reqID res s) = s_nextID s /\ s_targets (sendReply reqID res s) = s_targets s.
Proof. unfold sendReply. by destruct (s_reqObj s !! reqID) as [[? []]|]. Qed.

Lemma takeReply_reg reqID res s s' : takeReply reqID s = Some (res, s') ->
  s_reconnects s' = s_reconnects s /\ s_nextID s' = s_nextID s /\ s_targets s' = s_targets s.
Proof. unfold takeReply. destruct (s_reqObj s !! reqID) as [[? []]|]; [|done..]. by injection 1 as <- <-. Qed.

Lemma openProxy_reg cid rq s ref b s' : openProxy cid rq s = (ref, b, s') ->
  s_reconnects s' = s_reconnects s /\ s_nextID s' = s_nextID s /\ s_targets s' = s_targets s.
Proof. unfold openProxy. destruct (s_proxies s !! cid); by injection 1 as <- <- <-. Qed.

Lemma offerTarget_reg ref cn s s' : offerTarget ref cn s = Some s' ->
  s_reconnects s' = s_reconnects s /\ s_nextID s' = s_nextID s /\ s_targets s' = s_targets s.
Proof. unfold offerTarget. destruct (s_sessObj s !! ref) as [[? ? [] ?]|]; [done| |done]. by injection 1 as <-. Qed.

Lemma takeTarget_reg ref tc s s' : takeTarget ref s = Some (tc, s') ->
  s_reconnects s' = s_reconnects s /\ s_nextID s' = s_nextID s /\ s_targets s' = s_targets s.
Proof. unfold takeTarget. destruct (s_sessObj s !! ref) as [[? ? [] ?]|]; [|done..]. by injection 1 as <- <-. Qed.

Lemma closeDone_reg ref s : s_reconnects (closeDone ref s) = s_reconnects s
  /\ s_nextID (closeDone ref s) = s_nextID s /\ s_targets (closeDone ref s) = s_targets s.
Proof. unfold closeDone. by destruct (s_sessObj s !! ref) as [[]|]. Qed.

(** Events that bind no cookie. *)
Definition quiet (e : event) : bool :=
  match e with EvIssued _ => false | EvStore (OpPut _) => false | _ => true end.

(** Handlers that leave the registration tables alone know nothing new. *)
Lemma step_known_quiet s T s' T' evs :
  s_reconnects s' = s_reconnects s -> rec_of T' = None -> forallb quiet evs = true ->
  step_known s T s' T' evs.
Proof.
  intros E1 E2 Hq. rewrite forallb_forall in Hq. exists None. cbn zeta. split; [done|]. rewrite E1, E2.
  split; [|split; [|split; [eauto 6|done]]].
  - intros t Hin%list_elem_of_In. by specialize (Hq _ Hin).
  - intros r Hin%list_elem_of_In. by specialize (Hq _ Hin).
Qed.

Lemma quiet_fail reply rq m : forallb quiet (proxyFail reply rq m) = true.
Proof. by destruct reply. Qed.

Lemma register_known s cn ip ad gen now t rec s' : srv_ok s -> s_nextID s < 2 ^ 64 - 1 ->
  register cfg cn ip ad gen now s = Some (t, rec, s') ->
  step_known s (HRegister cn ip ad) s' (HPut t rec) [EvIssued t].
Proof.
  intros Hs Hn E.
  apply register_cases in E as (id & nextID & cookie & -> & -> & -> & Hc). pose proof (so_next _ Hs).
  destruct Hc as [[Hr ->]|(_ & _ & -> & ->)].
  + apply reclaim_spec in Hr as (_ & _ & r & Hr & Hck & -> & _). exists None.
    cbn zeta. split; [done|]. split; [|split; [|split]].
    * intros q [= ->]%list_elem_of_singleton. eauto.
    * by intros q ?%list_elem_of_singleton.
    * intros i q. cbn [s_set_reg s_reconnects].
      intros [[<- <-]|[_ Hq]]%lookup_insert_Some; eauto 6.
    * intros q [= <-]. eauto 6.
  + exists (Some (u64 (s_nextID s + 1), cookie)). cbn zeta. split; [cbn; rewrite u64_small; lia|].
    split; [|split; [|split]].
    * intros q [= ->]%list_elem_of_singleton. by right.
    * by intros q ?%list_elem_of_singleton.
    * intros i q. cbn [s_set_reg s_reconnects].
      intros [[<- <-]|[_ Hq]]%lookup_insert_Some; [by right|eauto 6].
    * intros q [= <-]. by right.
Qed.

Lemma remove_known s t now s' rec : srv_ok s -> removeTarget (t_id t) now s = (s', rec) ->
  step_known s (HRemove t) s' (HRemovePut rec) [].
Proof.
  intros Hs E.
  exists None. unfold removeTarget in E. cbn zeta. split; [done|].
  destruct (s_reconnects s !! t_id t) as [r|] eqn:Hr; injection E as <- <-;
    (split; [by intros q ?%not_elem_of_nil|]; split; [by intros q ?%not_elem_of_nil|]; split).
  + intros i q. cbn [s_set_reg s_reconnects].
    intros [[<- <-]|[_ Hq]]%lookup_insert_Some; eauto 8.
  + intros q [= <-]. cbn. left. left. exists r. split; [|done]. by rewrite (proj1 (so_rec _ Hs _ _ Hr)).
  + eauto 6.
  + done.
Qed.

Lemma hstep_known s T s' T' evs : srv_ok s -> hstep s T s' T' evs -> step_known s T s' T' evs.
Proof.
  intros Hs Hst.
  destruct Hst as [s cn ip ad gen now t rec s' Hn E| |s t rec rec' Hrec| | | | | |s t reqID res| |s t now s' rec E|s rec
    |s cn user remote ad T evs E| | | | | | | | | |s rq reply t cid nm rc ref s' Hn E
    |s rq reply t cid nm rc ref s' Hn E| | |s rq reply cid ref tc s' E| | |s rq reply cid ref tc|s rq cid ref tc n Hlt| | | | |
    s cn ref s' E| | | |s now s' stale E|s stale].
  all: try (apply step_known_quiet; [done|done|first [done | apply quiet_fail]]).
  - by apply register_known with gen now.
  - exists None. cbn zeta. split; [done|]. split; [by intros q ?%list_elem_of_singleton|].
    split; [|split; [eauto 6|done]]. intros q [= ->]%list_elem_of_singleton.
    destruct Hrec as [->|[now ->]]; cbn; eauto 8.
  - apply step_known_quiet; [apply sendReply_reg|done..].
  - by apply remove_known with now.
  - exists None. cbn zeta. split; [done|]. destruct rec as [r|].
    + split; [by intros q ?%list_elem_of_singleton|]. split; [|split; [eauto 6|done]].
      intros q [= ->]%list_elem_of_singleton. eauto 8.
    + split; [by intros q ?%not_elem_of_nil|]. split; [by intros i ?%not_elem_of_nil|].
      split; [eauto 6|done].
  - destruct (handleRequest _ _ _ _ _); injection E as -> ->; by apply step_known_quiet.
  - apply step_known_quiet; [|done|done].
    match goal with E : openRequest _ _ = _ |- _ => by injection E as <- <- end.
  - apply step_known_quiet; [by eapply takeReply_reg|done|done].
  - apply step_known_quiet; [by eapply openProxy_reg|done|done].
  - apply step_known_quiet; [by eapply openProxy_reg|done|apply quiet_fail].
  - apply step_known_quiet; [by eapply takeTarget_reg|done|done].
  - apply step_known_quiet; [done|done|]. destruct reply; done.
  - apply step_known_quiet; [apply closeDone_reg|done|]. by destruct n as [|[|[|]]].
  - apply step_known_quiet; [apply closeDone_reg|done|done].
  - apply step_known_quiet; [by eapply offerTarget_reg|done|done].
  - exists None. cbn zeta. split; [done|]. split; [by intros q ?%not_elem_of_nil|].
    split; [by intros q ?%not_elem_of_nil|]. split; [|done].
    intros i q Hq. replace s' with (fst (SweepReconnects cfg now s)) in Hq by (by rewrite E).
    apply sweep_lookup in Hq as [Hq _]. eauto 6.
  - apply step_known_quiet; [done|done|]. rewrite forallb_forall. intros e (i & <- & _)%in_map_iff. done.
Qed.


Lemma srv_ok_same s s' : s_reconnects s' = s_reconnects s /\ s_nextID s' = s_nextID s
  /\ s_targets s' = s_targets s -> srv_ok s -> srv_ok s'.
Proof. intros (E1 & E2 & E3) []. split; by rewrite ?E1, ?E2, ?E3. Qed.

(** Every step keeps the registration tables consistent and never lowers [nextID]. *)
Lemma hstep_ok s T s' T' evs : hstep s T s' T' evs -> srv_ok s -> srv_ok s' /\ s_nextID s <= s_nextID s'.
Proof.
  intros Hst Hs.
  assert (s_reconnects s' = s_reconnects s /\ s_nextID s' = s_nextID s /\ s_targets s' = s_targets s ->
    srv_ok s' /\ s_nextID s <= s_nextID s') as Hq.
  { intros Hq. split; [by eapply srv_ok_same|]. destruct Hq as (_ & -> & _). lia. }
  destruct Hst; try (by apply Hq);
    try (apply Hq; first [apply sendReply_reg | by eapply takeReply_reg | by eapply openProxy_reg
         | by eapply offerTarget_reg | by eapply takeTarget_reg | apply closeDone_reg]).
  - split; [by eapply register_ok|].
    match goal with E : register _ _ _ _ _ _ _ = _ |- _ =>
      apply register_cases in E as (id & nextID & cookie & -> & -> & -> & [[_ ->]|(_ & _ & -> & ->)]) end; [done|].
    cbn [s_set_reg s_nextID]. pose proof (so_next _ Hs). rewrite u64_small; lia.
  - match goal with E : removeTarget ?i ?n _ = _ |- _ =>
      split; [by eapply removeTarget_ok|]; unfold removeTarget in E;
      destruct (s_reconnects s !! i); injection E as <- <- end; done.
  - apply Hq. match goal with E : openRequest _ _ = _ |- _ => by injection E as <- <- end.
  - match goal with E : SweepReconnects ?c ?n _ = _ |- _ =>
      pose proof (sweep_ok c n s Hs) as Hr; rewrite E in Hr; injection E as <- <- end.
    split; [exact Hr|cbn; lia].
Qed.

(** What is known after a step was known before, or is the fresh pair. *)
Lemma known_step s thr ev i T s' T' evs : thr !! i = Some T -> step_known s T s' T' evs ->
  exists new : option (Z * string),
    match new with Some (id, _) => s_nextID s < id /\ id <= s_nextID s' | None => True end
    /\ forall id ck, known (mkSys s' (<[i := T']> thr) (ev ++ evs)) id ck ->
       known (mkSys s thr ev) id ck \/ new = Some (id, ck).
Proof.
  intros Hi (new & Hn & H1 & H2 & H3 & H4). exists new. split; [exact Hn|].
  assert (forall id ck, ((exists r, s_reconnects s !! id = Some r /\ Cookie r = ck)
    \/ (exists r, rec_of T = Some r /\ CCBID r = id /\ Cookie r = ck)) \/ new = Some (id, ck) ->
    known (mkSys s thr ev) id ck \/ new = Some (id, ck)) as Hok.
  { intros id ck [[(r & ? & ?)|(r & ? & ? & ?)]|?]; [left|left|by right].
    - by eapply kn_table. - by eapply kn_thread. }
  intros id ck [q He <- <-|r He <- <-|r Hr <-|j Tj r Hj Hr <- <-]; cbn [y_srv y_thr y_ev] in *.
  - apply elem_of_app in He as [He|He]; [left; by eapply kn_issued|by apply Hok, H1].
  - apply elem_of_app in He as [He|He]; [left; by eapply kn_store|by apply Hok, H2].
  - by apply Hok, H3.
  - apply lookup_insert_Some in Hj as [[-> <-]|[_ Hj]]; [by apply Hok, H4|left; by eapply kn_thread].
Qed.

Lemma bstep_id y y' : bstep y y' -> id_inv y -> id_inv y'.
Proof.
  intros Hst [Hs Hb Hf]. destruct Hst as [s thr ev i T Hi Hsp|s thr ev i T s' T' evs Hi Hst].
  - assert (forall id ck, known (mkSys s (<[i := T]> thr) ev) id ck -> known (mkSys s thr ev) id ck) as Hk.
    { intros id ck [q He <- <-|r He <- <-|r Hr <-|j Tj r Hj Hr <- <-]; cbn [y_srv y_thr y_ev] in *;
        [by eapply kn_issued|by eapply kn_store|by eapply kn_table|].
      apply lookup_insert_Some in Hj as [[-> <-]|[_ Hj]]; [|by eapply kn_thread].
      destruct Hsp; done. }
    split; [done|naive_solver..].
  - cbn in Hs. destruct (hstep_ok _ _ _ _ _ Hst Hs) as [Hs' Hle].
    destruct (known_step s thr ev i T s' T' evs Hi (hstep_known _ _ _ _ _ Hs Hst)) as (new & Hn & Hk).
    split; [done|..].
    + intros id ck [Hold| ->]%Hk; cbn; [apply Hb in Hold; cbn in Hold; lia|].
      pose proof (so_next _ Hs). lia.
    + intros id ck ck' H1 H2. apply Hk in H1, H2.
      destruct H1 as [H1|H1], H2 as [H2|H2]; [by eapply Hf| | |congruence]; subst new;
        match goal with Hx : known _ _ _ |- _ => apply Hb in Hx; cbn in Hx; lia end.
Qed.

Lemma started_id y : started y -> id_inv y.
Proof.
  intros (Hs & _ & _ & _ & _ & _ & _ & Ht & He). split; [done|..].
  - intros id ck [q Hin|r Hin|r Hr|i T r Hi]; rewrite ?He, ?Ht in *;
      [by apply not_elem_of_nil in Hin..|by apply (so_rec _ Hs id r)|by rewrite lookup_empty in Hi].
  - intros id ck ck' [q Hin|r Hin|r Hr <-|i T r Hi] [q' Hin'|r' Hin'|r' Hr' <-|i' T' r' Hi'];
      rewrite ?He, ?Ht in *;
      try (by apply not_elem_of_nil in Hin); try (by apply not_elem_of_nil in Hin');
      try (by rewrite lookup_empty in Hi); try (by rewrite lookup_empty in Hi'); congruence.
Qed.


(** * Pending requests and sessions *)

(** What a handler has in a table: a request, or a session under a connect id,
    with its request number. *)
Definition ref_of (T : thread) : option (option string * Z) :=
  match T with
  | HStdFwd _ _ r _ _ _ | HStdWait _ r | HStdClose r => Some (None, r)
  | HPrxFwd _ _ _ cid _ _ ref | HPrxWait _ _ cid ref | HPrxGot _ _ cid ref _
  | HPrxSplice _ cid ref _ | HPrxClose cid ref => Some (Some cid, ref)
  | _ => None
  end.

Definition held (s : Server) (k : option string * Z) : Prop :=
  match k with (None, r) => r ∈ s_requests s | (Some cid, ref) => s_proxies s !! cid = Some ref end.

Record tab_inv (y : bsys) : Prop := {
  tb_next : 0 <= s_nextReq (y_srv y) < 2 ^ 64;
  tb_table k : held (y_srv y) k <-> exists i T, y_thr y !! i = Some T /\ ref_of T = Some k;
  tb_bound k : held (y_srv y) k -> 0 < k.2 <= s_nextReq (y_srv y);
  tb_uniq i j T T' k k' : y_thr y !! i = Some T -> y_thr y !! j = Some T' ->
    ref_of T = Some k -> ref_of T' = Some k' -> k.2 = k'.2 -> i = j
}.

(** How a step changes the tables. *)
Inductive tab_change (s : Server) (T : thread) (s' : Server) (T' : thread) : Prop :=
| tc_same : ref_of T' = ref_of T -> (forall k, held s' k <-> held s k) ->
    s_nextReq s <= s_nextReq s' < 2 ^ 64 -> tab_change s T s' T'
| tc_open k : ref_of T = None -> ref_of T' = Some k -> k.2 = s_nextReq s + 1 ->
    s_nextReq s' = s_nextReq s + 1 -> s_nextReq s' < 2 ^ 64 ->
    (forall k', held s' k' <-> k' = k \/ held s k') -> tab_change s T s' T'
| tc_close k : ref_of T = Some k -> ref_of T' = None -> s_nextReq s' = s_nextReq s ->
    (forall k', held s' k' <-> k' <> k /\ held s k') -> tab_change s T s' T'.

Lemma tab_quiet s T s' T' : ref_of T' = ref_of T -> 0 <= s_nextReq s < 2 ^ 64 ->
  s_requests s' = s_requests s -> s_proxies s' = s_proxies s -> s_nextReq s' = s_nextReq s ->
  tab_change s T s' T'.
Proof.
  intros Hr Hn E1 E2 E3. apply tc_same; [done| |lia].
  intros [[cid|] r]; cbn; by rewrite ?E1, ?E2.
Qed.

(** The operations that only touch registrations or shared objects. *)
Definition same_tabs (s s' : Server) : Prop :=
  s_requests s' = s_requests s /\ s_proxies s' = s_proxies s /\ s_nextReq s' = s_nextReq s.

Lemma sendReply_tabs reqID res s : same_tabs s (sendReply reqID res s).
Proof. unfold sendReply. by destruct (s_reqObj s !! reqID) as [[? []]|]. Qed.

Lemma closeDone_tabs ref s : same_tabs s (closeDone ref s).
Proof. unfold closeDone. by destruct (s_sessObj s !! ref) as [[]|]. Qed.

Lemma takeReply_tabs reqID res s s' : takeReply reqID s = Some (res, s') -> same_tabs s s'.
Proof. unfold takeReply. destruct (s_reqObj s !! reqID) as [[? []]|]; [|done..]. by injection 1 as <- <-. Qed.

Lemma offerTarget_tabs ref cn s s' : offerTarget ref cn s = Some s' -> same_tabs s s'.
Proof. unfold offerTarget. destruct (s_sessObj s !! ref) as [[? ? [] ?]|]; [done| |done]. by injection 1 as <-. Qed.

Lemma takeTarget_tabs ref tc s s' : takeTarget ref s = Some (tc, s') -> same_tabs s s'.
Proof. unfold takeTarget. destruct (s_sessObj s !! ref) as [[? ? [] ?]|]; [|done..]. by injection 1 as <- <-. Qed.

Lemma register_tabs cn ip ad gen now s t rec s' :
  register cfg cn ip ad gen now s = Some (t, rec, s') -> same_tabs s s'.
Proof. by intros (? & ? & ? & -> & -> & -> & _)%register_cases. Qed.

Lemma removeTarget_tabs id now s s' rec : removeTarget id now s = (s', rec) -> same_tabs s s'.
Proof. unfold removeTarget. destruct (s_reconnects s !! id); by injection 1 as <- <-. Qed.

Lemma sweep_tabs now s s' l : SweepReconnects cfg now s = (s', l) -> same_tabs s s'.
Proof. by injection 1 as <- <-. Qed.

Lemma hstep_tab s T s' T' evs : 0 <= s_nextReq s < 2 ^ 64 ->
  (forall k, ref_of T = Some k -> held s k) -> hstep s T s' T' evs -> tab_change s T s' T'.
Proof.
  intros Hn Hk Hst.
  assert (same_tabs s s' -> ref_of T' = ref_of T -> tab_change s T s' T') as Hq
    by (intros (? & ? & ?) ?; by apply tab_quiet).
  destruct Hst; try (by apply Hq);
    try (apply Hq; [first [apply sendReply_tabs | apply closeDone_tabs | by eapply takeReply_tabs
      | by eapply offerTarget_tabs | by eapply takeTarget_tabs | by eapply register_tabs
      | by eapply removeTarget_tabs | by eapply sweep_tabs]|done]).
  - apply Hq; [done|]. destruct (handleRequest _ _ _ _ _);
      match goal with E : (_, _) = (_, _) |- _ => by injection E as -> -> end.
  - match goal with E : openRequest _ _ = _ |- _ => injection E as <- <- end.
    rewrite u64_small by lia. eapply tc_open; [done..|cbn; lia|].
    intros [[c|] r]; cbn; set_solver.
  - eapply tc_close; [done..|]. intros [[c|] r]; cbn; set_solver.
  - match goal with E : openProxy _ _ _ = _ |- _ => unfold openProxy in E;
      destruct (s_proxies s !! cid) eqn:Hc; [done|]; injection E as <- <- end.
    rewrite u64_small by lia. eapply tc_open; [done..|cbn; lia|].
    intros [[c|] r]; cbn; [|set_solver]. rewrite lookup_insert_Some.
    destruct (decide (c = cid)) as [->|]; [rewrite Hc|]; naive_solver.
  - match goal with E : openProxy _ _ _ = _ |- _ => unfold openProxy in E;
      destruct (s_proxies s !! cid) eqn:Hc; [|done]; injection E as <- <- end.
    rewrite u64_small by lia. apply tc_same; [done|done|cbn; lia].
  - pose proof (Hk _ eq_refl) as Hh. cbn in Hh. eapply tc_close; [done..|].
    intros [[c|] r]; cbn; [|naive_solver]. rewrite lookup_delete_Some.
    destruct (decide (c = cid)) as [->|]; [rewrite Hh|]; naive_solver.
Qed.


Lemma spawnable_ref T : spawnable T -> ref_of T = None.
Proof. by intros []. Qed.

(** Threads that hold something, after thread [i] has moved. *)
Lemma holders_insert (thr : gmap nat thread) i T T' k : thr !! i = Some T ->
  (exists j U, <[i := T']> thr !! j = Some U /\ ref_of U = Some k) <->
  ref_of T' = Some k \/ (exists j U, j <> i /\ thr !! j = Some U /\ ref_of U = Some k).
Proof.
  intros Hi. setoid_rewrite lookup_insert_Some. split.
  - intros (j & U & [[<- <-]|[? ?]] & ?); [by left|right; eauto 6].
  - intros [?|(j & U & ? & ? & ?)]; eauto 10.
Qed.

Lemma spawn_tab s thr ev i T : thr !! i = None -> spawnable T -> tab_inv (mkSys s thr ev) -> tab_inv (mkSys s (<[i := T]> thr) ev).
Proof.
  intros Hi Hsp%spawnable_ref [Hn Ht Hb Hu]. cbn [y_srv y_thr] in *. split; cbn [y_srv y_thr]; [done| |done|].
  - intros k. rewrite Ht. split; intros (j & U & Hj & Hk).
    + exists j, U. split; [|done]. rewrite lookup_insert_ne; [done|]. intros ->. congruence.
    + apply lookup_insert_Some in Hj as [[-> <-]|[_ Hj]]; [congruence|eauto].
  - intros j1 j2 U1 U2 k1 k2 H1 H2 K1 K2.
    apply lookup_insert_Some in H1 as [[<- <-]|[_ H1]], H2 as [[<- <-]|[_ H2]]; try congruence.
    by eapply Hu.
Qed.

Lemma bstep_tab y y' : bstep y y' -> tab_inv y -> tab_inv y'.
Proof.
  intros Hst Hy. destruct Hst as [s thr ev i T Hi Hsp|s thr ev i T s' T' evs Hi Hst]; [by apply spawn_tab|].
  destruct Hy as [Hn Ht Hb Hu]. cbn [y_srv y_thr] in *.
  assert (forall k, ref_of T = Some k -> held s k) as Hown by (intros k Hk; apply Ht; eauto).
  assert (forall k j U, j <> i -> thr !! j = Some U -> ref_of U = Some k -> held s k) as Hoth
    by (intros k j U _ Hj HU; apply Ht; eauto).
  assert (forall k k' j U, ref_of T = Some k -> j <> i -> thr !! j = Some U -> ref_of U = Some k' ->
    k'.2 <> k.2) as Hsep by (intros k k' j U ? Hji ? ? He; apply Hji; by eapply Hu).
  destruct (hstep_tab s T s' T' evs Hn Hown Hst) as [E Hh Hle|k E1 E2 Hk Hn' Hlt Hh|k E1 E2 Hn' Hh].
  - split; cbn [y_srv y_thr]; [lia| | |].
    + intros k. rewrite Hh, Ht, (holders_insert thr i T T' k Hi), E. split.
      * intros (j & U & Hj & HU). destruct (decide (j = i)) as [->|]; [left; congruence|right; eauto 6].
      * intros [?|(j & U & _ & Hj & HU)]; eauto.
    + intros k Hk%Hh. apply Hb in Hk. lia.
    + intros j1 j2 U1 U2 k1 k2 H1 H2 K1 K2.
      apply lookup_insert_Some in H1 as [[<- <-]|[_ H1]], H2 as [[<- <-]|[_ H2]]; [done|..];
        rewrite ?E in *; by eapply Hu.
  - split; cbn [y_srv y_thr]; [lia| | |].
    + intros q. rewrite Hh, Ht, (holders_insert thr i T T' q Hi), E2. split.
      * intros [->|(j & U & Hj & HU)]; [by left|right]. exists j, U. split; [|done]. intros ->. congruence.
      * intros [[= ->]|(j & U & _ & Hj & HU)]; eauto.
    + intros q [->|Hq]%Hh; [lia|]. apply Hb in Hq. lia.
    + intros j1 j2 U1 U2 k1 k2 H1 H2 K1 K2 He.
      apply lookup_insert_Some in H1 as [[<- <-]|[? H1]], H2 as [[<- <-]|[? H2]]; [done|..|by eapply Hu].
      * assert (held s k2) as Hx%Hb by eauto. rewrite E2 in K1. injection K1 as <-. lia.
      * assert (held s k1) as Hx%Hb by eauto. rewrite E2 in K2. injection K2 as <-. lia.
  - split; cbn [y_srv y_thr]; [lia| | |].
    + intros q. rewrite Hh, Ht, (holders_insert thr i T T' q Hi), E2. split.
      * intros (Hne & j & U & Hj & HU). right. exists j, U. split; [|done]. intros ->. congruence.
      * intros [?|(j & U & Hji & Hj & HU)]; [done|]. split; [|eauto].
        intros ->. by apply (Hsep k k j U).
    + intros q [_ Hq]%Hh. apply Hb in Hq. lia.
    + intros j1 j2 U1 U2 k1 k2 H1 H2 K1 K2.
      apply lookup_insert_Some in H1 as [[<- <-]|[_ H1]], H2 as [[<- <-]|[_ H2]]; try congruence.
      by eapply Hu.
Qed.

Lemma started_tab y : started y -> tab_inv y.
Proof.
  intros (_ & _ & Hr & _ & Hp & _ & Hn & Ht & _). split; rewrite ?Hn, ?Ht; [lia|..].
  - intros [[c|] r]; cbn; rewrite ?Hr, ?Hp; split; try set_solver; intros (j & U & Hj & _);
      by rewrite lookup_empty in Hj.
  - intros [[c|] r]; cbn; rewrite ?Hr, ?Hp; [by rewrite lookup_empty|set_solver].
  - intros i j T T' k k' Hi. by rewrite lookup_empty in Hi.
Qed.


(** The objects of pending requests exist. *)
Definition reqs_ok (s : Server) : Prop := forall r, r ∈ s_requests s -> exists q, s_reqObj s !! r = Some q.

Lemma reqs_mono s s' : s_requests s' ⊆ s_requests s -> (forall r q, s_reqObj s !! r = Some q -> exists q', s_reqObj s' !! r = Some q') ->
  reqs_ok s -> reqs_ok s'.
Proof. intros H1 H2 Hs r Hr. destruct (Hs r (H1 r Hr)) as [q Hq]. by apply H2 in Hq. Qed.

Lemma insert_req_dom (m : gmap Z request) r v k q : m !! k = Some q -> exists q', <[r := v]> m !! k = Some q'.
Proof. intros Hk. apply lookup_insert_is_Some'. right. by exists q. Qed.

Lemma hstep_reqs s T s' T' evs : hstep s T s' T' evs -> reqs_ok s -> reqs_ok s'.
Proof.
  intros Hst Hs.
  assert (s_requests s' ⊆ s_requests s -> s_reqObj s' = s_reqObj s -> reqs_ok s') as Hq
    by (intros H1 H2; eapply reqs_mono; [exact H1| |done]; rewrite H2; eauto).
  destruct Hst; try (by apply Hq).
  - match goal with E : register _ _ _ _ _ _ _ = _ |- _ => apply register_cases in E as (? & ? & ? & -> & -> & -> & _) end. by apply Hq.
  - unfold sendReply. destruct (s_reqObj s !! reqID) as [[c [v|]]|] eqn:E; [done| |done].
    apply (reqs_mono s); [by cbn| |done]. intros r q. apply insert_req_dom.
  - match goal with E : removeTarget ?i _ _ = _ |- _ => unfold removeTarget in E; destruct (s_reconnects s !! i); injection E as <- <- end; by apply Hq.
  - match goal with E : openRequest _ _ = _ |- _ => injection E as <- <- end. intros r [->%elem_of_singleton|Hr]%elem_of_union; cbn.
    + eexists. apply lookup_insert_eq.
    + destruct (Hs r Hr) as [q Hr']. by eapply insert_req_dom.
  - match goal with E : takeReply _ _ = _ |- _ => unfold takeReply in E; destruct (s_reqObj s !! reqID) as [[c [v|]]|]; [|done..]; injection E as <- <- end.
    apply (reqs_mono s); [by cbn| |done]. intros r q. apply insert_req_dom.
  - apply Hq; [|done]. cbn. set_solver.
  - match goal with E : openProxy _ _ _ = _ |- _ => unfold openProxy in E; destruct (s_proxies s !! cid); [done|]; injection E as <- <- end. by apply Hq.
  - match goal with E : openProxy _ _ _ = _ |- _ => unfold openProxy in E; destruct (s_proxies s !! cid); [|done]; injection E as <- <- end. by apply Hq.
  - match goal with E : takeTarget _ _ = _ |- _ => unfold takeTarget in E; destruct (s_sessObj s !! ref) as [[? ? [] ?]|]; [|done..]; injection E as <- <- end. by apply Hq.
  - unfold closeDone in *. destruct (s_sessObj s !! ref) as [[]|]; by apply Hq.
  - unfold closeDone in *. destruct (s_sessObj s !! ref) as [[]|]; by apply Hq.
  - match goal with E : offerTarget _ _ _ = _ |- _ => unfold offerTarget in E; destruct (s_sessObj s !! ref) as [[? ? [] ?]|]; [done| |done]; injection E as <- end. by apply Hq.
  - match goal with E : SweepReconnects _ _ _ = _ |- _ => injection E as <- <- end. by apply Hq.
Qed.

Lemma bstep_reqs y y' : bstep y y' -> reqs_ok (y_srv y) -> reqs_ok (y_srv y').
Proof. intros [s thr ev i T Hi Hsp|s thr ev i T s' T' evs Hi Hst]; [done|]. cbn. by eapply hstep_reqs. Qed.

(** * What a splice and an answer rest on *)

Definition sess_at (s : Server) (ref : Z) (cid : string) (rq : nat) : Prop :=
  exists x, s_sessObj s !! ref = Some x /\ x_connectID x = cid /\ x_requester x = rq.

(** Target [t] made the last registration under [id]. *)
Definition latest (ev : list event) (id : Z) (t : target) : Prop :=
  exists ev1 ev2, ev = ev1 ++ EvIssued t :: ev2 /\ t_id t = id
    /\ forall t', EvIssued t' ∈ ev2 -> t_id t' <> id.

(** The event asks for registrant [id] on behalf of connection [rq]: an authorized
    request that names it and the connect id, or a relay whose route it heads; [nm]
    and [rc] are the name and the route that come with it. *)
Definition names (e : event) (rq : nat) (id : Z) (cid nm : string) (rc : routeContext) : Prop :=
  let self := proxyAddrSinful (b_PublicAddress cfg) in
  match e with
  | EvRequest cn user remote contact cid' nm' rt => cn = rq /\ authorize cfg CommandRequest remote user = true
      /\ parseTargetID contact = Some id /\ cid' = cid /\ nm' = nm
      /\ rc = mkRoute rt (requesterIdentity user remote) self
  | EvRelay up rt orig => up = rq /\ parseTargetID (splitRoute rt).1 = Some id
      /\ nm = "inbound-relay"%string /\ rc = mkRoute (splitRoute rt).2 orig self
  | _ => False
  end.

(** Connection [rq] asked for [t], the registrant of that CCBID at the time. *)
Definition wanted (ev : list event) (rq : nat) (t : target) (cid nm : string) (rc : routeContext) : Prop :=
  exists ev1 e ev2, ev = ev1 ++ e :: ev2 /\ latest ev1 (t_id t) t /\ names e rq (t_id t) cid nm rc.

(** The target wanted was asked to connect back for session [ref], or some target for
    request [r]. *)
Definition asked (ev : list event) (cid : string) (ref : Z) (rq : nat) : Prop :=
  exists t nm rc, EvSent (t_conn t) (MAd (proxyForward cfg cid nm ref rc)) ∈ ev /\ wanted ev rq t cid nm rc.
Definition forwarded (ev : list event) (r : Z) : Prop :=
  exists c ra cid nm, EvSent c (MAd (standardForward ra cid nm r)) ∈ ev.

(** The shared objects agree with the trace. *)
Record objs_ok (s : Server) (ev : list event) : Prop := {
  ob_sess ref x : s_sessObj s !! ref = Some x -> ref <= s_nextReq s
    /\ forall tc, x_targetCh x = Some tc -> EvReverse tc (x_connectID x) ∈ ev;
  ob_req r q res : s_reqObj s !! r = Some q -> q_reply q = Some res -> exists t, EvReport t r res ∈ ev;
  ob_tab cid ref : s_proxies s !! cid = Some ref -> exists rq, sess_at s ref cid rq
}.

Definition thr_ok (s : Server) (ev : list event) (T : thread) : Prop :=
  match T with
  | HStdWait _ r => forwarded ev r
  | HPrx rq _ t cid nm rc => wanted ev rq t cid nm rc
  | HPrxFwd rq _ t cid nm rc ref => sess_at s ref cid rq /\ wanted ev rq t cid nm rc
  | HPrxWait rq _ cid ref => sess_at s ref cid rq /\ asked ev cid ref rq
  | HPrxGot rq _ cid ref tc | HPrxSplice rq cid ref tc =>
      sess_at s ref cid rq /\ asked ev cid ref rq /\ EvReverse tc cid ∈ ev
  | HOffer cn ref => exists cid rq, sess_at s ref cid rq /\ EvReverse cn cid ∈ ev
  | _ => True
  end.

Definition ev_ok (s : Server) (ev : list event) (e : event) : Prop :=
  match e with
  | EvSplice cid ref rq tc => sess_at s ref cid rq /\ asked ev cid ref rq /\ EvReverse tc cid ∈ ev
  | EvReply _ r (MSuccess _) => forwarded ev r /\ exists t res, EvReport t r res ∈ ev /\ rr_success res = true
  | _ => True
  end.

Definition trace_le (s : Server) (ev : list event) (s' : Server) (ev' : list event) : Prop :=
  (forall ref cid rq, sess_at s ref cid rq -> sess_at s' ref cid rq) /\ ev `prefix_of` ev'.

Lemma wanted_mono ev ev' rq t cid nm rc : ev `prefix_of` ev' -> wanted ev rq t cid nm rc -> wanted ev' rq t cid nm rc.
Proof. intros [l ->] (ev1 & e & ev2 & -> & Hw). exists ev1, e, (ev2 ++ l). by rewrite <- app_assoc. Qed.

Lemma prefix_subseteq (ev ev' : list event) : ev `prefix_of` ev' -> ev ⊆ ev'.
Proof. intros [l ->]. set_solver. Qed.

Lemma asked_mono ev ev' cid ref rq : ev `prefix_of` ev' -> asked ev cid ref rq -> asked ev' cid ref rq.
Proof.
  intros Hp (t & nm & rc & Hs & Hw). exists t, nm, rc. split; [by apply (prefix_subseteq ev)|by eapply wanted_mono].
Qed.

Lemma thr_ok_mono s ev s' ev' T : trace_le s ev s' ev' -> thr_ok s ev T -> thr_ok s' ev' T.
Proof.
  intros [Hs Hp]. pose proof (prefix_subseteq _ _ Hp) as He.
  destruct T; cbn; unfold forwarded; naive_solver eauto using wanted_mono, asked_mono.
Qed.

Lemma ev_ok_mono s ev s' ev' e : trace_le s ev s' ev' -> ev_ok s ev e -> ev_ok s' ev' e.
Proof.
  intros [Hs Hp]. pose proof (prefix_subseteq _ _ Hp) as He.
  destruct e as [| | | | |? ? [] | | | |]; cbn; unfold forwarded; naive_solver eauto using asked_mono.
Qed.

Lemma objs_ok_mono s ev ev' : ev ⊆ ev' -> objs_ok s ev -> objs_ok s ev'.
Proof. intros He [H1 H2 H3]. split; [naive_solver..|done]. Qed.

(** A session object is replaced by one with the same ends. *)
Lemma sess_update s ev ref cid rq ch dn ch' dn' :
  objs_ok s ev -> s_sessObj s !! ref = Some (mkSession cid rq ch dn) ->
  (forall tc, ch' = Some tc -> ch = Some tc \/ EvReverse tc cid ∈ ev) ->
  let s' := s_set_prx s (s_nextReq s) (s_proxies s) (<[ref := mkSession cid rq ch' dn']> (s_sessObj s)) in
  objs_ok s' ev /\ trace_le s ev s' ev.
Proof.
  intros [H1 H2 H3] Hr Hch s'.
  assert (forall r c q, sess_at s r c q -> sess_at s' r c q) as Hle.
  { intros r c q (x & Hx & <- & <-). unfold sess_at, s'. cbn [s_set_prx s_sessObj].
    destruct (decide (r = ref)) as [->|]; [|exists x; by rewrite lookup_insert_ne].
    rewrite Hr in Hx. injection Hx as <-. eexists. by rewrite lookup_insert_eq. }
  split; [|by split]. split; [| |naive_solver].
  - intros r x. unfold s'. cbn [s_set_prx s_sessObj s_nextReq].
    intros [[<- <-]|[_ Hx]]%lookup_insert_Some; [|by apply H1]. destruct (H1 _ _ Hr) as [? Ho].
    split; [done|]. cbn. intros tc [->|?]%Hch; [by apply Ho|done].
  - intros r q res. apply H2.
Qed.

Lemma offerTarget_objs s ev ref cn s' : objs_ok s ev -> offerTarget ref cn s = Some s' ->
  (exists cid rq, sess_at s ref cid rq /\ EvReverse cn cid ∈ ev) -> objs_ok s' ev /\ trace_le s ev s' ev.
Proof.
  unfold offerTarget. intros Ho E (cid & rq & (x & Hx & <- & <-) & He). rewrite Hx in E.
  destruct x as [c q [|] d]; [done|]. injection E as <-. eapply sess_update; [done..|].
  intros tc [= <-]. by right.
Qed.

Lemma takeTarget_objs s ev ref tc s' cid rq : objs_ok s ev -> takeTarget ref s = Some (tc, s') ->
  sess_at s ref cid rq -> EvReverse tc cid ∈ ev /\ objs_ok s' ev /\ trace_le s ev s' ev.
Proof.
  unfold takeTarget. intros Ho E (x & Hx & <- & <-). rewrite Hx in E.
  destruct x as [c q [|] d]; [|done]. injection E as <- <-.
  split; [by apply (proj2 (ob_sess _ _ Ho _ _ Hx))|]. by eapply sess_update.
Qed.

Lemma closeDone_objs s ev ref : objs_ok s ev -> objs_ok (closeDone ref s) ev /\ trace_le s ev (closeDone ref s) ev.
Proof.
  unfold closeDone. intros Ho. destruct (s_sessObj s !! ref) as [[]|] eqn:Hx; [|by split].
  eapply sess_update; [done..|]. by left.
Qed.

Lemma closeProxy_objs s ev cid : objs_ok s ev -> objs_ok (closeProxy cid s) ev.
Proof.
  intros [H1 H2 H3]. split; [exact H1|exact H2|]. cbn [closeProxy s_set_prx s_proxies].
  intros c r [_ Hc]%lookup_delete_Some. by apply H3.
Qed.

Lemma openProxy_objs s ev cid rq ref b s' : 0 <= s_nextReq s < 2 ^ 64 - 1 -> objs_ok s ev ->
  openProxy cid rq s = (ref, b, s') ->
  objs_ok s' ev /\ trace_le s ev s' ev /\ (b = true -> sess_at s' ref cid rq).
Proof.
  unfold openProxy. intros Hn [H1 H2 H3] E. rewrite u64_small in E by lia.
  destruct (s_proxies s !! cid); injection E as <- <- <-.
  - split; [|by split]. split; [|exact H2|exact H3]. intros r x Hx. destruct (H1 _ _ Hx). cbn. split; [lia|done].
  - unfold sess_at, trace_le. cbn [s_set_prx s_sessObj].
    assert (forall r x, s_sessObj s !! r = Some x -> r <> s_nextReq s + 1) as Hne
      by (intros r x Hx; destruct (H1 _ _ Hx); lia).
    assert (forall r c q, sess_at s r c q ->
      sess_at (s_set_prx s (s_nextReq s + 1) (<[cid := s_nextReq s + 1]> (s_proxies s))
        (<[s_nextReq s + 1 := mkSession cid rq None false]> (s_sessObj s))) r c q) as Hle.
    { intros r c q (x & Hx & ? & ?). exists x. cbn [s_set_prx s_sessObj].
      rewrite lookup_insert_ne; [done|]. intros Heq. by apply (Hne _ _ Hx). }
    split; [|split; [by split|intros _; eexists; by rewrite lookup_insert_eq]].
    split; [|exact H2|].
    + cbn [s_set_prx s_sessObj s_nextReq]. intros r x [[<- <-]|[_ Hx]]%lookup_insert_Some; [by split|].
      destruct (H1 _ _ Hx). split; [lia|done].
    + cbn [s_set_prx s_proxies]. intros c r [[<- <-]|[_ Hc]]%lookup_insert_Some.
      * exists rq. eexists. cbn [s_set_prx s_sessObj]. by rewrite lookup_insert_eq.
      * destruct (H3 _ _ Hc) as [q Hq]. exists q. by apply Hle.
Qed.


Lemma req_update s ev n ks r q : s_nextReq s <= n -> objs_ok s ev ->
  (forall res, q_reply q = Some res -> exists t, EvReport t r res ∈ ev) ->
  objs_ok (s_set_req s n ks (<[r := q]> (s_reqObj s))) ev.
Proof.
  intros Hn [H1 H2 H3] Hq. split; [|cbn [s_set_req s_reqObj]|exact H3].
  - intros ref x Hx. destruct (H1 _ _ Hx). cbn. split; [lia|done].
  - intros i q' res [[<- <-]|[_ Hi]]%lookup_insert_Some; [by apply Hq|by apply H2].
Qed.

Lemma sendReply_objs s ev t r res : objs_ok s ev -> EvReport t r res ∈ ev -> objs_ok (sendReply r res s) ev.
Proof.
  unfold sendReply. intros Ho He. destruct (s_reqObj s !! r) as [[c []]|]; [done| |done].
  apply req_update; [lia|done|]. intros ? [= <-]. eauto.
Qed.

Lemma takeReply_objs s ev r res s' : objs_ok s ev -> takeReply r s = Some (res, s') ->
  objs_ok s' ev /\ exists t, EvReport t r res ∈ ev.
Proof.
  unfold takeReply. intros Ho E. destruct (s_reqObj s !! r) as [[c [q|]]|] eqn:Hr; [|done..].
  injection E as <- <-. split; [by apply req_update|]. by apply (ob_req _ _ Ho _ _ _ Hr).
Qed.

(** Steps that leave the shared objects alone. *)
Definition same_objs (s s' : Server) : Prop :=
  s_sessObj s' = s_sessObj s /\ s_reqObj s' = s_reqObj s /\ s_proxies s' = s_proxies s /\ s_nextReq s' = s_nextReq s.

Lemma objs_ok_same s s' ev : same_objs s s' -> objs_ok s ev -> objs_ok s' ev /\ trace_le s ev s' ev.
Proof.
  intros (E1 & E2 & E3 & E4) [H1 H2 H3]. unfold trace_le, sess_at. rewrite E1. split; [|done].
  split; rewrite ?E1, ?E2, ?E3, ?E4; [done..|]. intros c r Hc. unfold sess_at. rewrite E1. by apply H3.
Qed.

Lemma sess_at_eq s s' ref cid rq : s_sessObj s' = s_sessObj s -> sess_at s ref cid rq -> sess_at s' ref cid rq.
Proof. unfold sess_at. by intros ->. Qed.

Lemma register_objs cn ip ad gen now s t rec s' :
  register cfg cn ip ad gen now s = Some (t, rec, s') -> same_objs s s'.
Proof. by intros (? & ? & ? & -> & -> & -> & _)%register_cases. Qed.

Lemma removeTarget_objs id now s s' rec : removeTarget id now s = (s', rec) -> same_objs s s'.
Proof. unfold removeTarget. destruct (s_reconnects s !! id); by injection 1 as <- <-. Qed.

Lemma sweep_objs now s s' l : SweepReconnects cfg now s = (s', l) -> same_objs s s'.
Proof. by injection 1 as <- <-. Qed.

Lemma sendReply_sess r res s : s_sessObj (sendReply r res s) = s_sessObj s.
Proof. unfold sendReply. by destruct (s_reqObj s !! r) as [[? []]|]. Qed.

Lemma takeReply_sess r res s s' : takeReply r s = Some (res, s') -> s_sessObj s' = s_sessObj s.
Proof. unfold takeReply. destruct (s_reqObj s !! r) as [[? []]|]; [|done..]. by injection 1 as <- <-. Qed.

(** A step, seen through shared objects, its thread and the trace. *)
Lemma hstep_objs s T s' T' evs ev : 0 <= s_nextReq s -> objs_ok s ev -> thr_ok s ev T ->
  hstep s T s' T' evs -> objs_ok s' (ev ++ evs) /\ trace_le s ev s' (ev ++ evs).
Proof.
  intros Hn Ho Ht Hst.
  assert (ev ⊆ ev ++ evs) as Hev by set_solver.
  assert (objs_ok s' ev /\ trace_le s ev s' ev -> objs_ok s' (ev ++ evs) /\ trace_le s ev s' (ev ++ evs)) as Hq.
  { intros [H1 [H2 _]]. split; [by eapply objs_ok_mono|split; [done|by apply prefix_app_r]]. }
  assert (objs_ok s' ev -> s_sessObj s' = s_sessObj s -> objs_ok s' ev /\ trace_le s ev s' ev) as Hr.
  { intros ? ?. split; [done|]. split; [|done]. intros ? ? ?. by apply sess_at_eq. }
  destruct Hst; try (by apply Hq);
    try (apply Hq, objs_ok_same; [first [by eapply register_objs | by eapply removeTarget_objs
           | by eapply sweep_objs]|done]);
    try (by apply Hq, closeDone_objs).
  - split; [apply sendReply_objs with (t_id t); [by eapply objs_ok_mono|set_solver]|].
    split; [|by apply prefix_app_r]. intros ? ? ?. apply sess_at_eq, sendReply_sess.
  - apply Hq. match goal with E : openRequest _ _ = _ |- _ => injection E as <- <- end.
    apply Hr; [|done]. apply req_update; [rewrite u64_small; lia|done..].
  - apply Hq, Hr; [by eapply takeReply_objs|by eapply takeReply_sess].
  - apply Hq, Hr; [|done]. destruct Ho as [H1 H2 H3]. by split.
  - apply Hq. by edestruct openProxy_objs as (? & ? & _); [| |eassumption|]; [lia|eassumption|].
  - apply Hq. by edestruct openProxy_objs as (? & ? & _); [| |eassumption|]; [lia|eassumption|].
  - apply Hq. destruct Ht as [Ht _]. by edestruct takeTarget_objs as (_ & ? & ?); [| | |].
  - apply Hq, Hr; [by apply closeProxy_objs|done].
  - apply Hq. by eapply offerTarget_objs.
Qed.


(** ** The registrants *)

Definition tgt_ok (s : Server) (ev : list event) : Prop := forall id t, s_targets s !! id = Some t -> latest ev id t.

Definition issues (e : event) : bool := match e with EvIssued _ => true | _ => false end.

Lemma latest_app ev evs id t : latest ev id t -> (forall t', EvIssued t' ∈ evs -> t_id t' <> id) -> latest (ev ++ evs) id t.
Proof.
  intros (ev1 & ev2 & -> & Hid & Hn) He. exists ev1, (ev2 ++ evs). split; [by rewrite <- app_assoc|]. split; [done|].
  intros t' [?|?]%elem_of_app; [by apply Hn|by apply He].
Qed.

Lemma tgt_quiet s s' ev evs : s_targets s' ⊆ s_targets s -> forallb (fun e => negb (issues e)) evs = true ->
  tgt_ok s ev -> tgt_ok s' (ev ++ evs).
Proof.
  intros Hs He Ht id t Hid. apply latest_app; [by apply Ht, (lookup_weaken (s_targets s'))|].
  intros t' Hin%list_elem_of_In. rewrite forallb_forall in He. by apply He in Hin.
Qed.

Lemma register_tgt cn ip ad gen now s t rec s' ev : register cfg cn ip ad gen now s = Some (t, rec, s') ->
  tgt_ok s ev -> tgt_ok s' (ev ++ [EvIssued t]).
Proof.
  intros (id & n & ck & -> & -> & -> & _)%register_cases Ht i u. cbn [s_set_reg s_targets].
  intros [[<- <-]|[Hne Hu]]%lookup_insert_Some.
  - exists ev, []. split; [done|]. split; [done|]. by intros t' ?%not_elem_of_nil.
  - apply latest_app; [by apply Ht|]. by intros t' [= ->]%list_elem_of_singleton.
Qed.

Lemma hstep_tgt s T s' T' evs ev : hstep s T s' T' evs -> tgt_ok s ev -> tgt_ok s' (ev ++ evs).
Proof.
  intros Hst.
  assert (s_reconnects s' = s_reconnects s /\ s_nextID s' = s_nextID s /\ s_targets s' = s_targets s ->
    forallb (fun e => negb (issues e)) evs = true -> tgt_ok s ev -> tgt_ok s' (ev ++ evs)) as Hq.
  { intros (_ & _ & E). apply tgt_quiet. by rewrite E. }
  destruct Hst; try (by apply Hq); try (apply Hq; [done|by destruct reply]);
    try (apply Hq; [first [apply sendReply_reg | by eapply takeReply_reg | by eapply openProxy_reg
         | by eapply offerTarget_reg | by eapply takeTarget_reg | apply closeDone_reg]|first [done|by destruct reply]]).
  - by eapply register_tgt.
  - apply tgt_quiet; [|done]. unfold removeTarget in *. destruct (s_reconnects s !! _); simplify_eq; apply delete_subseteq.
  - apply Hq; [done|by destruct rec].
  - apply Hq; [done|]. by destruct (handleRequest _ _ _ _ _); simplify_eq.
  - apply Hq; [|done]. match goal with E : openRequest _ _ = _ |- _ => by injection E as <- <- end.
  - apply Hq; [apply closeDone_reg|]. by destruct n as [|[|[|]]].
  - apply tgt_quiet; [|done]. match goal with E : SweepReconnects _ _ _ = _ |- _ => by injection E as <- <- end.
  - apply Hq; [done|]. apply forallb_forall. by intros e (i & <- & _)%in_map_iff.
Qed.

(** What a request or a relay asks for, and the registrant it is given. *)
Lemma request_wanted s ev cn user remote ad t cid nm rc evs : tgt_ok s ev ->
  handleRequest cfg user remote ad s = DProxy t cid nm rc -> wanted (ev ++ requestEvent cn user remote ad :: evs) cn t cid nm rc.
Proof.
  intros Ht. unfold handleRequest. destruct (authorize _ _ _ _) eqn:Ha; [|done]. cbn [negb]. destruct (_ || _); [done|].
  destruct (parseTargetID _) as [id|] eqn:Hp; [|done]. destruct (s_targets s !! id) as [t'|] eqn:Hid; [|done].
  destruct (_ || _); [|done]. intros [= <- <- <- <-]. apply Ht in Hid. assert (t_id t' = id) as Hi by (by destruct Hid as (? & ? & ? & ? & ?)).
  eexists ev, _, evs. split; [done|]. rewrite Hi. by split_and!.
Qed.

Lemma relay_wanted s ev up rt orig gen t cid rc evs : tgt_ok s ev ->
  startInboundRelay cfg rt orig gen s = Some (t, cid, rc) -> wanted (ev ++ EvRelay up rt orig :: evs) up t cid "inbound-relay" rc.
Proof.
  intros Ht. unfold startInboundRelay. destruct (splitRoute rt) as [hd tl] eqn:Hs. destruct (parseTargetID hd) as [id|] eqn:Hp; [|done].
  destruct (String.eqb hd ""); [done|]. destruct (s_targets s !! id) as [t'|] eqn:Hid; [|done]. destruct gen; [|done].
  intros [= <- <- <-]. apply Ht in Hid. assert (t_id t' = id) as Hi by (by destruct Hid as (? & ? & ? & ? & ?)).
  eexists ev, _, evs. split; [done|]. rewrite Hi. cbn. rewrite Hs. by split_and!.
Qed.

Lemma ev_ok_quiet s ev evs :
  (forall e, e ∈ evs -> match e with EvSplice _ _ _ _ | EvReply _ _ (MSuccess _) => False | _ => True end) ->
  Forall (ev_ok s ev) evs.
Proof. intros Hq. apply Forall_forall. intros e He%list_elem_of_In%Hq. by destruct e as [| | | | |? ? [] | | | |]. Qed.

Lemma standardReply_success res b : standardReply res = MSuccess b ->
  exists r, res = Some r /\ rr_success r = true.
Proof. unfold standardReply, standardOutcome. destruct res as [r|]; [|done]. destruct (rr_success r) eqn:E; eauto; done. Qed.

Lemma hstep_thr s T s' T' evs ev : 0 <= s_nextReq s -> objs_ok s ev -> tgt_ok s ev -> thr_ok s ev T ->
  hstep s T s' T' evs -> thr_ok s' (ev ++ evs) T' /\ Forall (ev_ok s' ev) evs.
Proof.
  intros Hn Ho Htg Ht Hst. destruct (hstep_objs _ _ _ _ _ _ Hn Ho Ht Hst) as [Ho' Hle].
  pose proof (thr_ok_mono _ _ _ _ T Hle Ht) as Ht'.
  assert (forall e, e ∈ evs -> e ∈ ev ++ evs) as Hin by set_solver.
  destruct Hst; try (split; [done|apply ev_ok_quiet; set_solver]).
  - destruct rec; (split; [done|apply ev_ok_quiet; set_solver]).
  - destruct (handleRequest _ _ _ _ _) eqn:Eh; match goal with E : (_, _) = (_, _) |- _ => injection E as -> -> end;
      (split; [first [done | by eapply request_wanted]|apply ev_ok_quiet; set_solver]).
  - split; [|apply ev_ok_quiet; set_solver]. eexists _, _, _, _. apply Hin. by left.
  - split; [done|]. apply Forall_singleton. cbn. case_match; try done.
    match goal with E : standardReply _ = _ |- _ => apply standardReply_success in E as (? & [= <-] & ?) end.
    split; [exact Ht|]. destruct (takeReply_objs s ev reqID res s') as [_ [t Hrep]]; [done..|]. eauto.
  - split; [by eapply relay_wanted|apply ev_ok_quiet; set_solver].
  - split; [|apply ev_ok_quiet; set_solver]. split; [|exact Ht'].
    by destruct (openProxy_objs s ev cid rq ref true s') as (_ & _ & Hs); [lia|done..|apply Hs].
  - split; [done|]. apply ev_ok_quiet. destruct reply; set_solver.
  - split; [|apply ev_ok_quiet; set_solver]. destruct Ht' as [? ?]. split; [done|].
    eexists t, nm, rc. split; [apply Hin; by left|done].
  - split; [done|]. apply ev_ok_quiet. destruct reply; set_solver.
  - split; [|apply ev_ok_quiet; set_solver]. destruct Ht' as [? ?]. split; [done|]. split; [done|].
    destruct Ht as [Hs _]. destruct (takeTarget_objs s ev ref tc s' cid rq) as (? & _); [done..|set_solver].
  - split; [done|]. apply ev_ok_quiet. destruct reply; set_solver.
  - split; [exact Ht'|]. apply Forall_app. split; [|by apply Forall_singleton].
    apply ev_ok_quiet. destruct reply; set_solver.
  - split; [|apply ev_ok_quiet; set_solver]. destruct (ob_tab _ _ Ho cid ref) as [rq Hrq]; [done|].
    exists cid, rq. split; [done|]. apply Hin. by left.
Qed.

(** * One outcome per request *)

(** The request number an answer or a splice is for, and of a handler that has
    not come to its outcome yet. *)
Definition outcome_of (e : event) : option Z :=
  match e with EvReply _ r _ => Some r | EvSplice _ ref _ _ => Some ref | _ => None end.
Definition pending (T : thread) : option Z :=
  match T with
  | HStdFwd _ _ r _ _ _ | HStdWait _ r | HPrxFwd _ _ _ _ _ _ r | HPrxWait _ _ _ r | HPrxGot _ _ _ r _ => Some r
  | _ => None
  end.

Definition outcomes (r : Z) (ev : list event) : nat :=
  length (List.filter (fun e => bool_decide (outcome_of e = Some r)) ev).

Lemma outcomes_app r e1 e2 : outcomes r (e1 ++ e2) = (outcomes r e1 + outcomes r e2)%nat.
Proof. unfold outcomes. by rewrite List.filter_app, length_app. Qed.

Lemma outcomes_none r ev : (forall e, e ∈ ev -> outcome_of e <> Some r) -> outcomes r ev = 0%nat.
Proof.
  unfold outcomes. induction ev as [|e ev IH]; intros Hn; cbn; [done|].
  rewrite bool_decide_false by (apply Hn; by left). apply IH. intros e' He. apply Hn. by right.
Qed.

Definition no_outcome (e : event) : bool := bool_decide (outcome_of e = None).

(** A step that has an outcome is the last pending state of its thread, and only
    freshly numbered requests become pending. *)
Definition outcome_rule (s : Server) (T T' : thread) (evs : list event) : Prop :=
  (forall r, pending T' = Some r -> (pending T = Some r \/ s_nextReq s < r) /\ outcomes r evs = 0%nat)
  /\ (forall r, outcomes r evs <> 0%nat -> pending T = Some r /\ outcomes r evs = 1%nat).

Lemma outcomes_quiet r evs : forallb no_outcome evs = true -> outcomes r evs = 0%nat.
Proof.
  intros He. apply outcomes_none. intros e Hin%list_elem_of_In. rewrite forallb_forall in He.
  apply He in Hin. unfold no_outcome in Hin. by destruct (outcome_of e).
Qed.

Lemma outcome_rule_quiet s T T' evs : forallb no_outcome evs = true ->
  (forall r, pending T' = Some r -> pending T = Some r \/ s_nextReq s < r) -> outcome_rule s T T' evs.
Proof.
  intros He Hp. split; [|intros r; by rewrite outcomes_quiet].
  intros r Hr. split; [by apply Hp|by apply outcomes_quiet].
Qed.

Lemma outcome_rule_last s T T' evs e r : forallb no_outcome evs = true -> outcome_of e = Some r ->
  pending T = Some r -> pending T' = None -> outcome_rule s T T' (evs ++ [e]).
Proof.
  intros Hq He Hp Hp'. split; [intros q; by rewrite Hp'|]. intros q. rewrite outcomes_app, outcomes_quiet by done.
  unfold outcomes. cbn. rewrite He. destruct (decide (r = q)) as [->|]; [by rewrite bool_decide_true|].
  rewrite bool_decide_false by congruence. done.
Qed.

Lemma hstep_outcome s T s' T' evs : 0 <= s_nextReq s < 2 ^ 64 -> hstep s T s' T' evs ->
  outcome_rule s T T' evs.
Proof.
  intros Hn Hst.
  destruct Hst; try (apply outcome_rule_quiet; [reflexivity|by auto]);
    try (eapply (outcome_rule_last _ _ _ []); reflexivity);
    try (apply outcome_rule_quiet; [by destruct reply|by auto]).
  - apply outcome_rule_quiet; [by destruct rec|done].
  - destruct (handleRequest _ _ _ _ _); match goal with E : (_, _) = (_, _) |- _ => injection E as -> -> end;
      by apply outcome_rule_quiet.
  - match goal with E : openRequest _ _ = _ |- _ => injection E as <- <- end.
    apply outcome_rule_quiet; [done|]. intros r [= <-]. right. rewrite u64_small; lia.
  - apply outcome_rule_quiet; [done|]. intros r [= <-]. right.
    match goal with E : openProxy _ _ _ = _ |- _ => unfold openProxy in E;
      destruct (s_proxies s !! cid); [done|]; injection E as <- <- end. rewrite u64_small; lia.
  - eapply outcome_rule_last; [by destruct reply|reflexivity..].
  - apply outcome_rule_quiet; [|done]. by destruct n as [|[|[|]]].
  - apply outcome_rule_quiet; [|done]. apply forallb_forall. by intros e (i & <- & _)%in_map_iff.
Qed.

(** * The invariant *)

Record trace_inv (y : bsys) : Prop := {
  tr_objs : objs_ok (y_srv y) (y_ev y);
  tr_tgt : tgt_ok (y_srv y) (y_ev y);
  tr_thr i T : y_thr y !! i = Some T -> thr_ok (y_srv y) (y_ev y) T;
  tr_ev ev1 e ev2 : y_ev y = ev1 ++ e :: ev2 -> ev_ok (y_srv y) ev1 e;
  tr_once r : (outcomes r (y_ev y) <= 1)%nat;
  tr_bound r : outcomes r (y_ev y) <> 0%nat -> r <= s_nextReq (y_srv y);
  tr_pending i T r : y_thr y !! i = Some T -> pending T = Some r -> outcomes r (y_ev y) = 0%nat
}.

Lemma pending_ref T r : pending T = Some r -> exists c, ref_of T = Some (c, r).
Proof. destruct T; try done; intros [= ->]; cbn; eauto. Qed.

Lemma spawnable_pending T : spawnable T -> pending T = None /\ forall s ev, thr_ok s ev T.
Proof. by intros []. Qed.

Lemma tab_change_next s T s' T' : tab_change s T s' T' -> s_nextReq s <= s_nextReq s'.
Proof. intros []; lia. Qed.

Lemma bstep_trace y y' : bstep y y' -> tab_inv y -> trace_inv y -> trace_inv y'.
Proof.
  intros Hst [Hn Ht Hb Hu] [Ho Htg Hth He H1 Hbd Hp].
  destruct Hst as [s thr ev i T Hi Hsp|s thr ev i T s' T' evs Hi Hst]; cbn [y_srv y_thr y_ev] in *.
  { apply spawnable_pending in Hsp as [Hp0 Ht0]. split; cbn [y_srv y_thr y_ev]; try done.
    - intros j U [[<- <-]|[_ Hj]]%lookup_insert_Some; [apply Ht0|by eapply Hth].
    - intros j U r [[<- <-]|[_ Hj]]%lookup_insert_Some; [congruence|by eapply Hp]. }
  assert (forall k, ref_of T = Some k -> held s k) as Hown by (intros k Hk; apply Ht; eauto).
  pose proof (Hth _ _ Hi) as HT. assert (0 <= s_nextReq s) as Hn0 by lia.
  destruct (hstep_objs _ _ _ _ _ _ Hn0 Ho HT Hst) as [Ho' Hle].
  destruct (hstep_thr _ _ _ _ _ _ Hn0 Ho Htg HT Hst) as [HT' He'].
  destruct (hstep_outcome _ _ _ _ _ Hn Hst) as [Hq1 Hq2].
  pose proof (tab_change_next _ _ _ _ (hstep_tab _ _ _ _ _ Hn Hown Hst)) as Hmono.
  assert (forall r, pending T = Some r -> 0 < r <= s_nextReq s) as Hpb.
  { intros r [c Hc]%pending_ref. by apply (Hb (c, r)), Hown. }
  split; cbn [y_srv y_thr y_ev].
  - done.
  - by eapply hstep_tgt.
  - intros j U [[<- <-]|[_ Hj]]%lookup_insert_Some; [done|]. eapply thr_ok_mono; [done|by eapply Hth].
  - intros ev1 e ev2 Heq. destruct Hle as [Hle _].
    apply app_eq_inv in Heq as [(k & -> & Hk)|(k & -> & ->)].
    + destruct k as [|e' k]; cbn in Hk.
      * rewrite app_nil_r in *. subst evs. by apply Forall_inv in He'.
      * injection Hk as -> ->. apply (ev_ok_mono s ev1); [by split|by eapply He].
    + apply Forall_app in He' as [_ He'%Forall_inv].
      apply (ev_ok_mono s' ev); [split; [done|by apply prefix_app_r]|exact He'].
  - intros r. rewrite outcomes_app. destruct (decide (outcomes r evs = 0%nat)) as [->|Hne].
    + specialize (H1 r). lia.
    + apply Hq2 in Hne as [Hpe ->]. by rewrite (Hp _ _ _ Hi Hpe).
  - intros r. rewrite outcomes_app. intros Hne. destruct (decide (outcomes r ev = 0%nat)) as [Hz|Hz].
    + destruct (Hq2 r) as [Hpe _]; [lia|]. apply Hpb in Hpe. lia.
    + apply Hbd in Hz. lia.
  - intros j U r. rewrite outcomes_app. intros [[<- <-]|[Hji Hj]]%lookup_insert_Some HU.
    + destruct (Hq1 _ HU) as [[Hpe|Hgt] ->].
      * by rewrite (Hp _ _ _ Hi Hpe).
      * destruct (decide (outcomes r ev = 0%nat)) as [->|Hz]; [done|]. apply Hbd in Hz. lia.
    + rewrite (Hp _ _ _ Hj HU). destruct (decide (outcomes r evs = 0%nat)) as [->|Hz]; [done|].
      apply Hq2 in Hz as [Hpe _]. exfalso. apply Hji.
      apply pending_ref in Hpe as [c Hc], HU as [c' Hc']. by eapply (Hu i j T U (c, r) (c', r)).
Qed.

Lemma started_trace y : started y -> trace_inv y.
Proof.
  intros (_ & Hg & _ & Hq & Hp & Hs & Hn & Ht & He).
  split; rewrite ?He, ?Ht;
    [|intros id t; by rewrite Hg, lookup_empty|by intros i T; rewrite lookup_empty|by intros [] ? ?|intros; cbn; lia|done
     |by intros i T r; rewrite lookup_empty].
  split; rewrite ?Hq, ?Hp, ?Hs; intros *; rewrite lookup_empty; done.
Qed.

End sys.
