(* ===== verification/BrokerRun.v ===== *)
(** Running the broker: a scheduler that executes the handlers of BrokerSys.v, its
    soundness, and the properties of every reachable state of the broker with
    concrete runs that exercise them. *)

From stdpp Require Import base gmap list strings numbers.
From Stdlib Require Import ZArith Lia Ascii.
From S2P Require Import Prelude GoStr FsConfig Contacts Reconnect Broker BrokerSys.

#[local] Open Scope Z_scope.

(** * Scheduler *)

Section run.
Context `{Cedar}.
Context (cfg : BrokerConfig).

(** What the environment decides at a step. *)
Inductive choice :=
| CGo                                          (* the operation succeeds *)
| CFail                                        (* its read or write fails *)
| CTimeout
| CCancel                                      (* the context ends *)
| CNow (now : Z)
| CGen (generated : option string) (now : Z)
| CAd (ad : Ad)
| CPartial (n : nat).                          (* the reply fails after [n] messages *)

Definition requestNext (cn : nat) (user remote : string) (ad : Ad) (s : Server) : thread * list event :=
  match handleRequest cfg user remote ad s with
  | DFail m => (HDone, [EvSent cn (MFailure m)])
  | DProxy t connectID name rc => (HPrx cn true t connectID name rc, [])
  | DStandard t connectID returnAddr name => (HStd cn t connectID returnAddr name, [])
  end.

(** One step of a handler under a choice; [None] when it cannot be taken. *)
Definition hrun (c : choice) (s : Server) (T : thread) : option (Server * thread * list event) :=
  match T, c with
  | HRegister cn ip ad, CGen gen now =>
      match register cfg cn ip ad gen now s with
      | None => Some (s, HDone, [])
      | Some (t, rec, s') =>
          if s_nextID s <? 2 ^ 64 - 1 then Some (s', HPut t rec, [EvIssued t]) else None
      end
  | HPut t rec, CGo => Some (s, HReply t, [EvStore (OpPut rec)])
  | HReply t, CGo => Some (s, HServe t, [EvSent (t_conn t) (MAd (registerReply cfg t s))])
  | HReply t, CFail => Some (s, HRemove t, [])
  | HServe t, CAd ad =>
      if isHeartbeat ad then Some (s, HServe t, [EvSent (t_conn t) (MAd [(AttrCommand, VCmd CommandAlive)])])
      else match findRequest ad s with
           | Some (reqID, res) => Some (s, HDeliver t reqID res, [])
           | None => Some (s, HServe t, [])
           end
  | HServe t, CFail => Some (s, HRemove t, [])
  | HDeliver t reqID res, CGo => Some (sendReply reqID res s, HServe t, [EvReport (t_id t) reqID res])
  | HRemove t, CNow now => let '(s', rec) := removeTarget (t_id t) now s in Some (s', HRemovePut rec, [])
  | HRemovePut rec, CGo => Some (s, HDone, match rec with Some r => [EvStore (OpPut r)] | None => [] end)
  | HRequest cn user remote ad, CGo =>
      let '(T', evs) := requestNext cn user remote ad s in Some (s, T', requestEvent cn user remote ad :: evs)
  | HStd cn t cid ra nm, CGo =>
      let '(reqID, s') := openRequest cid s in
      if s_nextReq s <? 2 ^ 64 - 1 then Some (s', HStdFwd cn t reqID cid ra nm, []) else None
  | HStdFwd cn t reqID cid ra nm, CGo =>
      Some (s, HStdWait cn reqID, [EvSent (t_conn t) (MAd (standardForward ra cid nm reqID))])
  | HStdFwd cn t reqID cid ra nm, CFail => Some (s, HStdClose reqID, [EvReply cn reqID (MFailure FForward)])
  | HStdWait cn reqID, CGo =>
      match takeReply reqID s with
      | Some (res, s') => Some (s', HStdClose reqID, [EvReply cn reqID (standardReply (Some res))])
      | None => None
      end
  | HStdWait cn reqID, CTimeout => Some (s, HStdClose reqID, [EvReply cn reqID (standardReply None)])
  | HStdWait cn reqID, CCancel => Some (s, HStdClose reqID, [])
  | HStdClose reqID, CGo => Some (closeRequest reqID s, HDone, [])
  | HRelay up rt orig, CGen gen _ =>
      match startInboundRelay cfg rt orig gen s with
      | Some (t, cid, rc) => Some (s, HPrx up false t cid "inbound-relay" rc, [EvRelay up rt orig])
      | None => Some (s, HDone, [EvRelay up rt orig; EvClose up])
      end
  | HPrx rq reply t cid nm rc, CGo =>
      if s_nextReq s <? 2 ^ 64 - 1 then
        match openProxy cid rq s with
        | (ref, true, s') => Some (s', HPrxFwd rq reply t cid nm rc ref, [])
        | (ref, false, s') => Some (s', HDone, proxyFail reply rq FDuplicate)
        end
      else None
  | HPrxFwd rq reply t cid nm rc ref, CGo =>
      Some (s, HPrxWait rq reply cid ref, [EvSent (t_conn t) (MAd (proxyForward cfg cid nm ref rc))])
  | HPrxFwd rq reply t cid nm rc ref, CFail => Some (s, HPrxClose cid ref, proxyFail reply rq FProxyForward)
  | HPrxWait rq reply cid ref, CGo =>
      match takeTarget ref s with Some (tc, s') => Some (s', HPrxGot rq reply cid ref tc, []) | None => None end
  | HPrxWait rq reply cid ref, CTimeout => Some (s, HPrxClose cid ref, proxyFail reply rq FProxyTimeout)
  | HPrxWait rq reply cid ref, CCancel => Some (s, HPrxClose cid ref, [])
  | HPrxGot rq reply cid ref tc, CGo =>
      Some (s, HPrxSplice rq cid ref tc,
        ((if reply then map (EvSent rq) (proxyReplies cfg cid ref) else []) ++ [EvSplice cid ref rq tc])%list)
  | HPrxGot rq true cid ref tc, CPartial n =>
      if (n <? 2)%nat then
        Some (closeDone ref s, HPrxClose cid ref,
          (map (EvSent rq) (take n (proxyReplies cfg cid ref)) ++ [EvClose tc])%list)
      else None
  | HPrxSplice rq cid ref tc, CGo => Some (closeDone ref s, HPrxClose cid ref, [EvClose rq; EvClose tc])
  | HPrxClose cid ref, CGo => Some (closeProxy cid s, HDone, [])
  | HReverse cn cid, CGo =>
      match s_proxies s !! cid with
      | Some ref => Some (s, HOffer cn ref, [EvReverse cn cid])
      | None => Some (s, HDone, [])
      end
  | HOffer cn ref, CGo =>
      match offerTarget ref cn s with Some s' => Some (s', HAwait cn ref, []) | None => Some (s, HDone, []) end
  | HAwait cn ref, CGo =>
      match s_sessObj s !! ref with Some x => if x_done x then Some (s, HDone, []) else None | None => None end
  | HAwait cn ref, CCancel => Some (s, HDone, [])
  | HSweep, CNow now => let '(s', stale) := SweepReconnects cfg now s in Some (s', HSweepDel stale, [])
  | HSweepDel stale, CGo => Some (s, HDone, map (fun id => EvStore (OpDelete id)) stale)
  | _, _ => None
  end.

Lemma hrun_sound c s T s' T' evs : hrun c s T = Some (s', T', evs) -> hstep cfg s T s' T' evs.
Proof.
  destruct T, c; try done; cbn [hrun]; intros E; try (injection E as <- <- <-; by econstructor);
    try (repeat (case_match; try done); simplify_eq; by econstructor).
  all: try (injection E as <- <- <-; econstructor; by left).
  - destruct (register _ _ _ _ _ _ _) as [[[t rec] s1]|] eqn:Er.
    + destruct (_ <? _) eqn:Hn; [|done]. apply Z.ltb_lt in Hn. injection E as <- <- <-. by econstructor.
    + injection E as <- <- <-. by econstructor.
  - destruct (openRequest _ _) as [r s1] eqn:Er, (_ <? _) eqn:Hn; [|done]. apply Z.ltb_lt in Hn.
    injection E as <- <- <-. by econstructor.
  - destruct (_ <? _) eqn:Hn; [|done]. apply Z.ltb_lt in Hn.
    destruct (openProxy _ _ _) as [[r []] s1] eqn:Er; injection E as <- <- <-; by econstructor.
  - destruct reply; [|done]. destruct (n <? 2)%nat eqn:Hn; [|done]. apply Nat.ltb_lt in Hn.
    injection E as <- <- <-. by econstructor.
Qed.

(** A reverse connection handled without interruption: the steps of its thread, and what
    came of it. A connection handed over is the one the waiting request handler
    receives, and until it does the session takes no other. *)
Lemma handleReverseConnect_runs cn ad s s' out : handleReverseConnect cn (Some ad) s = (s', out) ->
  let cid := AdString ad AttrClaimID in
  match out with
  | RNoAd => False
  | RNoSession => s' = s /\ hstep cfg s (HReverse cn cid) s HDone []
  | RSatisfied => s' = s /\ exists ref, hstep cfg s (HReverse cn cid) s (HOffer cn ref) [EvReverse cn cid]
      /\ hstep cfg s (HOffer cn ref) s HDone []
  | RHanded ref => hstep cfg s (HReverse cn cid) s (HOffer cn ref) [EvReverse cn cid]
      /\ hstep cfg s (HOffer cn ref) s' (HAwait cn ref) []
      /\ (exists s2, takeTarget ref s' = Some (cn, s2))
      /\ forall cn', handleReverseConnect cn' (Some ad) s' = (s', RSatisfied)
  end.
Proof.
  cbn [handleReverseConnect]. destruct (s_proxies s !! AdString ad AttrClaimID) as [ref|] eqn:Ep;
    [|intros [= <- <-]; split; [done|by apply hs_reverse_none]].
  destruct (offerTarget ref cn s) as [s1|] eqn:Eo; intros [= <- <-]; cbn zeta iota.
  - split; [by apply hs_reverse|]. split; [by apply hs_offer|]. revert Eo. unfold offerTarget.
    destruct (s_sessObj s !! ref) as [[cid rq [|] dn]|]; [done| |done]. intros [= <-]. unfold takeTarget. cbn. rewrite Ep.
    by rewrite lookup_insert_eq; split; [eexists|].
  - split; [done|]. exists ref. split; [by apply hs_reverse|by apply hs_offer_full].
Qed.

(** A command arrives, or a handler runs. *)
Inductive action :=
| ARegister (i cn : nat) (ip remote user : string) (ad : Ad)
| ARequest (i cn : nat) (user remote : string) (ad : Ad)
| AReverse (i cn : nat) (cid : string)
| ARelay (i up : nat) (rt orig : string)
| ASweep (i : nat)
| ARun (i : nat) (c : choice).

Definition spawn (i : nat) (T : thread) (y : bsys) : option bsys :=
  match y_thr y !! i with None => Some (mkSys (y_srv y) (<[i := T]> (y_thr y)) (y_ev y)) | Some _ => None end.

Definition brun (a : action) (y : bsys) : option bsys :=
  match a with
  | ARegister i cn ip remote user ad =>
      if authorize cfg CommandRegister remote user then spawn i (HRegister cn ip ad) y else None
  | ARequest i cn user remote ad => spawn i (HRequest cn user remote ad) y
  | AReverse i cn cid => spawn i (HReverse cn cid) y
  | ARelay i up rt orig => spawn i (HRelay up rt orig) y
  | ASweep i => spawn i HSweep y
  | ARun i c =>
      match y_thr y !! i with
      | Some T =>
          match hrun c (y_srv y) T with
          | Some (s', T', evs) => Some (mkSys s' (<[i := T']> (y_thr y)) (y_ev y ++ evs)%list)
          | None => None
          end
      | None => None
      end
  end.

Definition bruns (l : list action) (y : bsys) : option bsys :=
  foldl (fun o a => y ← o; brun a y) (Some y) l.

Lemma spawn_sound i T y y' : spawnable cfg T -> spawn i T y = Some y' -> bstep cfg y y'.
Proof.
  intros Hs E. unfold spawn in E. destruct y as [s thr ev], (thr !! i) eqn:Hi; cbn in E; rewrite Hi in E; [done|].
  injection E as <-. by constructor.
Qed.

Lemma brun_sound a y y' : brun a y = Some y' -> bstep cfg y y'.
Proof.
  destruct a; cbn [brun]; intros E;
    try (eapply spawn_sound; [|eassumption]; by econstructor).
  - case_match; [|done]. eapply spawn_sound; [|eassumption]. by econstructor.
  - destruct y as [s thr ev]. cbn [y_thr y_srv y_ev] in E. destruct (thr !! i) as [T|] eqn:Hi; [|done].
    destruct (hrun c s T) as [[[s' T'] evs]|] eqn:Hr; [|done]. injection E as <-.
    econstructor; [done|]. by eapply hrun_sound.
Qed.

(** Reachable states of a broker. *)
Definition broker_reach (y : bsys) : Prop := exists y0, started y0 /\ rtc (bstep cfg) y0 y.

Lemma bruns_sound l y y' : bruns l y = Some y' -> rtc (bstep cfg) y y'.
Proof.
  unfold bruns. revert y. induction l as [|a l IH]; intros y E; cbn in E; [by injection E as <-|].
  destruct (brun a y) as [y1|] eqn:Ha.
  - econstructor; [by eapply brun_sound|]. by apply IH.
  - exfalso. revert E. clear. induction l as [|b l IH]; cbn; [done|exact IH].
Qed.

Lemma reach_inv y : broker_reach y -> id_inv y /\ tab_inv y /\ trace_inv cfg y.
Proof.
  intros (y0 & Hy0 & Hr).
  assert (id_inv y0 /\ tab_inv y0 /\ trace_inv cfg y0) as Hi
    by (split; [by apply started_id|]; split; [by apply started_tab|by apply started_trace]).
  clear Hy0. induction Hr as [|y1 y2 y3 Hst _ IH]; [done|]. apply IH. destruct Hi as (H1 & H2 & H3).
  split; [by eapply bstep_id|]. split; [by eapply bstep_tab|by eapply bstep_trace].
Qed.

(** A state of the broker in which every value is of its kind: counters are 64-bit,
    table entries carry their own keys, numbers in use were handed out, and every
    reference leads to an object. *)
Record broker_typed (s : Server) : Prop := {
  bt_reg : srv_ok s;
  bt_next : 0 <= s_nextReq s < 2 ^ 64;
  bt_request r : r ∈ s_requests s -> 0 < r <= s_nextReq s /\ exists q, s_reqObj s !! r = Some q;
  bt_proxy cid ref : s_proxies s !! cid = Some ref ->
    0 < ref <= s_nextReq s /\ exists x, s_sessObj s !! ref = Some x /\ x_connectID x = cid;
  bt_apart r cid : r ∈ s_requests s -> s_proxies s !! cid <> Some r
}.

Lemma inv_typed y : id_inv y -> tab_inv y -> trace_inv cfg y -> reqs_ok (y_srv y) -> broker_typed (y_srv y).
Proof.
  intros [H1 _ _] [Hn Ht Hb Hu] [[_ _ Hob] _ _ _ _ _ _] Hr. split; [done|done|..].
  - intros r Hin. split; [by apply (Hb (None, r))|by apply Hr].
  - intros cid ref Hin. split; [by apply (Hb (Some cid, ref))|]. destruct (Hob _ _ Hin) as (rq & x & Hx & Hc & _). by exists x.
  - intros r cid Hin Hp. destruct (proj1 (Ht (None, r)) Hin) as (i & T & Hi & HT).
    destruct (proj1 (Ht (Some cid, r)) Hp) as (j & U & Hj & HU).
    assert (i = j) as <- by (by eapply (Hu i j)). congruence.
Qed.

Lemma reach_reqs y : broker_reach y -> reqs_ok (y_srv y).
Proof.
  intros (y0 & (_ & _ & Hr & _) & Hst).
  assert (reqs_ok (y_srv y0)) as Hi by (intros r; rewrite Hr; set_solver). clear Hr.
  induction Hst as [|y1 y2 y3 Hs _ IH]; [done|]. apply IH. by eapply bstep_reqs.
Qed.
End run.

(** * Runs *)

(** A fresh broker. *)
Definition fresh `{Cedar} : bsys := mkSys (loadReconnects []) ∅ [].

Lemma fresh_started `{Cedar} : started fresh.
Proof.
  split; [|repeat split]. split; [vm_compute; split; congruence|..].
  - intros id r Hr. cbn in Hr. by rewrite lookup_empty in Hr.
  - intros id t Ht. cbn in Ht. by rewrite lookup_empty in Ht.
Qed.

(** The state a run ends in. *)
Definition after `{Cedar} (cfg : BrokerConfig) (l : list action) : bsys :=
  default fresh (bruns cfg l fresh).

Definition runs `{Cedar} (cfg : BrokerConfig) (l : list action) : bool :=
  match bruns cfg l fresh with Some _ => true | None => false end.

Lemma runs_reach `{Cedar} cfg l : runs cfg l = true -> broker_reach cfg (after cfg l).
Proof.
  unfold runs, after. destruct (bruns cfg l fresh) as [y|] eqn:E; [|done]. intros _.
  exists fresh. split; [apply fresh_started|by eapply bruns_sound].
Qed.

#[local] Existing Instance demoCedar.

#[local] Open Scope string_scope.

Definition regAd (cookie contact : string) : demoAd :=
  [(AttrName, "startd"); (AttrClaimID, cookie); (AttrCCBID, contact)].
Definition reqAd (id cid streaming : string) : demoAd :=
  [(AttrCCBID, id); (AttrClaimID, cid); (AttrMyAddress, "10.0.0.9:4000"); (AttrName, "schedd");
   (AttrCCBStreamingRequired, streaming)].
Definition resAd (r : string) : demoAd := [(AttrRequestID, r); (AttrResult, "true")].

(** Handler [i] registers connection [cn] and serves it. *)
Definition registerRun (i cn : nat) (ad : demoAd) (gen : string) : list action :=
  [ARegister i cn "10.0.0.1" "10.0.0.1:5" "condor" ad; ARun i (CGen (Some gen) 10); ARun i CGo; ARun i CGo].

(** A target registers, a standard request to it succeeds, then a streaming one
    is spliced and ends, and the target disconnects. *)
Definition demo_requests : list action :=
  (registerRun 0 1 (regAd "" "") "k1" ++
  [ARequest 1 2 "alice" "10.0.0.9:7" (reqAd "1" "c0" "false"); ARun 1 CGo; ARun 1 CGo; ARun 1 CGo;
   ARun 0 (CAd (resAd "1")); ARun 0 CGo; ARun 1 CGo; ARun 1 CGo;
   ARequest 2 3 "alice" "10.0.0.9:7" (reqAd "1" "c1" "true"); ARun 2 CGo; ARun 2 CGo; ARun 2 CGo;
   AReverse 3 4 "c1"; ARun 3 CGo; ARun 3 CGo; ARun 2 CGo; ARun 2 CGo; ARun 2 CGo; ARun 2 CGo; ARun 3 CGo;
   ARun 0 CFail; ARun 0 (CNow 20); ARun 0 CGo])%list.

Lemma demo_requests_reach : broker_reach demo_cfg (after demo_cfg demo_requests).
Proof. apply runs_reach. vm_compute. reflexivity. Qed.

(** Every handler has returned. *)
Definition all_done `{Cedar} (y : bsys) : bool :=
  forallb (fun p => match p.2 with HDone => true | _ => false end) (map_to_list (y_thr y)).

Lemma all_done_spec `{Cedar} (y : bsys) : all_done y = true -> forall i T, y_thr y !! i = Some T -> T = HDone.
Proof.
  unfold all_done. rewrite forallb_forall. intros Hall i T Hi.
  assert ((i, T) ∈ map_to_list (y_thr y)) as Hin by (by apply elem_of_map_to_list).
  apply list_elem_of_In, Hall in Hin. cbn in Hin. by destruct T.
Qed.

(** * Properties *)

(** C10: a CCBID stands for one cookie, for ever. In every reachable state of the
    broker, whatever handlers run concurrently, the registration tables are
    consistent and any two cookies bound to one CCBID (issued to a target, in the
    reconnect table, persisted in the store or about to be) are the same; no such
    id exceeds [nextID], so none is ever handed out afresh again, not even after
    its record was swept. *)
Theorem broker_identities `{Cedar} cfg y : broker_reach cfg y ->
  srv_ok (y_srv y)
  /\ (forall id ck ck', known y id ck -> known y id ck' -> ck = ck')
  /\ (forall id ck, known y id ck -> 0 <= id <= s_nextID (y_srv y)).
Proof. intros ([H1 H2 H3] & _)%reach_inv. done. Qed.

(** C14: the broker's state stays well-formed. In every reachable state, under any
    interleaving of its handlers, the counters are 64-bit values, every target and
    record sits under its own CCBID and a target's record has its cookie, every
    pending request and session has a number that was handed out and an object it
    leads to, a session's is under its own connect id, and no number stands for both
    a request and a session. *)
Theorem broker_wf `{Cedar} cfg y : broker_reach cfg y -> broker_typed (y_srv y).
Proof. intros Hr. destruct (reach_inv cfg y Hr) as (H1 & H2 & H3). eapply inv_typed; eauto. by eapply reach_reqs. Qed.

Lemma broker_wf_witness : broker_typed (y_srv (after demo_cfg demo_requests)).
Proof. exact (broker_wf demo_cfg _ demo_requests_reach). Defined.

(** A target registers, disconnects and comes back with its cookie while another
    one registers. *)
Definition demo_reconnect : list action :=
  (registerRun 0 1 (regAd "" "") "k1" ++ [ARun 0 CFail; ARun 0 (CNow 20); ARun 0 CGo]
   ++ registerRun 1 2 (regAd "" "") "k2" ++ registerRun 2 3 (regAd "k1" "broker.example:9618#1") "k3")%list.

Lemma broker_identities_witness : broker_reach demo_cfg (after demo_cfg demo_reconnect)
  /\ known (after demo_cfg demo_reconnect) 1 "k1"
  /\ forall ck, known (after demo_cfg demo_reconnect) 1 ck -> ck = "k1".
Proof.
  assert (broker_reach demo_cfg (after demo_cfg demo_reconnect)) as Hr
    by (apply runs_reach; vm_compute; reflexivity).
  assert (known (after demo_cfg demo_reconnect) 1 "k1") as Hk.
  { apply (kn_issued _ _ _ (mkTarget 1 "startd" "k1" 1)); [|done..]. apply list_elem_of_lookup. exists 0%nat. vm_compute. reflexivity. }
  split; [exact Hr|]. split; [exact Hk|]. intros ck Hck.
  exact (proj1 (proj2 (broker_identities demo_cfg _ Hr)) _ _ _ Hck Hk).
Defined.

(** C12: no request or proxy session leaks. In every reachable state the pending
    tables hold exactly the entries of handlers still running: an entry is there if
    and only if a handler that has not deferred its delete holds it, no two handlers
    hold the same request number or the same connect id, and once every handler has
    returned both tables are empty. *)
Theorem broker_no_leak `{Cedar} cfg y : broker_reach cfg y ->
  (forall k, held (y_srv y) k <-> exists i T, y_thr y !! i = Some T /\ ref_of T = Some k)
  /\ (forall i j T T' c c' r r', y_thr y !! i = Some T -> y_thr y !! j = Some T' ->
      ref_of T = Some (c, r) -> ref_of T' = Some (c', r') -> r = r' \/ (c = c' /\ c <> None) -> i = j)
  /\ ((forall i T, y_thr y !! i = Some T -> T = HDone) ->
      s_requests (y_srv y) = ∅ /\ s_proxies (y_srv y) = ∅).
Proof.
  intros (_ & [_ Ht _ Hu] & _)%reach_inv. split; [exact Ht|]. split.
  - intros i j T T' c c' r r' Hi Hj HT HT' [->|[-> Hc]]; [by eapply Hu|].
    destruct c' as [cid|]; [|done].
    assert (held (y_srv y) (Some cid, r)) as H1 by (apply Ht; eauto).
    assert (held (y_srv y) (Some cid, r')) as H2 by (apply Ht; eauto).
    cbn in H1, H2. rewrite H1 in H2. injection H2 as <-. by eapply Hu.
  - intros Hall. assert (forall k, ~ held (y_srv y) k) as Hno.
    { intros k (i & T & Hi & HT)%Ht. by rewrite (Hall _ _ Hi) in HT. }
    split.
    + apply set_eq. intros r. split; [intros Hr; by destruct (Hno (None, r))|set_solver].
    + apply map_eq. intros cid. rewrite lookup_empty. destruct (s_proxies (y_srv y) !! cid) as [ref|] eqn:E; [|done].
      by destruct (Hno (Some cid, ref)).
Qed.

Lemma broker_no_leak_witness : s_requests (y_srv (after demo_cfg demo_requests)) = ∅
  /\ s_proxies (y_srv (after demo_cfg demo_requests)) = ∅.
Proof.
  apply (proj2 (proj2 (broker_no_leak demo_cfg _ demo_requests_reach))).
  apply all_done_spec. vm_compute. reflexivity.
Defined.



(** C11: a proxy splices the right ends. Whenever the broker joins connections [rq]
    and [tc] for a session, the session was opened under its connect id for
    requester [rq]; [rq] had sent an authorized request that names a CCBID and this
    connect id, or brought a route that starts with a CCBID; the forward for this
    session, with the name and the route that came with it, went to the connection of
    the target that had registered last under that CCBID when the request was handled;
    and [tc] had presented the same connect id. A session is spliced at most once. *)
Theorem broker_splice_sound `{Cedar} cfg y ev1 cid ref rq tc ev2 : broker_reach cfg y ->
  y_ev y = (ev1 ++ EvSplice cid ref rq tc :: ev2)%list ->
  (exists x, s_sessObj (y_srv y) !! ref = Some x /\ x_connectID x = cid /\ x_requester x = rq)
  /\ (exists t nm rc, wanted cfg ev1 rq t cid nm rc
        /\ EvSent (t_conn t) (MAd (proxyForward cfg cid nm ref rc)) ∈ ev1)
  /\ EvReverse tc cid ∈ ev1 /\ outcomes ref (y_ev y) = 1%nat.
Proof.
  intros (_ & _ & [_ _ _ He H1 _ _])%reach_inv E. destruct (He _ _ _ E) as (? & (t & nm & rc & ? & ?) & ?).
  split; [done|]. split; [by exists t, nm, rc|]. split; [done|].
  specialize (H1 ref). rewrite E, outcomes_app in *. unfold outcomes in *. cbn in *.
  rewrite bool_decide_true in * by done. cbn in *. lia.
Qed.

Lemma broker_splice_sound_witness : exists ev1 ev2,
  y_ev (after demo_cfg demo_requests) = (ev1 ++ EvSplice "c1" 2 3 4 :: ev2)%list
  /\ EvReverse 4 "c1" ∈ ev1 /\ exists t nm rc, wanted demo_cfg ev1 3 t "c1" nm rc.
Proof.
  exists (take 12 (y_ev (after demo_cfg demo_requests))), (drop 13 (y_ev (after demo_cfg demo_requests))).
  assert (y_ev (after demo_cfg demo_requests) = (take 12 (y_ev (after demo_cfg demo_requests))
    ++ EvSplice "c1" 2 3 4 :: drop 13 (y_ev (after demo_cfg demo_requests)))%list) as E
    by (vm_compute; reflexivity).
  split; [exact E|].
  destruct (broker_splice_sound demo_cfg _ _ _ _ _ _ _ demo_requests_reach E) as (_ & (t & nm & rc & Hw & _) & H3 & _).
  split; [exact H3|]. by exists t, nm, rc.
Defined.

(** * Behaviour the code does not guard against *)

(** A target that reconnects before the broker noticed that its old connection is
    gone loses its registration: the old handler's [removeTarget] deletes the
    entry of the new connection, which keeps being served but cannot be reached. *)
Definition demo_stale : list action :=
  (registerRun 0 1 (regAd "" "") "k1" ++ registerRun 1 2 (regAd "k1" "broker.example:9618#1") "k2"
   ++ [ARun 0 CFail; ARun 0 (CNow 20); ARun 0 CGo])%list.

Definition serves `{Cedar} (y : bsys) (i : nat) : option (Z * nat) :=
  match y_thr y !! i with Some (HServe t) => Some (t_id t, t_conn t) | _ => None end.

Theorem stale_handler_drops_registration : broker_reach demo_cfg (after demo_cfg demo_stale)
  /\ serves (after demo_cfg demo_stale) 1 = Some (1, 2%nat)
  /\ s_targets (y_srv (after demo_cfg demo_stale)) !! 1 = None.
Proof. split; [apply runs_reach; vm_compute; reflexivity|]. split; vm_compute; reflexivity. Qed.

(** [deliverResult] accepts a report from any target: target 2 answers a request
    that was forwarded to target 1. *)
Definition demo_forged : list action :=
  (registerRun 0 1 (regAd "" "") "k1" ++ registerRun 1 2 (regAd "" "") "k2" ++
  [ARequest 2 3 "alice" "10.0.0.9:7" (reqAd "1" "c0" "false"); ARun 2 CGo; ARun 2 CGo; ARun 2 CGo;
   ARun 1 (CAd (resAd "1")); ARun 1 CGo; ARun 2 CGo])%list.

Theorem report_from_any_target : broker_reach demo_cfg (after demo_cfg demo_forged)
  /\ drop 7 (y_ev (after demo_cfg demo_forged))
     = [EvSent 1 (MAd (standardForward "10.0.0.9:4000" "c0" "schedd" 1)); EvReport 2 1 (mkReply true "");
        EvReply 3 1 (MSuccess false)].
Proof. split; [apply runs_reach; vm_compute; reflexivity|]. vm_compute. reflexivity. Qed.

(** After the waiting handler took the first connection, a second one presenting
    the same connect id is accepted too, and waits for the splice of the first. *)
Definition demo_twice : list action :=
  (registerRun 0 1 (regAd "" "") "k1" ++
  [ARequest 1 2 "alice" "10.0.0.9:7" (reqAd "1" "c1" "true"); ARun 1 CGo; ARun 1 CGo; ARun 1 CGo;
   AReverse 2 3 "c1"; ARun 2 CGo; ARun 2 CGo; ARun 1 CGo; ARun 1 CGo;
   AReverse 3 4 "c1"; ARun 3 CGo; ARun 3 CGo])%list.

Definition awaits `{Cedar} (y : bsys) (i : nat) : option (nat * Z) :=
  match y_thr y !! i with Some (HAwait cn ref) => Some (cn, ref) | _ => None end.

Theorem second_reverse_connect_accepted : broker_reach demo_cfg (after demo_cfg demo_twice)
  /\ EvSplice "c1" 1 2 3 ∈ y_ev (after demo_cfg demo_twice)
  /\ awaits (after demo_cfg demo_twice) 3 = Some (4%nat, 1).
Proof.
  split; [apply runs_reach; vm_compute; reflexivity|]. split; [|vm_compute; reflexivity].
  apply list_elem_of_lookup. exists 8%nat. vm_compute. reflexivity.
Qed.
