(* ===== verification/Route.v ===== *)
(** Recursive inbound tunnels (upstream.go, proxy.go, request.go): how a streaming
    request with a route passes from broker to broker. A broker forwards it to a
    registrant; when that is a broker inside, its upstream listener relays it to the
    next CCBID of the route. Each hop runs the pieces of Broker.v. *)

From stdpp Require Import base gmap list strings numbers functions.
From Stdlib Require Import ZArith Lia.
From S2P Require Import Prelude GoStr FsConfig Contacts Reconnect Broker.

#[local] Open Scope string_scope.
#[local] Open Scope Z_scope.

(** * The upstream listener *)

(** What the cedar listener hands to its handler beside the connection. *)
Record InboundMeta := mkMeta { m_Route : string; m_OriginalRequester : string; m_PriorHop : string }.

(** The text of an attribute in an ad the broker built, empty when it is not set. *)
Definition outString (ad : outAd) (a : attr) : string :=
  match List.find (fun p => bool_decide (p.1 = a)) ad with Some (_, VStr s) => s | _ => "" end.

(** The listener of the cedar library reads the route and the audit trail off the
    forwarded request. *)
Class CedarListener := {
  inboundMeta : outAd -> InboundMeta;
  meta_route ad : m_Route (inboundMeta ad) = outString ad AttrCCBRoute;
  meta_orig ad : m_OriginalRequester (inboundMeta ad) = outString ad AttrCCBOriginalRequester
}.

(** The [Handler] of [Server.startUpstream]: relay, or serve the connection as this
    broker's own. *)
Inductive inbound := IRelay (rt orig : string) | IServe.

Definition upstreamHandler (meta : InboundMeta) : inbound :=
  if negb (String.eqb (m_Route meta) "") then IRelay (m_Route meta) (m_OriginalRequester meta) else IServe.

(** * A network of brokers *)

Record site := mkSite { n_cfg : BrokerConfig; n_srv : Server }.

(** A hop: the broker, the registrant it asked, and the ad it sent there. *)
Record hop := mkHop { h_at : nat; h_id : Z; h_ad : outAd }.

Inductive routeEnd :=
| AtTarget (b : nat) (id : Z)              (* a registrant that is no broker *)
| ServedBy (b : nat)                       (* the route ended at broker [b] itself *)
| DroppedAt (b : nat)                      (* broker [b] closed the connection *)
| Refused (m : failMsg)
| Standard (t : target).                   (* not a streaming request *)

Section route.
Context `{Cedar} `{CedarListener}.
(** The broker inside whose upstream registration a connection of broker [b] is. *)
Context (behind : nat -> conn -> option nat).
(** What the [k]-th [GenerateConnectID] returns, and the connection its relay is
    spliced to. *)
Context (gen : nat -> option string) (upConn : nat -> conn).

(** [proxyRelay] at broker [b] toward registrant [t] and everything behind it, when
    no write fails and every reverse connection arrives. *)
Fixpoint follow (fuel k : nat) (net : nat -> site) (b : nat) (rq : conn) (t : target)
    (connectID name : string) (rc : routeContext) : option (list hop * routeEnd * (nat -> site)) :=
  match fuel with
  | O => None
  | S fuel =>
      let cfg := n_cfg (net b) in
      let '(ref, fresh, s') := openProxy connectID rq (n_srv (net b)) in
      let net' := <[b := mkSite cfg s']> net in
      if negb fresh then Some ([], DroppedAt b, net') else
      let ad := proxyForward cfg connectID name ref rc in
      let h := mkHop b (t_id t) ad in
      match behind b (t_conn t) with
      | None => Some ([h], AtTarget b (t_id t), net')
      | Some b' =>
          match upstreamHandler (inboundMeta ad) with
          | IServe => Some ([h], ServedBy b', net')
          | IRelay rt orig =>
              match startInboundRelay (n_cfg (net' b')) rt orig (gen k) (n_srv (net' b')) with
              | None => Some ([h], DroppedAt b', net')
              | Some (t', cid', rc') =>
                  match follow fuel (S k) net' b' (upConn k) t' cid' "inbound-relay" rc' with
                  | None => None
                  | Some (hs, e, net'') => Some (h :: hs, e, net'')
                  end
              end
          end
      end
  end.

(** A CCB_REQUEST at broker [b]. *)
Definition requestAt (fuel : nat) (net : nat -> site) (b : nat) (cn : conn) (user remote : string) (ad : Ad)
  : option (list hop * routeEnd * (nat -> site)) :=
  match handleRequest (n_cfg (net b)) user remote ad (n_srv (net b)) with
  | DFail m => Some ([], Refused m, net)
  | DStandard t _ _ _ => Some ([], Standard t, net)
  | DProxy t connectID name rc => follow fuel 0 net b cn t connectID name rc
  end.

(** * One hop *)

Lemma openProxy_spec cid rq s ref ok s' : openProxy cid rq s = (ref, ok, s') ->
  s_targets s' = s_targets s /\ s_tunnelContact s' = s_tunnelContact s /\ s_reconnects s' = s_reconnects s
  /\ (ok = true <-> s_proxies s !! cid = None).
Proof. unfold openProxy. destruct (s_proxies s !! cid) eqn:E; intros [= <- <- <-]; cbn; split_and!; done. Qed.

(** What the next broker reads off a forwarded request. *)
Lemma forward_route cfg cid nm ref rc : outString (proxyForward cfg cid nm ref rc) AttrCCBRoute = route rc.
Proof.
  unfold proxyForward, optAttr, outString. cbn.
  destruct (String.eqb_spec (route rc) "") as [->|]; cbn; [|done].
  destruct (String.eqb (originalRequester rc) ""), (String.eqb (priorHop rc) ""); done.
Qed.

Lemma forward_orig cfg cid nm ref rc :
  outString (proxyForward cfg cid nm ref rc) AttrCCBOriginalRequester = originalRequester rc.
Proof.
  unfold proxyForward, optAttr, outString. cbn.
  destruct (String.eqb (route rc) ""), (String.eqb_spec (originalRequester rc) "") as [->|]; cbn; try done;
    destruct (String.eqb (priorHop rc) ""); done.
Qed.

Lemma forward_prior cfg cid nm ref rc : outString (proxyForward cfg cid nm ref rc) AttrCCBPriorHop = priorHop rc.
Proof.
  unfold proxyForward, optAttr, outString. cbn.
  destruct (String.eqb (route rc) ""), (String.eqb (originalRequester rc) ""), (String.eqb_spec (priorHop rc) "") as [->|]; done.
Qed.

(** A relay takes one field off the route. *)
Lemma relay_shorter cfg rt orig g s t cid rc : startInboundRelay cfg rt orig g s = Some (t, cid, rc) ->
  S (length (Fields (route rc))) = length (Fields rt) /\ originalRequester rc = orig
  /\ priorHop rc = proxyAddrSinful (b_PublicAddress cfg).
Proof.
  unfold startInboundRelay, splitRoute. pose proof (Fields_words rt) as Hw. destruct (Fields rt) as [|w ws]; [done|].
  destruct (parseTargetID w) as [id|]; [|done]. destruct (String.eqb w ""); [done|].
  destruct (s_targets s !! id) as [t'|]; [|done]. destruct g as [c|]; [|done]. intros [= <- <- <-].
  cbn [route originalRequester priorHop length]. rewrite Fields_JoinSpace; [done|]. by inversion Hw.
Qed.

(** What every hop of a tunnel forwards. *)
Definition audited (net : nat -> site) (orig : string) (h : hop) : Prop :=
  outString (h_ad h) AttrCCBOriginalRequester = orig
  /\ outString (h_ad h) AttrCCBPriorHop = proxyAddrSinful (b_PublicAddress (n_cfg (net (h_at h)))).

(** Tunnels leave configurations and registrations as they are. *)
Definition sameRegs (net net' : nat -> site) : Prop := forall b,
  n_cfg (net' b) = n_cfg (net b) /\ s_targets (n_srv (net' b)) = s_targets (n_srv (net b))
  /\ s_reconnects (n_srv (net' b)) = s_reconnects (n_srv (net b)).

Lemma sameRegs_insert net b s' : s_targets s' = s_targets (n_srv (net b)) -> s_reconnects s' = s_reconnects (n_srv (net b)) ->
  sameRegs net (<[b := mkSite (n_cfg (net b)) s']> net).
Proof.
  intros H1 H2 b'. destruct (decide (b = b')) as [<-|Hne].
  - by rewrite fn_lookup_insert.
  - by rewrite fn_lookup_insert_ne by done.
Qed.

Lemma sameRegs_trans n1 n2 n3 : sameRegs n1 n2 -> sameRegs n2 n3 -> sameRegs n1 n3.
Proof. intros H1 H2 b. destruct (H1 b) as (<- & <- & <-). apply H2. Qed.

Lemma audited_mono net net' orig h : sameRegs net net' -> audited net' orig h -> audited net orig h.
Proof. intros Hs [? Hp]. split; [done|]. by rewrite Hp, (proj1 (Hs _)). Qed.

(** * Every route *)

(** A tunnel came to an end after at most [n] hops, each of them audited, and left the
    registrations alone. *)
Definition ends_within (net : nat -> site) (orig : string) (n : nat) (r : option (list hop * routeEnd * (nat -> site))) : Prop :=
  exists hs e net', r = Some (hs, e, net') /\ (length hs <= n)%nat /\ Forall (audited net orig) hs /\ sameRegs net net'.

Lemma follow_ends fuel k net b rq t cid nm rc : (length (Fields (route rc)) < fuel)%nat ->
  priorHop rc = proxyAddrSinful (b_PublicAddress (n_cfg (net b))) ->
  ends_within net (originalRequester rc) (S (length (Fields (route rc)))) (follow fuel k net b rq t cid nm rc).
Proof.
  revert k net b rq t cid nm rc. induction fuel as [|fuel IH]; intros k net b rq t cid nm rc Hf Hp; [lia|]. cbn [follow].
  destruct (openProxy cid rq (n_srv (net b))) as [[ref ok] s'] eqn:Eo.
  apply openProxy_spec in Eo as (Ht & _ & Hr & _). pose proof (sameRegs_insert net b s' Ht Hr) as Hsr.
  set (net' := <[b := _]> net) in *.
  destruct ok; cbn [negb]; [|eexists [], _, _; split_and!; [done|cbn; lia|constructor|done]].
  set (h := mkHop _ _ _). assert (audited net (originalRequester rc) h) as Ha.
  { unfold h. split; cbn [h_ad h_at]; [apply forward_orig|]. by rewrite forward_prior. }
  assert (forall e, ends_within net (originalRequester rc) (S (length (Fields (route rc)))) (Some ([h], e, net'))) as Hlast.
  { intros e. eexists [h], e, net'. split_and!; [done|cbn [length]; lia|by constructor|done]. }
  destruct (behind b (t_conn t)) as [b'|]; [|apply Hlast]. unfold upstreamHandler. rewrite meta_route, meta_orig, forward_route, forward_orig.
  destruct (String.eqb (route rc) ""); [apply Hlast|]. cbn [negb].
  destruct (startInboundRelay _ _ _ _ _) as [[[t' cid'] rc']|] eqn:Er; [|apply Hlast].
  apply relay_shorter in Er as (Hl & Ho & Hpr).
  destruct (IH (S k) net' b' (upConn k) t' cid' "inbound-relay" rc') as (hs & e & n & -> & Hlen & Hau & Hs); [lia|done|].
  exists (h :: hs), e, n. split_and!; [done|cbn [length]; lia| |by eapply sameRegs_trans].
  constructor; [done|]. rewrite Ho in Hau. eapply List.Forall_impl; [|exact Hau]. intros h'. by apply audited_mono.
Qed.

(** * Nested contacts *)

(** Registrant [id] of broker [b] and the brokers and CCBIDs behind it: each broker
    inside is registered with the one before it, whose reply gave it its tunnel
    contact; the last registrant is no broker. The connect ids the relays generate
    are not in use. *)
Fixpoint chain (net : nat -> site) (k b : nat) (id : Z) (rest : list (nat * Z)) : Prop :=
  0 <= id < 2 ^ 64 /\ exists t, s_targets (n_srv (net b)) !! id = Some t /\ t_id t = id /\
  match rest with
  | [] => behind b (t_conn t) = None
  | (b', id') :: rest =>
      behind b (t_conn t) = Some b'
      /\ s_tunnelContact (n_srv (net b')) = Some (contactString (b_PublicAddress (n_cfg (net b))) (s_tunnelContact (n_srv (net b))) id)
      /\ (exists cid, gen k = Some cid /\ s_proxies (n_srv (net b')) !! cid = None)
      /\ chain net (S k) b' id' rest
  end.

(** The contact of the last registrant of a chain. *)
Fixpoint chainContact (net : nat -> site) (b : nat) (id : Z) (rest : list (nat * Z)) : string :=
  match rest with
  | [] => contactString (b_PublicAddress (n_cfg (net b))) (s_tunnelContact (n_srv (net b))) id
  | (b', id') :: rest => chainContact net b' id' rest
  end.

Definition nestedIds (ids : list Z) : string := foldr (fun id acc => "#" +:+ FormatUint id +:+ acc) "" ids.

Lemma chain_ext net net' k b id rest : (forall x, x ∈ b :: map fst rest -> net' x = net x) -> chain net k b id rest -> chain net' k b id rest.
Proof.
  revert k b id. induction rest as [|[b' id'] rest IH]; intros k b id He; cbn [chain map fst] in *.
  - by rewrite He by (constructor).
  - rewrite (He b), (He b') by (repeat constructor). intros (Hid & t & H1 & H2 & H3 & H4 & H5 & H6). split; [done|].
    exists t. split_and!; try done. apply IH; [|done]. intros x Hx. apply He. by constructor.
Qed.

Lemma chainContact_nested `{!CedarLaws} net k b id rest : chain net k b id rest ->
  chainContact net b id rest
  = contactString (b_PublicAddress (n_cfg (net b))) (s_tunnelContact (n_srv (net b))) id +:+ nestedIds (map snd rest).
Proof.
  revert k b id. induction rest as [|[b' id'] rest IH]; intros k b id; cbn [chain chainContact map snd nestedIds foldr].
  - intros _. by rewrite string_app_nil_r.
  - intros (_ & t & _ & _ & _ & Htc & _ & Hc). rewrite (IH _ _ _ Hc), Htc.
    destruct (contactString_shape (b_PublicAddress (n_cfg (net b))) (s_tunnelContact (n_srv (net b))) id) as [a Ha].
    unfold contactString at 1. destruct (String.eqb_spec (contactString (b_PublicAddress (n_cfg (net b))) (s_tunnelContact (n_srv (net b))) id) "") as [E|_].
    + rewrite Ha in E. by destruct a.
    + by rewrite !string_app_assoc.
Qed.

Lemma chain_target net k b id rest : chain net k b id rest -> exists t, s_targets (n_srv (net b)) !! id = Some t.
Proof. destruct rest; intros (_ & t & Ht & _); by exists t. Qed.

Lemma chain_ids net k b id rest : chain net k b id rest -> Forall (fun i => 0 <= i < 2 ^ 64) (id :: map snd rest).
Proof.
  revert k b id. induction rest as [|[b' id'] rest IH]; intros k b id (Hid & t & _ & _ & Hc); constructor; try done.
  destruct Hc as (_ & _ & _ & Hc). by eapply IH.
Qed.

Lemma last_cons_default {A} (l : list A) (d x : A) : List.last (x :: l) d = List.last l x.
Proof. revert x d. induction l as [|y l IH]; intros x d; [done|]. change (List.last (y :: l) d = List.last (y :: l) x). by rewrite !IH. Qed.

Lemma follow_chain fuel k net b id rest rq t cid nm orig prior :
  chain net k b id rest -> NoDup (b :: map fst rest) -> (length rest < fuel)%nat ->
  s_targets (n_srv (net b)) !! id = Some t -> s_proxies (n_srv (net b)) !! cid = None ->
  exists hs net', follow fuel k net b rq t cid nm (mkRoute (JoinSpace (map FormatUint (map snd rest))) orig prior)
    = Some (hs, (let l := List.last rest (b, id) in AtTarget l.1 l.2), net')
    /\ map (fun h => (h_at h, h_id h)) hs = (b, id) :: rest.
Proof.
  revert k net b id rest rq t cid nm prior. induction fuel as [|fuel IH]; intros k net b id rest rq t cid nm prior Hc Hnd Hf Ht Hpx; [lia|].
  cbn [follow]. destruct (openProxy cid rq (n_srv (net b))) as [[ref ok] s'] eqn:Eo.
  apply openProxy_spec in Eo as (_ & _ & _ & [_ Hok]). rewrite (Hok Hpx). cbn [negb].
  set (net' := <[b := _]> net). destruct rest as [|[b' id'] rest]; cbn [chain] in Hc; destruct Hc as (Hid & t0 & Ht0 & Htid & Hc);
    rewrite Ht in Ht0; injection Ht0 as <-.
  - rewrite Hc. eexists [_], _. cbn. by rewrite Htid.
  - destruct Hc as (Hbh & _ & (cid' & Hg & Hpx') & Hc). rewrite Hbh. unfold upstreamHandler.
    rewrite meta_route, meta_orig, forward_route, forward_orig.
    cbn [route originalRequester map snd]. apply list.NoDup_cons in Hnd as [Hnb Hnd].
    assert (forall x, x ∈ b' :: map fst rest -> net' x = net x) as He.
    { intros x Hx. unfold net'. apply fn_lookup_insert_ne. intros ->. by apply Hnb. }
    destruct (splitRoute_hops id' (map snd rest) (chain_ids _ _ _ _ _ Hc)) as (Hsp & Hpt & _). cbn [map] in Hsp, Hpt. rewrite Hsp in Hpt. cbn [fst] in Hpt.
    destruct (String.eqb_spec (JoinSpace (FormatUint id' :: map FormatUint (map snd rest))) "") as [E|_].
    { exfalso. rewrite E in Hsp. apply (proj2 (FormatUint_graph id')). by injection Hsp. }
    cbn [negb]. unfold startInboundRelay. rewrite Hsp, Hpt.
    destruct (String.eqb_spec (FormatUint id') "") as [E|_]; [by apply FormatUint_graph in E|].
    rewrite (He b') by constructor. destruct (chain_target _ _ _ _ _ Hc) as [t' Ht']. rewrite Ht', Hg.
    edestruct (IH (S k) net' b' id') as (hs & n & -> & Hh);
      [eapply chain_ext; [exact He|exact Hc]|done|cbn [length] in *; lia|by rewrite (He b') by constructor|by rewrite (He b') by constructor|].
    eexists (_ :: hs), n. split; [by rewrite (last_cons_default rest (b, id) (b', id'))|].
    cbn [map h_at h_id]. by rewrite Hh, Htid.
Qed.

Lemma handleRequest_rc cfg user remote ad s t cid nm rc : handleRequest cfg user remote ad s = DProxy t cid nm rc ->
  rc = mkRoute (AdString ad AttrCCBRoute) (requesterIdentity user remote) (proxyAddrSinful (b_PublicAddress cfg)).
Proof.
  unfold handleRequest. destruct (negb _); [done|]. destruct (_ || _); [done|]. destruct (parseTargetID _) as [id|]; [|done].
  destruct (s_targets s !! id) as [t'|]; [|done]. destruct (_ || _); [|done]. by intros [= _ _ _ <-].
Qed.

Lemma requestAt_ends fuel net b cn user remote ad : (length (Fields (AdString ad AttrCCBRoute)) < fuel)%nat ->
  ends_within net (requesterIdentity user remote) (S (length (Fields (AdString ad AttrCCBRoute))))
    (requestAt fuel net b cn user remote ad).
Proof.
  intros Hf. unfold requestAt. destruct (handleRequest _ _ _ _ _) as [m|t cid nm rc|t cid ra nm] eqn:E.
  - eexists [], _, net. split_and!; [done|cbn [length]; lia|constructor|done].
  - apply handleRequest_rc in E as ->. by apply follow_ends.
  - eexists [], _, net. split_and!; [done|cbn [length]; lia|constructor|done].
Qed.

(** A streaming request for the first registrant of a chain, with the other CCBIDs as
    its route. *)
Lemma request_proxied cfg user remote ad s id t ids :
  authorize cfg CommandRequest remote user = true -> AdString ad AttrClaimID <> "" -> AdString ad AttrMyAddress <> "" ->
  AdString ad AttrCCBID = FormatUint id -> AdString ad AttrCCBRoute = JoinSpace (map FormatUint ids) ->
  AdBool ad AttrCCBStreamingRequired = Some true -> 0 <= id < 2 ^ 64 -> s_targets s !! id = Some t ->
  handleRequest cfg user remote ad s
  = DProxy t (AdString ad AttrClaimID) (AdString ad AttrName)
      (mkRoute (JoinSpace (map FormatUint ids)) (requesterIdentity user remote) (proxyAddrSinful (b_PublicAddress cfg))).
Proof.
  intros Ha Hc Hm Hi Hr Hs Hid Ht. unfold handleRequest. rewrite Ha, Hi, Hr, Hs, (proj1 (parseTargetID_strict "") id Hid), Ht.
  cbn [negb default from_option orb]. by rewrite (proj2 (String.eqb_neq _ _) Hc), (proj2 (String.eqb_neq _ _) Hm).
Qed.
End route.

(** * Claims *)

(** C17: a tunnel ends. In any network of brokers, loops of brokers registered with each
    other included, a CCB_REQUEST with any route comes to an outcome after at most one
    hop more than its route has fields; every broker on the way forwards the identity
    of the first requester unchanged and itself as the prior hop; and no registration
    changes. *)
Theorem route_ends `{Cedar} `{CedarListener} behind gen upConn fuel net b cn user remote ad :
  (length (Fields (AdString ad AttrCCBRoute)) < fuel)%nat ->
  ends_within net (requesterIdentity user remote) (S (length (Fields (AdString ad AttrCCBRoute))))
    (requestAt behind gen upConn fuel net b cn user remote ad).
Proof. apply requestAt_ends. Qed.

(** C16: nested contacts lead to the registrant. Brokers registered inside one another
    give a registrant of the innermost the contact [addr#id0#id1...#idn]; a streaming
    request to the outermost broker for [id0] with the route [id1 ... idn] passes
    through exactly those brokers and registrants and ends at that registrant. *)
Theorem nested_contact_routes `{Cedar} `{CedarListener} `{!CedarLaws} behind gen upConn fuel net b id rest cn user remote ad :
  chain behind gen net 0 b id rest -> NoDup (b :: map fst rest) -> s_tunnelContact (n_srv (net b)) = None ->
  (length rest < fuel)%nat ->
  authorize (n_cfg (net b)) CommandRequest remote user = true ->
  AdString ad AttrClaimID <> "" -> s_proxies (n_srv (net b)) !! AdString ad AttrClaimID = None ->
  AdString ad AttrMyAddress <> "" -> AdString ad AttrCCBID = FormatUint id ->
  AdString ad AttrCCBRoute = JoinSpace (map FormatUint (map snd rest)) -> AdBool ad AttrCCBStreamingRequired = Some true ->
  chainContact net b id rest = ContactString (b_PublicAddress (n_cfg (net b))) id +:+ nestedIds (map snd rest)
  /\ exists hs net', requestAt behind gen upConn fuel net b cn user remote ad
       = Some (hs, (let l := List.last rest (b, id) in AtTarget l.1 l.2), net')
       /\ map (fun h => (h_at h, h_id h)) hs = (b, id) :: rest.
Proof.
  intros Hc Hnd Htc Hf Ha Hcl Hpx Hm Hi Hr Hs. split.
  - rewrite (chainContact_nested _ _ _ _ _ _ _ Hc), Htc. done.
  - destruct (chain_target _ _ _ _ _ _ _ Hc) as [t Ht]. unfold requestAt.
    rewrite (request_proxied _ _ _ _ _ id t (map snd rest)) by (done || by destruct (Forall_inv (chain_ids _ _ _ _ _ _ _ Hc))).
    by apply follow_chain.
Qed.

(** * Witnesses *)

#[local] Existing Instance demoCedar.
#[local] Existing Instance demoCedar_laws.

#[local, refine] Instance demoListener : CedarListener := {
  inboundMeta ad := mkMeta (outString ad AttrCCBRoute) (outString ad AttrCCBOriginalRequester) (outString ad AttrCCBPriorHop)
}.
Proof. all: done. Defined.

(** Broker 1 is registered with broker 0 as 7, broker 2 with broker 1 as 42, and a
    daemon with broker 2 as 8. *)
Definition nestSrv (tunnel : option string) (id : Z) : Server :=
  mkServer 100 0 {[id := mkTarget id "ccb" "k" 1]} ∅ ∅ ∅ ∅ ∅ tunnel.
Definition nestNet (b : nat) : site :=
  match b with
  | 0 => mkSite demo_cfg (nestSrv None 7)
  | 1 => mkSite demo_cfg (nestSrv (Some "broker.example:9618#7") 42)
  | _ => mkSite demo_cfg (nestSrv (Some "broker.example:9618#7#42") 8)
  end%nat.
Definition nestBehind (b : nat) (c : conn) : option nat := (match b with 0 => Some 1 | 1 => Some 2 | _ => None end)%nat.
Definition nestGen (k : nat) : option string := Some (FormatUint (Z.of_nat k)).
Definition routeAd (rt : string) : demoAd :=
  [(AttrCCBID, "7"); (AttrClaimID, "c0"); (AttrMyAddress, "10.0.0.9:4000"); (AttrName, "schedd");
   (AttrCCBStreamingRequired, "true"); (AttrCCBRoute, rt)].

Lemma nest_chain : chain nestBehind nestGen nestNet 0 0 7 [(1%nat, 42); (2%nat, 8)].
Proof.
  repeat (split; [lia|]; eexists; split; [vm_compute; reflexivity|]; split; [done|]; cbv beta iota;
    try (split; [done|]; split; [vm_compute; reflexivity|]; split; [by eexists|])). done.
Qed.

Lemma nested_contact_routes_witness :
  chainContact nestNet 0 7 [(1%nat, 42); (2%nat, 8)] = "broker.example:9618#7#42#8"
  /\ exists hs net', requestAt nestBehind nestGen (fun k => k) 3 nestNet 0 9 "alice" "10.0.0.9:7" (routeAd "42 8")
       = Some (hs, AtTarget 2 8, net')
       /\ map (fun h => (h_at h, h_id h)) hs = [(0%nat, 7); (1%nat, 42); (2%nat, 8)].
Proof.
  apply (@nested_contact_routes demoCedar demoListener demoCedar_laws nestBehind nestGen (fun k => k) 3 nestNet 0 7 [(1%nat, 42); (2%nat, 8)] 9 "alice" "10.0.0.9:7" (routeAd "42 8")
    nest_chain); try (vm_compute; (reflexivity || congruence || lia)).
  apply (bool_decide_unpack _). vm_compute. exact I.
Defined.

(** Brokers 0 and 1 are registered with each other, and the route goes round. *)
Definition roundNet (b : nat) : site := mkSite demo_cfg (nestSrv None (if (b =? 0)%nat then 7 else 42)).

Lemma route_ends_witness :
  ends_within roundNet "alice at 10.0.0.9:7" 6
    (requestAt (fun b _ => Some (1 - b)%nat) nestGen (fun k => k) 6 roundNet 0 9 "alice" "10.0.0.9:7" (routeAd "42 7  42 7 42")).
Proof.
  apply (@route_ends demoCedar demoListener (fun b _ => Some (1 - b)%nat) nestGen (fun k => k) 6 roundNet 0 9 "alice" "10.0.0.9:7" (routeAd "42 7  42 7 42")).
  vm_compute. lia.
Defined.
