(* ===== verification/RouteRun.v ===== *)
(** A network of concurrent brokers (upstream.go, proxy.go, request.go): every broker
    runs its handlers as in BrokerSys.v, and the upstream registration of a broker
    inside turns a request forwarded to it into a relay of its own. The theorems carry
    the audit trail through every interleaving. *)

From stdpp Require Import base gmap list strings numbers functions relations.
From Stdlib Require Import ZArith Lia.
From S2P Require Import Prelude GoStr FsConfig Contacts Reconnect Broker BrokerSys BrokerRun Route.

#[local] Open Scope string_scope.
#[local] Open Scope Z_scope.

Section network.
Context `{Cedar} `{CedarListener}.
Context (behind : nat -> conn -> option nat).
Context (cfg : nat -> BrokerConfig).

(** * The network *)

(** A CCB_REQUEST that reached broker [a_at]. *)
Record arrival := mkArrival { a_at : nat; a_user : string; a_remote : string; a_ad : Ad }.

Record network := mkNetwork { w_sys : nat -> bsys; w_req : list arrival }.

Definition spawned (i : nat) (T : thread) (y : bsys) : bsys := mkSys (y_srv y) (<[i := T]> (y_thr y)) (y_ev y).
Definition ran (i : nat) (s' : Server) (T' : thread) (evs : list event) (y : bsys) : bsys :=
  mkSys s' (<[i := T']> (y_thr y)) (y_ev y ++ evs).
Definition at_broker (b : nat) (f : bsys -> bsys) (w : network) : network :=
  mkNetwork (<[b := f (w_sys w b)]> (w_sys w)) (w_req w).

(** Commands that are neither requests nor relays. *)
Definition local_cmd (T : thread) : bool :=
  match T with HRequest _ _ _ _ | HRelay _ _ _ => false | _ => true end.

(** A client sends a request; a broker inside, registered with [b] on connection [c],
    receives one that [b] forwarded; another command arrives; a handler moves. *)
Inductive nstep : network -> network -> Prop :=
| nw_request w b i cn user remote ad : y_thr (w_sys w b) !! i = None ->
    nstep w (at_broker b (spawned i (HRequest cn user remote ad))
               (mkNetwork (w_sys w) (mkArrival b user remote ad :: w_req w)))
| nw_relay w b c ad b' rt orig i up : EvSent c (MAd ad) ∈ y_ev (w_sys w b) -> behind b c = Some b' ->
    upstreamHandler (inboundMeta ad) = IRelay rt orig -> y_thr (w_sys w b') !! i = None ->
    nstep w (at_broker b' (spawned i (HRelay up rt orig)) w)
| nw_spawn w b i T : spawnable (cfg b) T -> local_cmd T = true -> y_thr (w_sys w b) !! i = None ->
    nstep w (at_broker b (spawned i T) w)
| nw_run w b i T s' T' evs : y_thr (w_sys w b) !! i = Some T -> hstep (cfg b) (y_srv (w_sys w b)) T s' T' evs ->
    nstep w (at_broker b (ran i s' T' evs) w).

(** Every broker has just started and nothing was asked yet. *)
Definition net_started (w : network) : Prop := (forall b, started (w_sys w b)) /\ w_req w = [].

(** * Each broker of the network runs BrokerSys.v *)

Lemma bstep_spawn c i T y : y_thr y !! i = None -> spawnable c T -> bstep c y (spawned i T y).
Proof. destruct y. by constructor. Qed.

Lemma bstep_ran c i T y s' T' evs : y_thr y !! i = Some T -> hstep c (y_srv y) T s' T' evs -> bstep c y (ran i s' T' evs y).
Proof. destruct y. by econstructor. Qed.


Lemma at_broker_same b f w : w_sys (at_broker b f w) b = f (w_sys w b).
Proof. cbn. by rewrite fn_lookup_insert. Qed.

Lemma at_broker_other b b' f w : b <> b' -> w_sys (at_broker b f w) b' = w_sys w b'.
Proof. intros. cbn. by rewrite fn_lookup_insert_ne. Qed.

Lemma nstep_broker w w' b : nstep w w' -> w_sys w' b = w_sys w b \/ bstep (cfg b) (w_sys w b) (w_sys w' b).
Proof.
  intros Hs. destruct Hs as [w c i cn user remote ad Hi|w c x ad c' rt orig i up _ _ _ Hi|w c i T Hsp _ Hi|w c i T s' T' evs Hi Hh];
    match goal with |- context [at_broker ?k _ _] => destruct (decide (k = b)) as [->|Hne]; [right|left; by rewrite at_broker_other] end;
    rewrite at_broker_same; cbn [w_sys].
  - apply bstep_spawn; [done|constructor].
  - apply bstep_spawn; [done|constructor].
  - by apply bstep_spawn.
  - by eapply bstep_ran.
Qed.

Lemma nsteps_broker w w' b : rtc nstep w w' -> rtc (bstep (cfg b)) (w_sys w b) (w_sys w' b).
Proof.
  induction 1 as [|w w1 w2 Hs _ IH]; [done|]. destruct (nstep_broker _ _ b Hs) as [<-|Hb]; [done|]. by eapply rtc_l.
Qed.

(** * The audit trail *)

(** A request with this requester and route stems from a client's request that some
    broker authorized: the requester is that client, and the route what is left of the
    one it asked for. *)
Definition origin (reqs : list arrival) (orig rt : string) : Prop :=
  exists a, a ∈ reqs /\ authorize (cfg (a_at a)) CommandRequest (a_remote a) (a_user a) = true
    /\ requesterIdentity (a_user a) (a_remote a) = orig
    /\ Fields rt `suffix_of` Fields (AdString (a_ad a) AttrCCBRoute).

Definition rc_traced (reqs : list arrival) (b : nat) (rc : routeContext) : Prop :=
  origin reqs (originalRequester rc) (route rc) /\ priorHop rc = proxyAddrSinful (b_PublicAddress (cfg b)).

Definition thr_traced (reqs : list arrival) (b : nat) (T : thread) : Prop :=
  match T with
  | HRequest _ user remote ad => mkArrival b user remote ad ∈ reqs
  | HRelay _ rt orig => origin reqs orig rt
  | HPrx _ _ _ _ _ rc | HPrxFwd _ _ _ _ _ rc _ => rc_traced reqs b rc
  | _ => True
  end.

(** The trail in an ad a broker sent: none, or one that is traced. *)
Definition ad_traced (reqs : list arrival) (b : nat) (ad : outAd) : Prop :=
  (outString ad AttrCCBRoute = "" /\ outString ad AttrCCBOriginalRequester = "" /\ outString ad AttrCCBPriorHop = "")
  \/ (origin reqs (outString ad AttrCCBOriginalRequester) (outString ad AttrCCBRoute)
      /\ outString ad AttrCCBPriorHop = proxyAddrSinful (b_PublicAddress (cfg b))).

Definition ev_traced (reqs : list arrival) (b : nat) (e : event) : Prop :=
  match e with EvSent _ (MAd ad) => ad_traced reqs b ad | _ => True end.

Record traced (w : network) (b : nat) : Prop := {
  tr_thr i T : y_thr (w_sys w b) !! i = Some T -> thr_traced (w_req w) b T;
  tr_ev : Forall (ev_traced (w_req w) b) (y_ev (w_sys w b))
}.

Lemma origin_mono reqs reqs' orig rt : reqs ⊆ reqs' -> origin reqs orig rt -> origin reqs' orig rt.
Proof. intros Hs (a & Ha & Hr). exists a. split; [by apply Hs|done]. Qed.

Lemma thr_traced_mono reqs reqs' b T : reqs ⊆ reqs' -> thr_traced reqs b T -> thr_traced reqs' b T.
Proof.
  intros Hs. destruct T; cbn; try done; [apply Hs|by apply origin_mono|intros [? ?]; split; [by eapply origin_mono|done]..].
Qed.

Lemma ev_traced_mono reqs reqs' b e : reqs ⊆ reqs' -> ev_traced reqs b e -> ev_traced reqs' b e.
Proof.
  intros Hs. destruct e as [| | | |? [ad| | |]| | | | |]; cbn; try done. intros [?|[? ?]]; [by left|right].
  split; [by eapply origin_mono|done].
Qed.

Lemma proxyFail_traced reqs b reply rq m : Forall (ev_traced reqs b) (proxyFail reply rq m).
Proof. destruct reply; repeat constructor. Qed.

(** A relay takes the head off the route it was given. *)
Lemma relay_traced reqs b rt orig g s t cid rc : startInboundRelay (cfg b) rt orig g s = Some (t, cid, rc) ->
  origin reqs orig rt -> rc_traced reqs b rc.
Proof.
  unfold startInboundRelay, splitRoute. pose proof (Fields_words rt) as Hw. intros E (a & Ha & Hau & Ho & Hf).
  destruct (Fields rt) as [|w ws]; [done|]. destruct (parseTargetID w); [|done]. destruct (String.eqb w ""); [done|].
  destruct (s_targets s !! _); [|done]. destruct g; [|done]. injection E as <- <- <-.
  split; [|done]. exists a. split_and!; [done..|]. cbn [route].
  rewrite Fields_JoinSpace by (by inversion Hw). etrans; [|exact Hf]. by exists [w].
Qed.

Lemma request_traced reqs b user remote ad s t cid nm rc : handleRequest (cfg b) user remote ad s = DProxy t cid nm rc ->
  mkArrival b user remote ad ∈ reqs -> rc_traced reqs b rc.
Proof.
  intros E Ha. pose proof (handleRequest_rc _ _ _ _ _ _ _ _ _ E) as ->. split; [|done].
  exists (mkArrival b user remote ad). cbn. split_and!; [done| |done..].
  revert E. unfold handleRequest. by destruct (authorize _ _ _ _).
Qed.

Lemma forward_traced reqs b cid nm ref rc : rc_traced reqs b rc -> ad_traced reqs b (proxyForward (cfg b) cid nm ref rc).
Proof. intros [Ho Hp]. right. by rewrite forward_orig, forward_route, forward_prior. Qed.

Lemma hstep_traced reqs b s T s' T' evs : hstep (cfg b) s T s' T' evs -> thr_traced reqs b T ->
  thr_traced reqs b T' /\ Forall (ev_traced reqs b) evs.
Proof.
  intros Hs Ht. destruct Hs; cbn in Ht |- *;
    try (split; [done|]; first [apply proxyFail_traced | by repeat constructor | by constructor; [left|constructor]]).
  - destruct rec; by repeat constructor.
  - destruct (handleRequest _ _ _ _ _) eqn:E; simplify_eq; cbn;
      split; first [by eapply request_traced | by repeat constructor].
  - split; [by eapply relay_traced|by repeat constructor].
  - split; [done|]. constructor; [by apply forward_traced|constructor].
  - destruct reply; by repeat constructor.
  - split; [done|]. destruct n as [|[|n]]; [..|lia]; cbn; by repeat constructor.
  - split; [done|]. induction stale; by constructor.
Qed.

(** * The invariant *)

Lemma traced_ext w w' b : w_sys w' b = w_sys w b -> w_req w ⊆ w_req w' -> traced w b -> traced w' b.
Proof.
  intros Es Hr [Ht He]. split; rewrite Es.
  - intros i T Hi. eapply thr_traced_mono; [exact Hr|by eapply Ht].
  - eapply List.Forall_impl; [|exact He]. intros e. by apply ev_traced_mono.
Qed.

Lemma traced_spawn w b i T : (forall b', traced w b') -> thr_traced (w_req w) b T ->
  forall b', traced (at_broker b (spawned i T) w) b'.
Proof.
  intros Hw HT b'. destruct (decide (b = b')) as [<-|Hne]; [|apply (traced_ext w); [by rewrite at_broker_other|done|done]].
  split; rewrite at_broker_same; cbn [y_thr y_ev spawned]; [|apply (Hw b)]. intros j T' [[<- <-]|[_ Hj]]%lookup_insert_Some; [done|by eapply (Hw b)].
Qed.

Lemma nstep_traced w w' : nstep w w' -> (forall b, traced w b) -> forall b, traced w' b.
Proof.
  intros Hs Hw. destruct Hs as [w b i cn user remote ad Hi|w b c ad b' rt orig i up Hin Hb Hu Hi|w b i T Hsp Hl Hi|w b i T s' T' evs Hi Hh].
  - apply traced_spawn; [|constructor]. intros b'. by apply (traced_ext w); [|by apply list_subseteq_cons|].
  - apply traced_spawn; [done|]. pose proof (tr_ev _ _ (Hw b)) as He. rewrite List.Forall_forall in He.
    specialize (He _ (proj1 (list_elem_of_In _ _) Hin)). unfold upstreamHandler in Hu. rewrite meta_route, meta_orig in Hu.
    destruct (String.eqb_spec (outString ad AttrCCBRoute) "") as [|Hne]; [done|]. injection Hu as <- <-.
    by destruct He as [(? & _)|[Ho _]].
  - apply traced_spawn; [done|]. by destruct Hsp.
  - intros b'. destruct (decide (b = b')) as [<-|Hne]; [|apply (traced_ext w); [by rewrite at_broker_other|done|done]].
    destruct (hstep_traced (w_req w) _ _ _ _ _ _ Hh (tr_thr _ _ (Hw b) _ _ Hi)) as [HT He].
    split; rewrite at_broker_same; cbn [y_thr y_ev ran].
    + intros j T'' [[<- <-]|[_ Hj]]%lookup_insert_Some; [done|by eapply (Hw b)].
    + apply List.Forall_app. split; [apply (Hw b)|done].
Qed.

Lemma reachable_traced w0 w : net_started w0 -> rtc nstep w0 w -> forall b, traced w b.
Proof.
  intros [Hst _] Hs. assert (forall b, traced w0 b) as Hw.
  { intros b. destruct (Hst b) as (_ & _ & _ & _ & _ & _ & _ & Et & Ee). split; rewrite ?Et, ?Ee; [|constructor].
    intros i T. by rewrite lookup_empty. }
  clear Hst. induction Hs as [|w w1 w2 H1 _ IH]; [done|]. apply IH. by eapply nstep_traced.
Qed.

End network.

(** * Runs of the network *)

Section runs.
Context `{Cedar} `{CedarListener}.
Context (behind : nat -> conn -> option nat).
Context (cfg : nat -> BrokerConfig).

(** A command arrives at broker [b] or one of its handlers runs; or the broker behind
    the connection takes up the [n]-th event of [b], a request sent there. *)
Inductive naction :=
| NAt (b : nat) (a : action)
| NRelay (b n i up : nat).

Definition nrun (a : naction) (w : network) : option network :=
  match a with
  | NAt b (ARelay _ _ _ _) => None
  | NAt b a =>
      y ← brun (cfg b) a (w_sys w b);
      Some (mkNetwork (<[b := y]> (w_sys w))
              (match a with ARequest _ _ user remote ad => mkArrival b user remote ad :: w_req w | _ => w_req w end))
  | NRelay b n i up =>
      match y_ev (w_sys w b) !! n with
      | Some (EvSent c (MAd ad)) =>
          b' ← behind b c;
          match upstreamHandler (inboundMeta ad), y_thr (w_sys w b') !! i with
          | IRelay rt orig, None => Some (at_broker b' (spawned i (HRelay up rt orig)) w)
          | _, _ => None
          end
      | _ => None
      end
  end.

Fixpoint nruns (l : list naction) (w : network) : option network :=
  match l with [] => Some w | a :: l => w' ← nrun a w; nruns l w' end.

Lemma spawn_spawned i T y y' : spawn i T y = Some y' -> y_thr y !! i = None /\ y' = spawned i T y.
Proof. unfold spawn, spawned. destruct (y_thr y !! i); [done|]. by intros [= <-]. Qed.

Lemma nrun_sound a w w' : nrun a w = Some w' -> nstep behind cfg w w'.
Proof.
  destruct a as [b a|b n i up]; cbn [nrun]; intros E.
  - destruct a as [i cn ip remote user ad|i cn user remote ad|i cn cid|i up rt orig|i|i c]; try done;
      apply bind_Some in E as (y & Ey & [= <-]); cbn [brun] in Ey.
    + case_match eqn:Ea; [|done]. apply spawn_spawned in Ey as [Hi ->].
      apply (nw_spawn behind cfg w b i (HRegister cn ip ad)); [by econstructor|done..].
    + apply spawn_spawned in Ey as [Hi ->]. by apply (nw_request behind cfg w b i).
    + apply spawn_spawned in Ey as [Hi ->]. apply (nw_spawn behind cfg w b i (HReverse cn cid)); [constructor|done..].
    + apply spawn_spawned in Ey as [Hi ->]. apply (nw_spawn behind cfg w b i HSweep); [constructor|done..].
    + destruct (y_thr (w_sys w b) !! i) as [T|] eqn:Hi; [|done].
      destruct (hrun _ _ _ _) as [[[s' T'] evs]|] eqn:Hr; [|done]. injection Ey as <-.
      apply (nw_run behind cfg w b i T s' T' evs Hi). by eapply hrun_sound.
  - destruct (y_ev (w_sys w b) !! n) as [[| | | |c [ad| | |]| | | | |]|] eqn:En; try done.
    apply bind_Some in E as (b' & Eb & E). destruct (upstreamHandler _) as [rt orig|] eqn:Eu; [|done].
    destruct (y_thr (w_sys w b') !! i) eqn:Hi; [done|]. injection E as <-.
    eapply nw_relay; [by eapply list_elem_of_lookup_2|done..].
Qed.

Lemma nruns_sound l w w' : nruns l w = Some w' -> rtc (nstep behind cfg) w w'.
Proof.
  revert w. induction l as [|a l IH]; intros w; cbn [nruns]; [by intros [= <-]|].
  intros (w1 & Ha & Hl)%bind_Some. eapply rtc_l; [by eapply nrun_sound|by apply IH].
Qed.
End runs.

(** * Claims *)

(** C18: the audit trail of a tunnel cannot be made up inside a network of brokers.
    Whatever the brokers' handlers do and in whatever order, each broker behaves as it
    does alone, and every request it forwards with a route, an original requester or a
    prior hop names the broker itself as the prior hop, and stems from a CCB_REQUEST
    that some broker received and authorized: the original requester is that client,
    and the route is what is left of the one that client asked for. *)
Theorem network_audit `{Cedar} `{CedarListener} behind cfg w0 w b : net_started w0 -> rtc (nstep behind cfg) w0 w ->
  rtc (bstep (cfg b)) (w_sys w0 b) (w_sys w b)
  /\ forall c ad, EvSent c (MAd ad) ∈ y_ev (w_sys w b) ->
       outString ad AttrCCBRoute <> "" \/ outString ad AttrCCBOriginalRequester <> "" \/ outString ad AttrCCBPriorHop <> "" ->
       outString ad AttrCCBPriorHop = proxyAddrSinful (b_PublicAddress (cfg b))
       /\ exists a, a ∈ w_req w /\ authorize (cfg (a_at a)) CommandRequest (a_remote a) (a_user a) = true
            /\ outString ad AttrCCBOriginalRequester = requesterIdentity (a_user a) (a_remote a)
            /\ Fields (outString ad AttrCCBRoute) `suffix_of` Fields (AdString (a_ad a) AttrCCBRoute).
Proof.
  intros Hst Hr. split; [by eapply nsteps_broker|]. intros c ad Hin Hne.
  pose proof (tr_ev _ _ _ (reachable_traced _ _ _ _ Hst Hr b)) as He. rewrite List.Forall_forall in He.
  destruct (He _ (proj1 (list_elem_of_In _ _) Hin)) as [(E1 & E2 & E3)|[(a & Ha & Hau & Ho & Hf) Hp]].
  - exfalso. rewrite E1, E2, E3 in Hne. tauto.
  - split; [done|]. by exists a.
Qed.

(** * Witnesses *)

#[local] Existing Instance demoCedar.

#[local, refine] Instance runListener : CedarListener := {
  inboundMeta ad := mkMeta (outString ad AttrCCBRoute) (outString ad AttrCCBOriginalRequester) (outString ad AttrCCBPriorHop)
}.
Proof. all: done. Defined.

(** Broker 1 registers with broker 0, a daemon with broker 1; a client of broker 0 asks
    for the daemon, and broker 1 relays. *)
Definition pairBehind (b : nat) (c : conn) : option nat := match b, c with O, 1%nat => Some 1%nat | _, _ => None end.
Definition pairCfg (b : nat) : BrokerConfig := demo_cfg.
Definition pairAd : demoAd :=
  [(AttrCCBID, "1"); (AttrClaimID, "c0"); (AttrMyAddress, "10.0.0.9:4000"); (AttrName, "schedd");
   (AttrCCBStreamingRequired, "true"); (AttrCCBRoute, "1")].
Definition pairStart : network := mkNetwork (fun _ => fresh) [].
Definition pairRun : list naction :=
  (map (NAt 0) (registerRun 0 1 (regAd "" "") "k1") ++ map (NAt 1) (registerRun 0 2 (regAd "" "") "k2")
   ++ map (NAt 0) [ARequest 1 9 "alice" "10.0.0.9:7" pairAd; ARun 1 CGo; ARun 1 CGo; ARun 1 CGo]
   ++ [NRelay 0 4 1 7] ++ map (NAt 1) [ARun 1 (CGen (Some "r0") 20); ARun 1 CGo; ARun 1 CGo])%list.
Definition pairEnd : network := default pairStart (nruns pairBehind pairCfg pairRun pairStart).
Definition pairHop : outAd := proxyForward demo_cfg "r0" "inbound-relay" 1 (mkRoute "" "alice at 10.0.0.9:7" (proxyAddrSinful "broker.example:9618")).

Lemma pairRun_reach : rtc (nstep pairBehind pairCfg) pairStart pairEnd.
Proof.
  assert (match nruns pairBehind pairCfg pairRun pairStart with Some _ => true | None => false end = true) as Hok
    by (vm_compute; reflexivity).
  unfold pairEnd. destruct (nruns pairBehind pairCfg pairRun pairStart) as [w|] eqn:E; [by eapply nruns_sound|done].
Qed.

Lemma network_audit_witness : EvSent 2 (MAd pairHop) ∈ y_ev (w_sys pairEnd 1)
  /\ exists a, a ∈ w_req pairEnd /\ requesterIdentity (a_user a) (a_remote a) = "alice at 10.0.0.9:7".
Proof.
  assert (EvSent 2 (MAd pairHop) ∈ y_ev (w_sys pairEnd 1)) as Hin.
  { apply (list_elem_of_lookup_2 _ 4). vm_compute. reflexivity. }
  split; [exact Hin|]. assert (net_started pairStart) as H0 by (split; [intros b; apply fresh_started|done]).
  destruct (network_audit pairBehind pairCfg pairStart pairEnd 1 H0 pairRun_reach) as [_ Ha].
  destruct (Ha 2%nat pairHop Hin) as (_ & a & Hw & _ & Ho & _); [right; left; vm_compute; discriminate|].
  exists a. split; [exact Hw|]. rewrite <- Ho. vm_compute. reflexivity.
Defined.
