(* ===== verification/GoNet.v ===== *)
(** IP addresses and networks as Go's [net] and [net/netip] packages parse and
    compare them: [net.ParseIP], the scope predicates of [net.IP], [net.ParseCIDR]
    and [IPNet.Contains]. *)

From stdpp Require Import base list strings numbers.
From Stdlib Require Import ZArith Lia Ascii.
From S2P Require Import Prelude GoStr.

#[local] Open Scope string_scope.
#[local] Open Scope Z_scope.

(** * Parsing *)

(** A [netip.Addr]: four or sixteen bytes. *)
Inductive addr := Addr4 (b : list Z) | Addr6 (b : list Z).

#[export] Instance addr_eq_dec : EqDecision addr.
Proof. solve_decision. Defined.

(** [parseIPv4Fields]: the bytes read so far are [acc], the field being read is
    [val], [digLen] digits long. *)
Fixpoint ipv4Fields (s : string) (val : Z) (digLen : nat) (acc : list Z) : option (list Z) :=
  match s with
  | EmptyString => if decide (length acc = 3 /\ digLen <> 0)%nat then Some (acc ++ [val])%list else None
  | String c s' =>
      match char_digit c with
      | Some d =>
          if decide (digLen = 1%nat /\ val = 0) then None else
          let val' := val * 10 + d in
          if val' >? 255 then None else ipv4Fields s' val' (S digLen) acc
      | None =>
          if Ascii.eqb c "." then
            if decide (digLen = 0 \/ length acc = 3)%nat then None else ipv4Fields s' 0 0 (acc ++ [val])%list
          else None
      end
  end.

Definition parseIPv4 (s : string) : option (list Z) := ipv4Fields s 0 0 [].

Definition hexval (c : ascii) : option Z :=
  match char_digit c with
  | Some d => Some d
  | None =>
      if (97 <=? code c) && (code c <=? 102) then Some (code c - 87) else
      if (65 <=? code c) && (code c <=? 70) then Some (code c - 55) else None
  end.

(** One group of hexadecimal digits: its value, its length and what follows;
    [None] when it has more than four digits. *)
Fixpoint hexGroup (s : string) (acc : Z) (n : nat) : option (Z * nat * string) :=
  match s with
  | EmptyString => Some (acc, n, s)
  | String c s' =>
      match hexval c with
      | None => Some (acc, n, s)
      | Some d => if decide (3 < n)%nat then None else hexGroup s' (acc * 16 + d) (S n)
      end
  end.

(** The loop of [parseIPv6]: [acc] are the bytes so far, [ell] where [::] was. *)
Fixpoint ipv6Groups (fuel : nat) (s : string) (ell : option nat) (acc : list Z)
  : option (option nat * list Z) :=
  match fuel with
  | O => None
  | S fuel =>
      match hexGroup s 0 0 with
      | None => None
      | Some (_, O, _) => None
      | Some (v, S _, rest) =>
          match rest with
          | String "." _ =>
              if decide ((ell = None /\ length acc <> 12) \/ 12 < length acc)%nat then None else
              match parseIPv4 s with Some b => Some (ell, acc ++ b)%list | None => None end
          | _ =>
              let acc := (acc ++ [v / 256; v mod 256])%list in
              match rest with
              | EmptyString => Some (ell, acc)
              | String ":" EmptyString => None
              | String ":" (String ":" rest') =>
                  match ell with
                  | Some _ => None
                  | None =>
                      if String.eqb rest' "" then Some (Some (length acc), acc) else
                      if decide (length acc < 16)%nat then ipv6Groups fuel rest' (Some (length acc)) acc else None
                  end
              | String ":" rest' =>
                  if decide (length acc < 16)%nat then ipv6Groups fuel rest' ell acc else None
              | _ => None
              end
          end
      end
  end.

(** Sixteen bytes, the zeros of [::] filled in. *)
Definition expand (p : option nat * list Z) : option (list Z) :=
  match p with
  | (None, acc) => if decide (length acc = 16)%nat then Some acc else None
  | (Some e, acc) =>
      if decide (length acc < 16)%nat
      then Some (take e acc ++ replicate (16 - length acc) 0 ++ drop e acc)%list else None
  end.

(** [parseIPv6] of an address without a zone. *)
Definition parseIPv6 (s : string) : option (list Z) :=
  match s with
  | String ":" (String ":" rest) =>
      if String.eqb rest "" then Some (replicate 16 0)
      else match ipv6Groups 9 rest (Some 0%nat) [] with Some p => expand p | None => None end
  | _ => match ipv6Groups 9 s None [] with Some p => expand p | None => None end
  end.

(** [netip.ParseAddr] on the first [.], [:] or [%], an address with a zone rejected
    as its callers here do. *)
Fixpoint dispatchAddr (s all : string) : option addr :=
  match s with
  | EmptyString => None
  | String c s' =>
      if Ascii.eqb c "." then Addr4 <$> parseIPv4 all else
      if Ascii.eqb c ":" then Addr6 <$> parseIPv6 all else
      if Ascii.eqb c "%" then None else dispatchAddr s' all
  end.

Definition ParseAddr (s : string) : option addr := if has "%"%char s then None else dispatchAddr s s.

Definition v4InV6Prefix : list Z := [0; 0; 0; 0; 0; 0; 0; 0; 0; 0; 255; 255].

Definition As16 (a : addr) : list Z := match a with Addr4 b => (v4InV6Prefix ++ b)%list | Addr6 b => b end.

(** [net.ParseIP]: sixteen bytes. *)
Definition ParseIP (s : string) : option (list Z) := As16 <$> ParseAddr s.

(** [net.JoinHostPort]. *)
Definition JoinHostPort (host port : string) : string :=
  if has ":"%char host then "[" +:+ host +:+ "]:" +:+ port else host +:+ ":" +:+ port.

(** * Scopes *)

(** [IP.To4]. *)
Definition To4 (ip : list Z) : option (list Z) :=
  if decide (length ip = 4%nat) then Some ip else
  if decide (length ip = 16%nat /\ take 12 ip = v4InV6Prefix) then Some (drop 12 ip) else None.

Definition byteAt (ip : list Z) (i : nat) : Z := nth i ip 0.

Definition IsLoopback (ip : list Z) : bool :=
  match To4 ip with
  | Some b => byteAt b 0 =? 127
  | None => bool_decide (ip = (replicate 15 0 ++ [1])%list)
  end.

Definition IsLinkLocalUnicast (ip : list Z) : bool :=
  match To4 ip with
  | Some b => (byteAt b 0 =? 169) && (byteAt b 1 =? 254)
  | None => bool_decide (length ip = 16%nat) && (byteAt ip 0 =? 0xfe) && (Z.land (byteAt ip 1) 0xc0 =? 0x80)
  end.

Definition IsLinkLocalMulticast (ip : list Z) : bool :=
  match To4 ip with
  | Some b => (byteAt b 0 =? 224) && (byteAt b 1 =? 0) && (byteAt b 2 =? 0)
  | None => bool_decide (length ip = 16%nat) && (byteAt ip 0 =? 0xff) && (Z.land (byteAt ip 1) 0x0f =? 0x02)
  end.

Definition IsUnspecified (ip : list Z) : bool :=
  match To4 ip with
  | Some b => bool_decide (b = [0; 0; 0; 0])
  | None => bool_decide (ip = replicate 16 0)
  end.

(** * Networks *)

(** Byte [i] of [CIDRMask(ones, bits)]. *)
Definition maskByte (ones : Z) (i : nat) : Z :=
  let n := Z.max 0 (Z.min 8 (ones - 8 * Z.of_nat i)) in 256 - 2 ^ (8 - n).

Definition CIDRMask (ones : Z) (nbytes : nat) : list Z := map (maskByte ones) (seq 0 nbytes).

Definition andBytes (a b : list Z) : list Z := zip_with Z.land a b.

Record IPNet := mkNet { n_IP : list Z; n_Mask : list Z }.

(** [dtoi] on all of [s]: at least one digit, below 0xFFFFFF. *)
Fixpoint dtoi (s : string) (n : Z) : option Z :=
  match s with
  | EmptyString => Some n
  | String c s' =>
      match char_digit c with
      | Some d => let n := n * 10 + d in if n >=? 0xFFFFFF then None else dtoi s' n
      | None => None
      end
  end.

(** The string before and after the first [c]. *)
Fixpoint cut (c : ascii) (s : string) : option (string * string) :=
  match s with
  | EmptyString => None
  | String a s' =>
      if Ascii.eqb a c then Some ("", s')
      else match cut c s' with Some (x, y) => Some (String a x, y) | None => None end
  end.

(** [net.ParseCIDR]'s network. *)
Definition ParseCIDR (s : string) : option IPNet :=
  match cut "/" s with
  | None => None
  | Some (a, m) =>
      match ParseAddr a with
      | None => None
      | Some ad =>
          if String.eqb m "" then None else
          let bytes := match ad with Addr4 b => b | Addr6 b => b end in
          match dtoi m 0 with
          | None => None
          | Some n =>
              if n >? 8 * len bytes then None else
              let mask := CIDRMask n (length bytes) in
              Some (mkNet (andBytes bytes mask) mask)
          end
      end
  end.

(** [networkNumberAndMask]. *)
Definition networkNumberAndMask (n : IPNet) : option (list Z * list Z) :=
  let ip := match To4 (n_IP n) with Some b => b | None => n_IP n end in
  let m := n_Mask n in
  if decide (length m = length ip) then Some (ip, m) else
  if decide (length m = 16 /\ length ip = 4)%nat then Some (ip, drop 12 m) else None.

(** [IPNet.Contains]. *)
Definition Contains (n : IPNet) (ip : list Z) : bool :=
  match networkNumberAndMask n with
  | None => false
  | Some (nn, m) =>
      let x := match To4 ip with Some b => b | None => ip end in
      bool_decide (length x = length nn) && bool_decide (andBytes nn m = andBytes x m)
  end.

(** * Lemmas *)

(** The examples of the package's documentation. *)
Example ParseIP_forms :
  map ParseIP ["192.0.2.1"; "2001:db8::68"; "::ffff:192.0.2.1"; "::1"; "1:2:3:4:5:6:7::"] =
  [Some (v4InV6Prefix ++ [192; 0; 2; 1])%list; Some [32; 1; 13; 184; 0; 0; 0; 0; 0; 0; 0; 0; 0; 0; 0; 104];
   Some (v4InV6Prefix ++ [192; 0; 2; 1])%list; Some (replicate 15 0 ++ [1])%list;
   Some [0; 1; 0; 2; 0; 3; 0; 4; 0; 5; 0; 6; 0; 7; 0; 0]]
  /\ map ParseIP ["1.2.3"; "01.2.3.4"; "1.2.3.256"; "1..2.3"; "::1%lo"; "1:2:3:4:5:6:7:8:9"; "1::2::3"; "12345::";
                  ":1"; "1:"; "1:2:3:4:5:6:7::8"; ""; "host"] = replicate 13 None.
Proof. split; reflexivity. Qed.

(** ** Prefixes *)

Definition bytes (l : list Z) : Prop := Forall (fun b => 0 <= b < 256) l.

(** The number a list of bytes stands for. *)
Definition ipval (l : list Z) : Z := foldl (fun a b => a * 256 + b) 0 l.

Lemma foldl_val l a : foldl (fun a b => a * 256 + b) a l = a * 256 ^ len l + ipval l.
Proof.
  unfold ipval. revert a. induction l as [|b l IH]; intros a; cbn [foldl]; [cbn; lia|].
  rewrite (IH (a * 256 + b)), (IH (0 * 256 + b)). cbn [length].
  rewrite Nat2Z.inj_succ, Z.pow_succ_r by lia. lia.
Qed.

Lemma ipval_cons b l : ipval (b :: l) = b * 256 ^ len l + ipval l.
Proof. unfold ipval at 1. cbn [foldl]. rewrite foldl_val. lia. Qed.

Lemma ipval_range l : bytes l -> 0 <= ipval l < 256 ^ len l.
Proof.
  induction 1 as [|b l Hb Hl IH]; [cbn; lia|]. rewrite ipval_cons. cbn [length].
  rewrite Nat2Z.inj_succ, Z.pow_succ_r by lia. nia.
Qed.

Lemma CIDRMask_cons n k : CIDRMask n (S k) = maskByte n 0 :: CIDRMask (n - 8) k.
Proof.
  unfold CIDRMask. cbn [seq map]. f_equal. rewrite <- seq_shift, map_map. apply map_ext. intros i.
  unfold maskByte. do 4 f_equal. lia.
Qed.

Lemma length_CIDRMask n k : length (CIDRMask n k) = k.
Proof. unfold CIDRMask. by rewrite length_map, length_seq. Qed.

(** Masking with the [n] highest of 8 bits. *)
Lemma land_mask x n : 0 <= x < 256 -> 0 <= n <= 8 -> Z.land x (256 - 2 ^ (8 - n)) = x / 2 ^ (8 - n) * 2 ^ (8 - n).
Proof.
  intros Hx Hn. rewrite <- Z.shiftr_div_pow2, <- Z.shiftl_mul_pow2 by lia.
  replace (256 - 2 ^ (8 - n)) with (Z.shiftl (Z.ones n) (8 - n)).
  - apply Z.bits_inj'. intros i Hi. rewrite Z.land_spec, !Z.shiftl_spec by lia.
    destruct (decide (i < 8 - n)) as [Hlt|Hge].
    + rewrite (Z.testbit_neg_r (Z.ones n)), (Z.testbit_neg_r (Z.shiftr _ _)) by lia. by rewrite andb_false_r.
    + rewrite Z.shiftr_spec by lia. replace (i - (8 - n) + (8 - n)) with i by lia.
      destruct (decide (i < 8)) as [H8|H8].
      * rewrite Z.ones_spec_low by lia. by rewrite andb_true_r.
      * rewrite Z.ones_spec_high by lia. rewrite andb_false_r. symmetry.
        apply (Z.testbit_false x i); [lia|]. rewrite Z.div_small; [done|].
        split; [lia|]. apply Z.lt_le_trans with (2 ^ 8); [lia|]. apply Z.pow_le_mono_r; lia.
  - rewrite Z.shiftl_mul_pow2, Z.ones_equiv by lia. unfold Z.pred.
    replace 256 with (2 ^ n * 2 ^ (8 - n)); [ring|]. rewrite <- Z.pow_add_r by lia.
    replace (n + (8 - n)) with 8 by lia. done.
Qed.

Lemma land_mask_eq x y n : 0 <= x < 256 -> 0 <= y < 256 -> 0 <= n <= 8 ->
  Z.land x (256 - 2 ^ (8 - n)) = Z.land y (256 - 2 ^ (8 - n)) <-> x / 2 ^ (8 - n) = y / 2 ^ (8 - n).
Proof.
  intros Hx Hy Hn. rewrite !land_mask by lia. split; [|by intros ->]. intros E.
  apply Z.mul_cancel_r in E; [done|]. apply Z.pow_nonzero; lia.
Qed.

Lemma andBytes_zero a b k : length a = k -> length b = k -> forall n, n <= 0 ->
  andBytes a (CIDRMask n k) = andBytes b (CIDRMask n k).
Proof.
  revert a b. induction k as [|k IH]; intros [|x a] [|y b] Ha Hb n Hn; try done.
  rewrite CIDRMask_cons. unfold andBytes. cbn [zip_with]. unfold andBytes in IH.
  rewrite (IH a b) by (cbn in Ha, Hb; lia).
  unfold maskByte. replace (Z.max 0 (Z.min 8 (n - 8 * Z.of_nat 0))) with 0 by lia. cbn. by rewrite !Z.land_0_r.
Qed.

(** Masked bytes agree exactly when the numbers agree on the first [n] bits. *)
Lemma masked_prefix k : forall a b n, bytes a -> bytes b -> length a = k -> length b = k ->
  0 <= n <= 8 * Z.of_nat k ->
  (andBytes a (CIDRMask n k) = andBytes b (CIDRMask n k)
   <-> ipval a / 2 ^ (8 * Z.of_nat k - n) = ipval b / 2 ^ (8 * Z.of_nat k - n)).
Proof.
  induction k as [|k IH]; intros [|x a] [|y b] n Ha Hb La Lb Hn; try done.
  injection La as La. injection Lb as Lb.
  apply Forall_cons_iff in Ha as [Hx Ha]. apply Forall_cons_iff in Hb as [Hy Hb].
  pose proof (ipval_range a Ha) as Ra. pose proof (ipval_range b Hb) as Rb. rewrite La in Ra. rewrite Lb in Rb.
  rewrite CIDRMask_cons, !ipval_cons, La, Lb. unfold andBytes in *. cbn [zip_with].
  assert (256 ^ Z.of_nat k = 2 ^ (8 * Z.of_nat k)) as E256 by (change 256 with (2 ^ 8); by rewrite <- Z.pow_mul_r by lia).
  rewrite E256 in *. unfold maskByte at 1 2.
  destruct (decide (8 <= n)) as [H8|H8].
  - replace (Z.max 0 (Z.min 8 (n - 8 * Z.of_nat 0))) with 8 by lia. replace (256 - 2 ^ (8 - 8)) with (Z.ones 8) by done.
    rewrite !Z.land_ones, !Z.mod_small by lia.
    set (d := 8 * Z.of_nat (S k) - n). assert (0 <= d <= 8 * Z.of_nat k) as Hd by lia.
    assert (forall z v, (z * 2 ^ (8 * Z.of_nat k) + v) / 2 ^ d = z * 2 ^ (8 * Z.of_nat k - d) + v / 2 ^ d) as Hdiv.
    { intros z v. replace (8 * Z.of_nat k) with (8 * Z.of_nat k - d + d) at 1 by lia.
      rewrite Z.pow_add_r, Z.mul_assoc by lia. rewrite Z.div_add_l; [done|]. apply Z.pow_nonzero; lia. }
    rewrite !Hdiv.
    assert (forall v, 0 <= v < 2 ^ (8 * Z.of_nat k) -> 0 <= v / 2 ^ d < 2 ^ (8 * Z.of_nat k - d)) as Hlt.
    { intros v Hv. split; [apply Z.div_pos; lia|]. apply Z.div_lt_upper_bound; [lia|].
      rewrite <- Z.pow_add_r by lia. replace (d + (8 * Z.of_nat k - d)) with (8 * Z.of_nat k) by lia. apply Hv. }
    pose proof (Hlt _ Ra) as La'. pose proof (Hlt _ Rb) as Lb'.
    specialize (IH a b (n - 8) Ha Hb La Lb ltac:(lia)).
    replace (8 * Z.of_nat k - (n - 8)) with d in IH by lia. split.
    + intros [= -> E]. apply IH in E. by rewrite E.
    + intros E. assert (x = y /\ ipval a / 2 ^ d = ipval b / 2 ^ d) as [-> E']
        by (apply (Z.div_mod_unique (2 ^ (8 * Z.of_nat k - d))); [by left|by left|lia]).
      apply IH in E'. by rewrite E'.
  - replace (Z.max 0 (Z.min 8 (n - 8 * Z.of_nat 0))) with n by lia.
    assert (forall z v, 0 <= v < 2 ^ (8 * Z.of_nat k) ->
      (z * 2 ^ (8 * Z.of_nat k) + v) / 2 ^ (8 * Z.of_nat (S k) - n) = z / 2 ^ (8 - n)) as Hdiv.
    { intros z v Hv. pose proof (Z.pow_pos_nonneg 2 (8 - n) ltac:(lia) ltac:(lia)).
      replace (8 * Z.of_nat (S k) - n) with (8 * Z.of_nat k + (8 - n)) by lia.
      rewrite Z.pow_add_r, <- Z.div_div by lia. rewrite Z.div_add_l by lia. rewrite (Z.div_small v) by lia.
      by rewrite Z.add_0_r. }
    rewrite !Hdiv by done. rewrite <- land_mask_eq by lia. 
    pose proof (andBytes_zero a b k La Lb (n - 8) ltac:(lia)) as Ez. unfold andBytes in Ez. rewrite Ez.
    split; [by intros [= ->]|by intros ->].
Qed.

Lemma andBytes_idem l m : andBytes (andBytes l m) m = andBytes l m.
Proof.
  unfold andBytes. revert m. induction l as [|x l IH]; intros [|y m]; cbn; [done..|].
  rewrite IH. f_equal. by rewrite <- Z.land_assoc, Z.land_diag.
Qed.

Lemma length_andBytes l m : length m = length l -> length (andBytes l m) = length l.
Proof. intros E. unfold andBytes. rewrite length_zip_with. lia. Qed.

Lemma To4_mapped c : length c = 4%nat -> To4 (v4InV6Prefix ++ c)%list = Some c.
Proof.
  intros Hc. unfold To4. rewrite length_app. cbn [v4InV6Prefix length].
  rewrite decide_False by lia. rewrite decide_True; [done|]. split; [lia|done].
Qed.

(** ** Printing *)

(** A dotted quad. *)
Definition quad (a b c d : Z) : string :=
  FormatUint a +:+ "." +:+ FormatUint b +:+ "." +:+ FormatUint c +:+ "." +:+ FormatUint d.

Lemma byte_cases (P : Z -> Prop) : Forall P (map Z.of_nat (seq 0 256)) -> forall b, 0 <= b < 256 -> P b.
Proof.
  intros HF b Hb. rewrite List.Forall_forall in HF. apply HF. apply in_map_iff. exists (Z.to_nat b).
  split; [lia|]. apply in_seq. lia.
Qed.

(** Reading a printed byte. *)
Lemma ipv4Fields_num b acc s : 0 <= b < 256 ->
  ipv4Fields (FormatUint b +:+ s) 0 0 acc = ipv4Fields s b (String.length (FormatUint b)) acc
  /\ String.length (FormatUint b) <> 0%nat.
Proof.
  revert b. apply byte_cases. cbn [map seq].
  repeat (apply Forall_cons_2; [split; [reflexivity|discriminate]|]). apply Forall_nil_2.
Qed.

Lemma dispatch_num b s all : 0 <= b < 256 -> dispatchAddr (FormatUint b +:+ s) all = dispatchAddr s all.
Proof.
  revert b. apply byte_cases. cbn [map seq].
  repeat (apply Forall_cons_2; [reflexivity|]). apply Forall_nil_2.
Qed.

Lemma has_app c s t : has c (s +:+ t) = has c s || has c t.
Proof.
  unfold has. induction s as [|a s IH]; [done|]. rewrite string_app_cons. cbn [chars existsb].
  by rewrite IH, orb_assoc.
Qed.

Lemma FormatUint_no c b : 0 <= b < 256 -> char_digit c = None -> has c (FormatUint b) = false.
Proof.
  intros Hb Hc. destruct (has c (FormatUint b)) eqn:E; [|done]. unfold has in E.
  apply existsb_exists in E as (x & Hin & Hx). apply Ascii.eqb_eq in Hx as <-.
  pose proof (ParseUint_FormatUint b ltac:(lia)) as Hp. unfold ParseUint in Hp.
  destruct (FormatUint b) eqn:Ef; [done|]. rewrite <- Ef in *.
  apply parseDigits_chars in Hp. rewrite List.Forall_forall in Hp. destruct (Hp _ Hin). congruence.
Qed.

(** What is printed is read back. *)
Lemma ParseIP_quad a b c d : bytes [a; b; c; d] -> ParseIP (quad a b c d) = Some (v4InV6Prefix ++ [a; b; c; d])%list.
Proof.
  intros Hq. repeat (apply Forall_cons_iff in Hq as [? Hq]). unfold ParseIP, ParseAddr.
  assert (has "%"%char (quad a b c d) = false) as ->.
  { unfold quad. rewrite !has_app, !FormatUint_no by done. done. }
  unfold quad at 1. rewrite dispatch_num, string_app_cons by done. cbn [dispatchAddr].
  assert (parseIPv4 (quad a b c d) = Some [a; b; c; d]) as E.
  { unfold parseIPv4, quad.
    assert (forall x acc s, 0 <= x < 256 -> (length acc < 3)%nat ->
      ipv4Fields (FormatUint x +:+ "." +:+ s) 0 0 acc = ipv4Fields s 0 0 (acc ++ [x])%list) as Hf.
    { intros x acc s Hx Hl. destruct (ipv4Fields_num x acc ("." +:+ s) Hx) as [-> Hn].
      rewrite string_app_cons. cbn [ipv4Fields]. rewrite decide_False by lia. done. }
    rewrite !Hf by (try done; cbn; lia).
    rewrite <- (string_app_nil_r (FormatUint d)). destruct (ipv4Fields_num d ([] ++ [a] ++ [b] ++ [c])%list "") as [E Hn]; [done|].
    cbn [app] in *. rewrite E. cbn [ipv4Fields length]. rewrite decide_True by done. done. }
  change (Ascii.eqb "." ".") with true. cbn iota. by rewrite E.
Qed.
