(* ===== verification/PeerIP.v ===== *)
(** The address a target registers from (server.go, [peerIP]): host and port of the
    peer's address, its IP, and the text of that IP, which a reconnect record keeps
    and a reclaim compares. [net.SplitHostPort] and [net.IP.String] are modelled as
    Go's packages define them. *)

From stdpp Require Import base list strings numbers.
From Stdlib Require Import ZArith Lia Ascii.
From S2P Require Import Prelude GoStr GoNet FsConfig Contacts Reconnect Broker.

#[local] Open Scope string_scope.
#[local] Open Scope Z_scope.

(** * Printing an IP *)

Definition hexc (d : Z) : ascii := default "0"%char (String.get (Z.to_nat d) "0123456789abcdef").

(** [appendHex] of net/netip. *)
Definition appendHex (x : Z) : string :=
  (if x >=? 0x1000 then String (hexc (Z.shiftr x 12)) "" else "")
  +:+ (if x >=? 0x100 then String (hexc (Z.land (Z.shiftr x 8) 0xf)) "" else "")
  +:+ (if x >=? 0x10 then String (hexc (Z.land (Z.shiftr x 4) 0xf)) "" else "")
  +:+ String (hexc (Z.land x 0xf)) "".

(** The eight groups of sixteen bytes. *)
Fixpoint groups16 (l : list Z) : list Z :=
  match l with a :: b :: l => a * 256 + b :: groups16 l | _ => [] end.

Fixpoint zeroPrefix (l : list Z) : nat :=
  match l with x :: l => if x =? 0 then S (zeroPrefix l) else O | [] => O end.

(** The first longest run of two or more zero groups: its start and its length. *)
Definition runStep (gs : list Z) (best : nat * nat) (i : nat) : nat * nat :=
  let l := zeroPrefix (drop i gs) in
  if (2 <=? l)%nat && (best.2 <? l)%nat then (i, l) else best.

Definition zeroRun (gs : list Z) : nat * nat := foldl (runStep gs) (0, 0)%nat (seq 0 8).

(** [Addr.string6]. *)
Definition hexs (l : list Z) : string := JoinWith ":" (map appendHex l).

Definition string6 (ip : list Z) : string :=
  let gs := groups16 ip in
  match zeroRun gs with
  | (_, O) => hexs gs
  | (start, n) => hexs (take start gs) +:+ "::" +:+ hexs (drop (start + n) gs)
  end.

(** [IP.String] of sixteen bytes. *)
Definition IPString (ip : list Z) : string :=
  match To4 ip with
  | Some [a; b; c; d] => quad a b c d
  | _ => string6 ip
  end.

(** * Host and port *)

(** The positions of the first and of the last [c] in [s]. *)
Fixpoint IndexByte (s : string) (c : ascii) : option nat :=
  match s with
  | EmptyString => None
  | String a s => if Ascii.eqb a c then Some 0%nat else S <$> IndexByte s c
  end.

Fixpoint LastIndexByte (s : string) (c : ascii) : option nat :=
  match s with
  | EmptyString => None
  | String a s =>
      match LastIndexByte s c with
      | Some i => Some (S i)
      | None => if Ascii.eqb a c then Some 0%nat else None
      end
  end.

(** [net.SplitHostPort]; [None] is an error. *)
Definition SplitHostPort (hostport : string) : option (string * string) :=
  match LastIndexByte hostport ":" with
  | None => None
  | Some i =>
      let finish (host : string) (j k : nat) :=
        if has "["%char (sdrop j hostport) || has "]"%char (sdrop k hostport) then None
        else Some (host, sdrop (S i) hostport) in
      if HasPrefix hostport "[" then
        match IndexByte hostport "]" with
        | None => None
        | Some e => if decide (S e = i) then finish (stake (e - 1) (sdrop 1 hostport)) 1%nat (S e) else None
        end
      else if has ":"%char (stake i hostport) then None else finish (stake i hostport) 0%nat 0%nat
  end.

(** [peerIP], and the text [handleRegister] makes of it. *)
Definition peerIP (remoteAddr : string) : option (list Z) :=
  let host := match SplitHostPort remoteAddr with Some (host, _) => host | None => remoteAddr end in
  ParseIP host.

Definition peerIPStr (remoteAddr : string) : string :=
  match peerIP remoteAddr with Some ip => IPString ip | None => "" end.

(** * Reading back a group *)

Lemma hexval_hexc d : 0 <= d < 16 -> hexval (hexc d) = Some d.
Proof.
  intros Hd. assert (d = 0 \/ d = 1 \/ d = 2 \/ d = 3 \/ d = 4 \/ d = 5 \/ d = 6 \/ d = 7 \/ d = 8 \/ d = 9 \/ d = 10
    \/ d = 11 \/ d = 12 \/ d = 13 \/ d = 14 \/ d = 15) as H by lia.
  repeat (destruct H as [->|H]; [reflexivity|]). by subst.
Qed.

(** Where a group ends. *)
Definition groupEnd (s : string) : Prop := match s with EmptyString => True | String c _ => c = ":"%char end.

Lemma hexGroup_end s acc n : groupEnd s -> hexGroup s acc n = Some (acc, n, s).
Proof. destruct s as [|c s]; [done|]. cbn. by intros ->. Qed.

Lemma hexGroup_digit d s acc n : 0 <= d < 16 -> (n <= 3)%nat -> hexGroup (String (hexc d) s) acc n = hexGroup s (acc * 16 + d) (S n).
Proof. intros Hd Hn. cbn [hexGroup]. rewrite hexval_hexc by done. by rewrite decide_False by lia. Qed.

Ltac eucl := Z.to_euclidean_division_equations; lia.

Definition group (x : Z) : Prop := 0 <= x < 65536.

Lemma nibbles x : group x -> 0 <= x mod 16 < 16 /\ 0 <= x / 16 mod 16 < 16 /\ 0 <= x / 256 mod 16 < 16 /\ 0 <= x / 4096 < 16.
Proof. unfold group. intros Hx. eucl. Qed.

Lemma appendHex_digits x : group x ->
  appendHex x =
    (if x >=? 0x1000 then String (hexc (x / 4096)) "" else "")
    +:+ (if x >=? 0x100 then String (hexc (x / 256 mod 16)) "" else "")
    +:+ (if x >=? 0x10 then String (hexc (x / 16 mod 16)) "" else "") +:+ String (hexc (x mod 16)) "".
Proof.
  intros Hx. unfold appendHex. rewrite !Z.shiftr_div_pow2 by lia.
  assert (forall y, Z.land y 0xf = y mod 16) as Hl by (intros y; change 0xf with (Z.ones 4); by apply Z.land_ones). by rewrite !Hl.
Qed.

Lemma hexGroup_append x s : group x -> groupEnd s -> exists n, hexGroup (appendHex x +:+ s) 0 0 = Some (x, S n, s).
Proof.
  intros Hx Hs. rewrite appendHex_digits by done. rewrite !string_app_assoc.
  destruct (nibbles x Hx) as (H0 & H1 & H2 & H3).
  destruct (x >=? 0x1000) eqn:E3, (x >=? 0x100) eqn:E2, (x >=? 0x10) eqn:E1; try lia;
    rewrite ?string_app_cons, ?string_app_nil_l, !hexGroup_digit by (done || lia); rewrite hexGroup_end by done;
    eexists; repeat f_equal; unfold group in Hx; eucl.
Qed.

Lemma appendHex_head x : exists c t, appendHex x = String (hexc c) t.
Proof. unfold appendHex. destruct (x >=? 0x1000), (x >=? 0x100), (x >=? 0x10); by eexists _, _. Qed.

(** * Reading back groups *)

Lemma hexs_cons x y l : hexs (x :: y :: l) = appendHex x +:+ String ":" (hexs (y :: l)).
Proof. reflexivity. Qed.

(** The bytes of groups. *)
Definition unpair (l : list Z) : list Z := l ≫= fun v => [v / 256; v mod 256].

Lemma unpair_length l : length (unpair l) = (2 * length l)%nat.
Proof. unfold unpair. induction l as [|x l IH]; [done|]. cbn in *. lia. Qed.

Lemma unpair_app l k : unpair (l ++ k) = (unpair l ++ unpair k)%list.
Proof. apply bind_app. Qed.

Lemma hexs_no_colon l s : l <> [] -> Forall group l -> exists c t, hexs l +:+ s = String c t /\ c <> ":"%char /\ c <> "."%char.
Proof.
  intros Hl HF. destruct l as [|x l]; [done|]. apply Forall_cons_iff in HF as [Hx _].
  assert (exists s', hexs (x :: l) +:+ s = appendHex x +:+ s') as [s' ->].
  { destruct l as [|y l]; [by exists s|]. rewrite hexs_cons, string_app_assoc. by eexists. }
  rewrite appendHex_digits by done. destruct (nibbles x Hx) as (H0 & H1 & H2 & H3).
  assert (forall d t, 0 <= d < 16 -> exists c t', String (hexc d) t = String c t' /\ c <> ":"%char /\ c <> "."%char) as Hd.
  { intros d t Hd. exists (hexc d), t. pose proof (hexval_hexc d Hd) as Hv. split; [done|]. split; intros E; by rewrite E in Hv. }
  destruct (x >=? 0x1000), (x >=? 0x100), (x >=? 0x10); rewrite ?string_app_assoc, ?string_app_cons, ?string_app_nil_l; by apply Hd.
Qed.

(** One group, then a colon and more. *)
Lemma groups_more fuel x s ell acc : group x -> (length acc + 2 < 16)%nat -> (exists c t, s = String c t /\ c <> ":"%char) ->
  ipv6Groups (S fuel) (appendHex x +:+ String ":" s) ell acc = ipv6Groups fuel s ell (acc ++ [x / 256; x mod 256]).
Proof.
  intros Hx Hl (c & t & -> & Hc). destruct (hexGroup_append x (String ":" (String c t)) Hx eq_refl) as [n E]. cbn [ipv6Groups]. rewrite E.
  assert (length (acc ++ [(x / 256)%Z; (x mod 256)%Z]) < 16)%nat as Hlen by (rewrite length_app; cbn; lia).
  destruct (Ascii.ascii_dec c ":") as [->|_]; [done|]. destruct c as [[] [] [] [] [] [] [] []]; by rewrite decide_True.
Qed.

Lemma groups_last fuel x ell acc : group x -> ipv6Groups (S fuel) (appendHex x) ell acc = Some (ell, acc ++ [x / 256; x mod 256])%list.
Proof.
  intros Hx. rewrite <- (string_app_nil_r (appendHex x)). destruct (hexGroup_append x "" Hx I) as [n E]. cbn [ipv6Groups]. by rewrite E.
Qed.

Lemma groups_read l fuel ell acc : l <> [] -> Forall group l -> (length l <= fuel)%nat -> (length acc + 2 * length l <= 16)%nat ->
  ipv6Groups fuel (hexs l) ell acc = Some (ell, acc ++ unpair l)%list.
Proof.
  revert fuel acc. induction l as [|x l IH]; intros fuel acc Hne HF Hf Hl; [done|]. apply Forall_cons_iff in HF as [Hx HF].
  destruct fuel as [|fuel]; [cbn in Hf; lia|]. destruct l as [|y l]; [by apply groups_last|].
  rewrite hexs_cons. cbn [length] in *. rewrite groups_more; [|done|lia|].
  - rewrite IH by (try done; rewrite ?length_app; cbn; lia). by rewrite <- app_assoc.
  - destruct (hexs_no_colon (y :: l) "" ltac:(done) HF) as (c & t & E & Hc & _). rewrite string_app_nil_r in E. eauto.
Qed.

(** Groups, [::], and groups. *)
Lemma groups_gap fuel x s acc : group x -> (length acc + 2 < 16)%nat ->
  ipv6Groups (S fuel) (appendHex x +:+ "::" +:+ s) None acc
  = let acc := (acc ++ [x / 256; x mod 256])%list in
    if String.eqb s "" then Some (Some (length acc), acc) else ipv6Groups fuel s (Some (length acc)) acc.
Proof.
  intros Hx Hl. change ("::" +:+ s) with (String ":" (String ":" s)).
  destruct (hexGroup_append x (String ":" (String ":" s)) Hx eq_refl) as [n E]. cbn [ipv6Groups]. rewrite E. cbv beta zeta iota.
  destruct (String.eqb s ""); [done|]. by rewrite decide_True by (rewrite length_app; cbn; lia).
Qed.

Lemma groups_around l1 l2 fuel acc : l1 <> [] -> Forall group l1 -> Forall group l2 -> (length l1 + length l2 <= fuel)%nat ->
  (length acc + 2 * (length l1 + length l2) < 16)%nat ->
  ipv6Groups fuel (hexs l1 +:+ "::" +:+ hexs l2) None acc
  = Some (Some (length acc + 2 * length l1)%nat, acc ++ unpair l1 ++ unpair l2)%list.
Proof.
  intros Hne HF1 HF2. revert fuel acc. induction l1 as [|x l1 IH]; intros fuel acc Hf Hl; [done|]. apply Forall_cons_iff in HF1 as [Hx HF1].
  destruct fuel as [|fuel]; [cbn in Hf; lia|]. cbn [length] in *. destruct l1 as [|y l1].
  - change (hexs [x]) with (appendHex x). rewrite groups_gap by (done || lia). cbv zeta. rewrite length_app. cbn [length].
    destruct l2 as [|z l2]; [change (hexs []) with ""; cbn; done|].
    destruct (hexs_no_colon (z :: l2) "" ltac:(done) HF2) as (c & t & E & _). rewrite string_app_nil_r in E.
    destruct (String.eqb_spec (hexs (z :: l2)) "") as [E'|_]; [congruence|].
    rewrite groups_read by (try done; rewrite ?length_app; cbn [length] in *; lia). by rewrite <- app_assoc.
  - rewrite hexs_cons, string_app_assoc, string_app_cons. cbn [length] in *. rewrite groups_more; [|done|lia|].
    + rewrite IH by (try done; rewrite ?length_app; cbn [length] in *; lia). 
      change (unpair (x :: y :: l1)) with ([x / 256; x mod 256] ++ unpair (y :: l1))%list. rewrite length_app, <- !app_assoc.
      do 3 f_equal. cbn [length]. lia.
    + destruct (hexs_no_colon (y :: l1) ("::" +:+ hexs l2) ltac:(done) HF1) as (c & t & E & Hc & _). eauto.
Qed.

(** * The run of zeros *)

Lemma zeroPrefix_split l : l = (replicate (zeroPrefix l) 0 ++ drop (zeroPrefix l) l)%list.
Proof. induction l as [|x l IH]; [done|]. cbn. destruct (Z.eqb_spec x 0) as [->|]; [|done]. cbn. by rewrite <- IH. Qed.

Lemma zeroRun_split gs start n : zeroRun gs = (start, n) -> gs = (take start gs ++ replicate n 0 ++ drop (start + n) gs)%list.
Proof.
  unfold zeroRun. assert (forall ks best, gs = (take best.1 gs ++ replicate best.2 0 ++ drop (best.1 + best.2) gs)%list ->
    let r := foldl (runStep gs) best ks in gs = (take r.1 gs ++ replicate r.2 0 ++ drop (r.1 + r.2) gs)%list) as H.
  { induction ks as [|i ks IH]; intros best Hb; [done|]. cbn [foldl]. apply IH. unfold runStep. destruct (_ && _); [|done]. cbn [fst snd].
    rewrite <- (take_drop i gs) at 1. f_equal. rewrite (zeroPrefix_split (drop i gs)) at 1. by rewrite drop_drop. }
  intros E. specialize (H (seq 0 8) (0, 0)%nat eq_refl). by rewrite E in H.
Qed.

(** * Bytes and groups *)

Lemma groups16_unpair l : bytes l -> length l = 16%nat -> Forall group (groups16 l) /\ length (groups16 l) = 8%nat /\ unpair (groups16 l) = l.
Proof.
  intros Hb Hl. do 16 (destruct l as [|? l]; [done|]). destruct l; [|done]. repeat (apply Forall_cons_iff in Hb as [? Hb]).
  split; [|split; [done|]].
  - cbn [groups16]. repeat (apply Forall_cons_2; [unfold group; lia|]). apply Forall_nil_2.
  - assert (forall a b, 0 <= a < 256 -> 0 <= b < 256 -> (a * 256 + b) / 256 = a /\ (a * 256 + b) mod 256 = b) as Hd by (intros a b Ha Hb'; eucl).
    unfold unpair. cbn [groups16 mbind list_bind app]. by rewrite !(fun a b Ha Hb' => proj1 (Hd a b Ha Hb')), !(fun a b Ha Hb' => proj2 (Hd a b Ha Hb')) by done.
Qed.

Lemma unpair_zeros n : unpair (replicate n 0) = replicate (2 * n) 0.
Proof. induction n as [|n IH]; [done|]. replace (2 * S n)%nat with (S (S (2 * n))) by lia. cbn [replicate]. by rewrite <- IH. Qed.

(** Text that does not start with a colon. *)
Lemma parseIPv6_groups c t : c <> ":"%char ->
  parseIPv6 (String c t) = match ipv6Groups 9 (String c t) None [] with Some p => expand p | None => None end.
Proof. intros Hc. destruct c as [[] [] [] [] [] [] [] []]; try done. Qed.

Lemma parseIPv6_colon c t : c <> ":"%char ->
  parseIPv6 (String ":" (String c t)) = match ipv6Groups 9 (String ":" (String c t)) None [] with Some p => expand p | None => None end.
Proof. intros Hc. destruct c as [[] [] [] [] [] [] [] []]; try done. Qed.

(** Eight groups; groups after a leading [::]; and groups around one. *)
Lemma parse_full gs : Forall group gs -> length gs = 8%nat -> parseIPv6 (hexs gs) = Some (unpair gs).
Proof.
  intros Hg Hn. assert (gs <> []) as Hne by (by intros ->).
  pose proof (groups_read gs 9 None [] Hne Hg ltac:(lia) ltac:(cbn; lia)) as Hp.
  destruct (hexs_no_colon gs "" Hne Hg) as (c & t & E & Hc & _). rewrite string_app_nil_r in E. rewrite E in *.
  rewrite parseIPv6_groups, Hp by done. unfold expand. by rewrite decide_True by (rewrite app_nil_l, unpair_length; lia).
Qed.

Lemma parse_leading l n : Forall group l -> (length l + S n = 8)%nat ->
  parseIPv6 ("::" +:+ hexs l) = Some (replicate (2 * S n) 0 ++ unpair l)%list.
Proof.
  intros Hg Hn. change ("::" +:+ hexs l) with (String ":" (String ":" (hexs l))). unfold parseIPv6.
  destruct l as [|y l]; [cbn in Hn; by replace (2 * S n)%nat with 16%nat by lia|].
  destruct (hexs_no_colon (y :: l) "" ltac:(done) Hg) as (c & t & E & _). rewrite string_app_nil_r in E.
  destruct (String.eqb_spec (hexs (y :: l)) "") as [E'|_]; [congruence|].
  rewrite groups_read by (try done; cbn [length] in *; lia). unfold expand. rewrite app_nil_l, unpair_length. cbn [length] in *.
  rewrite decide_True by lia. rewrite take_0, drop_0. replace (16 - 2 * S (length l))%nat with (2 * S n)%nat by lia. done.
Qed.

Lemma parse_inner l1 l2 n : l1 <> [] -> Forall group l1 -> Forall group l2 -> (length l1 + S n + length l2 = 8)%nat ->
  parseIPv6 (hexs l1 +:+ "::" +:+ hexs l2) = Some (unpair l1 ++ replicate (2 * S n) 0 ++ unpair l2)%list.
Proof.
  intros Hne Hg1 Hg2 Hn. pose proof (groups_around l1 l2 9 [] Hne Hg1 Hg2 ltac:(lia) ltac:(cbn; lia)) as Hp.
  destruct (hexs_no_colon l1 ("::" +:+ hexs l2) Hne Hg1) as (c & t & E & Hc & _). rewrite E in *.
  rewrite parseIPv6_groups, Hp by done. unfold expand. rewrite app_nil_l, length_app, !unpair_length. rewrite decide_True by lia.
  cbn [length Nat.add]. replace (16 - (2 * length l1 + 2 * length l2))%nat with (2 * S n)%nat by lia.
  by rewrite <- (unpair_length l1), take_app_length, drop_app_length.
Qed.

(** What [string6] prints is read back. *)
Lemma parseIPv6_string6 ip : bytes ip -> length ip = 16%nat -> parseIPv6 (string6 ip) = Some ip.
Proof.
  intros Hb Hl. destruct (groups16_unpair ip Hb Hl) as (Hg & Hn & Hu). unfold string6. set (gs := groups16 ip) in *.
  destruct (zeroRun gs) as [start n] eqn:Er. apply zeroRun_split in Er.
  pose proof (f_equal length Er) as Hlen. rewrite !length_app, length_replicate, Hn in Hlen.
  pose proof (f_equal unpair Er) as Hip. rewrite !unpair_app, unpair_zeros, Hu in Hip.
  assert (Forall group (take start gs)) as Hg1 by (by apply Forall_take). assert (Forall group (drop (start + n) gs)) as Hg2 by (by apply Forall_drop).
  destruct n as [|n]; cbv beta zeta; [by rewrite parse_full, Hu|].
  destruct (take start gs) as [|x l1]; [rewrite string_app_nil_l, (parse_leading _ n), Hip by (done || (cbn in Hlen; lia)); done|].
  by rewrite (parse_inner _ _ n), Hip by (done || lia).
Qed.

(** * Addresses *)

Lemma dispatch_hex x s all : group x -> dispatchAddr (appendHex x +:+ String ":" s) all = Addr6 <$> parseIPv6 all.
Proof.
  intros Hx. rewrite appendHex_digits by done. destruct (nibbles x Hx) as (H0 & H1 & H2 & H3).
  assert (forall d t, 0 <= d < 16 -> dispatchAddr (String (hexc d) t) all = dispatchAddr t all) as Hd.
  { intros d t Hd. pose proof (hexval_hexc d Hd) as Hv. cbn [dispatchAddr].
    destruct (Ascii.eqb_spec (hexc d) ".") as [E|_]; [by rewrite E in Hv|]. destruct (Ascii.eqb_spec (hexc d) ":") as [E|_]; [by rewrite E in Hv|].
    destruct (Ascii.eqb_spec (hexc d) "%") as [E|_]; [by rewrite E in Hv|done]. }
  destruct (x >=? 0x1000), (x >=? 0x100), (x >=? 0x10); rewrite ?string_app_assoc, ?string_app_cons, ?string_app_nil_l, !Hd by done; done.
Qed.

Lemma hexs_has c l : Forall group l -> hexval c = None -> c <> ":"%char -> has c (hexs l) = false.
Proof.
  intros HF Hv Hc. assert (forall x, group x -> has c (appendHex x) = false) as Hx.
  { intros x Hx. rewrite appendHex_digits by done. destruct (nibbles x Hx) as (H0 & H1 & H2 & H3).
    assert (forall d, 0 <= d < 16 -> has c (String (hexc d) "") = false) as Hd.
    { intros d Hd. unfold has. cbn [chars existsb]. rewrite orb_false_r. apply Ascii.eqb_neq. intros ->. by rewrite hexval_hexc in Hv. }
    rewrite !has_app, Hd by done. destruct (x >=? 0x1000), (x >=? 0x100), (x >=? 0x10); rewrite ?Hd by done; done. }
  induction HF as [|x l Hg HF IH]; [done|]. destruct l as [|y l]; [by apply Hx|]. rewrite hexs_cons, has_app, Hx by done.
  change (String ":" (hexs (y :: l))) with (":" +:+ hexs (y :: l)). rewrite has_app, IH. unfold has. cbn.
  rewrite !orb_false_r. by apply Ascii.eqb_neq.
Qed.

Lemma string6_has c ip : bytes ip -> length ip = 16%nat -> hexval c = None -> c <> ":"%char -> has c (string6 ip) = false.
Proof.
  intros Hb Hl Hv Hc. destruct (groups16_unpair ip Hb Hl) as (Hg & _ & _). unfold string6.
  destruct (zeroRun _) as [start [|n]]; cbv beta zeta; [by apply hexs_has|].
  rewrite !has_app, !hexs_has by (done || by apply Forall_take || by apply Forall_drop).
  unfold has. cbn. by rewrite (proj2 (Ascii.eqb_neq c ":") Hc).
Qed.

Lemma dispatch_string6 ip : bytes ip -> length ip = 16%nat -> dispatchAddr (string6 ip) (string6 ip) = Addr6 <$> parseIPv6 (string6 ip).
Proof.
  intros Hb Hl. destruct (groups16_unpair ip Hb Hl) as (Hg & Hn & _). generalize (string6 ip) at 2 3. intros all. unfold string6.
  destruct (zeroRun _) as [start [|n]]; cbv beta zeta.
  - destruct (groups16 ip) as [|x [|y gs]]; [done..|]. rewrite hexs_cons. apply dispatch_hex. by apply Forall_cons_iff in Hg as [? _].
  - assert (Forall group (take start (groups16 ip))) as Hg1 by (by apply Forall_take).
    destruct (take start (groups16 ip)) as [|x [|y l]]; [done|..]; apply Forall_cons_iff in Hg1 as [Hx _].
    + by apply dispatch_hex.
    + rewrite hexs_cons, string_app_assoc, string_app_cons. by apply dispatch_hex.
Qed.

(** The text of an IP is read back as that IP. *)
Lemma ParseIP_IPString ip : bytes ip -> length ip = 16%nat -> ParseIP (IPString ip) = Some ip.
Proof.
  intros Hb Hl. unfold IPString. assert (forall o, o = To4 ip -> o = None -> ParseIP (string6 ip) = Some ip) as H6.
  { intros o _ _. unfold ParseIP, ParseAddr. rewrite string6_has by done. rewrite dispatch_string6, parseIPv6_string6 by done. done. }
  destruct (To4 ip) as [q|] eqn:E; [|by eapply H6]. unfold To4 in E. rewrite decide_False in E by lia.
  destruct (decide _) as [[_ Ht]|]; [|done]. injection E as <-.
  assert (length (drop 12 ip) = 4%nat) as Hd by (rewrite length_drop; lia). assert (bytes (drop 12 ip)) as Hbd by (by apply Forall_drop).
  rewrite <- (take_drop 12 ip) at 2. rewrite Ht. destruct (drop 12 ip) as [|a [|b [|c [|d [|]]]]]; try done. by apply ParseIP_quad.
Qed.

(** ** What is parsed *)

Lemma char_digit_range c d : char_digit c = Some d -> 0 <= d < 10.
Proof. unfold char_digit. intros Hd. destruct (_ && _) eqn:E; [|done]. breflect. injection Hd as <-. lia. Qed.

Lemma ipv4Fields_bytes s val dl acc r : ipv4Fields s val dl acc = Some r -> bytes acc -> 0 <= val < 256 -> bytes r /\ length r = 4%nat.
Proof.
  revert val dl acc. induction s as [|c s IH]; intros val dl acc; cbn [ipv4Fields].
  - destruct (decide _) as [[Hl _]|]; [|done]. intros [= <-] Hb Hv. rewrite length_app, Hl. split; [|done]. apply Forall_app. by split; [|constructor].
  - destruct (char_digit c) as [d|] eqn:Ed.
    + apply char_digit_range in Ed. destruct (decide _); [done|]. destruct (_ >? _) eqn:E; [done|]. rewrite Z.gtb_ltb in E. breflect.
      intros H Hb Hv. eapply IH; [exact H|done|lia].
    + destruct (Ascii.eqb c "."); [|done]. destruct (decide _); [done|]. intros H Hb Hv. eapply IH; [exact H| |lia]. apply Forall_app. by split; [|constructor].
Qed.

Lemma hexval_range c d : hexval c = Some d -> 0 <= d < 16.
Proof.
  unfold hexval. intros Hd. destruct (char_digit c) as [x|] eqn:E; [injection Hd as <-; apply char_digit_range in E; lia|].
  destruct ((97 <=? code c) && (code c <=? 102)) eqn:E1; [breflect; injection Hd as <-; lia|].
  destruct ((65 <=? code c) && (code c <=? 70)) eqn:E2; [|done]. apply andb_true_iff in E2 as [?%Z.leb_le ?%Z.leb_le].
  injection Hd as <-. lia.
Qed.

Lemma hexGroup_range s acc n v m rest : hexGroup s acc n = Some (v, m, rest) -> (n <= 4)%nat -> 0 <= acc < 16 ^ Z.of_nat n -> group v.
Proof.
  revert acc n. induction s as [|c s IH]; intros acc n; cbn [hexGroup].
  - intros [= <- <- <-] Hn Ha. unfold group. assert (16 ^ Z.of_nat n <= 16 ^ 4) by (apply Z.pow_le_mono_r; lia). lia.
  - destruct (hexval c) as [d|] eqn:Ed.
    + apply hexval_range in Ed. destruct (decide _); [done|]. intros H Hn Ha. eapply IH; [exact H|lia|].
      rewrite Nat2Z.inj_succ, Z.pow_succ_r by lia. lia.
    + intros [= <- <- <-] Hn Ha. unfold group. assert (16 ^ Z.of_nat n <= 16 ^ 4) by (apply Z.pow_le_mono_r; lia). lia.
Qed.

Lemma ipv6Groups_bytes fuel s ell acc e r : ipv6Groups fuel s ell acc = Some (e, r) -> bytes acc -> bytes r.
Proof.
  revert s ell acc. induction fuel as [|fuel IH]; intros s ell acc; [done|]. cbn [ipv6Groups].
  destruct (hexGroup s 0 0) as [[[v [|n]] rest]|] eqn:Eg; [done| |done]. apply hexGroup_range in Eg; [|lia|cbn; lia]. intros H Hb.
  assert (bytes (acc ++ [v / 256; v mod 256])) as Hb'.
  { apply Forall_app. split; [done|]. unfold group in Eg. constructor; [eucl|]. constructor; [eucl|constructor]. }
  set (acc' := (acc ++ [v / 256; v mod 256])%list) in *.
  assert (forall b, parseIPv4 s = Some b -> bytes b) as H4 by (intros b Eb; by eapply ipv4Fields_bytes in Eb as [? _]; [|constructor|lia]).
  destruct rest as [|c rest]; [by injection H as _ <-|].
  destruct (Ascii.ascii_dec c ".") as [->|Hdot].
  { destruct (decide _); [done|]. destruct (parseIPv4 s) as [b|] eqn:E4; [|done]. injection H as _ <-. apply Forall_app. split; [done|by apply H4]. }
  destruct (Ascii.ascii_dec c ":") as [->|Hc]; [|destruct c as [[] [] [] [] [] [] [] []]; done].
  destruct rest as [|c2 rest]; [done|]. destruct (Ascii.ascii_dec c2 ":") as [->|Hc2].
  - destruct ell; [done|]. destruct (String.eqb rest ""); [by injection H as _ <-|]. destruct (decide _); [|done]. by eapply IH.
  - assert ((if decide (length acc' < 16)%nat then ipv6Groups fuel (String c2 rest) ell acc' else None) = Some (e, r)) as H'
      by (destruct c2 as [[] [] [] [] [] [] [] []]; done).
    destruct (decide _); [|done]. by eapply IH.
Qed.

Lemma expand_bytes p r : expand p = Some r -> bytes p.2 -> bytes r /\ length r = 16%nat.
Proof.
  destruct p as [[e|] acc]; cbn; destruct (decide _) as [Hl|]; try done; intros [= <-] Hb; [|done]. split.
  - apply Forall_app. split; [by apply Forall_take|]. apply Forall_app. split; [|by apply Forall_drop].
    apply Forall_replicate. lia.
  - rewrite !length_app, length_replicate, length_take, length_drop. lia.
Qed.

Lemma parseIPv6_bytes s r : parseIPv6 s = Some r -> bytes r /\ length r = 16%nat.
Proof.
  assert (forall s ell r, match ipv6Groups 9 s ell [] with Some p => expand p | None => None end = Some r -> bytes r /\ length r = 16%nat) as H.
  { intros s' ell r'. destruct (ipv6Groups 9 s' ell []) as [[e acc]|] eqn:E; [|done]. intros He. eapply expand_bytes; [exact He|].
    cbn. eapply ipv6Groups_bytes; [exact E|constructor]. }
  destruct s as [|c s]; [apply H|]. destruct (Ascii.ascii_dec c ":") as [->|Hc]; [|rewrite parseIPv6_groups by done; apply H].
  destruct s as [|c s]; [apply H|]. destruct (Ascii.ascii_dec c ":") as [->|Hc].
  - cbn [parseIPv6]. destruct (String.eqb s ""); [|apply H]. intros [= <-]. split; [|done]. repeat (apply Forall_cons_2; [lia|]). apply Forall_nil_2.
  - rewrite parseIPv6_colon by done. apply H.
Qed.

Lemma dispatch_bytes s all a : dispatchAddr s all = Some a -> match a with Addr4 b => bytes b /\ length b = 4%nat | Addr6 b => bytes b /\ length b = 16%nat end.
Proof.
  induction s as [|c s IH]; [done|]. cbn [dispatchAddr]. destruct (Ascii.eqb c ".").
  { destruct (parseIPv4 all) as [b|] eqn:E; [|done]. intros [= <-]. by eapply ipv4Fields_bytes in E; [|constructor|lia]. }
  destruct (Ascii.eqb c ":"); [destruct (parseIPv6 all) as [b|] eqn:E; [|done]; intros [= <-]; by eapply parseIPv6_bytes|].
  destruct (Ascii.eqb c "%"); [done|exact IH].
Qed.

Lemma ParseIP_bytes s ip : ParseIP s = Some ip -> bytes ip /\ length ip = 16%nat.
Proof.
  unfold ParseIP, ParseAddr. destruct (has _ s); [done|]. destruct (dispatchAddr s s) as [a|] eqn:E; [|done]. intros [= <-].
  apply dispatch_bytes in E. destruct a as [b|b]; [|done]. destruct E as [Hb Hl]. cbn [As16]. rewrite length_app, Hl. split; [|done].
  apply Forall_app. split; [|done]. repeat constructor; lia.
Qed.

Lemma IPString_nonempty ip : bytes ip -> length ip = 16%nat -> IPString ip <> "".
Proof. intros Hb Hl E. pose proof (ParseIP_IPString ip Hb Hl) as Hp. by rewrite E in Hp. Qed.

(** ** Host and port *)

Lemma LastIndexByte_none s c : has c s = false -> LastIndexByte s c = None.
Proof.
  unfold has. induction s as [|a s IH]; [done|]. cbn [chars existsb LastIndexByte]. intros [Ha Hs]%orb_false_iff.
  rewrite IH by done. by rewrite Ascii.eqb_sym, Ha.
Qed.

Lemma LastIndexByte_app a c b : has c b = false -> LastIndexByte (a +:+ String c b) c = Some (String.length a).
Proof.
  intros Hb. induction a as [|x a IH]; [rewrite string_app_nil_l; cbn [LastIndexByte]; by rewrite LastIndexByte_none, Ascii.eqb_refl|].
  rewrite string_app_cons. cbn [LastIndexByte]. by rewrite IH.
Qed.

Lemma IndexByte_app a c b : has c a = false -> IndexByte (a +:+ String c b) c = Some (String.length a).
Proof.
  unfold has. induction a as [|x a IH]; [intros _; rewrite string_app_nil_l; cbn [IndexByte]; by rewrite Ascii.eqb_refl|].
  rewrite string_app_cons. cbn [chars existsb IndexByte]. intros [Hx Ha]%orb_false_iff.
  rewrite Ascii.eqb_sym, Hx. by rewrite IH.
Qed.

Lemma stake_app_length a b : stake (String.length a) (a +:+ b) = a.
Proof. induction a as [|x a IH]; [by destruct b|]. rewrite string_app_cons. cbn. by rewrite IH. Qed.

Lemma sdrop_app_length a b : sdrop (String.length a) (a +:+ b) = b.
Proof. induction a as [|x a IH]; [done|]. rewrite string_app_cons. cbn. by rewrite IH. Qed.

Lemma has_cons c a s : has c (String a s) = Ascii.eqb c a || has c s.
Proof. reflexivity. Qed.

Lemma sdrop_S_app a c b : sdrop (S (String.length a)) (a +:+ String c b) = b.
Proof. induction a as [|x a IH]; [done|]. rewrite string_app_cons. exact IH. Qed.

(** What a port is made of. *)
Definition plain (s : string) : Prop := has ":"%char s = false /\ has "["%char s = false /\ has "]"%char s = false.

(** What [JoinHostPort] joins, [SplitHostPort] splits. *)
Lemma Split_plain host port : plain host -> plain port -> SplitHostPort (host +:+ String ":" port) = Some (host, port).
Proof.
  intros (H0 & H1 & H2) (P0 & P1 & P2). unfold SplitHostPort. rewrite LastIndexByte_app, stake_app_length, H0 by done.
  assert (HasPrefix (host +:+ String ":" port) "[" = false) as ->.
  { destruct host as [|x host]; [done|]. rewrite has_cons in H1. apply orb_false_iff in H1 as [Hx _].
    rewrite string_app_cons. cbn [HasPrefix]. by rewrite Hx. }
  rewrite sdrop_S_app. change (sdrop 0 ?x) with x. rewrite !has_app, !has_cons, H1, H2, P1, P2. done.
Qed.

Lemma Split_bracket host port : has "["%char host = false -> has "]"%char host = false -> plain port ->
  SplitHostPort (String "[" (host +:+ String "]" (String ":" port))) = Some (host, port).
Proof.
  intros H1 H2 (P0 & P1 & P2).
  assert (LastIndexByte (String "[" (host +:+ String "]" (String ":" port))) ":" = Some (S (S (String.length host)))) as El.
  { replace (String "[" (host +:+ String "]" (String ":" port))) with ((String "[" (host +:+ "]")) +:+ String ":" port)
      by (rewrite string_app_cons, string_app_assoc; done).
    rewrite LastIndexByte_app by done. cbn [String.length]. rewrite string_length_app. f_equal. cbn. lia. }
  assert (IndexByte (String "[" (host +:+ String "]" (String ":" port))) "]" = Some (S (String.length host))) as Ei.
  { cbn [IndexByte Ascii.eqb Bool.eqb]. by rewrite IndexByte_app. }
  unfold SplitHostPort. rewrite El, Ei. cbn [HasPrefix Ascii.eqb Bool.eqb andb]. rewrite HasPrefix_nil, decide_True by done.
  assert (forall n c t, sdrop (S n) (String c t) = sdrop n t) as Hd by done. rewrite !Hd. change (sdrop 0 ?x) with x.
  rewrite Nat.sub_succ, Nat.sub_0_r, stake_app_length, sdrop_S_app.
  replace (sdrop (S (S (String.length host))) (host +:+ String "]" (String ":" port))) with port.
  - rewrite has_app, !has_cons, H1, P1, P2. done.
  - replace (host +:+ String "]" (String ":" port)) with ((host +:+ "]") +:+ String ":" port) by (by rewrite string_app_assoc).
    replace (S (S (String.length host))) with (S (String.length (host +:+ "]"))) by (rewrite string_length_app; cbn; lia).
    by rewrite sdrop_S_app.
Qed.

Lemma Split_Join host port : has "["%char host = false -> has "]"%char host = false -> plain port ->
  SplitHostPort (JoinHostPort host port) = Some (host, port).
Proof.
  intros H1 H2 Hp. unfold JoinHostPort. destruct (has ":"%char host) eqn:Hc; [by apply Split_bracket|by apply Split_plain].
Qed.

Lemma IPString_has c ip : bytes ip -> length ip = 16%nat -> hexval c = None -> c <> ":"%char -> c <> "."%char -> has c (IPString ip) = false.
Proof.
  intros Hb Hl Hv Hc Hd. assert (char_digit c = None) as Hcd by (unfold hexval in Hv; by destruct (char_digit c)).
  unfold IPString. destruct (To4 ip) as [q|] eqn:E; [|by apply string6_has]. unfold To4 in E. rewrite decide_False in E by lia.
  destruct (decide _) as [[_ Ht]|]; [|done]. injection E as <-.
  assert (bytes (drop 12 ip)) as Hbd by (by apply Forall_drop).
  destruct (drop 12 ip) as [|a [|b [|d [|e [|]]]]]; try (by apply string6_has). unfold quad.
  repeat (apply Forall_cons_iff in Hbd as [? Hbd]). rewrite !has_app, !FormatUint_no by done.
  unfold has. cbn [chars existsb]. by rewrite (proj2 (Ascii.eqb_neq c ".") Hd).
Qed.

Lemma FormatUint_plain n : plain (FormatUint n).
Proof.
  assert (forall c fuel m acc, char_digit c = None -> has c acc = false -> has c (fmtDigits fuel m acc) = false) as Hf.
  { intros c fuel. induction fuel as [|k IH]; intros m acc Hc Ha; cbn [fmtDigits];
      assert (has c (String (digit_char (m mod 10)) acc) = false) as Hs
        by (rewrite has_cons, Ha, orb_false_r; apply Ascii.eqb_neq; intros ->; rewrite char_digit_digit in Hc; [done|apply Z.mod_pos_bound; lia]); [done|].
    destruct (m <? 10); [done|by apply IH]. }
  split; [|split]; by apply Hf.
Qed.

(** * Claims *)

(** C32: the peer check of a reconnect is exact. A peer whose address is written as Go
    writes it (an IPv4 or IPv6 address and a port) is known by its IP; two addresses
    have the same text exactly when they have the same IP; so, unless any address is
    allowed, a record is reclaimed only from the IP it was registered from. Peers
    whose address has no IP, such as those that come over a carrier, all count as the
    same one. *)
Theorem peer_ip_exact :
  (forall ip port, bytes ip -> length ip = 16%nat -> peerIP (JoinHostPort (IPString ip) (FormatUint port)) = Some ip)
  /\ (forall a b, peerIPStr a = peerIPStr b <-> peerIP a = peerIP b)
  /\ (forall `{Cedar} cfg a b prev ck s id cookie r, b_ReconnectAllowAnyIP cfg = false ->
       s_reconnects s !! id = Some r -> PeerIP r = peerIPStr a -> reclaim cfg (peerIPStr b) prev ck s = Some (id, cookie) ->
       peerIP b = peerIP a).
Proof.
  assert (forall a b, peerIPStr a = peerIPStr b <-> peerIP a = peerIP b) as Hex.
  { intros a b. unfold peerIPStr. split; [|by intros ->].
    destruct (peerIP a) as [ip|] eqn:Ea, (peerIP b) as [ip'|] eqn:Eb; try done.
    - apply ParseIP_bytes in Ea as [? ?], Eb as [? ?]. intros E. rewrite <- (ParseIP_IPString ip), E by done. by apply ParseIP_IPString.
    - apply ParseIP_bytes in Ea as [? ?]. intros E. by apply IPString_nonempty in E.
    - apply ParseIP_bytes in Eb as [? ?]. intros E. symmetry in E. by apply IPString_nonempty in E. }
  split; [|split; [done|]].
  - intros ip port Hb Hl. unfold peerIP. rewrite Split_Join; [by apply ParseIP_IPString|by apply IPString_has..|apply FormatUint_plain].
  - intros H cfg a b prev ck s id cookie r Hany Hr Hp (_ & _ & r' & Hr' & _ & _ & [?|E])%reclaim_spec; [congruence|].
    apply Hex. congruence.
Qed.

Lemma peer_ip_exact_witness :
  peerIP "[2001:db8::1]:9618" = Some [0x20; 1; 0xd; 0xb8; 0; 0; 0; 0; 0; 0; 0; 0; 0; 0; 0; 1]
  /\ (peerIPStr "10.0.0.1:4000" = peerIPStr "10.0.0.1:4001" <-> peerIP "10.0.0.1:4000" = peerIP "10.0.0.1:4001").
Proof.
  split.
  - apply (proj1 peer_ip_exact [0x20; 1; 0xd; 0xb8; 0; 0; 0; 0; 0; 0; 0; 0; 0; 0; 0; 1] 9618); [|reflexivity].
    repeat (apply Forall_cons_2; [lia|]). apply Forall_nil_2.
  - apply (proj1 (proj2 peer_ip_exact)).
Defined.
