(* ===== verification/Glob.v ===== *)
(** Shell patterns as Go's [filepath.Match] (Unix) matches them, and their meaning:
    the leftmost-first search of [Match] finds a match exactly when there is one. *)

From stdpp Require Import base list strings numbers.
From Stdlib Require Import ZArith Lia Ascii.
From S2P Require Import Prelude GoStr.

#[local] Open Scope string_scope.
#[local] Open Scope Z_scope.

(** * The implementation *)

(** [utf8.DecodeRuneInString]: the code point and its width; an invalid byte is
    U+FFFD of width 1. *)
Definition decodeRune (s : string) : Z * nat :=
  let low n c := Z.land (code c) (2 ^ n - 1) in
  match rune_len s, s with
  | 1%nat, String a _ => (code a, 1%nat)
  | 2%nat, String a (String b _) => (low 5 a * 64 + low 6 b, 2%nat)
  | 3%nat, String a (String b (String c _)) => (low 4 a * 4096 + low 6 b * 64 + low 6 c, 3%nat)
  | 4%nat, String a (String b (String c (String d _))) =>
      (low 3 a * 262144 + low 6 b * 4096 + low 6 c * 64 + low 6 d, 4%nat)
  | _, EmptyString => (0xFFFD, 0%nat)
  | _, _ => (0xFFFD, 1%nat)
  end.

Definition headIs (c : ascii) (s : string) : bool :=
  match s with String a _ => Ascii.eqb a c | EmptyString => false end.

(** [getEsc]: a possibly escaped character of a class and the rest; [None] is
    [ErrBadPattern]. *)
Definition getEsc (chunk : string) : option (Z * string) :=
  match chunk with
  | EmptyString => None
  | String a rest =>
      if Ascii.eqb a "-" || Ascii.eqb a "]" then None else
      let chunk := if Ascii.eqb a "\" then rest else chunk in
      if String.eqb chunk "" then None else
      let '(r, n) := decodeRune chunk in
      if (r =? 0xFFFD) && (n =? 1)%nat then None else
      let nchunk := sdrop n chunk in
      if String.eqb nchunk "" then None else Some (r, nchunk)
  end.

(** The ranges of a class up to its [\]]: whether rune [r] is in one of them, and
    the rest of the chunk. *)
Fixpoint classRanges (fuel : nat) (chunk : string) (r : Z) (nrange : nat) (found : bool) : option (bool * string) :=
  match fuel with
  | O => None
  | S fuel =>
      if headIs "]" chunk && negb (nrange =? 0)%nat then Some (found, sdrop 1 chunk) else
      match getEsc chunk with
      | None => None
      | Some (lo, chunk1) =>
          match (if headIs "-" chunk1 then getEsc (sdrop 1 chunk1) else Some (lo, chunk1)) with
          | None => None
          | Some (hi, chunk2) => classRanges fuel chunk2 r (S nrange) (found || ((lo <=? r) && (r <=? hi)))
          end
      end
  end.

(** [matchChunk]: what is left of [s] when [chunk], which has no [*] outside a
    class, matches its front; [None] when it does not or is malformed. *)
Fixpoint matchChunk (fuel : nat) (chunk s : string) : option string :=
  match fuel, chunk with
  | _, EmptyString => Some s
  | O, _ => None
  | S fuel, String p chunk' =>
      match s with
      | EmptyString => None
      | String c s' =>
          if Ascii.eqb p "[" then
            let '(r, n) := decodeRune s in
            let '(negated, chunk1) := if headIs "^" chunk' then (true, sdrop 1 chunk') else (false, chunk') in
            match classRanges (S (String.length chunk1)) chunk1 r 0 false with
            | None => None
            | Some (found, chunk2) => if Bool.eqb found negated then None else matchChunk fuel chunk2 (sdrop n s)
            end
          else if Ascii.eqb p "?" then
            if Ascii.eqb c "/" then None else matchChunk fuel chunk' (sdrop (snd (decodeRune s)) s)
          else if Ascii.eqb p "\" then
            match chunk' with
            | EmptyString => None
            | String q chunk'' => if Ascii.eqb q c then matchChunk fuel chunk'' s' else None
            end
          else if Ascii.eqb p c then matchChunk fuel chunk' s' else None
      end
  end.

(** [scanChunk] after the leading stars: the chunk up to the next [*] outside a
    class, and the rest. *)
Fixpoint scanTo (p : string) (inrange : bool) : string * string :=
  match p with
  | EmptyString => ("", "")
  | String c p' =>
      if Ascii.eqb c "\" then
        match p' with
        | EmptyString => (p, "")
        | String q p'' => let '(a, b) := scanTo p'' inrange in (String c (String q a), b)
        end
      else if Ascii.eqb c "*" && negb inrange then ("", p)
      else
        let inr := if Ascii.eqb c "[" then true else if Ascii.eqb c "]" then false else inrange in
        let '(a, b) := scanTo p' inr in (String c a, b)
  end.

Fixpoint dropStars (p : string) : string :=
  match p with String c p' => if Ascii.eqb c "*" then dropStars p' else p | EmptyString => "" end.

Definition scanChunk (p : string) : bool * string * string :=
  let '(a, b) := scanTo (dropStars p) false in (headIs "*" p, a, b).

(** Looking for the chunk after one or more skipped bytes; [last] when it is the
    last chunk, which must use up the name. *)
Fixpoint skipSearch (chunk : string) (last : bool) (name : string) : option string :=
  match name with
  | EmptyString => None
  | String c name' =>
      if Ascii.eqb c "/" then None else
      match matchChunk (String.length chunk) chunk name' with
      | Some t => if last && negb (String.eqb t "") then skipSearch chunk last name' else Some t
      | None => skipSearch chunk last name'
      end
  end.

(** [filepath.Match]; an error counts as no match. *)
Fixpoint matchFrom (fuel : nat) (pattern name : string) : bool :=
  match fuel with
  | O => false
  | S fuel =>
      if String.eqb pattern "" then String.eqb name "" else
      let '(star, chunk, rest) := scanChunk pattern in
      if star && String.eqb chunk "" then negb (has "/"%char name) else
      match matchChunk (String.length chunk) chunk name with
      | Some t =>
          if String.eqb t "" || negb (String.eqb rest "") then matchFrom fuel rest t
          else if star then
            match skipSearch chunk (String.eqb rest "") name with Some t => matchFrom fuel rest t | None => false end
          else false
      | None =>
          if star then
            match skipSearch chunk (String.eqb rest "") name with Some t => matchFrom fuel rest t | None => false end
          else false
      end
  end.

Definition Match (pattern name : string) : bool := matchFrom (S (String.length pattern)) pattern name.

Example Match_forms :
  map (fun p => Match (fst p) (snd p))
    [("abc", "abc"); ("*", "abc"); ("*c", "abc"); ("a*", "a"); ("a*/b", "abc/b"); ("a*b*c*d*e*/f", "axbxcxdxe/f");
     ("a*b?c*x", "abxbbxdbxebxczzx"); ("ab[b-d]", "abc"); ("ab[^e-g]", "abc"); ("a\*b", "a*b"); ("[a-ζ]*", "α")]
  = replicate 11 true
  /\ map (fun p => Match (fst p) (snd p))
    [("*", "a/b"); ("a*", "ab/c"); ("a*b?c*x", "abxbbxdbxebxczzy"); ("ab[^bc]", "abc"); ("a\*b", "ab"); ("[]a]", "]");
     ("[-]", "-"); ("[a-b-c]", "a"); ("[", "a"); ("a[", "a"); ("a", "ab"); ("*x", "xxa"); ("a?b", "a/b"); ("*.com", "com")]
  = replicate 14 false.
Proof. split; vm_compute; reflexivity. Qed.

(** * Meaning *)

Inductive tok := Lit (c : ascii) | Any | Star.

(** A pattern without classes and escapes. *)
Fixpoint pattern (ts : list tok) : string :=
  match ts with
  | [] => ""
  | Lit c :: ts => String c (pattern ts)
  | Any :: ts => String "?" (pattern ts)
  | Star :: ts => String "*" (pattern ts)
  end.

Definition lit_ok (t : tok) : Prop :=
  match t with Lit c => c <> "*"%char /\ c <> "?"%char /\ c <> "["%char /\ c <> "\"%char | _ => True end.

(** What a pattern stands for. *)
Inductive glob : list tok -> string -> Prop :=
| g_nil : glob [] ""
| g_lit c ts s : glob ts s -> glob (Lit c :: ts) (String c s)
| g_any c ts s : c <> "/"%char -> glob ts s -> glob (Any :: ts) (String c s)
| g_star ts s : glob ts s -> glob (Star :: ts) s
| g_skip c ts s : c <> "/"%char -> glob (Star :: ts) s -> glob (Star :: ts) (String c s).

(** Names of ASCII characters other than the separator. *)
Definition plain (s : string) : Prop := Forall (fun c => code c < 128 /\ c <> "/"%char) (chars s).

Lemma plain_cons c s : plain (String c s) <-> (code c < 128 /\ c <> "/"%char) /\ plain s.
Proof. apply Forall_cons_iff. Qed.

Lemma plain_no_slash s : plain s -> has "/"%char s = false.
Proof.
  induction s as [|c s IH]; [done|]. intros [[_ Hc] Hs]%plain_cons. unfold has in *. cbn [chars existsb].
  rewrite (IH Hs). destruct (Ascii.eqb_spec "/" c); [congruence|done].
Qed.

(** ** Chunks *)

Definition isStar (t : tok) : bool := match t with Star => true | _ => false end.

(** [ck] without stars matches the front of [s]. *)
Fixpoint front (ck : list tok) (s : string) : option string :=
  match ck, s with
  | [], _ => Some s
  | Lit c :: ck, String d s => if Ascii.eqb c d then front ck s else None
  | Any :: ck, String d s => front ck s
  | _, _ => None
  end.

Lemma decodeRune_ascii c s : code c < 128 -> snd (decodeRune (String c s)) = 1%nat.
Proof. intros Hc. unfold decodeRune, rune_len. apply Z.ltb_lt in Hc. by rewrite Hc. Qed.

Lemma front_plain ck s t : front ck s = Some t -> plain s -> plain t.
Proof.
  revert s. induction ck as [|[c| |] ck IH]; intros s E Hs; cbn in E; [by injection E as <-|..].
  - destruct s as [|d s]; [done|]. destruct (Ascii.eqb c d); [|done]. apply plain_cons in Hs as [_ Hs]. by eapply IH.
  - destruct s as [|d s]; [done|]. apply plain_cons in Hs as [_ Hs]. by eapply IH.
  - by destruct s.
Qed.

Lemma matchChunk_front ck s : Forall lit_ok ck -> forallb (fun t => negb (isStar t)) ck = true -> plain s ->
  matchChunk (String.length (pattern ck)) (pattern ck) s = front ck s.
Proof.
  intros Hl Hn. revert s. induction ck as [|t ck IH]; intros s Hs; [done|].
  apply Forall_cons_iff in Hl as [Ht Hl]. cbn in Hn. apply andb_true_iff in Hn as [Hns Hn].
  destruct t as [c| |]; [| |done]; cbn [pattern String.length matchChunk front].
  - destruct Ht as (H1 & H2 & H3 & H4). destruct s as [|d s]; [done|]. apply plain_cons in Hs as [_ Hs].
    destruct (Ascii.eqb_spec c "["); [done|]. destruct (Ascii.eqb_spec c "?"); [done|].
    destruct (Ascii.eqb_spec c "\"); [done|]. destruct (Ascii.eqb c d); [|done]. by apply IH.
  - destruct s as [|d s]; [done|]. apply plain_cons in Hs as [[Hd Hsl] Hs].
    change (Ascii.eqb "?" "[") with false. change (Ascii.eqb "?" "?") with true. cbn iota.
    destruct (Ascii.eqb_spec d "/"); [done|]. rewrite decodeRune_ascii by done. by apply IH.
Qed.

(** ** Scanning *)

Fixpoint tkDrop (ts : list tok) : list tok := match ts with Star :: ts => tkDrop ts | _ => ts end.

Fixpoint tkSpan (ts : list tok) : list tok * list tok :=
  match ts with
  | [] => ([], [])
  | Star :: _ => ([], ts)
  | t :: ts => let '(a, b) := tkSpan ts in (t :: a, b)
  end.

Lemma dropStars_pattern ts : Forall lit_ok ts -> dropStars (pattern ts) = pattern (tkDrop ts).
Proof.
  induction ts as [|[c| |] ts IH]; intros Hl; [done|..]; apply Forall_cons_iff in Hl as [Ht Hl]; cbn.
  - destruct (Ascii.eqb_spec c "*"); [by destruct Ht|done].
  - done.
  - by apply IH.
Qed.

Lemma scanTo_pattern ts b : Forall lit_ok ts -> b = false ->
  scanTo (pattern ts) b = (pattern (tkSpan ts).1, pattern (tkSpan ts).2).
Proof.
  intros Hl ->. induction ts as [|[c| |] ts IH]; [done|..]; apply Forall_cons_iff in Hl as [Ht Hl];
    cbn [pattern scanTo tkSpan].
  - destruct Ht as (H1 & H2 & H3 & H4). destruct (Ascii.eqb_spec c "\"); [done|].
    destruct (Ascii.eqb_spec c "*"); [done|]. destruct (Ascii.eqb_spec c "["); [done|]. cbn [andb].
    assert ((if Ascii.eqb c "]" then false else false) = false) as -> by (by destruct (Ascii.eqb c "]")).
    rewrite (IH Hl). by destruct (tkSpan ts).
  - change (Ascii.eqb "?" "\") with false. change (Ascii.eqb "?" "*") with false. cbn [andb].
    change (Ascii.eqb "?" "[") with false. change (Ascii.eqb "?" "]") with false. cbn iota.
    rewrite (IH Hl). by destruct (tkSpan ts).
  - done.
Qed.

Lemma tkSpan_spec ts : ts = ((tkSpan ts).1 ++ (tkSpan ts).2)%list
  /\ forallb (fun t => negb (isStar t)) (tkSpan ts).1 = true
  /\ ((tkSpan ts).2 = [] \/ exists r, (tkSpan ts).2 = Star :: r).
Proof.
  induction ts as [|[c| |] ts IH]; cbn; [by repeat split; left|..];
    try (destruct (tkSpan ts) as [a b]; cbn in *; destruct IH as (-> & ? & ?); by repeat split).
  split; [done|]. split; [done|]. right. eauto.
Qed.

(** ** Meaning of chunks and stars *)

Lemma glob_front ck rest s : forallb (fun t => negb (isStar t)) ck = true -> plain s ->
  glob (ck ++ rest) s <-> exists t, front ck s = Some t /\ glob rest t.
Proof.
  revert s. induction ck as [|t ck IH]; intros s Hn Hs; cbn [app front]; [naive_solver|].
  cbn in Hn. apply andb_true_iff in Hn as [Ht Hn]. destruct t as [c| |]; [| |done]; split.
  - inversion 1 as [|c' ts s' Hg| | |]; subst. rewrite Ascii.eqb_refl. apply plain_cons in Hs as [_ Hs].
    by apply IH.
  - destruct s as [|d s]; [naive_solver|]. destruct (Ascii.eqb_spec c d) as [<-|]; [|naive_solver].
    intros Ht'. constructor. apply plain_cons in Hs as [_ Hs]. by apply IH.
  - inversion 1 as [| |c' ts s' Hc Hg| |]; subst. apply plain_cons in Hs as [_ Hs]. by apply IH.
  - destruct s as [|d s]; [naive_solver|]. intros Ht'. apply plain_cons in Hs as [[_ Hd] Hs].
    constructor; [done|]. by apply IH.
Qed.

Lemma glob_star ts s : plain s -> glob (Star :: ts) s <-> exists u t, s = u +:+ t /\ glob ts t.
Proof.
  intros Hs. split.
  - intros Hg. remember (Star :: ts) as q eqn:Eq. revert Eq Hs. induction Hg as [| | |ts' s Hg _|c ts' s Hc Hg IH];
      intros Eq Hs; try done.
    + injection Eq as ->. exists "", s. by rewrite string_app_nil_l.
    + injection Eq as ->. apply plain_cons in Hs as [_ Hs]. destruct (IH eq_refl Hs) as (u & t & -> & Ht).
      exists (String c u), t. by rewrite string_app_cons.
  - intros (u & t & -> & Ht). induction u as [|c u IH].
    + rewrite string_app_nil_l. by constructor.
    + rewrite string_app_cons in *. apply plain_cons in Hs as [[_ Hc] Hs]. constructor; [done|by apply IH].
Qed.

Lemma glob_grow r u t : plain (u +:+ t) -> glob (Star :: r) t -> glob (Star :: r) (u +:+ t).
Proof.
  intros Hp Hg. induction u as [|c u IH]; [by rewrite string_app_nil_l|].
  rewrite string_app_cons in *. apply plain_cons in Hp as [[_ Hc] Hp]. constructor; [done|by apply IH].
Qed.

(** ** The search *)

Definition search (ck : list tok) (last : bool) (name : string) : option string :=
  match front ck name with
  | Some t => if last && negb (String.eqb t "") then skipSearch (pattern ck) last name else Some t
  | None => skipSearch (pattern ck) last name
  end.

Lemma skipSearch_cons ck last c name : Forall lit_ok ck -> forallb (fun t => negb (isStar t)) ck = true ->
  plain (String c name) -> skipSearch (pattern ck) last (String c name) = search ck last name.
Proof.
  intros Hl Hn [[_ Hc] Hs]%plain_cons. cbn [skipSearch]. destruct (Ascii.eqb_spec c "/"); [done|].
  rewrite matchChunk_front by done. done.
Qed.

Lemma front_length ck s t : front ck s = Some t -> exists x, s = x +:+ t /\ String.length x = length ck.
Proof.
  revert s. induction ck as [|[c| |] ck IH]; intros s E; cbn in E.
  - injection E as <-. exists "". by rewrite string_app_nil_l.
  - destruct s as [|d s]; [done|]. destruct (Ascii.eqb c d); [|done]. apply IH in E as (x & -> & Hx).
    exists (String d x). rewrite string_app_cons. cbn. by rewrite Hx.
  - destruct s as [|d s]; [done|]. apply IH in E as (x & -> & Hx).
    exists (String d x). rewrite string_app_cons. cbn. by rewrite Hx.
  - by destruct s.
Qed.

Lemma suffix_le a t b t' : a +:+ t = b +:+ t' -> (String.length t' <= String.length t)%nat -> exists v, t = v +:+ t'.
Proof.
  revert b. induction a as [|c a IH]; intros b E Hle.
  - rewrite string_app_nil_l in E. eauto.
  - destruct b as [|d b].
    + rewrite string_app_nil_l in E. apply (f_equal String.length) in E. rewrite string_length_app in E.
      cbn in E. lia.
    + rewrite !string_app_cons in E. injection E as _ E. by eapply IH.
Qed.

Section search.
Context (ck : list tok) (Hl : Forall lit_ok ck) (Hn : forallb (fun t => negb (isStar t)) ck = true).

Lemma search_sound last name t : plain name -> search ck last name = Some t ->
  exists u w, name = u +:+ w /\ front ck w = Some t /\ (last = true -> t = "").
Proof.
  induction name as [|c name IH]; intros Hp E.
  - unfold search in E. destruct (front ck "") as [t0|] eqn:Ef; [|done].
    destruct (last && _) eqn:El; [done|]. injection E as <-. exists "", "". split; [done|]. split; [done|].
    intros ->. cbn in El. by destruct (String.eqb_spec t0 "").
  - assert (search ck last name = Some t -> exists u w, String c name = u +:+ w /\ front ck w = Some t
      /\ (last = true -> t = "")) as Hrec.
    { intros E'. apply plain_cons in Hp as [_ Hp]. destruct (IH Hp E') as (u & w & -> & ? & ?).
      exists (String c u), w. by rewrite string_app_cons. }
    unfold search in E. rewrite skipSearch_cons in E by done.
    destruct (front ck (String c name)) as [t0|] eqn:Ef; [|by apply Hrec].
    destruct (last && _) eqn:El; [by apply Hrec|]. injection E as <-. exists "", (String c name).
    split; [done|]. split; [done|]. intros ->. cbn in El. by destruct (String.eqb_spec t0 "").
Qed.

Lemma search_complete last name u w t' : plain name -> name = u +:+ w -> front ck w = Some t' ->
  (last = true -> t' = "") -> exists t v, search ck last name = Some t /\ t = v +:+ t'.
Proof.
  revert u. induction name as [|c name IH]; intros u Hp E Hw Hlast; unfold search.
  - destruct u as [|d u]; [|rewrite string_app_cons in E; done]. rewrite string_app_nil_l in E. subst w.
    rewrite Hw. exists t', "". split; [|by rewrite string_app_nil_l]. destruct last; [|done]. by rewrite Hlast.
  - rewrite skipSearch_cons by done.
    assert (front ck (String c name) <> Some t' -> exists t v, search ck last name = Some t /\ t = v +:+ t') as Hrec.
    { intros Hne. destruct u as [|d u]; [rewrite string_app_nil_l in E; by subst w|].
      rewrite string_app_cons in E. injection E as <- E. apply plain_cons in Hp as [_ Hp]. by eapply IH. }
    destruct (front ck (String c name)) as [t0|] eqn:Ef; [|by apply Hrec].
    destruct (last && negb (String.eqb t0 "")) eqn:El.
    + apply Hrec. apply andb_true_iff in El as [-> El]. rewrite Hlast by done. intros [= ->]. done.
    + destruct (front_length _ _ _ Ef) as (x1 & E1 & L1). destruct (front_length _ _ _ Hw) as (x2 & -> & L2).
      rewrite E1, <- string_app_assoc in E. destruct (suffix_le _ _ _ _ E) as [v ->]; [|eauto].
      apply (f_equal String.length) in E. rewrite !string_length_app in E. lia.
Qed.
End search.

Lemma string_eqb_pattern ts : String.eqb (pattern ts) "" = bool_decide (ts = []).
Proof. by destruct ts as [|[]]. Qed.

Lemma suffix_plain u t : plain (u +:+ t) -> plain t.
Proof. induction u as [|c u IH]; [by rewrite string_app_nil_l|]. rewrite string_app_cons. by intros [_ ?]%plain_cons; auto. Qed.

Lemma glob_nil s : glob [] s <-> s = "".
Proof. split; [by inversion 1|intros ->; constructor]. Qed.

Lemma glob_stars ts s : plain s -> glob (Star :: ts) s <-> exists u t, s = u +:+ t /\ glob (tkDrop ts) t.
Proof.
  revert s. induction ts as [|[c| |] ts IH]; intros s Hp; try by apply glob_star.
  rewrite glob_star by done. cbn [tkDrop]. split.
  - intros (u & t & -> & Hg). apply IH in Hg as (u' & t' & -> & Hg); [|by eapply suffix_plain].
    exists (u +:+ u'), t'. by rewrite string_app_assoc.
  - intros (u & t & -> & Hg). exists u, t. split; [done|]. apply IH; [by eapply suffix_plain|].
    exists "", t. by rewrite string_app_nil_l.
Qed.

Lemma tkDrop_ok ts : Forall lit_ok ts -> Forall lit_ok (tkDrop ts) /\ (length (tkDrop ts) <= length ts)%nat.
Proof.
  induction ts as [|[c| |] ts IH]; intros Hl; cbn; try done.
  apply Forall_cons_iff in Hl as [_ Hl]. destruct (IH Hl). split; [done|lia].
Qed.

Lemma tkDrop_head ts : match tkDrop ts with Star :: _ => False | _ => True end.
Proof. by induction ts as [|[c| |] ts IH]. Qed.

Lemma headIs_star ts : Forall lit_ok ts ->
  headIs "*" (pattern ts) = match ts with Star :: _ => true | _ => false end.
Proof.
  destruct ts as [|[c| |] ts]; intros Hl; [done| |done..]. cbn. apply Forall_cons_iff in Hl as [[Hc _] _].
  by destruct (Ascii.eqb_spec c "*").
Qed.

Lemma search_plain ck last s t : Forall lit_ok ck -> forallb (fun t => negb (isStar t)) ck = true -> plain s ->
  search ck last s = Some t -> plain t.
Proof.
  intros Hck Hn Hp Es. destruct (search_sound ck Hck Hn last s t Hp Es) as (u & w & -> & Hw & _).
  apply suffix_plain in Hp. by eapply front_plain.
Qed.

(** The first place where a chunk fits is as good as any: what follows the chunk is
    nothing or begins with a star. *)
Lemma search_glob ck rest s : Forall lit_ok ck -> forallb (fun t => negb (isStar t)) ck = true -> (rest = [] \/ exists r, rest = Star :: r) -> plain s ->
  (exists t, search ck (bool_decide (rest = [])) s = Some t /\ glob rest t)
  <-> exists u w, s = u +:+ w /\ glob (ck ++ rest) w.
Proof.
  intros Hck Hn Hrest Hp. set (last := bool_decide (rest = [])). split.
  - intros (t & Es & Hg). destruct (search_sound ck Hck Hn last s t Hp Es) as (u & w & -> & Hw & _).
    apply suffix_plain in Hp. exists u, w. split; [done|]. apply glob_front; eauto.
  - intros (u & w & Ew & Hg). assert (plain w) as Hpw by (rewrite Ew in Hp; by eapply suffix_plain). apply glob_front in Hg as (t' & Hf' & Hg); [|done..].
    destruct (search_complete ck Hck Hn last s u w t' Hp Ew Hf') as (t & v & Es & ->).
    { unfold last. intros Hr%bool_decide_eq_true. rewrite Hr in Hg. by apply glob_nil. }
    exists (v +:+ t'). split; [done|]. destruct Hrest as [->|[r ->]]; [|apply glob_grow; [exact (search_plain _ _ _ _ Hck Hn Hp Es)|done]].
    destruct (search_sound ck Hck Hn last s _ Hp Es) as (_ & _ & _ & _ & Hz).
    rewrite Hz by (unfold last; by rewrite bool_decide_true). constructor.
Qed.

(** [Match] decides the meaning of a pattern. *)
Lemma matchFrom_glob fuel : forall ts s, Forall lit_ok ts -> plain s -> (length ts < fuel)%nat ->
  matchFrom fuel (pattern ts) s = true <-> glob ts s.
Proof.
  induction fuel as [|fuel IH]; intros ts s Hl Hp Hf; [lia|]. cbn [matchFrom].
  rewrite string_eqb_pattern. destruct (bool_decide_reflect (ts = [])) as [->|Hne].
  { by rewrite glob_nil, String.eqb_eq. }
  unfold scanChunk. destruct (tkDrop_ok ts Hl) as [Hld Hlen].
  rewrite dropStars_pattern, scanTo_pattern, headIs_star by done.
  pose proof (tkSpan_spec (tkDrop ts)) as (Espan & Hn & Hrest). pose proof (tkDrop_head ts) as Hhead.
  destruct (tkSpan (tkDrop ts)) as [ck rest] eqn:Esp. cbn [fst snd] in *.
  assert (Forall lit_ok ck /\ Forall lit_ok rest) as [Hck Hlr] by (apply Forall_app; by rewrite <- Espan).
  assert (length ck + length rest = length (tkDrop ts))%nat as Hlen' by (by rewrite Espan, length_app).
  rewrite matchChunk_front, !string_eqb_pattern by done.
  destruct (match ts with Star :: _ => true | _ => false end) eqn:Hstar; cbn [andb].
  - destruct ts as [|[c| |] ts]; try done. rewrite glob_stars by done. change (tkDrop (Star :: ts)) with (tkDrop ts) in *.
    destruct (bool_decide_reflect (ck = [])) as [->|Hcne].
    { assert (rest = []) as -> by (destruct Hrest as [|[r ->]]; [done|by rewrite Espan in Hhead]).
      rewrite plain_no_slash by done. rewrite Espan. split; [intros _|done]. exists s, "".
      rewrite string_app_nil_r. split; [done|constructor]. }
    assert (length rest < fuel)%nat as Hfr by (destruct ck; [done|]; cbn in *; lia).
    set (last := bool_decide (rest = [])).
    transitivity (match search ck last s with Some t => matchFrom fuel (pattern rest) t | None => false end = true).
    { unfold search. destruct (front ck s) as [t|]; [|done]. by destruct last, (String.eqb t ""). }
    rewrite Espan, <- (search_glob ck rest s Hck Hn Hrest Hp).
    fold last. destruct (search ck last s) as [t|] eqn:Es; [|split; [done|by intros (? & ? & _)]].
    rewrite IH by (done || exact (search_plain _ _ _ _ Hck Hn Hp Es)).
    split; [by exists t|by intros (? & [= <-] & ?)].
  - assert (tkDrop ts = ts) as Ed by (by destruct ts as [|[c| |] ts]). rewrite Ed in *. rewrite Espan, glob_front by done.
    destruct (front ck s) as [t|] eqn:Ef; [|naive_solver].
    assert (glob rest t <-> exists t0, Some t = Some t0 /\ glob rest t0) as <- by naive_solver.
    assert (length rest < fuel)%nat as Hfr.
    { destruct ck; [|cbn in *; lia]. rewrite Espan in Hne. cbn in *.
      destruct Hrest as [->|[r ->]]; [done|]. by rewrite Espan in Hstar. }
    destruct (bool_decide_reflect (rest = [])) as [->|Hr]; cbn [negb].
    + rewrite orb_false_r, glob_nil. destruct (String.eqb_spec t "") as [->|]; [|done].
      rewrite IH by (try done; by eapply front_plain). by rewrite glob_nil.
    + rewrite orb_true_r. apply IH; [done| |done]. by eapply front_plain.
Qed.

Lemma length_pattern ts : String.length (pattern ts) = length ts.
Proof. by induction ts as [|[] ts IH]; cbn; rewrite ?IH. Qed.

Lemma Match_glob ts s : Forall lit_ok ts -> plain s -> Match (pattern ts) s = true <-> glob ts s.
Proof. intros Hl Hp. unfold Match. apply matchFrom_glob; [done..|]. rewrite length_pattern. lia. Qed.
