(* ===== verification/Outbound.v ===== *)
(** Outbound tunneling (outbound.go): egress control, the two transports and the
    handler of CCB_PROXY_CONNECT, and chains of brokers that forward such requests
    to each other. *)

From stdpp Require Import base gmap list strings numbers.
From Stdlib Require Import ZArith Lia Ascii.
From S2P Require Import Prelude GoStr GoNet Glob Contacts Reconnect Broker.

#[local] Open Scope string_scope.
#[local] Open Scope Z_scope.

Section outbound.
Context `{Cedar} `{Unicode}.

(** * Egress control *)

Inductive outErr :=
| OBadSinful (target : string) | ONoHostPort (target : string) | OLocal (host : string) | OLoopback (host : string)
| ONotPermitted (host : string) | ODial | OExpired | ONextHop (broker : nat).

(** What one entry of the allow-list says of [host]. *)
Definition entryMatches (pat host : string) : bool :=
  match ParseCIDR pat with
  | Some cidr => match ParseIP host with Some ip => Contains cidr ip | None => false end
  | None =>
      if has "*"%char pat || has "?"%char pat || has "["%char pat then Match (ToLower pat) (ToLower host)
      else EqualFold pat host
  end.

(** The loop of [Server.matchAllowlist]. *)
Fixpoint allowLoop (pats : list string) (host : string) (hasEntry : bool) : bool :=
  match pats with
  | [] => negb hasEntry
  | pat :: pats =>
      let pat := TrimSpace pat in
      if String.eqb pat "" then allowLoop pats host hasEntry
      else if entryMatches pat host then true else allowLoop pats host true
  end.

Definition matchAllowlist (allowlist : list string) (host : string) : bool := allowLoop allowlist host false.

(** [Server.outboundTargetAllowed]. *)
Definition outboundTargetAllowed (allowlist : list string) (target : string) : result outErr string :=
  match ParseSinful target with
  | None => Err (OBadSinful target)
  | Some info =>
      let host := sin_host info in
      let port := sin_port info in
      if String.eqb host "" || String.eqb port "" then Err (ONoHostPort target) else
      let finish :=
        if negb (matchAllowlist allowlist host) then Err (ONotPermitted host) else Ok (JoinHostPort host port) in
      match ParseIP host with
      | Some ip =>
          if IsLoopback ip || IsLinkLocalUnicast ip || IsLinkLocalMulticast ip || IsUnspecified ip
          then Err (OLocal host) else finish
      | None => if EqualFold host "localhost" then Err (OLoopback host) else finish
      end
  end.

(** * Transports *)

(** A broker a request came to: the caller, the broker, and the hop budget it has there. *)
Record hop := mkHop { h_from : nat; h_at : nat; h_ttl : Z }.

(** The hops a connection went through and what it came to. *)
Definition trip (A : Type) : Type := list hop * A.

(** [tcpDirectTransport.connect]; [dial] is the TCP dial. *)
Definition directConnect (allowlist : list string) (dial : string -> option nat) (target : string) (_ : Z)
  : result outErr nat :=
  match outboundTargetAllowed allowlist target with
  | Err e => Err e
  | Ok dialAddr => match dial dialAddr with Some c => Ok c | None => Err ODial end
  end.

(** [nextHopTransport.connect]; [outboundConnect] is [ccb.OutboundConnect] to the
    next hop, [None] when it does not return. *)
Definition nextHopConnect (hop : nat) (outboundConnect : string -> Z -> option (trip (option nat)))
    (target : string) (ttl : Z) : option (trip (result outErr nat)) :=
  if ttl <=? 0 then Some ([], Err OExpired) else
  match outboundConnect target (ttl - 1) with
  | None => None
  | Some (hops, Some c) => Some (hops, Ok c)
  | Some (hops, None) => Some (hops, Err (ONextHop hop))
  end.

(** * The handler *)

(** How a request ends: refused, without an ad, incomplete, not connected, connected but
    closed again because the reply could not be written, or connected, the reply
    sent and the two connections spliced. *)
Inductive proxyOutcome :=
| PDenied | PNoAd | PMissing | PFailed (e : outErr) | PClosed (c : nat) | PConnected (c : nat).

(** The hop budget of a request. *)
Definition requestTTL (OutboundTTL : Z) (ad : Ad) : Z :=
  let ttl := if OutboundTTL <=? 0 then 8 else OutboundTTL in
  match AdInt ad AttrCCBTTL with Some v => v | None => ttl end.

(** [Server.handleProxyConnect] for a peer known as [user] at [remote]; [ad] is what was
    read from it, [replied] whether the reply could be written. *)
Definition handleProxyConnect (cfg : BrokerConfig) (OutboundTTL : Z) (user remote : string)
    (connect : string -> Z -> option (trip (result outErr nat))) (replied : bool) (ad : option Ad) : option (trip proxyOutcome) :=
  if negb (authorize cfg CommandProxyConnect remote user) then Some ([], PDenied) else
  match ad with
  | None => Some ([], PNoAd)
  | Some ad =>
  let target := AdString ad AttrMyAddress in
  let connectID := AdString ad AttrClaimID in
  if String.eqb target "" || String.eqb connectID "" then Some ([], PMissing) else
  match connect target (requestTTL OutboundTTL ad) with
  | None => None
  | Some (hops, Err e) => Some (hops, PFailed e)
  | Some (hops, Ok c) => Some (hops, if replied then PConnected c else PClosed c)
  end
  end.

(** * Chains of brokers *)

(** How a broker reaches targets. *)
Inductive transport := TDirect | TNextHop (hop : nat).

Record node := mkNode {
  n_cfg : BrokerConfig;
  n_allowlist : list string;
  n_ttl : Z;
  n_transport : transport;
  n_peer : nat -> string * string    (* user and address it knows a caller by *)
}.

(** The request that [ccb.OutboundConnect] sends for a target and a budget. A budget
    of 0 is an unset one: OutboundConnect without a TTL passes through a forwarding
    broker (TestOutboundProxyTwoCCB), so its request has no CCBTTL or a usable one. *)
Class CedarOutbound := {
  OutboundAd : string -> Z -> Ad;
  OutboundAd_target t n : AdString (OutboundAd t n) AttrMyAddress = t;
  OutboundAd_ttl t n : 0 < n -> AdInt (OutboundAd t n) AttrCCBTTL = Some n;
  OutboundAd_unset t : match AdInt (OutboundAd t 0) AttrCCBTTL with Some v => 0 < v | None => True end
}.

Context `{!CedarOutbound}.
Context (net : nat -> node) (dial : nat -> string -> option nat).

(** What happens to the ad and the reply of a request on their way, by the fuel left. *)
Context (arrives replied : nat -> bool).

(** A request that [from] sends to broker [b]; [None] when fuel runs out. *)
Fixpoint relay (fuel : nat) (from b : nat) (ad : Ad) : option (trip proxyOutcome) :=
  match fuel with
  | O => None
  | S fuel =>
      let n := net b in
      let connect target ttl :=
        match n_transport n with
        | TDirect => Some ([], directConnect (n_allowlist n) (dial b) target ttl)
        | TNextHop hop =>
            nextHopConnect hop (fun target ttl =>
              match relay fuel b hop (OutboundAd target ttl) with
              | None => None
              | Some (hops, PConnected c) => Some (hops, Some c)
              | Some (hops, _) => Some (hops, None)
              end) target ttl
        end in
      match handleProxyConnect (n_cfg n) (n_ttl n) (n_peer n from).1 (n_peer n from).2 connect (replied fuel) (if arrives fuel then Some ad else None) with
      | None => None
      | Some (hops, o) => Some (mkHop from b (requestTTL (n_ttl n) ad) :: hops, o)
      end
  end.

(** * Lemmas *)

(** The allow-list permits a host. *)
Definition permitted (allowlist : list string) (host : string) : Prop :=
  (forall p, p ∈ allowlist -> TrimSpace p = "")
  \/ exists p, p ∈ allowlist /\ TrimSpace p <> "" /\ entryMatches (TrimSpace p) host = true.

Lemma allowLoop_spec l host b : allowLoop l host b = true <->
  (b = false /\ forall p, p ∈ l -> TrimSpace p = "")
  \/ exists p, p ∈ l /\ TrimSpace p <> "" /\ entryMatches (TrimSpace p) host = true.
Proof.
  revert b. induction l as [|p l IH]; intros b; cbn [allowLoop].
  - rewrite negb_true_iff. split; [|intros [[-> _]|(p & ?%not_elem_of_nil & _)]; done].
    intros ->. left. split; [done|]. by intros p ?%not_elem_of_nil.
  - setoid_rewrite elem_of_cons. destruct (String.eqb_spec (TrimSpace p) "") as [E|E].
    + rewrite IH. split.
      * intros [[-> Hl]|(q & ? & ?)]; [left|right; eauto]. split; [done|]. intros q [->|?]; auto.
      * intros [[-> Hl]|(q & [->|?] & ? & ?)]; [left|done|right; eauto]. split; [done|]. auto.
    + destruct (entryMatches (TrimSpace p) host) eqn:Em.
      * split; [intros _|done]. right. eauto.
      * rewrite IH. split.
        -- intros [[? _]|(q & ? & ?)]; [done|right; eauto].
        -- intros [[_ Hl]|(q & [->|?] & ? & ?)]; [|congruence|right; eauto].
           exfalso. apply E, Hl. by left.
Qed.

Lemma matchAllowlist_spec l host : matchAllowlist l host = true <-> permitted l host.
Proof. unfold matchAllowlist, permitted. rewrite allowLoop_spec. naive_solver. Qed.

Lemma targetAllowed_ok l target dialAddr : outboundTargetAllowed l target = Ok dialAddr <->
  exists info, ParseSinful target = Some info /\ sin_host info <> "" /\ sin_port info <> ""
    /\ dialAddr = JoinHostPort (sin_host info) (sin_port info)
    /\ match ParseIP (sin_host info) with
       | Some ip => IsLoopback ip = false /\ IsLinkLocalUnicast ip = false
                    /\ IsLinkLocalMulticast ip = false /\ IsUnspecified ip = false
       | None => EqualFold (sin_host info) "localhost" = false
       end
    /\ permitted l (sin_host info).
Proof.
  unfold outboundTargetAllowed. split.
  - destruct (ParseSinful target) as [info|]; [|done]. intros E. exists info. split; [done|].
    destruct (String.eqb_spec (sin_host info) ""); cbn [orb] in E; [done|].
    destruct (String.eqb_spec (sin_port info) ""); [done|]. split; [done|]. split; [done|].
    destruct (ParseIP (sin_host info)) as [ip|].
    + destruct (IsLoopback ip), (IsLinkLocalUnicast ip), (IsLinkLocalMulticast ip), (IsUnspecified ip); try done.
      cbn [orb] in E. destruct (matchAllowlist _ _) eqn:Em; [|done]. injection E as <-.
      apply matchAllowlist_spec in Em. done.
    + destruct (EqualFold _ _); [done|]. destruct (matchAllowlist _ _) eqn:Em; [|done]. injection E as <-.
      apply matchAllowlist_spec in Em. done.
  - intros (info & -> & Hh%String.eqb_neq & Hp%String.eqb_neq & -> & Hs & Hl%matchAllowlist_spec).
    rewrite Hh, Hp, Hl. cbn [orb negb]. destruct (ParseIP (sin_host info)) as [ip|].
    + destruct Hs as (-> & -> & -> & ->). done.
    + by rewrite Hs.
Qed.

Lemma requestTTL_forward d t n : 0 < n -> requestTTL d (OutboundAd t n) = n.
Proof. intros Hn. unfold requestTTL. by rewrite OutboundAd_ttl. Qed.

Lemma requestTTL_unset d t : 0 < requestTTL d (OutboundAd t 0).
Proof.
  unfold requestTTL. pose proof (OutboundAd_unset t) as Hu. destruct (AdInt _ _); [done|].
  destruct (Z.leb_spec d 0); lia.
Qed.

(** Consecutive hops: the first broker forwards to the second, with budget left, and
    the second has one less, unless the budget was spent, when it starts anew. *)
Definition forwards (h h' : hop) : Prop :=
  n_transport (net (h_at h)) = TNextHop (h_at h') /\ h_from h' = h_at h /\ 0 < h_ttl h
  /\ (if h_ttl h =? 1 then 0 < h_ttl h' else h_ttl h' = h_ttl h - 1).

Fixpoint chained (hops : list hop) : Prop :=
  match hops with
  | h :: (h' :: _) as rest => forwards h h' /\ chained rest
  | _ => True
  end.

(** A trip starts where the request came in, and is a chain. *)
Lemma relay_chain fuel : forall from b ad hops o, relay fuel from b ad = Some (hops, o) ->
  head hops = Some (mkHop from b (requestTTL (n_ttl (net b)) ad)) /\ chained hops.
Proof.
  induction fuel as [|fuel IH]; intros from b ad hops o E; [done|]. cbn [relay] in E. unfold handleProxyConnect in E.
  destruct (authorize _ _ _ _); cbn [negb] in E; [|by injection E as <- _]. destruct (arrives fuel); [|by injection E as <- _].
  destruct (String.eqb _ "" || _); [by injection E as <- _|]. destruct (n_transport (net b)) as [|nh] eqn:Et.
  - destruct (directConnect _ _ _ _); by injection E as <- _.
  - unfold nextHopConnect in E. destruct (_ <=? 0) eqn:Ez; [by injection E as <- _|]. apply Z.leb_gt in Ez.
    set (ttl := requestTTL _ _) in *. destruct (relay fuel b nh _) as [[hops' o']|] eqn:Er; [|done].
    apply IH in Er as [Hh Hc]. assert (hops = mkHop from b ttl :: hops') as -> by (destruct o'; by injection E as <- _).
    destruct hops' as [|h' hops']; [done|]. injection Hh as ->. split; [done|]. split; [|done].
    split; [done|]. split; [done|]. split; [done|]. cbn [h_ttl]. destruct (Z.eqb_spec ttl 1) as [->|]; [apply requestTTL_unset|].
    apply requestTTL_forward. lia.
Qed.

(** Along a chain the budget counts down to one. *)
Lemma chained_countdown hops h0 i h : chained (h0 :: hops) -> (h0 :: hops) !! i = Some h -> Z.of_nat i < h_ttl h0 ->
  h_ttl h = h_ttl h0 - Z.of_nat i.
Proof.
  revert h0 i. induction hops as [|h1 hops IH]; intros h0 [|i] Hc Hi Hlt; cbn in Hi; try done;
    [injection Hi as <-; lia..|]. destruct Hc as [(_ & _ & _ & Hf) Hc].
  destruct (Z.eqb_spec (h_ttl h0) 1); [lia|]. rewrite (IH h1 i Hc Hi) by lia. lia.
Qed.

Lemma chained_step hops i h h' : chained hops -> hops !! i = Some h -> hops !! S i = Some h' -> forwards h h'.
Proof.
  revert i. induction hops as [|h0 hops IH]; intros i Hc Hi Hi'; [done|]. cbn in Hi'. destruct hops as [|h1 hops]; [done|].
  destruct Hc as [Hf Hc]. destruct i as [|i]; cbn in Hi; [|by eapply IH]. cbn in Hi'. by simplify_eq.
Qed.

(** A request goes at most down the rank of the first broker. *)
Lemma relay_ranked rank fuel : (forall x y, n_transport (net x) = TNextHop y -> (rank y < rank x)%nat) ->
  forall from b ad, (rank b < fuel)%nat ->
  exists hops o, relay fuel from b ad = Some (hops, o) /\ (length hops <= S (rank b))%nat.
Proof.
  intros Hrk. induction fuel as [|fuel IH]; intros from b ad Hf; [lia|]. cbn [relay]. unfold handleProxyConnect.
  destruct (authorize _ _ _ _); cbn [negb]; [|eexists _, _; split; [reflexivity|cbn; lia]].
  destruct (arrives fuel); [|eexists _, _; split; [reflexivity|cbn; lia]].
  destruct (String.eqb _ "" || _); [eexists _, _; split; [reflexivity|cbn; lia]|].
  destruct (n_transport (net b)) as [|nh] eqn:Et.
  - destruct (directConnect _ _ _ _); eexists _, _; (split; [reflexivity|cbn; lia]).
  - unfold nextHopConnect. destruct (_ <=? 0); [eexists _, _; split; [reflexivity|cbn; lia]|]. apply Hrk in Et.
    match goal with |- context [relay fuel b nh ?a] => destruct (IH b nh a) as (hops & o & -> & Hlen); [lia|] end.
    destruct o; eexists _, _; (split; [reflexivity|cbn; lia]).
Qed.

(** Brokers that only forward to each other and let each other in never answer a
    request that still has budget: spent, the budget starts anew. *)
Lemma relay_loops : (forall x, exists y, n_transport (net x) = TNextHop y) ->
  (forall x a, authorize (n_cfg (net x)) CommandProxyConnect (n_peer (net x) a).2 (n_peer (net x) a).1 = true) ->
  (forall k, arrives k = true) -> (forall t n, AdString (OutboundAd t n) AttrClaimID <> "") ->
  forall fuel from b ad, AdString ad AttrMyAddress <> "" -> AdString ad AttrClaimID <> "" ->
  0 < requestTTL (n_ttl (net b)) ad -> relay fuel from b ad = None.
Proof.
  intros Hnh Hau Har Hcl. induction fuel as [|fuel IH]; intros from b ad Ht Hc Hb; [done|]. cbn [relay]. unfold handleProxyConnect.
  rewrite Hau, Har. cbn [negb]. rewrite (proj2 (String.eqb_neq _ _) Ht), (proj2 (String.eqb_neq _ _) Hc). cbn [orb].
  destruct (Hnh b) as [y ->]. unfold nextHopConnect. rewrite (proj2 (Z.leb_gt _ _) Hb).
  rewrite IH; [done|by rewrite OutboundAd_target|apply Hcl|].
  destruct (decide (requestTTL (n_ttl (net b)) ad = 1)) as [->|]; [apply requestTTL_unset|rewrite requestTTL_forward; lia].
Qed.

(** The broker a trip ended at. *)
Fixpoint exit_of (hops : list hop) : option nat :=
  match hops with [] => None | [h] => Some (h_at h) | _ :: hops => exit_of hops end.

(** The broker lets its caller in. *)
Definition admitted (h : hop) : Prop :=
  let n := net (h_at h) in authorize (n_cfg n) CommandProxyConnect (n_peer n (h_from h)).2 (n_peer n (h_from h)).1 = true.

Lemma relay_exit fuel : forall from b ad hops c, relay fuel from b ad = Some (hops, PConnected c) ->
  Forall admitted hops
  /\ exists e dialAddr, exit_of hops = Some e /\ n_transport (net e) = TDirect
     /\ outboundTargetAllowed (n_allowlist (net e)) (AdString ad AttrMyAddress) = Ok dialAddr
     /\ dial e dialAddr = Some c.
Proof.
  induction fuel as [|fuel IH]; intros from b ad hops c E; [done|]. cbn [relay] in E. unfold handleProxyConnect in E.
  destruct (authorize _ _ _ _) eqn:Ea; cbn [negb] in E; [|done]. destruct (arrives fuel); [|done].
  destruct (String.eqb _ "" || _); [done|]. destruct (n_transport (net b)) as [|hop] eqn:Et.
  - unfold directConnect in E. destruct (outboundTargetAllowed _ _) as [d|] eqn:Eo; [|done].
    destruct (dial b d) eqn:Ed; [|done]. destruct (replied fuel); [|done]. injection E as <- <-. split; [by repeat constructor|]. by exists b, d.
  - unfold nextHopConnect in E. destruct (_ <=? 0); [done|].
    destruct (relay fuel b hop _) as [[hops' o]|] eqn:Er; [|done]. destruct o as [| | | | |c']; try done.
    destruct (replied fuel); [|done]. injection E as <- <-. destruct (IH _ _ _ _ _ Er) as [Hau (e & d & He & Hx)]. split; [by constructor|].
    exists e, d. rewrite OutboundAd_target in Hx. split; [|done].
    by destruct hops' as [|h hops'].
Qed.
End outbound.

(** ** CIDR entries *)

Definition cidr (a b c d n : Z) : string := quad a b c d +:+ "/" +:+ FormatUint n.

Lemma cut_app x s c : has c x = false -> cut c (x +:+ String c s) = Some (x, s).
Proof.
  induction x as [|a x IH]; intros Hx.
  - rewrite string_app_nil_l. cbn. by rewrite Ascii.eqb_refl.
  - rewrite string_app_cons. cbn [cut]. unfold has in Hx. cbn [chars existsb] in Hx.
    apply orb_false_iff in Hx as [Ha Hx]. rewrite Ascii.eqb_sym, Ha, IH by exact Hx. done.
Qed.

Lemma quad_no c a b x d : bytes [a; b; x; d] -> char_digit c = None -> Ascii.eqb c "." = false ->
  has c (quad a b x d) = false.
Proof.
  intros Hq Hc Hd. repeat (apply Forall_cons_iff in Hq as [? Hq]). unfold quad.
  rewrite !has_app, !FormatUint_no by done. unfold has. cbn. by rewrite Hd.
Qed.

Lemma dtoi_num n : 0 <= n < 256 -> dtoi (FormatUint n) 0 = Some n.
Proof. revert n. apply byte_cases. cbn [map seq]. repeat (apply Forall_cons_2; [reflexivity|]). apply Forall_nil_2. Qed.

Lemma ParseAddr_quad a b c d : bytes [a; b; c; d] -> ParseAddr (quad a b c d) = Some (Addr4 [a; b; c; d]).
Proof.
  intros Hq. pose proof (ParseIP_quad _ _ _ _ Hq) as Hp. unfold ParseIP in Hp.
  destruct (ParseAddr (quad a b c d)) as [[l|l]|] eqn:E; cbn [fmap option_fmap option_map As16] in Hp; [| |done].
  - injection Hp as Hp. by rewrite Hp.
  - exfalso. clear Hp. unfold ParseAddr in E. rewrite quad_no in E by done.
    unfold quad at 1 in E. repeat (apply Forall_cons_iff in Hq as [? Hq]).
    rewrite dispatch_num, string_app_cons in E by done. cbn in E. by destruct (parseIPv4 _).
Qed.

Lemma ParseCIDR_cidr a b c d n : bytes [a; b; c; d] -> 0 <= n <= 32 ->
  ParseCIDR (cidr a b c d n) = Some (mkNet (andBytes [a; b; c; d] (CIDRMask n 4)) (CIDRMask n 4)).
Proof.
  intros Hq Hn. unfold ParseCIDR, cidr. rewrite string_app_cons, string_app_nil_l.
  rewrite cut_app by (by apply quad_no). rewrite ParseAddr_quad by done.
  destruct (String.eqb_spec (FormatUint n) "") as [E|_]; [by destruct (FormatUint_graph n)|].
  rewrite dtoi_num by lia. cbn [length]. rewrite Z.gtb_ltb. destruct (Z.ltb_spec (8 * Z.of_nat 4) n); [lia|done].
Qed.

Lemma Contains_quad a b n : bytes a -> length a = 4%nat -> bytes b -> length b = 4%nat -> 0 <= n <= 32 ->
  Contains (mkNet (andBytes a (CIDRMask n 4)) (CIDRMask n 4)) (v4InV6Prefix ++ b)%list = true
  <-> ipval a / 2 ^ (32 - n) = ipval b / 2 ^ (32 - n).
Proof.
  intros Ha La Hb Lb Hn. unfold Contains, networkNumberAndMask. cbn [n_IP n_Mask].
  assert (length (andBytes a (CIDRMask n 4)) = 4%nat) as Lm
    by (rewrite length_andBytes; [done|by rewrite length_CIDRMask, La]).
  assert (To4 (andBytes a (CIDRMask n 4)) = Some (andBytes a (CIDRMask n 4))) as -> by (unfold To4; by rewrite decide_True).
  rewrite Lm, length_CIDRMask, decide_True by done. rewrite To4_mapped by done. rewrite Lm, Lb.
  rewrite bool_decide_true by done. cbn [andb]. rewrite bool_decide_eq_true, andBytes_idem.
  apply (masked_prefix 4); [done..|lia].
Qed.

Lemma graph_char c : ascii_graph (String c "") = (33 <=? code c) && (code c <=? 126).
Proof. unfold ascii_graph. cbn. by rewrite andb_true_r. Qed.

Lemma cidr_graph a b c d n : ascii_graph (cidr a b c d n) = true.
Proof.
  unfold cidr, quad. rewrite !graph_app, !(proj1 (FormatUint_graph _)), !graph_char. done.
Qed.

Lemma cidr_nonempty a b c d n : cidr a b c d n <> "".
Proof.
  unfold cidr, quad. intros E. apply (f_equal String.length) in E. rewrite !string_length_app in E.
  cbn [String.length] in E. lia.
Qed.

(** ** Globs *)

Definition lowerTok (t : tok) : tok := match t with Lit c => Lit (lowerChar c) | _ => t end.

Lemma lowerChar_code c : code (lowerChar c) = code c \/ (65 <= code c <= 90 /\ code (lowerChar c) = code c + 32).
Proof.
  unfold lowerChar. destruct (_ && _) eqn:E; [|by left]. right. breflect. split; [done|].
  unfold code in *. rewrite N_ascii_embedding by lia. lia.
Qed.

Lemma code_inj a b : code a = code b -> a = b.
Proof. unfold code. intros E. rewrite <- (ascii_N_embedding a), <- (ascii_N_embedding b). f_equal. lia. Qed.

Lemma lowerASCII_pattern ts : lowerASCII (pattern ts) = pattern (map lowerTok ts).
Proof. induction ts as [|[c| |] ts IH]; [done|..]; cbn [pattern lowerASCII map lowerTok]; rewrite IH; done. Qed.

Lemma lowerTok_ok ts : Forall lit_ok ts -> Forall lit_ok (map lowerTok ts).
Proof.
  intros Hl. apply Forall_map. eapply Forall_impl; [|exact Hl]. intros [c| |]; cbn; [|done..].
  intros (H1 & H2 & H3 & H4).
  assert (forall x, (code x <? 97) || (122 <? code x) = true -> c <> x -> lowerChar c <> x) as Hx.
  { intros x Hc Hne E. destruct (lowerChar_code c) as [Ec|[Hr Ec]].
    - apply Hne, code_inj. by rewrite <- Ec, E.
    - rewrite E in Ec. apply orb_true_iff in Hc as [Hc|Hc]; apply Z.ltb_lt in Hc; lia. }
  repeat split; by apply Hx.
Qed.

Lemma plain_lower s : plain s -> plain (lowerASCII s).
Proof.
  induction s as [|c s IH]; [done|]. intros [[Hc Hsl] Hs]%plain_cons. apply plain_cons. split; [|by apply IH].
  destruct (lowerChar_code c) as [Ec|[Hr Ec]]; (split; [lia|]); intros E.
  - apply Hsl, code_inj. by rewrite <- Ec, E.
  - rewrite E in Ec. change (code "/") with 47 in Ec. lia.
Qed.

Lemma plain_ascii s : plain s -> isASCII s = true.
Proof.
  unfold isASCII. induction s as [|c s IH]; [done|]. intros [[Hc _] Hs]%plain_cons. cbn [chars forallb].
  rewrite (IH Hs). apply Z.ltb_lt in Hc. by rewrite Hc.
Qed.

Lemma cut_none c s : has c s = false -> cut c s = None.
Proof.
  unfold has. induction s as [|a s IH]; [done|]. cbn [chars existsb cut]. intros [Ha Hs]%orb_false_iff.
  by rewrite Ascii.eqb_sym, Ha, IH.
Qed.

(** * Properties *)



(** A list without entries permits every host, although [outboundTargetAllowed] and the
    configuration call it deny-by-default. *)
Theorem allowlist_none `{Unicode} l host : (forall p, p ∈ l -> TrimSpace p = "") -> matchAllowlist l host = true.
Proof. intros Hl. apply matchAllowlist_spec. by left. Qed.

(** The budget does not end a circle of forwarding brokers: spent, it reaches the next
    broker as an unset one and starts anew. *)
Theorem outbound_loop_unbounded `{CedarOutbound} `{Unicode} net dial arrives replied from b ad :
  (forall x, exists y, n_transport (net x) = TNextHop y) ->
  (forall x a, authorize (n_cfg (net x)) CommandProxyConnect (n_peer (net x) a).2 (n_peer (net x) a).1 = true) ->
  (forall k, arrives k = true) -> (forall t n, AdString (OutboundAd t n) AttrClaimID <> "") ->
  AdString ad AttrMyAddress <> "" -> AdString ad AttrClaimID <> "" -> 0 < requestTTL (n_ttl (net b)) ad ->
  forall fuel, relay net dial arrives replied fuel from b ad = None.
Proof. intros. by apply relay_loops. Qed.

(** C36: a CIDR entry of the allow-list admits exactly its network: an IPv4 host is
    permitted by the single entry [a.b.c.d/n] if and only if it agrees with it on
    the first [n] bits. *)
Theorem allowlist_cidr `{Unicode} a b c d n h i j k :
  bytes [a; b; c; d] -> bytes [h; i; j; k] -> 0 <= n <= 32 ->
  matchAllowlist [cidr a b c d n] (quad h i j k) = true
  <-> ipval [a; b; c; d] / 2 ^ (32 - n) = ipval [h; i; j; k] / 2 ^ (32 - n).
Proof.
  intros Hq Hh Hn. unfold matchAllowlist. cbn [allowLoop]. rewrite TrimSpace_graph by apply cidr_graph.
  pose proof (cidr_nonempty a b c d n) as Hne%String.eqb_neq. rewrite Hne. unfold entryMatches.
  rewrite ParseCIDR_cidr, ParseIP_quad by done. rewrite <- Contains_quad by done.
  by destruct (Contains _ _).
Qed.

(** C37: a glob entry of the allow-list admits exactly the hosts it stands for: an
    entry of literals, [?] and [*] with at least one wildcard permits an ASCII host
    if and only if, in lower case, the pattern's meaning includes the host. *)
Theorem allowlist_glob `{UnicodeLaws} ts host :
  Forall lit_ok ts -> ascii_graph (pattern ts) = true -> has "/"%char (pattern ts) = false ->
  existsb (fun t => match t with Lit _ => false | _ => true end) ts = true -> plain host ->
  matchAllowlist [pattern ts] host = true <-> glob (map lowerTok ts) (lowerASCII host).
Proof.
  intros Hl Hg Hsl Hw Hp. unfold matchAllowlist. cbn [allowLoop]. rewrite TrimSpace_graph by done.
  assert (pattern ts <> "") as Hne%String.eqb_neq by (by destruct ts as [|[]]). rewrite Hne.
  unfold entryMatches, ParseCIDR. rewrite cut_none by done.
  assert (has "*"%char (pattern ts) || has "?"%char (pattern ts) = true) as ->.
  { clear -Hw. induction ts as [|[c| |] ts IH]; [done|..]; unfold has in *; cbn [pattern chars existsb orb] in *;
      [|by rewrite orb_true_r|done].
    apply orb_true_iff in IH; [|done]. destruct IH as [-> | ->]; by rewrite ?orb_true_r. }
  cbn [orb]. rewrite ToLower_ascii, ToLower_ascii.
  - rewrite lowerASCII_pattern, <- Match_glob; [by destruct (Match _ _)|by apply lowerTok_ok|by apply plain_lower].
  - by apply plain_ascii.
  - clear -Hg. unfold isASCII, ascii_graph in *. rewrite forallb_forall in *. intros c Hc.
    apply Hg in Hc. breflect. apply Z.ltb_lt. lia.
Qed.

(** ** Witnesses *)

(** Ads as functions, addresses as host and port around the last colon. *)
#[local] Instance netCedar : Cedar := {
  Ad := attr -> string * option Z;
  AdString ad a := (ad a).1;
  AdInt ad a := (ad a).2;
  AdBool ad a := None;
  commandInt c := 0;
  ContactString addr id := addr +:+ "#" +:+ FormatUint id;
  SplitCCBContact := splitHash;
  ParseSinful s := match cut ":" s with Some (h, p) => Some (mkSinful h p false) | None => None end
}.

#[local] Instance asciiUnicode : Unicode := {
  ToLower := lowerASCII; EqualFold s t := String.eqb (lowerASCII s) (lowerASCII t)
}.

#[local] Instance asciiUnicode_laws : UnicodeLaws.
Proof. by split. Qed.

Definition netAd (target : string) (ttl : option Z) : @Ad netCedar := fun a =>
  match a with
  | AttrMyAddress => (target, None)
  | AttrClaimID => ("id", None)
  | AttrCCBTTL => ("", ttl)
  | _ => ("", None)
  end.

#[local, refine] Instance netOutbound : CedarOutbound :=
  { OutboundAd t n := netAd t (if n =? 0 then None else Some n) }.
Proof. all: try done. intros t n Hn. cbn. by rewrite (proj2 (Z.eqb_neq n 0)) by lia. Defined.

Definition netNode (t : transport) : node := mkNode demo_cfg ["10.0.0.0/8"] 0 t (fun _ => ("condor", "10.0.0.1:1")).

(** Broker 1 forwards to broker 2, which dials. *)
Definition exitNet (b : nat) : node := netNode (if (b =? 1)%nat then TNextHop 2 else TDirect).


Definition exitTrip : list hop := [mkHop 0 1 8; mkHop 1 2 7].


Lemma allowlist_cidr_witness :
  matchAllowlist [cidr 10 64 0 0 10] (quad 10 127 1 2) = true
  /\ (matchAllowlist [cidr 10 64 0 0 10] (quad 10 127 1 2) = true
      <-> ipval [10; 64; 0; 0] / 2 ^ (32 - 10) = ipval [10; 127; 1; 2] / 2 ^ (32 - 10)).
Proof.
  split; [vm_compute; reflexivity|].
  apply (allowlist_cidr 10 64 0 0 10 10 127 1 2); [repeat constructor; lia..|lia].
Defined.

Lemma allowlist_glob_witness :
  matchAllowlist ["*.Cs.edu"] "node1.cs.EDU" = true
  /\ glob [Star; Lit "."; Lit "c"; Lit "s"; Lit "."; Lit "e"; Lit "d"; Lit "u"] "node1.cs.edu".
Proof.
  split; [vm_compute; reflexivity|].
  apply (allowlist_glob [Star; Lit "."; Lit "C"; Lit "s"; Lit "."; Lit "e"; Lit "d"; Lit "u"] "node1.cs.EDU").
  - repeat constructor; discriminate.
  - reflexivity.
  - reflexivity.
  - reflexivity.
  - repeat constructor; discriminate.
  - vm_compute. reflexivity.
Defined.
