(* ===== verification/WsCarrier.v ===== *)
(** The WebSocket carrier (transport/wscarrier/ws.go) and its bearer tokens
    (wscarrier_auth.go): what the client presents, what the acceptor verifies, and
    the pipes it hands out. The WebSocket library and the verification of a token's
    signature are parameters. *)

From stdpp Require Import base gmap list strings numbers.
From Stdlib Require Import ZArith Lia Ascii.
From S2P Require Import Prelude GoStr FsConfig.

#[local] Open Scope string_scope.
#[local] Open Scope Z_scope.

(** * Token discovery *)

(** What the process sees of its host. *)
Record hostEnv := mkHost {
  Getenv : string -> string;
  ReadFile : string -> option string;
  ReadDirEntries : string -> option (list (string * bool));   (* name, whether a directory *)
  Getuid : Z;
  UserHomeDir : option string
}.

Definition FormatInt (n : Z) : string := if n <? 0 then "-" +:+ FormatUint (- n) else FormatUint n.

(** The loop of [readFirstToken]. *)
Fixpoint firstToken (lines : list string) : option string :=
  match lines with
  | [] => None
  | line :: lines =>
      let t := TrimSpace line in
      if String.eqb t "" then firstToken lines else Some t
  end.

Definition readFirstToken (e : hostEnv) (path : string) : option string :=
  match ReadFile e path with
  | None => None
  | Some data => firstToken (Split data LF)
  end.

(** The loops of [discoverIDToken], over the entries of a directory and over the
    directories. *)
Fixpoint tokenInDir (e : hostEnv) (d : string) (entries : list (string * bool)) : option string :=
  match entries with
  | [] => None
  | (name, isDir) :: entries =>
      if isDir then tokenInDir e d entries else
      match readFirstToken e (JoinPath [d; name]) with
      | Some t => if String.eqb t "" then tokenInDir e d entries else Some t
      | None => tokenInDir e d entries
      end
  end.

Fixpoint tokenInDirs (e : hostEnv) (dirs : list string) : option string :=
  match dirs with
  | [] => None
  | d :: dirs =>
      match ReadDirEntries e d with
      | None => tokenInDirs e dirs
      | Some entries =>
          match tokenInDir e d entries with
          | Some t => Some t
          | None => tokenInDirs e dirs
          end
      end
  end.

Definition tokenDirs (e : hostEnv) : list string :=
  let d := Getenv e "SEC_TOKEN_DIRECTORY" in
  ((if String.eqb d "" then [] else [d])
   ++ match UserHomeDir e with Some home => [JoinPath [home; ".condor"; "tokens.d"]] | None => [] end
   ++ ["/etc/condor/tokens.d"])%list.

Definition discoverIDToken (e : hostEnv) : option string := tokenInDirs e (tokenDirs e).

(** [DiscoverBearerToken]. *)
Definition DiscoverBearerToken (e : hostEnv) : option string :=
  let t := TrimSpace (Getenv e "BEARER_TOKEN") in
  if negb (String.eqb t "") then Some t else
  let f := Getenv e "BEARER_TOKEN_FILE" in
  match (if String.eqb f "" then None else readFirstToken e f) with
  | Some t => Some t
  | None =>
      let xdg := Getenv e "XDG_RUNTIME_DIR" in
      let bt := "bt_u" +:+ FormatInt (Getuid e) in
      match (if String.eqb xdg "" then None else readFirstToken e (JoinPath [xdg; bt])) with
      | Some t => Some t
      | None =>
          match readFirstToken e ("/tmp/" +:+ bt) with
          | Some t => Some t
          | None => discoverIDToken e
          end
      end
  end.

(** * Verification *)

(** The cedar security library under the server's security configuration. *)
Class TokenLib := {
  IsSciToken : string -> bool;
  VerifySciToken : string -> option (string * string);   (* issuer and subject *)
  VerifyIDToken : string -> option string                (* subject *)
}.

Definition SciTokenVerifier `{TokenLib} (token : string) : option string :=
  if negb (IsSciToken token) then None else
  match VerifySciToken token with
  | None => None
  | Some (issuer, subject) => Some (issuer +:+ "/" +:+ subject)
  end.

Definition IDTokenVerifier `{TokenLib} (token : string) : option string := VerifyIDToken token.

Definition BearerTokenVerifier `{TokenLib} (token : string) : option string :=
  if IsSciToken token then SciTokenVerifier token else IDTokenVerifier token.

(** * The header *)

(** What [net/http] accepts as a header value: no control character but the tab;
    it is sent without the blanks around it. *)
Definition TAB : ascii := "009"%char.

Definition validHeaderValue (s : string) : bool :=
  forallb (fun c => (code c =? 9) || ((32 <=? code c) && negb (code c =? 127))) (chars s).

Definition headerSent (v : string) : option string :=
  if validHeaderValue v then Some (Trim v (String TAB " ")) else None.

Section ws.
Context `{Unicode}.

(** [bearerToken] on the value of the Authorization header, empty if there is none. *)
Definition bearerToken (h : string) : string :=
  let p := "Bearer " in
  if (String.length p <? String.length h)%nat && EqualFold (stake (String.length p) h) p
  then TrimSpace (sdrop (String.length p) h) else "".

(** ** The acceptor *)

Inductive refusal := RMissing | RUnauthorized.

(** [Listener.handle] up to the upgrade: the identity the verifier gave. *)
Definition checkToken (verify : string -> option string) (h : string) : result refusal string :=
  let token := bearerToken h in
  if String.eqb token "" then Err RMissing else
  match verify token with
  | None => Err RUnauthorized
  | Some identity => Ok identity
  end.

(** The rest of [handle]: it offers the pipe to [Accept], then waits until the pipe
    is closed. *)
Inductive handler := HOffer | HHeld | HReturned.

(** [Listener]: its handlers and pipes, by request, a pipe being open until its [Close]
    is called, which lets the handler return and closes the connection; which pipes
    [Accept] returned, and whether it is closed. *)
Record wsListener := mkWs {
  ws_handlers : gmap nat handler;
  ws_open : gset nat;
  ws_accepted : list nat;
  ws_closed : bool
}.

Definition newWsListener : wsListener := mkWs ∅ ∅ [] false.

(** What happened, as the steps of a listener record it. *)
Inductive wsEvent := EvRequest (k : nat) (h : string) | EvAccept (k : nat) | EvOther.

Inductive ws_step (verify : string -> option string) : wsListener -> wsEvent -> wsListener -> Prop :=
| ws_refused l k h e : checkToken verify h = Err e -> ws_step verify l (EvRequest k h) l
| ws_upgraded l k h id : checkToken verify h = Ok id -> ws_handlers l !! k = None ->
    ws_step verify l (EvRequest k h) (mkWs (<[k := HOffer]> (ws_handlers l)) ({[k]} ∪ ws_open l) (ws_accepted l) (ws_closed l))
| ws_upgradeFails l k h id : checkToken verify h = Ok id -> ws_step verify l (EvRequest k h) l
| ws_accept l k : ws_handlers l !! k = Some HOffer ->
    ws_step verify l (EvAccept k) (mkWs (<[k := HHeld]> (ws_handlers l)) (ws_open l) (ws_accepted l ++ [k]) (ws_closed l))
| ws_pipeClose l k : k ∈ ws_accepted l ->
    ws_step verify l EvOther (mkWs (ws_handlers l) (ws_open l ∖ {[k]}) (ws_accepted l) (ws_closed l))
| ws_done l k : ws_handlers l !! k = Some HHeld -> k ∉ ws_open l ->
    ws_step verify l EvOther (mkWs (<[k := HReturned]> (ws_handlers l)) (ws_open l) (ws_accepted l) (ws_closed l))
| ws_close l : ws_step verify l EvOther (mkWs (ws_handlers l) (ws_open l) (ws_accepted l) true)
| ws_going l k g : ws_closed l = true -> ws_handlers l !! k = Some g -> g <> HReturned ->
    ws_step verify l EvOther (mkWs (<[k := HReturned]> (ws_handlers l)) (ws_open l ∖ {[k]}) (ws_accepted l) true).

Inductive ws_run (verify : string -> option string) : list wsEvent -> wsListener -> Prop :=
| ws_run_nil : ws_run verify [] newWsListener
| ws_run_snoc es l e l' : ws_run verify es l -> ws_step verify l e l' -> ws_run verify (es ++ [e]) l'.

(** [ListenConfig] and [Listen]; [bind] tells whether [net.Listen] gets the address. *)
Record ListenConfig := mkListen {
  lc_Addr : string;
  lc_Path : string;
  lc_TLS : bool;                              (* whether it is set *)
  lc_Verify : option (string -> option string);
  lc_ReadLimit : Z
}.

Definition DefaultPath : string := "/ccb/tunnel".

Inductive listenErr := WNoVerify | WBind.

(** What [Listen] serves: the upgrade path, over TLS or not, with the verifier, and
    the limit [handle] sets on a pipe, where -1 is none. *)
Record served := mkServed { sv_path : string; sv_tls : bool; sv_verify : string -> option string; sv_readLimit : Z; sv_listener : wsListener }.

Definition readLimit (n : Z) : Z := if n =? 0 then -1 else n.

Definition wsListen (bind : string -> bool) (cfg : ListenConfig) : result listenErr served :=
  match lc_Verify cfg with
  | None => Err WNoVerify
  | Some verify =>
      let path := if String.eqb (lc_Path cfg) "" then DefaultPath else lc_Path cfg in
      if negb (bind (lc_Addr cfg)) then Err WBind else
      Ok (mkServed path (lc_TLS cfg) verify (readLimit (lc_ReadLimit cfg)) newWsListener)
  end.

(** ** The initiator *)

Record DialConfig := mkDial {
  d_URL : string;
  d_Token : string;
  d_TokenSource : option (option string);     (* what calling it gives, if there is one *)
  d_TLS : bool;                               (* whether it is set *)
  d_HandshakeTimeout : Z;
  d_ReadLimit : Z
}.

Inductive dialErr := DNoURL | DTokenSource | DUnauthorized | DFailed.

(** What [websocket.Dial] comes to for a URL, with or without a TLS configuration, an
    Authorization header and a timeout. *)
Inductive upgradeResult := UConn (c : nat) | U401 | UError.

Definition dialToken (cfg : DialConfig) : result dialErr string :=
  if String.eqb (d_Token cfg) "" then
    match d_TokenSource cfg with
    | None => Ok ""
    | Some None => Err DTokenSource
    | Some (Some t) => Ok t
    end
  else Ok (d_Token cfg).

Definition handshakeTimeout (cfg : DialConfig) : Z :=
  if d_HandshakeTimeout cfg <=? 0 then 30 * Second else d_HandshakeTimeout cfg.

(** [Dial]: the pipe, and the limit set on its messages. *)
Definition Dial (cfg : DialConfig) (upgrade : string -> bool -> option string -> Z -> upgradeResult) : result dialErr (nat * Z) :=
  if String.eqb (d_URL cfg) "" then Err DNoURL else
  match dialToken cfg with
  | Err e => Err e
  | Ok token =>
      let hdr := if String.eqb token "" then None else Some ("Bearer " +:+ token) in
      match upgrade (d_URL cfg) (d_TLS cfg) hdr (handshakeTimeout cfg) with
      | UConn c => Ok (c, readLimit (d_ReadLimit cfg))
      | U401 => Err DUnauthorized
      | UError => Err DFailed
      end
  end.

(** The value of the Authorization header the server sees, if the request is sent. *)
Definition received (hdr : option string) : option string := match hdr with None => Some "" | Some v => headerSent v end.

(** What [websocket.Dial] guarantees when the server at the URL is an acceptor of this
    carrier: a connection means that the server upgraded the request it got, status 401
    that it refused it. Anything else can happen to a request: the URL may not resolve,
    TLS or the network fail. *)
Class AcceptorAt (verify : string -> option string) (upgrade : string -> bool -> option string -> Z -> upgradeResult) : Prop := {
  up_conn url tls hdr tm c : upgrade url tls hdr tm = UConn c -> exists h id, received hdr = Some h /\ checkToken verify h = Ok id;
  up_401 url tls hdr tm : upgrade url tls hdr tm = U401 -> exists h e, received hdr = Some h /\ checkToken verify h = Err e
}.
End ws.

(** * Lemmas *)

Lemma firstToken_trimmed lines t : firstToken lines = Some t -> TrimSpace t = t /\ t <> "".
Proof.
  induction lines as [|line lines IH]; [done|]. cbn [firstToken].
  destruct (String.eqb_spec (TrimSpace line) ""); [exact IH|]. intros [= <-]. split; [apply TrimSpace_idem|done].
Qed.

Lemma readFirstToken_trimmed e path t : readFirstToken e path = Some t -> TrimSpace t = t /\ t <> "".
Proof. unfold readFirstToken. destruct (ReadFile e path); [apply firstToken_trimmed|done]. Qed.

Lemma tokenInDir_trimmed e d entries t : tokenInDir e d entries = Some t -> TrimSpace t = t /\ t <> "".
Proof.
  induction entries as [|[name []] entries IH]; [done|exact IH|]. cbn [tokenInDir].
  destruct (readFirstToken e _) as [t'|] eqn:E; [|done]. apply readFirstToken_trimmed in E.
  destruct (String.eqb t' ""); [done|]. by intros [= <-].
Qed.

Lemma tokenInDirs_trimmed e dirs t : tokenInDirs e dirs = Some t -> TrimSpace t = t /\ t <> "".
Proof.
  induction dirs as [|d dirs IH]; [done|]. cbn [tokenInDirs]. destruct (ReadDirEntries e d); [|done].
  destruct (tokenInDir e d _) as [t'|] eqn:E; [|done]. intros [= <-]. by eapply tokenInDir_trimmed.
Qed.

(** Whatever is discovered can be presented as it is. *)
Lemma discover_trimmed e t : DiscoverBearerToken e = Some t -> TrimSpace t = t /\ t <> "".
Proof.
  unfold DiscoverBearerToken. destruct (String.eqb_spec (TrimSpace (Getenv e "BEARER_TOKEN")) "") as [_|Hn]; cbn [negb].
  2: { intros [= <-]. split; [apply TrimSpace_idem|done]. }
  destruct (if String.eqb (Getenv e "BEARER_TOKEN_FILE") "" then None else _) as [t1|] eqn:E1.
  { intros [= <-]. revert E1. destruct (String.eqb (Getenv e "BEARER_TOKEN_FILE") ""); [done|]. apply readFirstToken_trimmed. }
  destruct (if String.eqb (Getenv e "XDG_RUNTIME_DIR") "" then None else _) as [t2|] eqn:E2.
  { intros [= <-]. revert E2. destruct (String.eqb (Getenv e "XDG_RUNTIME_DIR") ""); [done|]. apply readFirstToken_trimmed. }
  clear E1 E2. destruct (readFirstToken e _) as [t3|] eqn:E3; [intros [= <-]; by eapply readFirstToken_trimmed|].
  apply tokenInDirs_trimmed.
Qed.

Lemma string_snoc s : s <> "" -> exists s' c, s = s' +:+ String c "".
Proof.
  induction s as [|c s IH]; [done|]. intros _. destruct s as [|d s]; [by exists "", c|].
  destruct IH as (s' & c' & E); [done|]. exists (String c s'), c'. by rewrite E, string_app_cons.
Qed.

Lemma trimRightSet_snoc cut s c : has c cut = false -> trimRightSet cut (s +:+ String c "") = s +:+ String c "".
Proof.
  intros Hc. induction s as [|d s IH].
  - change ("" +:+ String c "") with (String c ""). cbn [trimRightSet]. by rewrite Hc.
  - rewrite string_app_cons. cbn [trimRightSet]. rewrite IH. by destruct s.
Qed.

Lemma chars_app s t : chars (s +:+ t) = (chars s ++ chars t)%list.
Proof. induction s as [|c s IH]; [done|]. rewrite string_app_cons. cbn. by rewrite IH. Qed.

Lemma blank_char_white c : has c (String TAB " ") = true -> white (String c "").
Proof.
  unfold has. cbn. intros [Hc%Ascii.eqb_eq|[Hc%Ascii.eqb_eq|]%orb_true_iff]%orb_true_iff; [..|done]; subst c;
    by apply blank_white.
Qed.

Lemma blank_sptab_char c : has c (String TAB " ") = true -> sptab c = true.
Proof.
  unfold has. cbn. intros [Hc%Ascii.eqb_eq|[Hc%Ascii.eqb_eq|]%orb_true_iff]%orb_true_iff; [..|done]; by subst c.
Qed.

Lemma trimRightSet_cut cut s c : has c cut = true -> trimRightSet cut (s +:+ String c "") = trimRightSet cut s.
Proof.
  intros Hc. induction s as [|d s IH].
  - change ("" +:+ String c "") with (String c ""). cbn [trimRightSet]. by rewrite Hc.
  - rewrite string_app_cons. cbn [trimRightSet]. by rewrite IH.
Qed.

Lemma trimRightSet_app cut a b : trimRightSet cut (a +:+ b) =
  if String.eqb (trimRightSet cut b) "" then trimRightSet cut a else a +:+ trimRightSet cut b.
Proof.
  induction a as [|c a IH].
  - change ("" +:+ b) with b. change ("" +:+ trimRightSet cut b) with (trimRightSet cut b). by destruct (String.eqb_spec (trimRightSet cut b) "") as [->|].
  - rewrite string_app_cons. cbn [trimRightSet]. rewrite IH. destruct (String.eqb_spec (trimRightSet cut b) "") as [|Hb]; [done|].
    rewrite string_app_cons. destruct (a +:+ trimRightSet cut b) eqn:E; [|done]. by destruct a; [destruct Hb|].
Qed.

Lemma TrimSpace_trimRightSet s : TrimSpace (trimRightSet (String TAB " ") s) = TrimSpace s.
Proof.
  remember (String.length s) as n eqn:Hn. revert s Hn. induction n as [|n IH]; intros s Hn; [by destruct s|].
  destruct (string_snoc s) as (s' & c & ->); [by intros ->|]. rewrite string_length_app in Hn. cbn in Hn.
  destruct (has c (String TAB " ")) eqn:Hc.
  - rewrite trimRightSet_cut by done. rewrite TrimSpace_sptab by (by apply blank_sptab_char). apply IH. lia.
  - by rewrite trimRightSet_snoc.
Qed.

(** [bearerToken] finds in the header what was put there, without the blanks around it. *)
Lemma bearerToken_received `{UnicodeLaws} t h : received (Some ("Bearer " +:+ t)) = Some h -> bearerToken h = TrimSpace t.
Proof.
  unfold received, headerSent. destruct (validHeaderValue _); [|done]. intros [= <-]. unfold Trim.
  change (trimLeftSet _ ("Bearer " +:+ t)) with ("Bearer " +:+ t). rewrite trimRightSet_app, <- (TrimSpace_trimRightSet t).
  set (u := trimRightSet _ t). destruct (String.eqb_spec u "") as [->|Hne]; [done|]. unfold bearerToken.
  change (stake _ ("Bearer " +:+ u)) with "Bearer ". change (sdrop _ ("Bearer " +:+ u)) with u.
  rewrite EqualFold_ascii, String.eqb_refl, andb_true_r by done. rewrite string_length_app.
  destruct u as [|c u]; [done|]. by rewrite (proj2 (Nat.ltb_lt _ _)) by (cbn; lia).
Qed.

(** The verifier's word on a token. *)
Definition accepts (verify : string -> option string) (t : string) : Prop := TrimSpace t <> "" /\ is_Some (verify (TrimSpace t)).

(** The header a token goes into. *)
Definition authHeader (t : string) : option string := if String.eqb t "" then None else Some ("Bearer " +:+ t).

Lemma checkToken_received `{UnicodeLaws} verify t h : received (authHeader t) = Some h ->
  bearerToken h = TrimSpace t /\ ((exists id, checkToken verify h = Ok id) <-> accepts verify t).
Proof.
  intros Hr. assert (bearerToken h = TrimSpace t) as Hb.
  { unfold authHeader in Hr. destruct (String.eqb_spec t "") as [->|]; [by injection Hr as <-|by apply bearerToken_received]. }
  split; [done|]. unfold checkToken, accepts. rewrite Hb. destruct (String.eqb_spec (TrimSpace t) ""); [split; [by intros [? ?]|by intros [? _]]|].
  destruct (verify (TrimSpace t)) as [id|]; split; [done|eauto|by intros [? ?]|by intros [_ [? ?]]].
Qed.

(** What a dial to an acceptor comes to. *)
Lemma Dial_token `{UnicodeLaws} cfg verify upgrade t : AcceptorAt verify upgrade -> d_URL cfg <> "" -> dialToken cfg = Ok t ->
  match Dial cfg upgrade with
  | Ok (c, limit) => accepts verify t /\ limit = readLimit (d_ReadLimit cfg)
      /\ upgrade (d_URL cfg) (d_TLS cfg) (authHeader t) (handshakeTimeout cfg) = UConn c
  | Err DUnauthorized => ~ accepts verify t
  | Err DFailed => upgrade (d_URL cfg) (d_TLS cfg) (authHeader t) (handshakeTimeout cfg) = UError
  | Err _ => False
  end.
Proof.
  intros Ha Hu%String.eqb_neq Hd. unfold Dial. rewrite Hu, Hd. fold (authHeader t).
  destruct (upgrade _ _ _ _) as [c| |] eqn:E; [..|done].
  - apply up_conn in E as (h & id & Hr & Hk). split; [|done]. eapply checkToken_received; eauto.
  - apply up_401 in E as (h & e & Hr & Hk). intros Hacc. apply (checkToken_received verify t h Hr) in Hacc as [id ?]. congruence.
Qed.

(** * Invariant of the listener *)

Record ws_inv `{Unicode} (verify : string -> option string) (es : list wsEvent) (l : wsListener) : Prop := {
  wi_nodup : NoDup (ws_accepted l);
  wi_known k : is_Some (ws_handlers l !! k) ->
    exists h id, EvRequest k h ∈ es /\ bearerToken h <> "" /\ verify (bearerToken h) = Some id;
  wi_offer k : ws_handlers l !! k = Some HOffer -> k ∉ ws_accepted l;
  wi_accepted k : k ∈ ws_accepted l -> is_Some (ws_handlers l !! k);
  wi_open k : k ∈ ws_open l -> ws_handlers l !! k = Some HOffer \/ ws_handlers l !! k = Some HHeld
}.

Lemma checkToken_Ok `{Unicode} verify h id : checkToken verify h = Ok id ->
  bearerToken h <> "" /\ verify (bearerToken h) = Some id.
Proof.
  unfold checkToken. destruct (String.eqb_spec (bearerToken h) ""); [done|].
  destruct (verify _); [|done]. by intros [= ->].
Qed.

Lemma wi_known_snoc `{Unicode} (verify : string -> option string) es e (P : nat -> Prop) :
  (forall k, P k -> exists h id, EvRequest k h ∈ es /\ bearerToken h <> "" /\ verify (bearerToken h) = Some id) ->
  forall k, P k -> exists h id, EvRequest k h ∈ (es ++ [e])%list /\ bearerToken h <> "" /\ verify (bearerToken h) = Some id.
Proof. intros HP k Hk. destruct (HP k Hk) as (h & id & ? & ?). exists h, id. split; [apply elem_of_app; by left|done]. Qed.

(** A handler that goes on from [g] to [g'], pipe [k] perhaps closed. *)
Lemma ws_step_inv `{Unicode} verify es l e l' : ws_inv verify es l -> ws_step verify l e l' -> ws_inv verify (es ++ [e]) l'.
Proof.
  intros [H1 H2 H3 H4 H5] Hst.
  destruct Hst as [l k h e _|l k h id Hc Hk|l k h id _|l k Hk|l k Hk|l k Hk Ho|l|l k g Hcl Hk Hg]; cbn in *.
  - split; [done|by apply wi_known_snoc|done..].
  - split; cbn; [done| | | |].
    + intros k' [?|Hk']%lookup_insert_is_Some'; [subst k'|by apply (wi_known_snoc _ _ _ _ H2)].
      apply checkToken_Ok in Hc. exists h, id. split; [apply elem_of_app; right; by left|done].
    + intros k' [[-> _]|[_ Hk']]%lookup_insert_Some; [|by apply H3]. intros Ha%H4. by rewrite Hk in Ha; destruct Ha.
    + intros k' Ha%H4. apply lookup_insert_is_Some'. by right.
    + intros k' [ ->%elem_of_singleton|Ho%H5]%elem_of_union; [left; apply lookup_insert_eq|].
      rewrite lookup_insert_ne; [done|]. intros ->. by rewrite Hk in Ho; destruct Ho.
  - split; [done|by apply wi_known_snoc|done..].
  - split; cbn.
    + apply list.NoDup_app. split; [done|]. split; [|apply NoDup_singleton].
      intros x Hx ->%list_elem_of_singleton. by apply (H3 k).
    + intros k' [?|Hk']%lookup_insert_is_Some'; [subst k'|]; apply (wi_known_snoc _ _ _ _ H2); eauto.
    + intros k' [[_ ?]|[Hne Hk']]%lookup_insert_Some; [done|]. intros [Ha| ->%list_elem_of_singleton]%elem_of_app; [|done].
      by apply (H3 k').
    + intros k' [Ha%H4| ->%list_elem_of_singleton]%elem_of_app; apply lookup_insert_is_Some'; [by right|by left].
    + intros k' Ho%H5. destruct (decide (k = k')) as [->|Hne]; [right; apply lookup_insert_eq|]. by rewrite lookup_insert_ne.
  - split; cbn; [done|by apply wi_known_snoc|done..|]. intros k' [Ho _]%elem_of_difference. by apply H5.
  - split; cbn; [done| | | |].
    + intros k' [?|Hk']%lookup_insert_is_Some'; [subst k'|]; apply (wi_known_snoc _ _ _ _ H2); eauto.
    + intros k' [[_ ?]|[Hne Hk']]%lookup_insert_Some; [done|]. by apply H3.
    + intros k' Ha%H4. apply lookup_insert_is_Some'. by right.
    + intros k' Hk'. rewrite lookup_insert_ne; [by apply H5|]. by intros ->.
  - split; cbn; [done|by apply wi_known_snoc|done..].
  - split; cbn; [done| | | |].
    + intros k' [?|Hk']%lookup_insert_is_Some'; [subst k'|]; apply (wi_known_snoc _ _ _ _ H2); eauto.
    + intros k' [[_ ?]|[Hne Hk']]%lookup_insert_Some; [done|]. by apply H3.
    + intros k' Ha%H4. apply lookup_insert_is_Some'. by right.
    + intros k' [Ho Hne]%elem_of_difference. rewrite lookup_insert_ne; [by apply H5|]. intros ->. by apply Hne, elem_of_singleton.
Qed.

Lemma ws_run_inv `{Unicode} verify es l : ws_run verify es l -> ws_inv verify es l.
Proof.
  induction 1 as [|es l e l' _ IH Hst]; [|by eapply ws_step_inv].
  split; cbn; [constructor|..]; try done.
  - by intros k [? ?].
  - by intros k ?%not_elem_of_nil.
Qed.

(** * Properties *)

(** C27: every pipe [Accept] returned came from a request whose bearer token the
    verifier accepted, and is returned once. A pipe stays open only under a handler
    that is still running, so no handler returns, which would tear the connection
    down, while its pipe is in use. *)
Theorem ws_admission `{Unicode} verify es l : ws_run verify es l ->
  NoDup (ws_accepted l)
  /\ (forall k, k ∈ ws_accepted l ->
       exists h identity, EvRequest k h ∈ es /\ bearerToken h <> "" /\ verify (bearerToken h) = Some identity)
  /\ (forall k, ws_handlers l !! k = Some HReturned -> k ∉ ws_open l)
  /\ (forall k, k ∈ ws_accepted l -> k ∈ ws_open l -> ws_handlers l !! k = Some HHeld).
Proof.
  intros [H1 H2 H3 H4 H5]%ws_run_inv. split; [done|]. split; [by intros k Hk%H4%H2|]. split.
  - intros k Hk Ho%H5. destruct Ho; congruence.
  - intros k Ha Ho%H5. destruct Ho as [Ho|Ho]; [|done]. by apply H3 in Ho.
Qed.

(** The acceptor verifies the token the initiator means, without the blanks around it.
    A dial that is not given a token and whose source fails does not reach it; one that
    succeeds has an accepted token, and one reported as unauthorized has not. *)
Theorem ws_dial_token `{UnicodeLaws} cfg verify upgrade : AcceptorAt verify upgrade -> d_URL cfg <> "" ->
  match dialToken cfg with
  | Err e => Dial cfg upgrade = Err e
  | Ok t => match Dial cfg upgrade with
            | Ok _ => accepts verify t
            | Err DUnauthorized => ~ accepts verify t
            | Err _ => True
            end
  end.
Proof.
  intros Ha Hu. destruct (dialToken cfg) as [t|e] eqn:E.
  - pose proof (Dial_token cfg verify upgrade t Ha Hu E) as Hd. destruct (Dial cfg upgrade) as [[c l]|[]]; naive_solver.
  - unfold Dial. apply String.eqb_neq in Hu. by rewrite Hu, E.
Qed.

(** A host whose token is in a file of the user's token directory. *)
Definition exHost : hostEnv := mkHost (fun _ => "")
  (fun p => if String.eqb p "/home/condor/.condor/tokens.d/pool" then Some (String LF "  eyJhbGciOi.x  ") else None)
  (fun d => if String.eqb d "/home/condor/.condor/tokens.d" then Some [("old", true); ("pool", false)] else None)
  64 (Some "/home/condor").

Definition exVerify (t : string) : option string := if String.eqb t "eyJhbGciOi.x" then Some "condor@pool" else None.

#[local] Instance asciiFold : Unicode := {
  ToLower := lowerASCII;
  EqualFold s t := String.eqb (lowerASCII s) (lowerASCII t)
}.

#[local] Instance asciiFold_laws : UnicodeLaws.
Proof. by split. Qed.

(** A server that is reached whenever the request can be sent. *)
Definition exUpgrade (verify : string -> option string) (c : nat) (_ : string) (_ : bool) (hdr : option string) (_ : Z) : upgradeResult :=
  match received hdr with
  | None => UError
  | Some h => match checkToken verify h with Ok _ => UConn c | Err _ => U401 end
  end.

#[export] Instance exUpgrade_at verify c : AcceptorAt verify (exUpgrade verify c).
Proof.
  split; intros *; unfold exUpgrade; (destruct (received hdr) as [h|]; [|done]); destruct (checkToken verify h) eqn:E; try done; eauto.
Qed.

Definition exDial : DialConfig := mkDial "wss://ccb.example.org/ccb/tunnel" "" (Some (DiscoverBearerToken exHost)) false 0 0.

Lemma ws_dial_token_witness : accepts exVerify "eyJhbGciOi.x".
Proof.
  assert (d_URL exDial <> "") as Hu by done. pose proof (ws_dial_token exDial exVerify (exUpgrade exVerify 5) _ Hu) as Hd.
  assert (dialToken exDial = Ok "eyJhbGciOi.x") as Et by (vm_compute; reflexivity). rewrite Et in Hd.
  assert (Dial exDial (exUpgrade exVerify 5) = Ok (5%nat, -1)) as E by (vm_compute; reflexivity). rewrite E in Hd. exact Hd.
Defined.

Definition exAccepted : wsListener := mkWs (<[0%nat := HHeld]> (<[0%nat := HOffer]> ∅)) ({[0%nat]} ∪ ∅) [0%nat] false.

Lemma exAccepted_run : ws_run exVerify [EvRequest 0 "bearer eyJhbGciOi.x"; EvAccept 0] exAccepted.
Proof.
  apply (ws_run_snoc exVerify [EvRequest 0 "bearer eyJhbGciOi.x"] (mkWs (<[0%nat := HOffer]> ∅) ({[0%nat]} ∪ ∅) [] false)).
  - apply (ws_run_snoc exVerify [] newWsListener); [constructor|].
    apply (ws_upgraded exVerify newWsListener 0 "bearer eyJhbGciOi.x" "condor@pool"); [vm_compute|]; reflexivity.
  - exact (ws_accept exVerify (mkWs (<[0%nat := HOffer]> ∅) ({[0%nat]} ∪ ∅) [] false) 0%nat eq_refl).
Qed.

Lemma ws_admission_witness : ws_handlers exAccepted !! 0%nat = Some HHeld.
Proof.
  apply (ws_admission exVerify _ exAccepted exAccepted_run); [by left|set_solver].
Defined.
