(* ===== verification/Carrier.v ===== *)
(** Carriers (carrier.go, transport/carrier/mux.go): the addresses that name one, the
    inside broker's shared session over a carrier pipe, and the multiplexing
    listener of the outside broker. *)

From stdpp Require Import base gmap list strings numbers.
From Stdlib Require Import ZArith Lia Ascii.
From S2P Require Import Prelude GoStr FsConfig WsCarrier.

#[local] Open Scope string_scope.

(** * Carrier addresses *)

Record carrierRef := mkRef { scheme : string; path : string; url : string; tls : bool }.

#[export] Instance carrierRef_eq_dec : EqDecision carrierRef.
Proof. solve_decision. Defined.

(** [parseCarrierRef]; [None] for an address that keeps the TCP path. *)
Definition parseCarrierRef (addr : string) : option carrierRef :=
  let addr := TrimSpace addr in
  if HasPrefix addr "fs:" then Some (mkRef "fs" (sdrop 3 addr) "" false) else
  if HasPrefix addr "wss://" then Some (mkRef "ws" "" addr true) else
  if HasPrefix addr "ws://" then Some (mkRef "ws" "" addr false) else None.

Definition isCarrier (addr : string) : bool :=
  match parseCarrierRef addr with Some _ => true | None => false end.

(** * The shared session of an inside broker *)

(** The pipes that are open and the yamux sessions that are alive, each under the
    pipe it runs over. *)
Record links := mkLinks { pipes : gset nat; sessions : gset nat }.

(** [carrierRef.fstunConfig]: defaults for everything but the root. *)
Definition fstunConfig (r : carrierRef) : Config := mkConfig (path r) 0 0 0 0 0 0 None 0 0 0 false 0 0.

(** [carrierClient]: what it dials with, and its current session. *)
Record carrierClient := mkClient {
  c_ref : carrierRef;
  c_token : string;
  c_tokenSource : option (option string);   (* what calling it gives *)
  c_clientTLS : bool;                       (* whether it is set *)
  c_md : option nat;
  c_done : bool
}.

Definition c_set (c : carrierClient) (md : option nat) (done : bool) : carrierClient :=
  mkClient (c_ref c) (c_token c) (c_tokenSource c) (c_clientTLS c) md done.

(** [newCarrierClient], given the fields of the configuration it takes. *)
Definition newCarrierClient (ref : carrierRef) (token : string) (tokenSource : option (option string)) (clientTLS : bool)
  : carrierClient := mkClient ref token tokenSource clientTLS None false.

(** What it dials a WebSocket with. *)
Definition wsConfig (c : carrierClient) : DialConfig := mkDial (url (c_ref c)) (c_token c) (c_tokenSource c) (c_clientTLS c) 0 0.

Inductive carrierErr := CClosed | CPipe | CUnknownScheme | CMux.

(** [MuxDialer.Close]: yamux closes the session and its connection. *)
Definition muxClose (p : nat) (w : links) : links := mkLinks (pipes w ∖ {[p]}) (sessions w ∖ {[p]}).

(** [carrierClient.dialPipe]; [fsDial] and [wsDial] are the dials of the transports. *)
Definition dialPipe (fsDial : Config -> option nat) (wsDial : DialConfig -> option nat) (c : carrierClient) : result carrierErr nat :=
  let got o := match o with Some p => Ok p | None => Err CPipe end in
  if String.eqb (scheme (c_ref c)) "fs" then got (fsDial (fstunConfig (c_ref c))) else
  if String.eqb (scheme (c_ref c)) "ws" then got (wsDial (wsConfig c)) else Err CUnknownScheme.

(** [carrierClient.session]; [muxOk] tells whether [NewMuxDialer] succeeds. *)
Definition establish (dialed : result carrierErr nat) (muxOk : bool) (c : carrierClient) (w : links)
  : result carrierErr nat * carrierClient * links :=
  match dialed with
  | Err e => (Err e, c, w)
  | Ok pipe =>
      let w := mkLinks ({[pipe]} ∪ pipes w) (sessions w) in
      if muxOk then
        (Ok pipe, c_set c (Some pipe) (c_done c), mkLinks (pipes w) ({[pipe]} ∪ sessions w))
      else (Err CMux, c, mkLinks (pipes w ∖ {[pipe]}) (sessions w))
  end.

Definition session (dialed : result carrierErr nat) (muxOk : bool) (c : carrierClient) (w : links)
  : result carrierErr nat * carrierClient * links :=
  if c_done c then (Err CClosed, c, w) else
  match c_md c with
  | Some md =>
      if decide (md ∈ sessions w) then (Ok md, c, w)
      else establish dialed muxOk (c_set c None (c_done c)) (muxClose md w)
  | None => establish dialed muxOk c w
  end.

(** [carrierClient.close]. *)
Definition closeClient (c : carrierClient) (w : links) : carrierClient * links :=
  match c_md c with
  | Some md => (c_set c None true, muxClose md w)
  | None => (c_set c None true, w)
  end.

(** Steps: calls of [session] and [close], one at a time under the mutex, and
    sessions that die, alone or with their pipes. *)
Inductive c_step : carrierClient * links -> carrierClient * links -> Prop :=
| c_session c w fsDial wsDial muxOk r c' w' :
    session (dialPipe fsDial wsDial c) muxOk c w = (r, c', w') -> c_step (c, w) (c', w')
| c_close c w : c_step (c, w) (closeClient c w)
| c_dies c w p : c_step (c, w) (c, mkLinks (pipes w) (sessions w ∖ {[p]}))
| c_breaks c w p : c_step (c, w) (c, muxClose p w).

(** * The listener of an outside broker *)

(** [acceptStreams] for one session: it waits for a stream, or offers one to
    [Accept]. *)
Inductive muxPhase := MAccept | MOffer (st : nat) | MReturned.

(** [MuxListener]: the goroutine and state of every session, the streams yamux
    returned, those [Accept] returned and those closed at shutdown. *)
Record muxListener := mkMux {
  m_phase : gmap nat muxPhase;
  m_alive : gset nat;
  m_taken : list nat;
  m_delivered : list nat;
  m_dropped : list nat;
  m_done : bool
}.

Definition newMuxListener : muxListener := mkMux ∅ ∅ [] [] [] false.

Inductive m_step : muxListener -> muxListener -> Prop :=
| m_pipe ph al tk dl dr d k : ph !! k = None ->
    m_step (mkMux ph al tk dl dr d) (mkMux (<[k := MAccept]> ph) ({[k]} ∪ al) tk dl dr d)
| m_stream ph al tk dl dr d k st : ph !! k = Some MAccept -> st ∉ tk ->
    m_step (mkMux ph al tk dl dr d) (mkMux (<[k := MOffer st]> ph) al (tk ++ [st]) dl dr d)
| m_died ph al tk dl dr d k : ph !! k = Some MAccept ->
    m_step (mkMux ph al tk dl dr d) (mkMux (<[k := MReturned]> ph) (al ∖ {[k]}) tk dl dr d)
| m_accept ph al tk dl dr d k st : ph !! k = Some (MOffer st) ->
    m_step (mkMux ph al tk dl dr d) (mkMux (<[k := MAccept]> ph) al tk (dl ++ [st]) dr d)
| m_shutdown ph al tk dl dr k st : ph !! k = Some (MOffer st) ->
    m_step (mkMux ph al tk dl dr true) (mkMux (<[k := MReturned]> ph) (al ∖ {[k]}) tk dl (dr ++ [st]) true)
| m_close ph al tk dl dr d : m_step (mkMux ph al tk dl dr d) (mkMux ph al tk dl dr true).

(** * Lemmas *)

(** The client's pipe is the only one open, and there is none once it is closed. *)
Definition c_inv (s : carrierClient * links) : Prop :=
  (forall p, p ∈ pipes s.2 -> c_md s.1 = Some p) /\ sessions s.2 ⊆ pipes s.2
  /\ (c_done s.1 = true -> c_md s.1 = None).

Lemma muxClose_inv p c w : c_inv (c, w) -> c_inv (c, muxClose p w).
Proof. intros (H1 & H2 & H3). cbn in *. split; [|split]; cbn; set_solver. Qed.

Lemma establish_inv dialed muxOk c w r c' w' : c_inv (c, w) -> pipes w = ∅ -> c_done c = false ->
  establish dialed muxOk c w = (r, c', w') -> c_inv (c', w') /\ c_ref c' = c_ref c
  /\ (forall p, r = Ok p -> c_md c' = Some p /\ p ∈ sessions w').
Proof.
  intros (H1 & H2 & H3) He Hd E. unfold establish in E. cbn in *. destruct dialed as [p|e]; [destruct muxOk|];
    injection E as <- <- <-; cbn.
  - split; [|split; [done|]]; [split; [|split]; cbn; [set_solver|set_solver|congruence]|]. intros q [= <-]. set_solver.
  - split; [|done]. split; [|split]; cbn; [set_solver|set_solver|done].
  - split; [done|]. done.
Qed.

Lemma session_inv dialed muxOk c w r c' w' : c_inv (c, w) -> session dialed muxOk c w = (r, c', w') ->
  c_inv (c', w') /\ c_ref c' = c_ref c /\ (forall p, r = Ok p -> c_md c' = Some p /\ p ∈ sessions w').
Proof.
  intros Hi. unfold session. destruct (c_done c) eqn:Hd; [intros [= <- <- <-]; done|].
  pose proof Hi as (H1 & H2 & H3). cbn in *. destruct (c_md c) as [md|] eqn:Hm.
  - destruct (decide _) as [Hin|Hn]; [intros [= <- <- <-]; split; [done|]; split; [done|]; by intros p [= <-]|].
    intros E. eapply (establish_inv _ _ (c_set c None false)) in E; [done| |cbn|done].
    + split; [|split]; cbn; [|set_solver|done]. intros p [Hp Hne]%elem_of_difference. apply H1 in Hp. set_solver.
    + apply set_eq. intros p. split; [|set_solver]. intros [Hp Hne]%elem_of_difference. apply H1 in Hp. set_solver.
  - apply establish_inv; [done| |done]. apply set_eq. intros p. split; [|set_solver]. by intros Hp%H1.
Qed.

Lemma establish_err dialed muxOk c w e c' w' : pipes w = ∅ -> establish dialed muxOk c w = (Err e, c', w') -> pipes w' = ∅.
Proof.
  intros He. unfold establish. destruct dialed as [p|]; [destruct muxOk|]; intros [= <- <- <-]; cbn; [|done]. set_solver.
Qed.

Lemma session_err dialed muxOk c w e c' w' : c_inv (c, w) -> session dialed muxOk c w = (Err e, c', w') -> pipes w' = ∅.
Proof.
  intros (H1 & H2 & H3). unfold session. cbn in *.
  assert (c_md c = None -> pipes w = ∅) as Hn.
  { intros Hm. apply set_eq. intros p. split; [|set_solver]. intros Hp%H1. congruence. }
  destruct (c_done c); [intros [= <- <- <-]; auto|]. destruct (c_md c) as [md|]; [|by apply establish_err, Hn].
  destruct (decide _); [done|]. apply establish_err. cbn. apply set_eq. intros p. split; [|set_solver].
  intros [Hp Hne]%elem_of_difference. apply H1 in Hp. set_solver.
Qed.

Lemma closeClient_inv c w : c_inv (c, w) -> c_inv (closeClient c w) /\ c_done (closeClient c w).1 = true.
Proof.
  intros (H1 & H2 & H3). unfold closeClient. cbn in *. destruct (c_md c) as [md|] eqn:Hm; cbn; (split; [|done]).
  - split; [|split]; cbn; [|set_solver|done]. intros p [Hp Hne]%elem_of_difference. apply H1 in Hp. set_solver.
  - split; [|split]; cbn; [|done|done]. by intros p Hp%H1.
Qed.

Lemma c_step_inv s s' : c_step s s' -> c_inv s -> c_inv s'.
Proof.
  intros [c w fsDial wsDial muxOk r c' w' E|c w|c w p|c w p] Hi;
    [by eapply session_inv in E as [? _]|by apply closeClient_inv| |by apply muxClose_inv].
  destruct Hi as (H1 & H2 & H3). split; [exact H1|]. split; [cbn in *; set_solver|exact H3].
Qed.

Lemma c_reachable ref tok src tls s : rtc c_step (newCarrierClient ref tok src tls, mkLinks ∅ ∅) s -> c_inv s.
Proof.
  intros Hr. assert (c_inv (newCarrierClient ref tok src tls, mkLinks ∅ ∅)) as Hi by (split; [|split]; cbn; [set_solver|done|done]).
  induction Hr as [|x y z Hst _ IH]; [done|]. apply IH. by eapply c_step_inv.
Qed.

(** ** Streams of the multiplexing listener *)

(** Streams: [out] left the listener, [tk] came in, the others are offered by one
    goroutine each. *)
Record st_inv (out tk : list nat) (ph : gmap nat muxPhase) : Prop := {
  si_nodup : NoDup out;
  si_taken st : st ∈ tk <-> st ∈ out \/ exists k, ph !! k = Some (MOffer st);
  si_offer k st : ph !! k = Some (MOffer st) -> st ∉ out;
  si_one k k' st : ph !! k = Some (MOffer st) -> ph !! k' = Some (MOffer st) -> k = k'
}.

Lemma st_keep out tk ph k g : st_inv out tk ph -> (forall st, ph !! k <> Some (MOffer st)) ->
  (forall st, g <> MOffer st) -> st_inv out tk (<[k := g]> ph).
Proof.
  intros [H1 H2 H3 H4] Hk Hg.
  assert (forall j st, <[k := g]> ph !! j = Some (MOffer st) <-> ph !! j = Some (MOffer st)) as E.
  { intros j st. destruct (decide (k = j)) as [<-|Hne]; [rewrite lookup_insert_eq|by rewrite lookup_insert_ne].
    split; [intros [= ->]; by destruct (Hg st)|intros Hj; by destruct (Hk st)]. }
  split; [done|..]; setoid_rewrite E; done.
Qed.

Lemma st_take out tk ph k st : st_inv out tk ph -> (forall st, ph !! k <> Some (MOffer st)) -> st ∉ tk ->
  st_inv out (tk ++ [st]) (<[k := MOffer st]> ph).
Proof.
  intros [H1 H2 H3 H4] Hk Hn. rewrite H2 in Hn.
  assert (forall j, ph !! j <> Some (MOffer st)) as Hnew by (intros j Hj; apply Hn; eauto).
  split; [done|..].
  - intros st'. rewrite elem_of_app, list_elem_of_singleton, H2. split.
    + intros [[?|(j & Hj)]| ->]; [by left|right; exists j|right; exists k; apply lookup_insert_eq].
      rewrite lookup_insert_ne; [done|]. intros ->. by apply Hk in Hj.
    + intros [?|(j & [[_ [= <-]]|[_ Hj]]%lookup_insert_Some)]; [tauto|by right|left; right; eauto].
  - intros j st' [[_ [= <-]]|[_ Hj]]%lookup_insert_Some; [|by eapply H3]. tauto.
  - intros j j' st' [[<- [= <-]]|[? Hj]]%lookup_insert_Some [[<- E]|[? Hj']]%lookup_insert_Some; [done|..].
    + by apply Hnew in Hj'.
    + injection E as <-. by apply Hnew in Hj.
    + by eapply H4.
Qed.

Lemma st_hand out out' tk ph k g st : st_inv out tk ph -> ph !! k = Some (MOffer st) -> (forall st, g <> MOffer st) ->
  out' ≡ₚ (out ++ [st])%list -> st_inv out' tk (<[k := g]> ph).
Proof.
  intros [H1 H2 H3 H4] Hk Hg Hp.
  assert (forall j st', <[k := g]> ph !! j = Some (MOffer st') <-> ph !! j = Some (MOffer st') /\ st' <> st) as E.
  { intros j st'. destruct (decide (k = j)) as [<-|Hne].
    - rewrite lookup_insert_eq, Hk. split; [intros [= ->]; by destruct (Hg st')|]. intros [[= ->] ?]. done.
    - rewrite lookup_insert_ne by done. split; [|tauto]. intros Hj. split; [done|]. intros ->. by apply Hne, (H4 k j st). }
  split.
  - rewrite Hp. apply list.NoDup_app. split; [done|]. split; [|apply NoDup_singleton].
    intros x Hx ->%list_elem_of_singleton. by apply (H3 k st).
  - intros st'. setoid_rewrite E. rewrite H2, Hp, elem_of_app, list_elem_of_singleton. split.
    + intros [?|(j & Hj)]; [tauto|]. destruct (decide (st' = st)); [tauto|right; eauto].
    + intros [[?| ->]|(j & Hj & _)]; [tauto|right; eauto..].
  - intros j st' [Hj Hne]%E. rewrite Hp, elem_of_app, list_elem_of_singleton. intros [?|?]; [by eapply H3|done].
  - intros j j' st' [Hj _]%E [Hj' _]%E. by eapply H4.
Qed.

Record m_inv (m : muxListener) : Prop := {
  mi_streams : st_inv (m_delivered m ++ m_dropped m) (m_taken m) (m_phase m);
  mi_alive k : k ∈ m_alive m <-> exists g, m_phase m !! k = Some g /\ g <> MReturned;
  mi_dropped : m_dropped m <> [] -> m_done m = true
}.

Lemma alive_to (ph : gmap nat muxPhase) (al al' : gset nat) k g :
  (forall j, j ∈ al <-> exists g, ph !! j = Some g /\ g <> MReturned) ->
  (forall j, j <> k -> j ∈ al' <-> j ∈ al) -> (k ∈ al' <-> g <> MReturned) ->
  forall j, j ∈ al' <-> exists g', <[k := g]> ph !! j = Some g' /\ g' <> MReturned.
Proof.
  intros H Ho Hk j. destruct (decide (k = j)) as [<-|Hne].
  - rewrite Hk, lookup_insert_eq. split; [eauto|]. by intros (g' & [= <-] & ?).
  - rewrite Ho, H, lookup_insert_ne by done. done.
Qed.

Lemma m_step_inv m m' : m_step m m' -> m_inv m -> m_inv m'.
Proof.
  intros Hst [H1 H2 H3]. destruct Hst as [ph al tk dl dr d k Hk|ph al tk dl dr d k st Hk Hn|ph al tk dl dr d k Hk
    |ph al tk dl dr d k st Hk|ph al tk dl dr k st Hk|ph al tk dl dr d]; cbn in *.
  - split; cbn; [apply st_keep; [done|congruence|done]| |done]. eapply alive_to; [done|set_solver|set_solver].
  - split; cbn; [apply st_take; [done|congruence|done]| |done].
    eapply alive_to; [done|done|]. rewrite H2. split; [done|eauto].
  - split; cbn; [apply st_keep; [done|congruence|done]| |done]. eapply alive_to; [done|set_solver|set_solver].
  - split; cbn; [eapply st_hand; [done|done|done|] | |done].
    + rewrite <- !app_assoc. apply Permutation_app_head, Permutation_app_comm.
    + eapply alive_to; [done|done|]. rewrite H2. split; [done|eauto].
  - split; cbn; [eapply st_hand; [done|done|done|by rewrite app_assoc]| |done].
    eapply alive_to; [done|set_solver|set_solver].
  - split; cbn; done.
Qed.

Lemma m_reachable m : rtc m_step newMuxListener m -> m_inv m.
Proof.
  intros Hr. assert (m_inv newMuxListener) as Hi.
  { split; cbn; [split; cbn; [constructor|..]|..]; try done.
    - intros st. split; [by intros ?%not_elem_of_nil|]. by intros [?%not_elem_of_nil|(k & ?)].
    - intros k. split; [set_solver|]. by intros (g & ? & _). }
  induction Hr as [|x y z Hst _ IH]; [done|]. apply IH. by eapply m_step_inv.
Qed.

(** * Properties *)

(** C28: an inside broker has one carrier pipe. Whatever sessions die and whenever
    [session] and [close] are called, every pipe that is open is the client's
    current one; [session] returns a live session over the only open pipe, or fails
    and leaves no pipe open; after [close] none is open. *)
Theorem carrier_one_pipe ref token source tls c w : rtc c_step (newCarrierClient ref token source tls, mkLinks ∅ ∅) (c, w) ->
  (forall p, p ∈ pipes w -> c_md c = Some p) /\ sessions w ⊆ pipes w /\ (c_done c = true -> pipes w = ∅)
  /\ forall fsDial wsDial muxOk r c' w', session (dialPipe fsDial wsDial c) muxOk c w = (r, c', w') ->
     match r with
     | Ok p => p ∈ sessions w' /\ c_md c' = Some p /\ pipes w' = {[p]}
     | Err _ => pipes w' = ∅
     end.
Proof.
  intros Hi%c_reachable. pose proof Hi as (H1 & H2 & H3). cbn in *.
  assert (c_done c = true -> pipes w = ∅) as Hd.
  { intros Hd%H3. apply set_eq. intros p. split; [|set_solver]. intros Hp%H1. congruence. }
  split; [done|]. split; [done|]. split; [done|]. intros fsDial wsDial muxOk r c' w' E. destruct r as [p|e].
  - apply session_inv in E as ((G1 & G2 & _) & _ & Hp); [|done]. destruct (Hp p eq_refl) as [Hm Hs]. cbn in *.
    split; [done|]. split; [done|]. apply set_eq. intros q. rewrite elem_of_singleton. split.
    + intros Hq%G1. congruence.
    + intros ->. set_solver.
  - by eapply session_err.
Qed.

Definition exRef : carrierRef := mkRef "fs" "/gpfs/ccb" "" false.

Definition exClient (md : option nat) : carrierClient := mkClient exRef "" None false md false.

(** Its first session, over pipe 1, died and a second one took its place. *)
Lemma exRedialed_reachable : rtc c_step (newCarrierClient exRef "" None false, mkLinks ∅ ∅)
  (exClient (Some 2%nat), mkLinks {[2%nat]} {[2%nat]}).
Proof.
  eapply rtc_l; [by eapply (c_session _ _ (fun _ => Some 1%nat) (fun _ => None) true)|].
  eapply rtc_l; [apply (c_dies _ _ 1%nat)|]. eapply rtc_l; [|apply rtc_refl].
  eapply (c_session _ _ (fun _ => Some 2%nat) (fun _ => None) true). vm_compute. reflexivity.
Qed.

Lemma carrier_one_pipe_witness :
  session (dialPipe (fun _ => None) (fun _ => None) (exClient (Some 2%nat))) true (exClient (Some 2%nat)) (mkLinks {[2%nat]} {[2%nat]})
    = (Ok 2%nat, exClient (Some 2%nat), mkLinks {[2%nat]} {[2%nat]})
  /\ c_md (exClient (Some 2%nat)) = Some 2%nat.
Proof.
  assert (session (dialPipe (fun _ => None) (fun _ => None) (exClient (Some 2%nat))) true (exClient (Some 2%nat)) (mkLinks {[2%nat]} {[2%nat]})
    = (Ok 2%nat, exClient (Some 2%nat), mkLinks {[2%nat]} {[2%nat]})) as E by (vm_compute; reflexivity).
  split; [exact E|].
  pose proof (carrier_one_pipe exRef _ _ _ _ _ exRedialed_reachable) as (_ & _ & _ & H).
  apply (H (fun _ => None) (fun _ => None) true _ _ _ E).
Defined.

(** The multiplexing listener passes every stream on once. Each stream yamux
    returned was delivered by [Accept], closed at shutdown, or is being offered by
    exactly one goroutine, never two of these; streams are closed only at shutdown;
    and a session is open exactly while its goroutine runs. *)
Theorem mux_streams m : rtc m_step newMuxListener m ->
  NoDup (m_delivered m ++ m_dropped m)
  /\ (forall st, st ∈ m_taken m <->
       st ∈ m_delivered m \/ st ∈ m_dropped m \/ exists k, m_phase m !! k = Some (MOffer st))
  /\ (forall k st, m_phase m !! k = Some (MOffer st) -> (st ∉ m_delivered m) /\ (st ∉ m_dropped m)
       /\ forall k', m_phase m !! k' = Some (MOffer st) -> k' = k)
  /\ (m_dropped m <> [] -> m_done m = true)
  /\ (forall k, k ∈ m_alive m <-> exists g, m_phase m !! k = Some g /\ g <> MReturned).
Proof.
  intros [[H1 H2 H3 H4] H5 H6]%m_reachable. split; [done|]. split; [|split; [|done]].
  - intros st. rewrite H2, elem_of_app. tauto.
  - intros k st Hk. pose proof (H3 _ _ Hk) as Hn. rewrite elem_of_app in Hn. split; [tauto|]. split; [tauto|].
    intros k' Hk'. by eapply H4.
Qed.

Lemma mux_streams_witness :
  NoDup (m_delivered (mkMux (<[0%nat := MAccept]> (<[0%nat := MOffer 7]> (<[0%nat := MAccept]> ∅))) ({[0%nat]} ∪ ∅) [7%nat] [7%nat] [] false)
         ++ []).
Proof.
  refine (proj1 (mux_streams (mkMux (<[0%nat := MAccept]> (<[0%nat := MOffer 7]> (<[0%nat := MAccept]> ∅)))
    ({[0%nat]} ∪ ∅) [7%nat] [7%nat] [] false) _)).
  eapply rtc_l; [by apply (m_pipe ∅ ∅ [] [] [] false 0%nat)|].
  eapply rtc_l; [apply (m_stream (<[0%nat := MAccept]> ∅) _ [] [] [] false 0%nat 7%nat); [done|by apply not_elem_of_nil]|].
  eapply rtc_l; [|apply rtc_refl].
  exact (m_accept (<[0%nat := MOffer 7]> (<[0%nat := MAccept]> ∅)) ({[0%nat]} ∪ ∅) [7%nat] [] [] false 0%nat 7%nat eq_refl).
Defined.
