(* ===== verification/Startup.v ===== *)
(** Putting a broker together: the configuration and [New] (server.go), the carrier
    it detects and listens on (carrier.go), its registration with an upstream broker
    and the readiness barrier (upstream.go), and the settings the daemon derives from
    its configuration file (cmd/golang-ccb/main.go). *)

From stdpp Require Import base gmap list strings numbers.
From Stdlib Require Import ZArith Lia Ascii.
From S2P Require Import Prelude GoStr FsConfig Contacts Reconnect Broker WsCarrier Carrier.

#[local] Open Scope string_scope.
#[local] Open Scope Z_scope.

(** * Configuration *)

Record UpstreamConfig := mkUpstream {
  u_BrokerAddr : string;
  u_Security : bool;              (* whether it is set *)
  u_HeartbeatInterval : Z;
  u_ReadyFile : string
}.

(** [Config]; of a pointer that is only passed on, whether it is set. *)
Record ServerConfig := mkConfig {
  PublicAddress : string;
  Security : bool;
  RequestTimeout : Z;
  TargetIdleTimeout : Z;
  Authorizer : option (string -> string -> string -> bool);
  HasReconnectStore : bool;
  ReconnectAllowAnyIP : bool;
  ReconnectTTL : Z;
  OutboundProxy : bool;
  OutboundTargetAllowlist : list string;
  OutboundNextHop : string;
  OutboundNextHopSecurity : bool;
  OutboundTTL : Z;
  Upstream : option UpstreamConfig;
  CarrierListen : string;
  CarrierTLS : bool;
  CarrierTokenVerify : option (string -> option string);
  CarrierClientTLS : bool;
  CarrierToken : string;
  CarrierTokenSource : option (option string)     (* what calling it gives *)
}.

(** The defaults [New] fills in. *)
Definition withDefaults (cfg : ServerConfig) : ServerConfig :=
  let dflt v d := if v =? 0 then d else v in
  mkConfig (PublicAddress cfg) (Security cfg) (dflt (RequestTimeout cfg) (60 * Second))
    (dflt (TargetIdleTimeout cfg) (3600 * Second)) (Authorizer cfg) (HasReconnectStore cfg) (ReconnectAllowAnyIP cfg)
    (dflt (ReconnectTTL cfg) (24 * 3600 * Second)) (OutboundProxy cfg) (OutboundTargetAllowlist cfg) (OutboundNextHop cfg)
    (OutboundNextHopSecurity cfg) (OutboundTTL cfg) (Upstream cfg) (CarrierListen cfg) (CarrierTLS cfg)
    (CarrierTokenVerify cfg) (CarrierClientTLS cfg) (CarrierToken cfg) (CarrierTokenSource cfg).

(** What the command handlers consult. *)
Definition handlerConfig (cfg : ServerConfig) : BrokerConfig :=
  mkBConfig (PublicAddress cfg) (Authorizer cfg) (ReconnectAllowAnyIP cfg) (ReconnectTTL cfg) (OutboundProxy cfg)
    (match Upstream cfg with Some _ => true | None => false end).

(** * The carrier *)

Inductive newErr :=
| NPublicAddress | NSecurity | NCarriers (a b : carrierRef) | NNextHopSecurity | NSelfLoop (hop : string) | NUpstream | NLoad.

(** [Server.detectCarrier]: the carrier both knobs name, if any does. *)
Definition carrierRefs (cfg : ServerConfig) : list carrierRef :=
  (match Upstream cfg with
   | Some up => match parseCarrierRef (u_BrokerAddr up) with Some r => [r] | None => [] end
   | None => []
   end ++ match parseCarrierRef (OutboundNextHop cfg) with Some r => [r] | None => [] end)%list.

(** The client [newCarrierClient] makes of this configuration. *)
Definition carrierFor (cfg : ServerConfig) (ref : carrierRef) : carrierClient :=
  newCarrierClient ref (CarrierToken cfg) (CarrierTokenSource cfg) (CarrierClientTLS cfg).

Definition detectCarrier (cfg : ServerConfig) : result newErr (option carrierClient) :=
  match carrierRefs cfg with
  | [] => Ok None
  | r0 :: rest =>
      match List.find (fun r => bool_decide (r <> r0)) rest with
      | Some r => Err (NCarriers r0 r)
      | None => Ok (Some (carrierFor cfg r0))
      end
  end.

Inductive listenErr := LVerify | LBadURL | LTLS | LUnknownScheme | LInner.

(** The pre-yamux listener and how it serves. *)
Inductive carrierListener := LFs (c : Config) | LWs (addr : string) (s : served).

(** [Server.carrierNetListener]; [parseURL] is [url.Parse], giving host and path, and
    [fsListen] tells whether [fstun.Listen] succeeds and [bind] which addresses
    [wscarrier.Listen] gets. *)
Definition carrierNetListener (parseURL : string -> option (string * string)) (fsListen : Config -> bool) (bind : string -> bool)
    (cfg : ServerConfig) (ref : carrierRef) : result listenErr carrierListener :=
  if String.eqb (scheme ref) "fs" then (if fsListen (fstunConfig ref) then Ok (LFs (fstunConfig ref)) else Err LInner) else
  if String.eqb (scheme ref) "ws" then
    match CarrierTokenVerify cfg with
    | None => Err LVerify
    | Some verify =>
        match parseURL (url ref) with
        | None => Err LBadURL
        | Some (host, p) =>
            if tls ref && negb (CarrierTLS cfg) then Err LTLS
            else match wsListen bind (mkListen host p (CarrierTLS cfg) (Some verify) 0) with
                 | Ok s => Ok (LWs host s)
                 | Err _ => Err LInner
                 end
        end
    end
  else Err LUnknownScheme.

(** * [New] *)

(** How the broker reaches outbound targets: a next hop is dialed over the carrier
    or over TCP. *)
Inductive outboundKind := OutDirect | OutNextHop (broker : string) (overCarrier : bool).

Record broker := mkBroker {
  k_cfg : ServerConfig;
  k_state : Server;
  k_carrier : option carrierClient;
  k_outbound : outboundKind;
  k_commands : list (command * list string)
}.

(** [Server.RegisterOn]. *)
Definition RegisterOn (cfg : ServerConfig) : list (command * list string) :=
  ([(CommandRegister, ["DAEMON"; "ADVERTISE_STARTD"; "ADVERTISE_SCHEDD"; "ADVERTISE_MASTER"]);
    (CommandRequest, ["READ"]); (CommandReverseConnect, [])]
   ++ (if OutboundProxy cfg then [(CommandProxyConnect, ["DAEMON"])] else [])
   ++ match Upstream cfg with Some _ => [(CommandGetTunnelAddress, ["DAEMON"])] | None => [] end)%list.

(** Whether the next hop is this broker itself. *)
Definition selfLoop (cfg : ServerConfig) : bool :=
  negb (isCarrier (OutboundNextHop cfg))
  && (let hop := Trim (OutboundNextHop cfg) "<>" in
      String.eqb hop (PublicAddress cfg) || String.eqb hop (proxyAddrSinful (PublicAddress cfg))).

(** The transport, once the carrier is known. *)
Definition chooseOutbound (cfg : ServerConfig) (cc : option carrierClient) : result newErr outboundKind :=
  if String.eqb (OutboundNextHop cfg) "" then Ok OutDirect else
  if negb (OutboundNextHopSecurity cfg) then Err NNextHopSecurity else
  if selfLoop cfg then Err (NSelfLoop (OutboundNextHop cfg)) else
  Ok (OutNextHop (OutboundNextHop cfg)
        (match cc with Some _ => isCarrier (OutboundNextHop cfg) | None => false end)).

Definition checkUpstream (cfg : ServerConfig) : result newErr unit :=
  match Upstream cfg with
  | Some up => if String.eqb (u_BrokerAddr up) "" || negb (u_Security up) then Err NUpstream else Ok tt
  | None => Ok tt
  end.

(** [load] is what the store's [Load] returns. *)
Definition New (cfg : ServerConfig) (load : option (list ReconnectRecord)) : result newErr broker :=
  if String.eqb (PublicAddress cfg) "" then Err NPublicAddress else
  if negb (Security cfg) then Err NSecurity else
  let cfg := withDefaults cfg in
  res_bind (detectCarrier cfg) (fun cc =>
  res_bind (chooseOutbound cfg cc) (fun out =>
  res_bind (checkUpstream cfg) (fun _ =>
  match (if HasReconnectStore cfg then load else Some []) with
  | None => Err NLoad
  | Some recs => Ok (mkBroker cfg (loadReconnects recs) cc out (RegisterOn cfg))
  end))).

(** [Server.startUpstream]: whether the registration goes over the carrier. *)
Definition upstreamOverCarrier (b : broker) : bool :=
  match k_carrier b, Upstream (k_cfg b) with
  | Some _, Some up => isCarrier (u_BrokerAddr up)
  | _, _ => false
  end.

(** * The daemon *)

(** [isWSCarrier]. *)
Definition isWSCarrier (addr : string) : bool := HasPrefix addr "ws://" || HasPrefix addr "wss://".

(** A listener's address: a TCP one prints as host and port. *)
Inductive listenAddr := TCPAddr (hostPort : string) | UnixAddr.

(** What the daemon gets from its configuration file ([get]), flags, files and
    libraries. *)
Record daemonEnv := mkDaemon {
  get : string -> option string;
  publicFlag : string;
  listenExplicit : bool;
  adoptedListener : bool;
  commandListener : option listenAddr;          (* [Daemon.Listener] *)
  publicListener : option listenAddr;           (* [net.Listen] on the flag *)
  advertisedSinful : option string;
  serverSecurity : bool;                        (* [ServerSecurityConfig] succeeds *)
  clientSecurity : bool;                        (* [GetSecurityConfig] succeeds *)
  sharedStore : bool;
  openStore : bool;                             (* [OpenSharedReconnectStore] succeeds *)
  splitBrokerList : string -> list string;
  loadKeyPair : string -> string -> bool;
  readCAFile : string -> option bool;           (* whether certificates were found *)
  bearerVerifier : string -> option string;
  discoverToken : option string;
  authorizer : string -> string -> string -> bool
}.

Inductive runErr :=
| UListen | UBind | UNoAddress | USecurity | UStore | UNextHopSecurity | UNoCert | UKeyPair | UCAFile.

Section daemon.
Context `{Unicode} (e : daemonEnv).

Definition knob (key : string) : string := default "" (get e key).

(** [configBool]. *)
Definition configBool (key : string) (def : bool) : bool :=
  match get e key with
  | None => def
  | Some v =>
      let v := ToLower (TrimSpace v) in
      if bool_decide (v ∈ ["true"; "t"; "yes"; "y"; "1"]) then true else
      if bool_decide (v ∈ ["false"; "f"; "no"; "n"; "0"]) then false else def
  end.

Record carrierSettings := mkSettings {
  cs_listen : string;
  cs_tls : bool;
  cs_verify : option (string -> option string);
  cs_clientTLS : bool;
  cs_token : string;
  cs_tokenSource : option (option string)
}.

(** The listener side of [buildCarrierSettings]. *)
Definition listenSettings (listen : string) : result runErr (bool * option (string -> option string)) :=
  if isWSCarrier listen then
    if HasPrefix listen "wss://" then
      let certFile := knob "CCB_CARRIER_TLS_CERT" in
      let keyFile := knob "CCB_CARRIER_TLS_KEY" in
      if String.eqb certFile "" || String.eqb keyFile "" then Err UNoCert else
      if loadKeyPair e certFile keyFile then Ok (true, Some (bearerVerifier e)) else Err UKeyPair
    else Ok (false, Some (bearerVerifier e))
  else Ok (false, None).

(** Its client side: token, token source and whether a CA bundle is configured. *)
Definition clientSettings (outboundNextHop : string) (upstream : option UpstreamConfig)
  : result runErr (string * option (option string) * bool) :=
  if isWSCarrier outboundNextHop || match upstream with Some up => isWSCarrier (u_BrokerAddr up) | None => false end then
    let tok := knob "CCB_CARRIER_TOKEN" in
    let source := if String.eqb tok "" then Some (discoverToken e) else None in
    let caFile := knob "CCB_CARRIER_CA_FILE" in
    if String.eqb caFile "" then Ok (tok, source, false) else
    match readCAFile e caFile with
    | Some true => Ok (tok, source, true)
    | _ => Err UCAFile
    end
  else Ok ("", None, false).

Definition buildCarrierSettings (outboundNextHop : string) (upstream : option UpstreamConfig)
  : result runErr carrierSettings :=
  let listen := knob "CCB_CARRIER_LISTEN" in
  res_bind (listenSettings listen) (fun '(t, v) =>
  res_bind (clientSettings outboundNextHop upstream) (fun '(tok, src, ctls) =>
  Ok (mkSettings listen t v ctls tok src))).

(** The address [run] advertises. *)
Definition publicAddress : result runErr string :=
  match commandListener e with
  | None => Err UListen
  | Some ln =>
      res_bind (if adoptedListener e && listenExplicit e then
                  match publicListener e with Some l => Ok l | None => Err UBind end
                else Ok ln) (fun directLn =>
      if String.eqb (publicFlag e) "" then
        match directLn, advertisedSinful e with
        | TCPAddr a, _ => Ok a
        | UnixAddr, Some sinful => Ok sinful
        | UnixAddr, None => Err UNoAddress
        end
      else Ok (publicFlag e))
  end.

(** The next hop and the upstream registration that goes with it. *)
Definition nextHop : result runErr (string * bool * option UpstreamConfig) :=
  let hop := knob "CCB_OUTBOUND_NEXT_HOP" in
  if String.eqb hop "" then Ok ("", false, None) else
  if clientSecurity e then Ok (hop, true, Some (mkUpstream hop true 0 (knob "CCB_TUNNEL_READY_FILE")))
  else Err UNextHopSecurity.

(** [run] and [newBroker], up to the call of [New]. *)
Definition daemonConfig : result runErr ServerConfig :=
  res_bind publicAddress (fun pub =>
  if negb (serverSecurity e) then Err USecurity else
  if sharedStore e && negb (openStore e) then Err UStore else
  res_bind nextHop (fun '(hop, hopSec, upstream) =>
  res_bind (buildCarrierSettings hop upstream) (fun cc =>
  Ok (mkConfig pub true 0 0 (Some (authorizer e)) (sharedStore e)
        (configBool "CCB_RECONNECT_ALLOWED_FROM_ANY_IP" false) 0 (configBool "CCB_OUTBOUND_PROXY" false)
        (match get e "CCB_OUTBOUND_TARGET_ALLOWLIST" with Some v => splitBrokerList e v | None => [] end)
        hop hopSec 0 upstream (cs_listen cc) (cs_tls cc) (cs_verify cc) (cs_clientTLS cc) (cs_token cc) (cs_tokenSource cc))))).
End daemon.

(** * Lemmas *)

Lemma withDefaults_keeps cfg : carrierRefs (withDefaults cfg) = carrierRefs cfg /\ selfLoop (withDefaults cfg) = selfLoop cfg
  /\ checkUpstream (withDefaults cfg) = checkUpstream cfg.
Proof. done. Qed.

Lemma detectCarrier_Ok cfg cc : detectCarrier cfg = Ok cc <->
  (forall r r', r ∈ carrierRefs cfg -> r' ∈ carrierRefs cfg -> r = r') /\ cc = carrierFor cfg <$> head (carrierRefs cfg).
Proof.
  unfold detectCarrier. destruct (carrierRefs cfg) as [|r0 rest]; cbn.
  - split; [intros [= <-]; split; [by intros ? ? ?%not_elem_of_nil|done]|]. by intros [_ ->].
  - destruct (List.find _ rest) as [r|] eqn:E.
    + apply find_some in E as [Hin%list_elem_of_In Hne%bool_decide_eq_true]. split; [done|]. intros [H _].
      exfalso. apply Hne, H; [by right|by left].
    + assert (forall r, r ∈ r0 :: rest -> r = r0) as Hall.
      { intros r [->|Hin%list_elem_of_In]%elem_of_cons; [done|].
        apply (find_none _ _ E) in Hin. apply bool_decide_eq_false in Hin. by apply dec_stable. }
      split; [intros [= <-]; split; [|done]|by intros [_ ->]].
      intros r r' ->%Hall ->%Hall. done.
Qed.

(** Every carrier a knob names is in the list. *)
Lemma carrierRefs_hop cfg r : parseCarrierRef (OutboundNextHop cfg) = Some r -> r ∈ carrierRefs cfg.
Proof. intros E. unfold carrierRefs. rewrite E. apply elem_of_app. right. by left. Qed.

Lemma carrierRefs_upstream cfg up r : Upstream cfg = Some up -> parseCarrierRef (u_BrokerAddr up) = Some r -> r ∈ carrierRefs cfg.
Proof. intros E1 E2. unfold carrierRefs. rewrite E1, E2. apply elem_of_app. left. by left. Qed.

Lemma checkUpstream_Ok cfg : checkUpstream cfg = Ok tt <->
  forall up, Upstream cfg = Some up -> u_BrokerAddr up <> "" /\ u_Security up = true.
Proof.
  unfold checkUpstream. destruct (Upstream cfg) as [up|]; [|by split].
  destruct (String.eqb_spec (u_BrokerAddr up) "") as [E|E]; cbn.
  - split; [done|]. intros H. by destruct (H up eq_refl).
  - destruct (u_Security up) eqn:Es; cbn; (split; [|done || (intros H; destruct (H up eq_refl); congruence)]); [|done].
    by intros _ up' [= <-].
Qed.

Lemma chooseOutbound_Ok cfg cc out : chooseOutbound cfg cc = Ok out <->
  (OutboundNextHop cfg <> "" -> OutboundNextHopSecurity cfg = true /\ selfLoop cfg = false)
  /\ out = if String.eqb (OutboundNextHop cfg) "" then OutDirect
           else OutNextHop (OutboundNextHop cfg) (match cc with Some _ => isCarrier (OutboundNextHop cfg) | None => false end).
Proof.
  unfold chooseOutbound. destruct (String.eqb_spec (OutboundNextHop cfg) "") as [E|E].
  - split; [intros [= <-]; by split|]. by intros [_ ->].
  - destruct (OutboundNextHopSecurity cfg); cbn; [destruct (selfLoop cfg)|].
    + split; [done|]. intros [H _]. by destruct (H E).
    + split; [intros [= <-]; by split|]. by intros [_ ->].
    + split; [done|]. intros [H _]. by destruct (H E).
Qed.

Lemma New_Ok cfg load b : New cfg load = Ok b <->
  PublicAddress cfg <> "" /\ Security cfg = true
  /\ exists cc out recs, detectCarrier cfg = Ok cc /\ chooseOutbound cfg cc = Ok out /\ checkUpstream cfg = Ok tt
     /\ (if HasReconnectStore cfg then load else Some []) = Some recs
     /\ b = mkBroker (withDefaults cfg) (loadReconnects recs) cc out (RegisterOn cfg).
Proof.
  unfold New. change (detectCarrier (withDefaults cfg)) with (detectCarrier cfg).
  change (checkUpstream (withDefaults cfg)) with (checkUpstream cfg).
  destruct (String.eqb_spec (PublicAddress cfg) "") as [E|E]; [split; [done|tauto]|].
  destruct (Security cfg); cbn [negb]; [|split; [done|]; by intros (_ & ? & _)].
  destruct (detectCarrier cfg) as [cc|err]; cbn; [|split; [done|]; by intros (_ & _ & ? & ? & ? & ? & _)].
  change (chooseOutbound (withDefaults cfg) cc) with (chooseOutbound cfg cc).
  destruct (chooseOutbound cfg cc) as [out|err] eqn:Eo; cbn.
  2: { split; [done|]. intros (_ & _ & cc' & out' & ? & [= <-] & Eo' & _). congruence. }
  destruct (checkUpstream cfg) as [[]|err] eqn:Eu; cbn; [|split; [done|]; by intros (_ & _ & ? & ? & ? & ? & ? & ? & _)].
  destruct (if HasReconnectStore cfg then load else Some []) as [recs|].
  - split; [intros [= <-]; split; [done|]; split; [done|]; by exists cc, out, recs|].
    intros (_ & _ & cc' & out' & recs' & [= <-] & Eo' & _ & [= <-] & ->). rewrite Eo in Eo'. by injection Eo' as ->.
  - split; [done|]. by intros (_ & _ & ? & ? & ? & _ & _ & _ & ? & _).
Qed.

(** The carrier client [New] keeps is the one for the carrier either knob names. *)
Lemma New_carrier cfg load b r : New cfg load = Ok b -> r ∈ carrierRefs cfg -> c_ref <$> k_carrier b = Some r.
Proof.
  intros (_ & _ & cc & out & recs & Hd & _ & _ & _ & ->)%New_Ok Hr. apply detectCarrier_Ok in Hd as [Hall ->]. cbn.
  destruct (carrierRefs cfg) as [|r0 rest] eqn:E; [by apply not_elem_of_nil in Hr|]. cbn. f_equal.
  apply Hall; [by left|done].
Qed.

(** * Properties *)

(** [New] succeeds exactly on a consistent configuration: address and security
    set, no two different carriers, a next hop that has credentials and is not this
    broker, complete upstream settings and a store that loads. The broker then has
    no zero time-out; it holds a client for the carrier its knobs name and reaches a
    carrier next hop or upstream over that carrier and nothing else; and each
    command is registered with the levels its handler authorizes against. *)
Theorem New_spec cfg load :
  ((exists b, New cfg load = Ok b) <->
     PublicAddress cfg <> "" /\ Security cfg = true
     /\ (forall r r', r ∈ carrierRefs cfg -> r' ∈ carrierRefs cfg -> r = r')
     /\ (OutboundNextHop cfg <> "" -> OutboundNextHopSecurity cfg = true /\ selfLoop cfg = false)
     /\ (forall up, Upstream cfg = Some up -> u_BrokerAddr up <> "" /\ u_Security up = true)
     /\ (HasReconnectStore cfg = true -> load <> None))
  /\ forall b, New cfg load = Ok b ->
     RequestTimeout (k_cfg b) <> 0 /\ TargetIdleTimeout (k_cfg b) <> 0 /\ ReconnectTTL (k_cfg b) <> 0
     /\ (forall r, parseCarrierRef (OutboundNextHop cfg) = Some r ->
          k_outbound b = OutNextHop (OutboundNextHop cfg) true /\ c_ref <$> k_carrier b = Some r)
     /\ (forall up r, Upstream cfg = Some up -> parseCarrierRef (u_BrokerAddr up) = Some r ->
          upstreamOverCarrier b = true /\ c_ref <$> k_carrier b = Some r)
     /\ (forall cmd perms, (cmd, perms) ∈ k_commands b -> perms = commandPerms (handlerConfig (k_cfg b)) cmd).
Proof.
  split.
  - split.
    + intros (b & (Ha & Hs & cc & out & recs & Hd & Ho & Hu & Hl & _)%New_Ok). split; [done|]. split; [done|].
      apply detectCarrier_Ok in Hd as [Hd _]. apply chooseOutbound_Ok in Ho as [Ho _].
      split; [done|]. split; [done|]. split; [by apply checkUpstream_Ok|]. intros Hst. rewrite Hst in Hl. congruence.
    + intros (Ha & Hs & Hd & Ho & Hu & Hl). eexists. apply New_Ok. split; [done|]. split; [done|].
      eexists (carrierFor cfg <$> head (carrierRefs cfg)), _, (default [] (if HasReconnectStore cfg then load else Some [])). split; [by apply detectCarrier_Ok|].
      split; [by apply chooseOutbound_Ok|]. split; [by apply checkUpstream_Ok|]. split; [|reflexivity].
      destruct (HasReconnectStore cfg); [|done]. destruct load as [recs|]; [done|by destruct (Hl eq_refl)].
  - intros b Hb. pose proof Hb as (_ & _ & cc & out & recs & Hd & Ho & _ & _ & Eb)%New_Ok.
    assert (forall v d, d <> 0 -> (if v =? 0 then d else v) <> 0) as Hdf by (intros v d Hd'; destruct (Z.eqb_spec v 0); lia).
    rewrite Eb. cbn -[commandPerms RegisterOn]. split; [by apply Hdf|]. split; [by apply Hdf|]. split; [by apply Hdf|]. split; [|split].
    + intros r Er. pose proof (New_carrier _ _ _ _ Hb (carrierRefs_hop _ _ Er)) as Hc. rewrite Eb in Hc. cbn in Hc.
      split; [|done]. apply chooseOutbound_Ok in Ho as [_ ->]. destruct cc as [c|]; [|done].
      destruct (String.eqb_spec (OutboundNextHop cfg) "") as [E|E]; [by rewrite E in Er|]. unfold isCarrier. by rewrite Er.
    + intros up r Hup Er. pose proof (New_carrier _ _ _ _ Hb (carrierRefs_upstream _ _ _ Hup Er)) as Hc.
      rewrite Eb in Hc. cbn in Hc. split; [|done]. destruct cc as [c|]; [|done]. unfold upstreamOverCarrier, isCarrier. cbn. by rewrite Hup, Er.
    + intros cmd perms. unfold RegisterOn. cbn [withDefaults OutboundProxy Upstream].
      destruct (OutboundProxy cfg) eqn:Ep, (Upstream cfg) eqn:Eu; cbn [app]; rewrite ?elem_of_cons, elem_of_nil;
        intros Hin; unfold commandPerms, handlerConfig; cbn; rewrite ?Ep, ?Eu; naive_solver.
Qed.

(** The two tests for a WebSocket address agree on one without blanks around it. *)
Lemma parseCarrierRef_ws addr ref : TrimSpace addr = addr -> parseCarrierRef addr = Some ref ->
  (scheme ref = "fs" /\ isWSCarrier addr = false)
  \/ (scheme ref = "ws" /\ isWSCarrier addr = true /\ tls ref = HasPrefix addr "wss://").
Proof.
  unfold parseCarrierRef, isWSCarrier. intros ->. destruct (HasPrefix addr "fs:") eqn:Ef.
  - intros [= <-]. left. split; [done|]. destruct addr as [|c addr]; [done|]. cbn [HasPrefix] in Ef |- *.
    destruct (Ascii.eqb_spec "f" c) as [<-|]; [reflexivity|discriminate].
  - destruct (HasPrefix addr "wss://") eqn:Ew; [intros [= <-]; right; by rewrite orb_true_r|].
    destruct (HasPrefix addr "ws://") eqn:Es; [intros [= <-]; by right|done].
Qed.

Lemma daemonConfig_Ok `{Unicode} e cfg : daemonConfig e = Ok cfg -> exists hopSec cc,
  nextHop e = Ok (OutboundNextHop cfg, hopSec, Upstream cfg)
  /\ buildCarrierSettings e (OutboundNextHop cfg) (Upstream cfg) = Ok cc
  /\ OutboundNextHopSecurity cfg = hopSec /\ Security cfg = true /\ CarrierListen cfg = cs_listen cc
  /\ CarrierTLS cfg = cs_tls cc /\ CarrierTokenVerify cfg = cs_verify cc
  /\ CarrierToken cfg = cs_token cc /\ CarrierTokenSource cfg = cs_tokenSource cc.
Proof.
  unfold daemonConfig. destruct (publicAddress e) as [pub|]; cbn; [|done].
  destruct (negb (serverSecurity e)); [done|]. destruct (sharedStore e && _); [done|].
  destruct (nextHop e) as [[[hop hopSec] up]|]; cbn; [|done].
  destruct (buildCarrierSettings e hop up) as [cc|] eqn:Ec; cbn; [|done]. intros [= <-]. cbn. by exists hopSec, cc.
Qed.

Lemma settings_listen e hop up cc : buildCarrierSettings e hop up = Ok cc ->
  listenSettings e (cs_listen cc) = Ok (cs_tls cc, cs_verify cc)
  /\ clientSettings e hop up = Ok (cs_token cc, cs_tokenSource cc, cs_clientTLS cc).
Proof.
  unfold buildCarrierSettings. destruct (listenSettings e _) as [[t v]|] eqn:El; cbn; [|done].
  destruct (clientSettings e hop up) as [[[tok src] ctls]|] eqn:Ec; cbn; [|done]. by intros [= <-].
Qed.

Lemma listenSettings_ws e listen t v : listenSettings e listen = Ok (t, v) -> isWSCarrier listen = true ->
  v = Some (bearerVerifier e) /\ t = HasPrefix listen "wss://".
Proof.
  unfold listenSettings. intros E Hw. rewrite Hw in E. destruct (HasPrefix listen "wss://"); [|by injection E as <- <-].
  destruct (_ || _); [done|]. destruct (loadKeyPair _ _ _); [by injection E as <- <-|done].
Qed.

Lemma clientSettings_ws e hop up tok src ctls : clientSettings e hop up = Ok (tok, src, ctls) -> isWSCarrier hop = true ->
  tok <> "" \/ src = Some (discoverToken e).
Proof.
  unfold clientSettings. intros E Hw. rewrite Hw in E. cbn [orb] in E.
  destruct (String.eqb_spec (knob e "CCB_CARRIER_TOKEN") "") as [Et|Et].
  - right. destruct (String.eqb _ ""); [by injection E as <- <- <-|]. destruct (readCAFile e _) as [[]|]; [|done..].
    by injection E as <- <- <-.
  - left. destruct (String.eqb _ ""); [by injection E as <- <- <-|]. destruct (readCAFile e _) as [[]|]; [|done..].
    by injection E as <- <- <-.
Qed.

(** The next hop the daemon configures makes [New]'s checks on it succeed. *)
Lemma nextHop_Ok e hop sec up : nextHop e = Ok (hop, sec, up) ->
  (hop = "" /\ up = None) \/ (hop <> "" /\ sec = true /\ exists f, up = Some (mkUpstream hop true 0 f)).
Proof.
  unfold nextHop. destruct (String.eqb_spec (knob e "CCB_OUTBOUND_NEXT_HOP") "") as [E|E]; [intros [= <- <- <-]; by left|].
  destruct (clientSecurity e); [|done]. intros [= <- <- <-]. right. eauto.
Qed.

Lemma sameHop_refs cfg hop f : OutboundNextHop cfg = hop -> Upstream cfg = Some (mkUpstream hop true 0 f) ->
  forall r r', r ∈ carrierRefs cfg -> r' ∈ carrierRefs cfg -> r = r'.
Proof.
  intros Eh Eu. unfold carrierRefs. rewrite Eh, Eu. cbn. destruct (parseCarrierRef hop); set_solver.
Qed.

(** C38: a daemon's own configuration always fits together. A broker built from it
    can fail to start only for want of a public address, because its next hop is
    itself, or because its store does not load; a WebSocket carrier listener named
    without blanks around it always has a token verifier, serves TLS exactly for
    [wss] and verifies against the pool's keys; and a broker whose next hop is a
    WebSocket carrier has a token or a source of tokens to present. *)
Theorem daemon_config_sound `{Unicode} e cfg : daemonConfig e = Ok cfg ->
  (forall load err, New cfg load = Err err ->
     (err = NPublicAddress /\ PublicAddress cfg = "") \/ err = NSelfLoop (OutboundNextHop cfg) \/ err = NLoad)
  /\ (TrimSpace (CarrierListen cfg) = CarrierListen cfg -> forall ref, parseCarrierRef (CarrierListen cfg) = Some ref ->
      forall parseURL fsListen bind,
      match carrierNetListener parseURL fsListen bind cfg ref with
      | Ok (LFs c) => scheme ref = "fs" /\ Root c = path ref
      | Ok (LWs _ s) => scheme ref = "ws" /\ sv_tls s = tls ref /\ sv_verify s = bearerVerifier e
      | Err err => err = LBadURL \/ err = LInner
      end)
  /\ (isWSCarrier (OutboundNextHop cfg) = true ->
      CarrierToken cfg <> "" \/ CarrierTokenSource cfg = Some (discoverToken e)).
Proof.
  intros (hopSec & cc & Hn & Hc & Hhs & Hs & El & Et & Ev & Ek & Es)%daemonConfig_Ok.
  apply settings_listen in Hc as [Hl Hcl]. apply nextHop_Ok in Hn as Hn'. split; [|split].
  - intros load err. unfold New. destruct (String.eqb_spec (PublicAddress cfg) "") as [E|E]; [intros [= <-]; by left|].
    rewrite Hs. cbn [negb].
    assert (forall r r', r ∈ carrierRefs cfg -> r' ∈ carrierRefs cfg -> r = r') as Hr.
    { destruct Hn' as [[Hh Hu]|(_ & _ & f & Hu)]; [|by eapply sameHop_refs]. unfold carrierRefs. rewrite Hh, Hu. set_solver. }
    assert (detectCarrier (withDefaults cfg) = Ok (carrierFor cfg <$> head (carrierRefs cfg))) as -> by (by apply detectCarrier_Ok).
    assert (checkUpstream (withDefaults cfg) = Ok tt) as Hu.
    { apply checkUpstream_Ok. cbn. intros up Hup. destruct Hn' as [[_ Hu]|(Hne & _ & f & Hu)]; [congruence|].
      rewrite Hup in Hu. injection Hu as ->. done. }
    cbn [res_bind]. unfold chooseOutbound. cbn. destruct (String.eqb_spec (OutboundNextHop cfg) "") as [Eh|Eh]; cbn.
    + rewrite Hu. cbn. destruct (if HasReconnectStore cfg then load else Some []); [done|]. intros [= <-]. tauto.
    + destruct Hn' as [[? _]|(_ & Hsec & _)]; [done|]. rewrite Hhs, Hsec. cbn. destruct (selfLoop _); cbn; [intros [= <-]; tauto|].
      rewrite Hu. cbn. destruct (if HasReconnectStore cfg then load else Some []); [done|]. intros [= <-]. tauto.
  - intros Htr ref Hp parseURL fsL wsL. destruct (parseCarrierRef_ws _ _ Htr Hp) as [[Hsc _]|(Hsc & Hw & Htls)];
      unfold carrierNetListener; rewrite Hsc; cbn.
    + destruct fsL; [done|by right].
    + rewrite El in Hw, Htls. destruct (listenSettings_ws _ _ _ _ Hl Hw) as [Hv Ht]. rewrite Ev, Hv.
      destruct (parseURL (url ref)) as [[host p]|]; [|by left]. rewrite Et, Ht, Htls.
      destruct (HasPrefix _ _); cbn; (destruct wsL; [done|by right]).
  - intros Hw. rewrite Ek, Es. by eapply clientSettings_ws.
Qed.

(** An inside broker that tunnels through a WebSocket carrier, configured from a file
    with a single knob. *)
#[local] Instance asciiCase : Unicode := { ToLower := lowerASCII; EqualFold s t := String.eqb (lowerASCII s) (lowerASCII t) }.

Definition exDaemon : daemonEnv :=
  mkDaemon (fun k => if String.eqb k "CCB_OUTBOUND_NEXT_HOP" then Some "wss://ccb.example.org/ccb/tunnel" else None)
    "" false false (Some (TCPAddr "10.0.0.7:9618")) None None true true false true (fun _ => []) (fun _ _ => false)
    (fun _ => None) (fun _ => None) (Some "token") (fun _ _ _ => true).

Definition exConfig : ServerConfig :=
  match daemonConfig exDaemon with Ok cfg => cfg | Err _ => mkConfig "" false 0 0 None false false 0 false [] "" false 0 None "" false None false "" None end.

Lemma daemon_config_sound_witness : CarrierToken exConfig <> "" \/ CarrierTokenSource exConfig = Some (Some "token").
Proof.
  apply (daemon_config_sound exDaemon exConfig); reflexivity.
Defined.

(** The second test of the self-loop guard never holds: its left side is trimmed of
    the brackets its right side starts with. *)
Lemma trimLeftSet_head cut s c t : trimLeftSet cut s = String c t -> has c cut = false.
Proof.
  induction s as [|d s IH]; [done|]. cbn [trimLeftSet]. destruct (has d cut) eqn:E; [done|]. by intros [= <- _].
Qed.

Lemma trimRightSet_head cut s c t : trimRightSet cut s = String c t -> exists t', s = String c t'.
Proof.
  destruct s as [|d s]; [done|]. cbn [trimRightSet]. destruct (trimRightSet cut s).
  - destruct (has d cut); [done|]. intros [= <- _]. eauto.
  - intros [= <- _]. eauto.
Qed.

Theorem selfLoop_second_test cfg : String.eqb (Trim (OutboundNextHop cfg) "<>") (proxyAddrSinful (PublicAddress cfg)) = false.
Proof.
  apply String.eqb_neq. unfold Trim, proxyAddrSinful. intros (t & E)%trimRightSet_head. by apply trimLeftSet_head in E.
Qed.
