(* ===== verification/Service.v ===== *)
(** A running broker (server.go, carrier.go, transport/carrier/mux.go): the background
    tasks [Serve] starts once, the periodic sweep of reconnect records, the carrier
    listener, and how an inside broker opens a logical connection over its carrier. *)

From stdpp Require Import base gmap list strings numbers.
From Stdlib Require Import ZArith Lia.
From S2P Require Import Prelude GoStr FsConfig Contacts Reconnect Broker WsCarrier Carrier Startup.

#[local] Open Scope Z_scope.

(** * The periodic sweep *)

(** The period of [Server.sweepLoop]. *)
Definition sweepInterval (ttl : Z) : Z :=
  let interval := Z.quot ttl 24 in if interval <? Minute then Minute else interval.

(** The broker after [n] ticks of a sweep loop started at [start], when nothing else
    happens. *)
Fixpoint sweepLoop (cfg : BrokerConfig) (start : Z) (n : nat) (s : Server) : Server :=
  match n with
  | O => s
  | S n => (SweepReconnects cfg (start + Z.of_nat (S n) * sweepInterval (b_ReconnectTTL cfg)) (sweepLoop cfg start n s)).1
  end.

(** * Starting *)

(** What [startBackground] starts. *)
Inductive task :=
| TaskSweep (interval : Z)
| TaskCarrierListener (l : carrierListener)
| TaskCloseCarrier (ref : carrierRef)
| TaskUpstream (broker : string) (overCarrier : bool).

Section start.
Context (parseURL : string -> option (string * string)) (fsListen : Config -> bool) (bind : string -> bool).

(** [Server.startCarrierListener]: it serves, or logs why it does not. *)
Definition startCarrierListener (cfg : ServerConfig) : list task :=
  match parseCarrierRef (CarrierListen cfg) with
  | None => []
  | Some ref =>
      match carrierNetListener parseURL fsListen bind cfg ref with
      | Err _ => []
      | Ok l => [TaskCarrierListener l]
      end
  end.

(** [Server.startBackground]. *)
Definition startBackground (b : broker) : list task :=
  let cfg := k_cfg b in
  ((if HasReconnectStore cfg then [TaskSweep (sweepInterval (ReconnectTTL cfg))] else [])
   ++ (if negb (String.eqb (CarrierListen cfg) "") then startCarrierListener cfg else [])
   ++ match k_carrier b with Some cc => [TaskCloseCarrier (c_ref cc)] | None => [] end
   ++ match Upstream cfg with Some up => [TaskUpstream (u_BrokerAddr up) (upstreamOverCarrier b)] | None => [] end)%list.

(** [Server.StartBackground] and [Server.Serve]: what was started so far, under
    [bgOnce]. *)
Record service := mkService { v_once : bool; v_tasks : list task; v_serving : list nat }.

Definition StartBackground (b : broker) (v : service) : service :=
  if v_once v then v else mkService true (v_tasks v ++ startBackground b) (v_serving v).

Definition Serve (b : broker) (l : nat) (v : service) : service :=
  let v := StartBackground b v in mkService (v_once v) (v_tasks v) (v_serving v ++ [l]).

(** The calls a host makes. *)
Inductive svStep (b : broker) : service -> service -> Prop :=
| sv_background v : svStep b v (StartBackground b v)
| sv_serve l v : svStep b v (Serve b l v).
End start.

(** * The daemon *)

(** [buildSessionStore]: no store when none is configured; whether the store it opens
    is a shared database. [signingKeys] is what [LoadSigningKeys] returns. *)
Inductive sessionErr := SKeys | SOpen.

Definition buildSessionStore (get : string -> option string) (signingKeys : option (list (string * string)))
    (open : string -> list (string * string) -> option bool) : result sessionErr (option bool) :=
  match get "CCB_SESSION_CACHE_FILE"%string with
  | None => Ok None
  | Some path =>
      if String.eqb path "" then Ok None else
      match signingKeys with
      | None => Err SKeys
      | Some keys => match open path keys with None => Err SOpen | Some shared => Ok (Some shared) end
      end
  end.

(** Whether [run] has a shared database for the reconnect records: a session cache
    that cannot be opened is only logged. *)
Definition sharedSession (r : result sessionErr (option bool)) : bool :=
  match r with Ok (Some shared) => shared | _ => false end.

Definition withAuthorizer (cfg : ServerConfig) (allow : string -> string -> string -> bool) : ServerConfig :=
  Startup.mkConfig (PublicAddress cfg) (Security cfg) (RequestTimeout cfg) (TargetIdleTimeout cfg) (Some allow) (HasReconnectStore cfg)
    (ReconnectAllowAnyIP cfg) (ReconnectTTL cfg) (OutboundProxy cfg) (OutboundTargetAllowlist cfg) (OutboundNextHop cfg)
    (OutboundNextHopSecurity cfg) (OutboundTTL cfg) (Upstream cfg) (CarrierListen cfg) (CarrierTLS cfg)
    (CarrierTokenVerify cfg) (CarrierClientTLS cfg) (CarrierToken cfg) (CarrierTokenSource cfg).

Inductive brokerErr := BPolicy | BNew (e : newErr) | BLevels.

(** [newBroker]; [policy] is what [NewAuthz] returns, [levels] whether
    [InstallSecurityLevels] succeeds. *)
Definition newBroker (policy : option (string -> string -> string -> bool)) (levels : bool) (cfg : ServerConfig)
    (load : option (list ReconnectRecord)) : result brokerErr broker :=
  match policy with
  | None => Err BPolicy
  | Some allow =>
      match New (withAuthorizer cfg allow) load with
      | Err e => Err (BNew e)
      | Ok b => if levels then Ok b else Err BLevels
      end
  end.

(** [serveBroker]: the background work, then every listener. *)
Definition serveBroker (pu : string -> option (string * string)) (fl : Config -> bool) (wl : string -> bool) (b : broker) (lns : list nat) (v : service) : service :=
  let v := StartBackground pu fl wl b v in mkService (v_once v) (v_tasks v) (v_serving v ++ lns).

(** * A logical connection over the carrier *)

Inductive openErr := OYamux | OCtx.

(** [MuxDialer.Open]: the goroutine in [OpenStream], the channel of capacity one, the
    caller, and the streams this call opened. *)
Record opening := mkOpening {
  o_running : bool;
  o_ch : option (result openErr nat);
  o_call : option (result openErr nat);
  o_streams : list nat
}.

Definition Open : opening := mkOpening true None None [].

Inductive open_step : opening -> opening -> Prop :=
| op_stream c st os : open_step (mkOpening true None c os) (mkOpening false (Some (Ok st)) c (os ++ [st]))
| op_failed c os : open_step (mkOpening true None c os) (mkOpening false (Some (Err OYamux)) c os)
| op_recv r os run : open_step (mkOpening run (Some r) None os) (mkOpening run None (Some r) os)
| op_ctx run ch os : open_step (mkOpening run ch None os) (mkOpening run ch (Some (Err OCtx)) os).

(** [carrierClient.dial]; [opened] is what [Open] on the session returns. *)
Definition dial (dialed : result carrierErr nat) (muxOk : bool) (opened : result openErr nat) (c : carrierClient) (w : links)
  : result carrierErr (result openErr nat) * carrierClient * links :=
  match session dialed muxOk c w with
  | (Err e, c', w') => (Err e, c', w')
  | (Ok md, c', w') => (Ok opened, c', w')
  end.

(** * Lemmas *)

Lemma sweepInterval_pos ttl : Minute <= sweepInterval ttl.
Proof. unfold sweepInterval. destruct (_ <? _) eqn:E; breflect; lia. Qed.

Lemma sweepLoop_targets cfg start n s : s_targets (sweepLoop cfg start n s) = s_targets s.
Proof. induction n as [|n IH]; [done|]. cbn [sweepLoop]. by rewrite <- IH. Qed.

(** A record of a target that is gone lasts until the first tick past its time. *)
Lemma sweepLoop_record cfg start n s id r : s_reconnects s !! id = Some r -> s_targets s !! id = None ->
  s_reconnects (sweepLoop cfg start (S n) s) !! id
  = if start + Z.of_nat (S n) * sweepInterval (b_ReconnectTTL cfg) <=? UpdatedAt r + b_ReconnectTTL cfg then Some r else None.
Proof.
  intros Hr Ht. pose proof (sweepInterval_pos (b_ReconnectTTL cfg)) as Hi. assert (0 < Minute) by done. set (I := sweepInterval _) in *.
  assert (forall now s', s_targets s' !! id = None -> s_reconnects s' !! id = Some r ->
    s_reconnects (SweepReconnects cfg now s').1 !! id = if now <=? UpdatedAt r + b_ReconnectTTL cfg then Some r else None) as Hone.
  { intros now s' Ht' Hr'. destruct (_ <=? _) eqn:E; breflect.
    - apply sweep_lookup. split; [done|right; lia].
    - destruct (s_reconnects (SweepReconnects cfg now s').1 !! id) as [r'|] eqn:E'; [|done].
      apply sweep_lookup in E' as [E1 [E2|E2]]; [done|]. rewrite Hr' in E1. injection E1 as <-. lia. }
  assert (forall now s', s_reconnects s' !! id = None -> s_reconnects (SweepReconnects cfg now s').1 !! id = None) as Hnone.
  { intros now s' Hn. destruct (s_reconnects (SweepReconnects cfg now s').1 !! id) as [r'|] eqn:E'; [|done].
    apply sweep_lookup in E' as [E1 _]. congruence. }
  induction n as [|n IH]; [by apply Hone|]. change (sweepLoop cfg start (S (S n)) s)
    with (SweepReconnects cfg (start + Z.of_nat (S (S n)) * I) (sweepLoop cfg start (S n) s)).1.
  destruct (start + Z.of_nat (S n) * I <=? _) eqn:E in IH; breflect.
  - apply Hone; [by rewrite sweepLoop_targets|done].
  - rewrite Hnone by done. destruct (_ <=? _) eqn:E2; breflect; [|done]. exfalso. nia.
Qed.

(** Some tick comes within one period of a time. *)
Lemma tick_within start t I : 0 < I -> exists n, t < start + Z.of_nat (S n) * I <= Z.max start t + I.
Proof.
  intros HI. destruct (decide (start <= t)) as [Hle|Hgt].
  - exists (Z.to_nat ((t - start) / I)). rewrite Nat2Z.inj_succ, Z2Nat.id by (apply Z.div_pos; lia).
    pose proof (Z.div_mod (t - start) I ltac:(lia)). pose proof (Z.mod_pos_bound (t - start) I HI). nia.
  - exists 0%nat. lia.
Qed.

(** Background tasks start once. *)
Lemma sv_inv pu fl wl b v : rtc (svStep pu fl wl b) (mkService false [] []) v ->
  (v_once v = true /\ v_tasks v = startBackground pu fl wl b) \/ (v_once v = false /\ v_tasks v = [] /\ v_serving v = []).
Proof.
  intros Hr. remember (mkService false [] []) as v0 eqn:E0.
  assert ((v_once v0 = true /\ v_tasks v0 = startBackground pu fl wl b) \/ (v_once v0 = false /\ v_tasks v0 = [] /\ v_serving v0 = [])) as Hi
    by (subst; by right). clear E0. induction Hr as [|v1 v2 v3 Hst _ IH]; [done|]. apply IH.
  destruct Hst as [v|l v]; unfold Serve, StartBackground.
  - left. destruct Hi as [[E ?]|(E & E2 & _)]; rewrite E; [done|cbn; by rewrite E2].
  - left. destruct Hi as [[E ?]|(E & E2 & _)]; rewrite E; [done|cbn; by rewrite E2].
Qed.

Lemma sweep_task pu fl wl b i : TaskSweep i ∈ startBackground pu fl wl b <->
  HasReconnectStore (k_cfg b) = true /\ i = sweepInterval (ReconnectTTL (k_cfg b)).
Proof.
  unfold startBackground, startCarrierListener. rewrite !elem_of_app. split.
  - intros [H|[H|[H|H]]].
    + destruct (HasReconnectStore _); [|by apply not_elem_of_nil in H]. apply list_elem_of_singleton in H. by injection H as ->.
    + destruct (negb _); [|by apply not_elem_of_nil in H]. destruct (parseCarrierRef _) as [ref|]; [|by apply not_elem_of_nil in H].
      destruct (carrierNetListener _ _ _ _ _); [by apply list_elem_of_singleton in H|by apply not_elem_of_nil in H].
    + destruct (k_carrier b); [by apply list_elem_of_singleton in H|by apply not_elem_of_nil in H].
    + destruct (Upstream _); [by apply list_elem_of_singleton in H|by apply not_elem_of_nil in H].
  - intros [-> ->]. left. by apply list_elem_of_singleton.
Qed.

(** A daemon's broker asks the daemon's policy about every command it restricts. *)
Theorem daemon_authorizes allow levels cfg load b cmd remote user :
  newBroker (Some allow) levels cfg load = Ok b ->
  authorize (handlerConfig (k_cfg b)) cmd remote user = true <->
  exists perm, perm ∈ commandPerms (handlerConfig (k_cfg b)) cmd /\ allow perm remote user = true.
Proof.
  unfold newBroker. destruct (New _ load) as [b'|] eqn:E; [|done]. destruct levels; [|done]. intros [= ->].
  apply New_Ok in E as (_ & _ & cc & out & recs & _ & _ & _ & _ & ->). unfold authorize. cbn [handlerConfig k_cfg b_Authorizer withDefaults withAuthorizer Authorizer].
  rewrite existsb_exists. by setoid_rewrite list_elem_of_In.
Qed.

(** * Opening streams *)

(** What is in the channel of a call, as a list. *)
Definition inChannel (o : opening) : list nat := match o_ch o with Some (Ok st) => [st] | _ => [] end.

Record open_inv (o : opening) : Prop := {
  oi_streams : o_streams o = match o_call o with Some (Ok st) => [st] | Some (Err OYamux) => [] | _ => inChannel o end;
  oi_ch e : o_ch o = Some (Err e) -> e = OYamux;
  oi_running : o_running o = true -> o_ch o = None;
  oi_call : match o_call o with Some (Ok _) | Some (Err OYamux) => o_running o = false /\ o_ch o = None | _ => True end
}.

Lemma open_step_inv o o' : open_step o o' -> open_inv o -> open_inv o'.
Proof.
  intros Hst [H1 H2 H3 H4]. destruct Hst as [c st os|c os|r os run|run ch os]; cbn in *.
  - destruct c as [[?|[]]|]; [by destruct H4..| |]; split; cbn; try done; by rewrite H1.
  - destruct c as [[?|[]]|]; [by destruct H4..| |]; split; cbn; try done; by intros e [= <-].
  - assert (run = false) as -> by (destruct run; [by specialize (H3 eq_refl)|done]).
    destruct r as [st|e]; [|rewrite (H2 e eq_refl) in *]; by split.
  - by split.
Qed.

(** How a call of [Open] can end: with the stream it opened, with yamux's error and no
    stream, or cancelled; in the last case the stream, if there is one, was returned
    to nobody. *)
Theorem Open_outcomes o : rtc open_step Open o ->
  o_streams o = match o_call o with Some (Ok st) => [st] | Some (Err OYamux) => [] | _ => inChannel o end.
Proof.
  intros Hr. assert (open_inv Open) as Hi by (by split). apply oi_streams. revert Hi. induction Hr; eauto using open_step_inv.
Qed.

(** A call cancelled while yamux opens its stream leaves that stream open in a channel
    nobody reads. *)
Theorem Open_strands_stream : exists o st, rtc open_step Open o /\ o_call o = Some (Err OCtx) /\ o_streams o = [st] /\ ~ exists o', open_step o o'.
Proof.
  exists (mkOpening false (Some (Ok 1%nat)) (Some (Err OCtx)) [1%nat]), 1%nat. split_and!; [|done|done|].
  - eapply rtc_l; [apply (op_ctx true None [])|]. eapply rtc_l; [apply (op_stream _ 1%nat [])|]. apply rtc_refl.
  - intros [o' Hst]. inversion Hst.
Qed.

(** * The first session over a WebSocket *)

(** The dial of a WebSocket carrier, over what [websocket.Dial] comes to. *)
Definition wsDialOver (upgrade : string -> bool -> option string -> Z -> upgradeResult) (d : DialConfig) : option nat :=
  match Dial d upgrade with Ok (c, _) => Some c | Err _ => None end.

(** The token a configuration gives: its own, or what its source finds. *)
Definition presented (cfg : ServerConfig) : option string :=
  if String.eqb (CarrierToken cfg) "" then default None (CarrierTokenSource cfg) else Some (CarrierToken cfg).

(** What the dial with a configuration's token comes to. *)
Lemma wsDialOver_cases `{UnicodeLaws} verify upgrade cfg u tls : AcceptorAt verify upgrade -> u <> ""%string ->
  let d := mkDial u (CarrierToken cfg) (CarrierTokenSource cfg) tls 0 0 in
  match wsDialOver upgrade d with
  | Some _ => exists t, presented cfg = Some t /\ accepts verify t
  | None => forall t, presented cfg = Some t -> accepts verify t -> upgrade u tls (Some ("Bearer " +:+ t))%string (30 * Second) = UError
  end.
Proof.
  intros Ha Hu d. unfold wsDialOver.
  assert (match dialToken d with Ok t => (accepts verify t -> presented cfg = Some t) /\ forall t', presented cfg = Some t' -> t' = t
          | Err _ => presented cfg = None end) as Hp.
  { unfold dialToken, presented, d. cbn. destruct (String.eqb (CarrierToken cfg) ""); [|naive_solver].
    destruct (CarrierTokenSource cfg) as [[t|]|]; cbn; [naive_solver|done|]. split; [by intros [? _]|done]. }
  destruct (dialToken d) as [t|e] eqn:Et.
  - pose proof (Dial_token d verify upgrade t Ha Hu Et) as Hd. destruct (Dial d upgrade) as [[c l]|[]]; try done.
    + destruct Hd as [Hacc _]. exists t. split; [by apply Hp|done].
    + intros t' ->%Hp Hacc. done.
    + intros t' ->%Hp [Hne _]. unfold authHeader in Hd. by destruct (String.eqb_spec t "") as [->|].
  - unfold Dial. replace (String.eqb (d_URL d) "") with false by (symmetry; by apply String.eqb_neq). rewrite Et, Hp. by intros t.
Qed.

Lemma parseCarrierRef_url addr r : parseCarrierRef addr = Some r -> scheme r = "ws"%string -> url r <> ""%string.
Proof.
  unfold parseCarrierRef. destruct (HasPrefix _ "fs:"); [by intros [= <-]|].
  destruct (HasPrefix _ "wss://") eqn:E1; [|destruct (HasPrefix _ "ws://") eqn:E2; [|done]]; intros [= <-] _ E; cbn in E.
  - by rewrite E in E1.
  - by rewrite E in E2.
Qed.

(** The client of a broker dials the URL and the token of its configuration. *)
Lemma New_wsConfig cfg load b cc : New cfg load = Ok b -> k_carrier b = Some cc -> scheme (c_ref cc) = "ws"%string ->
  c_md cc = None /\ c_done cc = false /\ exists u, u <> ""%string
    /\ wsConfig cc = mkDial u (CarrierToken cfg) (CarrierTokenSource cfg) (CarrierClientTLS cfg) 0 0.
Proof.
  intros (_ & _ & cc' & out & recs & [_ Hd]%detectCarrier_Ok & _ & _ & _ & ->)%New_Ok. cbn [k_carrier]. intros [= ->] Hs.
  destruct (carrierRefs cfg) as [|r refs] eqn:Er; [done|]. injection Hd as ->. split; [done|]. split; [done|]. exists (url r). split; [|done].
  assert (r ∈ carrierRefs cfg) as Hr by (rewrite Er; left). clear Er. unfold carrierRefs in Hr.
  destruct (Upstream cfg) as [up|]; [destruct (parseCarrierRef (u_BrokerAddr up)) eqn:E1|];
    destruct (parseCarrierRef (OutboundNextHop cfg)) eqn:E2; set_unfold; destruct_or?; simplify_eq; by eapply parseCarrierRef_url.
Qed.

(** * Claims *)

(** C26: a broker gets its WebSocket carrier only with a token the acceptor admits. A
    broker [New] made for a WebSocket carrier dials its first session with the token of
    its configuration or, without one, of its token source, whatever [websocket.Dial]
    and yamux come to: if the session is established, the acceptor's verifier accepted
    that token, taken without the blanks around it, and the session's pipe is the
    only one open. If not, no pipe is open; and if the verifier would have
    accepted the token, then the upgrade with that very token failed for another reason
    than authorization, or yamux failed. Tokens that discovery finds have no blanks. *)
Theorem carrier_session_admitted `{UnicodeLaws} cfg load b cc verify upgrade fsDial muxOk :
  AcceptorAt verify upgrade -> New cfg load = Ok b -> k_carrier b = Some cc -> scheme (c_ref cc) = "ws"%string ->
  let '(r, cc', w') := session (dialPipe fsDial (wsDialOver upgrade) cc) muxOk cc (mkLinks ∅ ∅) in
  match r with
  | Ok p => c_md cc' = Some p /\ pipes w' = {[p]} /\ exists t, presented cfg = Some t /\ accepts verify t
  | Err _ => c_md cc' = None /\ pipes w' = ∅ /\ forall t, presented cfg = Some t -> accepts verify t ->
      muxOk = false \/ upgrade (url (c_ref cc)) (CarrierClientTLS cfg) (Some ("Bearer " +:+ t))%string (30 * Second) = UError
  end
  /\ forall e, CarrierToken cfg = ""%string -> CarrierTokenSource cfg = Some (DiscoverBearerToken e) ->
     presented cfg = DiscoverBearerToken e /\ forall t, presented cfg = Some t -> TrimSpace t = t.
Proof.
  intros Ha Hn Hc Hs. destruct (New_wsConfig _ _ _ _ Hn Hc Hs) as (Hm & Hdn & u & Hu & Ew).
  pose proof (f_equal d_URL Ew) as Eu. cbn in Eu. rewrite Eu.
  unfold session, dialPipe. rewrite Hm, Hdn, Hs, Ew. change (String.eqb "ws" "fs") with false. change (String.eqb "ws" "ws") with true.
  cbn iota. pose proof (wsDialOver_cases verify upgrade cfg u (CarrierClientTLS cfg) Ha Hu) as Hd. cbv zeta in Hd.
  set (d := mkDial u _ _ _ 0 0) in *. destruct (establish _ muxOk cc _) as [[r cc'] w'] eqn:E. split.
  - destruct (wsDialOver upgrade d) as [p|]; [cbn [establish] in E; destruct muxOk|]; injection E as <- <- <-; cbn.
    + split; [done|]. split; [set_solver|done].
    + split; [done|]. split; [set_solver|by left].
    + split; [done|]. split; [done|]. intros t Ht Hacc. right. by apply Hd.
  - intros e Hno Hsrc. unfold presented. rewrite Hno, Hsrc. cbn. split; [done|]. intros t Ht. by apply discover_trimmed in Ht as [? _].
Qed.

(** C33: reconnect records do not outlive their time. However often [Serve] and
    [StartBackground] are called, the background tasks are started exactly once, and
    with a reconnect store one of them is a sweep every 24th of the TTL, at least a
    minute apart; from then on the record of a target that is not connected is kept
    at every tick up to its TTL after the target was last seen and removed by the
    first tick after that, which comes within one period. *)
Theorem service_sweeps pu fl wl cfg load b v : New cfg load = Ok b -> HasReconnectStore cfg = true ->
  rtc (svStep pu fl wl b) (mkService false [] []) v -> v_serving v <> [] ->
  let bc := handlerConfig (k_cfg b) in
  let I := sweepInterval (b_ReconnectTTL bc) in
  v_tasks v = startBackground pu fl wl b /\ TaskSweep I ∈ v_tasks v /\ Minute <= I
  /\ forall start s id r, s_reconnects s !! id = Some r -> s_targets s !! id = None ->
     (forall n, s_reconnects (sweepLoop bc start (S n) s) !! id
        = if start + Z.of_nat (S n) * I <=? UpdatedAt r + b_ReconnectTTL bc then Some r else None)
     /\ exists n, start + Z.of_nat (S n) * I <= Z.max start (UpdatedAt r + b_ReconnectTTL bc) + I
          /\ s_reconnects (sweepLoop bc start (S n) s) !! id = None.
Proof.
  intros Hn Hs Hr Hv bc I. apply sv_inv in Hr as [[_ ->]|(_ & _ & ?)]; [|done]. split; [done|].
  assert (HasReconnectStore (k_cfg b) = true) as Hs' by (by apply New_Ok in Hn as (_ & _ & cc & out & recs & _ & _ & _ & _ & ->)).
  split; [by apply sweep_task|]. split; [apply sweepInterval_pos|]. intros start s id r Hrec Ht. split.
  - intros n. by apply sweepLoop_record.
  - destruct (tick_within start (UpdatedAt r + b_ReconnectTTL bc) I) as (n & Hlt & Hle).
    { pose proof (sweepInterval_pos (b_ReconnectTTL bc)). assert (0 < Minute) by done. unfold I. lia. }
    exists n. split; [done|]. rewrite (sweepLoop_record _ _ _ _ id r) by done. fold I. by rewrite (proj2 (Z.leb_gt _ _)) by lia.
Qed.

Definition exServerCfg : ServerConfig :=
  Startup.mkConfig "broker:9618" true 0 0 None true false 0 false [] "" false 0 None "" false None false "" None.
Definition exBroker : broker :=
  mkBroker (withDefaults exServerCfg) (loadReconnects [mkRec 7 "k" "10.0.0.1" "startd" 0]) None OutDirect (RegisterOn exServerCfg).

Lemma service_sweeps_witness :
  TaskSweep (3600 * Second) ∈ v_tasks (Serve (fun _ => None) (fun _ => true) (fun _ => true) exBroker 1 (mkService false [] []))
  /\ exists n, 0 + Z.of_nat (S n) * (3600 * Second) <= 25 * 3600 * Second
       /\ s_reconnects (sweepLoop (handlerConfig (k_cfg exBroker)) 0 (S n) (k_state exBroker)) !! 7 = None.
Proof.
  assert (New exServerCfg (Some [mkRec 7 "k" "10.0.0.1" "startd" 0]) = Ok exBroker) as Hn by reflexivity.
  pose proof (service_sweeps (fun _ => None) (fun _ => true) (fun _ => true) exServerCfg (Some [mkRec 7 "k" "10.0.0.1" "startd" 0]) exBroker
    (Serve (fun _ => None) (fun _ => true) (fun _ => true) exBroker 1 (mkService false [] [])) Hn eq_refl
    ltac:(eapply rtc_l; [apply sv_serve|apply rtc_refl]) ltac:(discriminate)) as (_ & H1 & _ & H2).
  split; [exact H1|]. destruct (H2 0 (k_state exBroker) 7 (mkRec 7 "k" "10.0.0.1" "startd" 0) eq_refl eq_refl) as [_ (n & Hle & Hgone)].
  exists n. split; [exact Hle|exact Hgone].
Defined.

(** An inside broker whose next hop is behind a WebSocket; its token is in a file. *)
#[local] Instance asciiText : Unicode := { ToLower := lowerASCII; EqualFold s t := String.eqb (lowerASCII s) (lowerASCII t) }.

#[local] Instance asciiText_laws : UnicodeLaws.
Proof. by split. Qed.

Definition exInsideCfg : ServerConfig :=
  Startup.mkConfig "inside:9618" true 0 0 None false false 0 false [] "wss://ccb.example.org/ccb/tunnel" true 0 None "" false None false ""
    (Some (DiscoverBearerToken exHost)).
Definition exInsideClient : carrierClient := carrierFor exInsideCfg (mkRef "ws" "" "wss://ccb.example.org/ccb/tunnel" true).

Lemma carrier_session_admitted_witness :
  (session (dialPipe (fun _ => None) (wsDialOver (exUpgrade exVerify 5)) exInsideClient) true exInsideClient (mkLinks ∅ ∅)).1.1 = Ok 5%nat
  /\ exists t, presented exInsideCfg = Some t /\ accepts exVerify t.
Proof.
  assert (exists b, New exInsideCfg None = Ok b /\ k_carrier b = Some exInsideClient) as (b & Hn & Hc)
    by (eexists; split; [vm_compute; reflexivity|reflexivity]).
  pose proof (carrier_session_admitted exInsideCfg None b exInsideClient exVerify (exUpgrade exVerify 5) (fun _ => None) true _ Hn Hc eq_refl) as Hs.
  assert ((session (dialPipe (fun _ => None) (wsDialOver (exUpgrade exVerify 5)) exInsideClient) true exInsideClient (mkLinks ∅ ∅)).1.1 = Ok 5%nat) as E
    by (vm_compute; reflexivity).
  split; [exact E|]. destruct (session _ _ _ _) as [[r cc'] w']. cbn in E. subst r. destruct Hs as [(_ & _ & Hp) _]. exact Hp.
Defined.
