(* ===== verification/Run.v ===== *)
(** The daemon's command line (cmd/golang-ccb/main.go): the flags of [run] as Go's flag
    package parses them, and [run] itself with the resources it opens and the deferred
    calls that close them, composed from the pieces of Startup.v and Service.v. *)

From stdpp Require Import base gmap list strings numbers.
From Stdlib Require Import ZArith Lia Ascii.
From S2P Require Import Prelude GoStr FsConfig Contacts Reconnect Broker Carrier Startup Service.

#[local] Open Scope string_scope.

(** * Flags *)

(** The flags [run] defines; each takes a string. *)
Definition formal : list string := ["listen"; "public"; "local-name"; "sock"].

(** How [flag.Parse] ends: the flags that were set, the process exiting after a usage
    message ([-h], [-help]), or exiting because an argument is wrong. *)
Inductive parsed := PFlags (actual : gmap string string) | PHelp | PError.

(** A name up to the first [=] after its first character, and the value behind it. *)
Fixpoint cutEq (s : string) : string * option string :=
  match s with
  | EmptyString => ("", None)
  | String c t => if Ascii.eqb c "=" then ("", Some t) else let '(n, v) := cutEq t in (String c n, v)
  end.

Definition nameValue (s : string) : string * option string :=
  match s with EmptyString => ("", None) | String c t => let '(n, v) := cutEq t in (String c n, v) end.

(** What one argument is: a flag with its name and perhaps its value, the end of the
    flags, or a mistake. *)
Inductive argKind := AEnd | ABad | AFlag (name : string) (value : option string).

Definition classify (s : string) : argKind :=
  match s with
  | String c1 (String c2 t) =>
      if negb (Ascii.eqb c1 "-") then AEnd else
      if Ascii.eqb c2 "-" && String.eqb t "" then AEnd else
      let name := if Ascii.eqb c2 "-" then t else String c2 t in
      match name with
      | EmptyString => ABad
      | String c _ => if Ascii.eqb c "-" || Ascii.eqb c "=" then ABad else let '(n, v) := nameValue name in AFlag n v
      end
  | _ => AEnd
  end.

(** [flag.Parse] on the arguments, the flags in [actual] having been set. *)
Fixpoint parseFlags (args : list string) (actual : gmap string string) : parsed :=
  match args with
  | [] => PFlags actual
  | s :: args =>
      match classify s with
      | AEnd => PFlags actual
      | ABad => PError
      | AFlag name value =>
          if bool_decide (name ∈ formal) then
            match value, args with
            | Some v, _ => parseFlags args (<[name := v]> actual)
            | None, v :: args => parseFlags args (<[name := v]> actual)
            | None, [] => PError
            end
          else if String.eqb name "help" || String.eqb name "h" then PHelp else PError
      end
  end.

Definition flagValue (actual : gmap string string) (name def : string) : string := default def (actual !! name).

(** The names [flag.Visit] visits. *)
Definition visited (actual : gmap string string) (name : string) : bool := bool_decide (is_Some (actual !! name)).

(** * The run *)

(** What the daemon opens and closes by deferred calls. *)
Inductive resource := RSession | RListener | RPublic | RStore.
#[local] Instance resource_eq : EqDecision resource.
Proof. solve_decision. Defined.

Inductive act :=
| Acquire (r : resource)
| Release (r : resource)
| Serving (b : broker) (v : service)     (* [ServeListeners] *)
| Cancelled.                             (* the context of the background work *)

(** A function with deferred closes: what was done, what is still to be closed, last
    opened first. *)
Record actFrame := mkFrame { fr_log : list act; fr_defer : list resource }.

Inductive runFail :=
| RConfig | RDaemon | RSetup (e : runErr) | RBroker (e : brokerErr) | RServe.

Definition M (A : Type) : Type := actFrame -> result runFail A * actFrame.

Definition ret {A} (x : A) : M A := fun f => (Ok x, f).
Definition fail {A} (e : runFail) : M A := fun f => (Err e, f).
Definition bind {A B} (m : M A) (k : A -> M B) : M B :=
  fun f => let '(r, f) := m f in match r with Ok x => k x f | Err e => (Err e, f) end.
Definition lift {A} (r : result runErr A) : M A := match r with Ok x => ret x | Err e => fail (RSetup e) end.
Definition act_log (a : act) : M unit := fun f => (Ok tt, mkFrame (fr_log f ++ [a]) (fr_defer f)).
(** Opening a resource whose [Close] is deferred at once. *)
Definition openRes (r : resource) : M unit := fun f => (Ok tt, mkFrame (fr_log f ++ [Acquire r]) (r :: fr_defer f)).

#[local] Notation "'let!' x ':=' m 'in' k" := (bind m (fun x => k)) (at level 10, x pattern, k at level 200).
#[local] Notation "'then!' m 'in' k" := (bind m (fun _ => k)) (at level 10, k at level 200).

(** What the run gets from the machine and from libraries. *)
Record hostEnv := mkHost {
  loadConfig : string -> option (string -> option string);     (* [config.NewWithOptions] for a local name *)
  newDaemon : (string -> option string) -> option (string -> option string); (* [daemon.New] and its [Config] *)
  adopted : bool;                                              (* [AdoptedInheritedListener] *)
  inherited : option listenAddr;                               (* the listener adopted then *)
  netListen : string -> option listenAddr;                     (* the first [net.Listen] on an address *)
  sinful : option string;                                      (* [AdvertisedSinful] *)
  signingKeys : option (list (string * string));
  openSession : string -> list (string * string) -> option bool; (* [sqlite.Open]; whether it is shared *)
  serverSec : bool;
  clientSec : bool;
  openReconnect : bool;
  splitList : string -> list string;
  keyPair : string -> string -> bool;
  readFile : string -> option string;
  appendCerts : string -> bool;
  verifyToken : string -> option string;
  findToken : option string;
  policy : option (string -> string -> string -> bool);        (* [NewAuthz] *)
  installLevels : bool;
  loadRecords : option (list ReconnectRecord);                 (* the store's [Load] *)
  urlParse : string -> option (string * string);
  fsListens : Config -> bool;
  wsListens : string -> bool;
  serves : bool                                                (* [ServeListeners] returns no error *)
}.

(** [loadCarrierClientTLS]: whether the file could be read and held certificates. *)
Definition loadCarrierClientTLS (h : hostEnv) (caFile : string) : option bool :=
  match readFile h caFile with None => None | Some pem => Some (appendCerts h pem) end.

Section run.
Context `{Unicode} (h : hostEnv) (actual : gmap string string).

Definition listenFlag : string := flagValue actual "listen" ":9618".
Definition localName : string := flagValue actual "local-name" "".

(** [Daemon.Listener]: the inherited listener, or a bind of [-listen]. *)
Definition firstListener : option listenAddr := if adopted h then inherited h else netListen h listenFlag.

(** The environment Startup.v derives the configuration from. *)
Definition daemonOf (get : string -> option string) (shared : bool) : daemonEnv :=
  mkDaemon get (flagValue actual "public" "") (visited actual "listen") (adopted h) firstListener (netListen h listenFlag)
    (sinful h) (serverSec h) (clientSec h) shared (openReconnect h) (splitList h) (keyPair h) (loadCarrierClientTLS h)
    (verifyToken h) (findToken h) (fun _ _ _ => false).

(** The session cache: opened and kept open, or done without. *)
Definition sessionCache (cfg : string -> option string) : M bool :=
  match buildSessionStore cfg (signingKeys h) (openSession h) with
  | Ok (Some shared) => then! openRes RSession in ret shared
  | _ => ret false
  end.

(** The listeners, by number, and the one whose address is advertised. *)
Definition listeners : M (list nat * listenAddr) :=
  match firstListener with
  | None => fail (RSetup UListen)
  | Some ln =>
      then! openRes RListener in
      if adopted h && visited actual "listen" then
        match netListen h listenFlag with
        | None => fail (RSetup UBind)
        | Some pubLn => then! openRes RPublic in ret ([0; 1]%nat, pubLn)
        end
      else ret ([0%nat], ln)
  end.

(** The address advertised in contacts. *)
Definition advertised (directLn : listenAddr) : result runErr string :=
  let pub := flagValue actual "public" "" in
  if String.eqb pub "" then
    match directLn with
    | TCPAddr a => Ok a
    | UnixAddr => match sinful h with Some s => Ok s | None => Err UNoAddress end
    end
  else Ok pub.

Definition reconnectStore (shared : bool) : M unit :=
  if shared then if openReconnect h then openRes RStore else fail (RSetup UStore) else ret tt.

(** The rest of [run]: the configuration, the broker, and serving it. *)
Definition startBroker (get : string -> option string) (shared : bool) (lns : list nat) (pub : string) : M unit :=
  let e := daemonOf get shared in
  let! (hop, hopSec, upstream) := lift (nextHop e) in
  let! cc := lift (buildCarrierSettings e hop upstream) in
  let scfg := mkConfig pub true 0 0 None shared
    (configBool e "CCB_RECONNECT_ALLOWED_FROM_ANY_IP" false) 0 (configBool e "CCB_OUTBOUND_PROXY" false)
    (match get "CCB_OUTBOUND_TARGET_ALLOWLIST" with Some v => splitList h v | None => [] end)
    hop hopSec 0 upstream (cs_listen cc) (cs_tls cc) (cs_verify cc) (cs_clientTLS cc) (cs_token cc) (cs_tokenSource cc) in
  match newBroker (policy h) (installLevels h) scfg (loadRecords h) with
  | Err err => fail (RBroker err)
  | Ok b =>
      then! act_log (Serving b (serveBroker (urlParse h) (fsListens h) (wsListens h) b lns (mkService false [] []))) in
      then! act_log Cancelled in
      (if serves h then ret tt else fail RServe)
  end.

(** [run] after [flag.Parse], without its deferred calls. *)
Definition runBody : M unit :=
  match loadConfig h localName with
  | None => fail RConfig
  | Some cfg =>
      match newDaemon h cfg with
      | None => fail RDaemon
      | Some get =>
          let! shared := sessionCache cfg in
          let! (lns, directLn) := listeners in
          let! pub := lift (advertised directLn) in
          then! (if serverSec h then ret tt else fail (RSetup USecurity)) in
          then! reconnectStore shared in
          startBroker get shared lns pub
      end
  end.

(** [run] after [flag.Parse]: the deferred closes run whatever it returns. *)
Definition run : result runFail unit * list act :=
  let '(r, f) := runBody (mkFrame [] []) in (r, fr_log f ++ map Release (fr_defer f))%list.
End run.

(** [main]: the exit status of the process and what it did. *)
Definition main `{Unicode} (h : hostEnv) (args : list string) : Z * list act :=
  match parseFlags args ∅ with
  | PHelp => (0, [])
  | PError => (2, [])
  | PFlags actual => let '(r, l) := run h actual in (match r with Ok _ => 0 | Err _ => 1 end, l)
  end%Z.

(** * Lemmas on the run *)

Definition opens (f : actFrame) (rs : list resource) : actFrame :=
  mkFrame (fr_log f ++ map Acquire rs) (rev rs ++ fr_defer f).

Lemma opens_nil f : opens f [] = f.
Proof. destruct f. unfold opens. cbn. by rewrite app_nil_r. Qed.

Lemma opens_app f rs rs' : opens (opens f rs) rs' = opens f (rs ++ rs').
Proof. unfold opens. cbn. by rewrite map_app, rev_app_distr, !app_assoc. Qed.

Lemma openRes_opens r f : openRes r f = (Ok tt, opens f [r]).
Proof. done. Qed.

Section run_lemmas.
Context `{Unicode} (h : hostEnv) (actual : gmap string string).

Definition sessionOf (cfg : string -> option string) := buildSessionStore cfg (signingKeys h) (openSession h).

Lemma sessionCache_opens cfg f : sessionCache h cfg f
  = (Ok (sharedSession (sessionOf cfg)), opens f (match sessionOf cfg with Ok (Some _) => [RSession] | _ => [] end)).
Proof.
  unfold sessionCache, sessionOf, bind, ret. destruct (buildSessionStore _ _ _) as [[shared|]|]; [by rewrite openRes_opens|by rewrite opens_nil..].
Qed.

(** The listeners, against [publicAddress]: which are open, and the one advertised. *)
Lemma listeners_opens get shared f : exists rs,
  rs `sublist_of` [RListener; RPublic]
  /\ match listeners h actual f with
     | (Err err, f') => f' = opens f rs /\ exists e, err = RSetup e /\ publicAddress (daemonOf h actual get shared) = Err e
     | (Ok (lns, directLn), f') => f' = opens f rs /\ RListener ∈ rs
         /\ lns = (if bool_decide (RPublic ∈ rs) then [0; 1]%nat else [0%nat])
         /\ publicAddress (daemonOf h actual get shared) = advertised h actual directLn
     end.
Proof.
  unfold publicAddress, listeners, bind, ret, fail. cbn [daemonOf commandListener adoptedListener listenExplicit publicListener publicFlag advertisedSinful].
  destruct (firstListener h actual) as [ln|]; [|exists []; rewrite opens_nil; split; [apply sublist_nil_l|]; split; [done|by exists UListen]].
  assert (forall l, (if String.eqb (flagValue actual "public" "") "" then
      match l, sinful h with TCPAddr a, _ => Ok a | UnixAddr, Some s => Ok s | UnixAddr, None => Err UNoAddress end
      else Ok (flagValue actual "public" "")) = advertised h actual l) as Had
    by (intros l; unfold advertised; destruct (String.eqb _ ""), l, (sinful h); done).
  rewrite openRes_opens. destruct (adopted h && visited actual "listen"); cbn [res_bind].
  - destruct (netListen h (listenFlag actual)) as [pubLn|]; cbn [res_bind].
    + exists [RListener; RPublic]. rewrite openRes_opens, opens_app, Had. split_and!; [done..|set_solver|by rewrite bool_decide_true by set_solver|done].
    + exists [RListener]. split_and!; [by repeat constructor|done|by exists UBind].
  - exists [RListener]. rewrite Had. split_and!; [by repeat constructor|done|set_solver|by rewrite bool_decide_false by set_solver|done].
Qed.

Lemma reconnectStore_opens shared f : reconnectStore h shared f
  = if shared && negb (openReconnect h) then (Err (RSetup UStore), f) else (Ok tt, opens f (if shared then [RStore] else [])).
Proof. unfold reconnectStore. destruct shared; [destruct (openReconnect h)|]; cbn; rewrite ?opens_nil; done. Qed.

(** What became of the broker in the daemon environment [e], from frame [f] to [f'] with
    result [r], on the listeners [lns]: the derivation of the configuration fails, or
    the broker built from it does, or it is served. *)
Definition served (e : daemonEnv) (lns : list nat) (f : actFrame) (r : result runFail unit) (f' : actFrame) : Prop :=
  match daemonConfig e with
  | Err err => (r, f') = (Err (RSetup err), f)
  | Ok scfg =>
      match newBroker (policy h) (installLevels h) scfg (loadRecords h) with
      | Err err => (r, f') = (Err (RBroker err), f)
      | Ok b =>
          let v := serveBroker (urlParse h) (fsListens h) (wsListens h) b lns (mkService false [] []) in
          (r, f') = (if serves h then Ok tt else Err RServe, mkFrame (fr_log f ++ [Serving b v; Cancelled])%list (fr_defer f))
      end
  end.

Lemma startBroker_served get shared lns pub f r f' : let e := daemonOf h actual get shared in
  publicAddress e = Ok pub -> serverSec h = true -> shared && negb (openReconnect h) = false ->
  startBroker h actual get shared lns pub f = (r, f') -> served e lns f r f'.
Proof.
  intros e Hp Es Eo. unfold served, daemonConfig, startBroker. fold e. rewrite Hp.
  change (serverSecurity e) with (serverSec h). change (sharedStore e) with shared.
  change (openStore e) with (openReconnect h). rewrite Es, Eo. cbn [res_bind negb]. unfold bind at 1.
  destruct (nextHop e) as [[[hop hopSec] upstream]|x]; cbn [lift ret fail res_bind]; [|by intros [= <- <-]].
  unfold bind at 1. destruct (buildCarrierSettings e hop upstream) as [cc|x]; cbn [lift ret fail res_bind]; [|by intros [= <- <-]].
  match goal with |- _ -> match newBroker _ _ ?c1 _ with _ => _ end => set (scfg := c1) end. intros E.
  match type of E with match newBroker _ _ ?c2 _ with _ => _ end _ = _ =>
    change (newBroker (policy h) (installLevels h) c2 (loadRecords h)) with (newBroker (policy h) (installLevels h) scfg (loadRecords h)) in E end.
  destruct (newBroker _ _ scfg _) as [b|x]; [|by injection E as <- <-].
  revert E. unfold bind, act_log. cbn. rewrite <- app_assoc. by destruct (serves h); intros [= <- <-].
Qed.

(** The outcome [r] of [run]'s body, with the frame [f] it leaves: resources were opened
    in order, the store within the session cache, and the broker was served or not. *)
Definition runs_to (r : result runFail unit) (f : actFrame) (e : daemonEnv) (shared : bool) : Prop :=
  exists rs, rs `sublist_of` [RSession; RListener; RPublic; RStore] /\ (RStore ∈ rs -> RSession ∈ rs)
  /\ (is_ok (daemonConfig e) = true -> RListener ∈ rs /\ (RStore ∈ rs <-> shared = true))
  /\ served e (if bool_decide (RPublic ∈ rs) then [0; 1]%nat else [0%nat]) (opens (mkFrame [] []) rs) r f.

Lemma runs_to_early r f e shared rs err : rs `sublist_of` [RSession; RListener; RPublic] -> daemonConfig e = Err err ->
  (Err (RSetup err), opens (mkFrame [] []) rs) = (r, f) -> runs_to r f e shared.
Proof.
  intros Hs Ed [= <- <-]. exists rs. unfold served. rewrite Ed. split_and!; [|intros Hin|done|done].
  - etrans; [exact Hs|]. by repeat constructor.
  - eapply elem_of_sublist in Hin; [|exact Hs]. set_solver.
Qed.

Lemma runBody_spec cfg get r f : loadConfig h (localName actual) = Some cfg -> newDaemon h cfg = Some get ->
  runBody h actual (mkFrame [] []) = (r, f) ->
  let shared := sharedSession (sessionOf cfg) in runs_to r f (daemonOf h actual get shared) shared.
Proof.
  intros Ec Ed E shared. revert E. unfold runBody. rewrite Ec, Ed. unfold bind at 1. rewrite sessionCache_opens. fold shared.
  set (rs0 := match sessionOf cfg with Ok (Some _) => [RSession] | _ => [] end).
  assert (rs0 `sublist_of` [RSession] /\ (shared = true -> RSession ∈ rs0)) as [Hs0 Hsh].
  { unfold rs0, shared, sharedSession. destruct (sessionOf cfg) as [[[]|]|]; cbn; split; first [done | apply sublist_nil_l | intros _; constructor]. }
  destruct (listeners_opens get shared (opens (mkFrame [] []) rs0)) as (rs1 & Hs1 & Hl). set (e := daemonOf h actual get shared) in *.
  assert ((rs0 ++ rs1)%list `sublist_of` [RSession; RListener; RPublic]) as Hs01 by (by apply (sublist_app _ [RSession] _ [RListener; RPublic])).
  pose proof (fun err => runs_to_early r f e shared _ err Hs01) as Hearly. unfold daemonConfig in Hearly.
  change (serverSecurity e) with (serverSec h) in Hearly. change (sharedStore e) with shared in Hearly.
  change (openStore e) with (openReconnect h) in Hearly.
  unfold bind at 1. destruct (listeners h actual _) as [[[lns ln]|err] f'].
  2: { destruct Hl as (-> & x & -> & Hp). rewrite opens_app. apply Hearly. by rewrite Hp. }
  destruct Hl as (-> & Hln & -> & Hp). rewrite opens_app. rewrite Hp in Hearly.
  unfold bind at 1. destruct (advertised h actual ln) as [pub|x]; cbn [lift ret fail]; [|by apply Hearly].
  unfold bind at 1. destruct (serverSec h) eqn:Es; cbn [ret fail]; [|by apply Hearly].
  unfold bind at 1. rewrite reconnectStore_opens. destruct (shared && negb (openReconnect h)) eqn:Eo; [by apply Hearly|].
  rewrite opens_app. clear Hearly. set (rs := ((rs0 ++ rs1) ++ (if shared then [RStore] else []))%list).
  intros E. exists rs. assert ((RPublic ∉ rs0) /\ RStore ∉ (rs0 ++ rs1)%list) as [Hnp Hns].
  { split; intros Hin; (eapply elem_of_sublist in Hin; [|done]); set_solver. }
  assert (bool_decide (RPublic ∈ rs) = bool_decide (RPublic ∈ rs1)) as Hb.
  { apply bool_decide_ext. unfold rs. rewrite !elem_of_app. destruct shared; set_solver. }
  split_and!.
  - unfold rs. apply (sublist_app _ [RSession; RListener; RPublic] _ [RStore]); [done|]. destruct shared; [done|apply sublist_nil_l].
  - unfold rs. rewrite !elem_of_app. intros [?|?]; [set_solver|]. left. left. apply Hsh. by destruct shared; [|set_solver].
  - intros _. unfold rs. rewrite !elem_of_app. split; [by left; right|]. destruct shared; set_solver.
  - rewrite Hb. by eapply startBroker_served.
Qed.
End run_lemmas.

(** * Rendered flags *)

(** A flag as it may be written: one dash or two, the value behind [=] or as the next
    argument. *)
Record setting := mkSetting { g_double : bool; g_equals : bool; g_name : string; g_value : string }.

Definition render (g : setting) : list string :=
  let dashed := (if g_double g then "--" else "-") +:+ g_name g in
  if g_equals g then [dashed +:+ "=" +:+ g_value g] else [dashed; g_value g].

Lemma render_parse g args m : g_name g ∈ formal -> parseFlags (render g ++ args)%list m = parseFlags args (<[g_name g := g_value g]> m).
Proof.
  destruct g as [dd eq n v]. cbn [g_name]. unfold formal. rewrite !elem_of_cons, elem_of_nil.
  intros [->|[->|[->|[->|[]]]]]; destruct dd, eq; reflexivity.
Qed.

Definition setAll (l : list setting) (m : gmap string string) : gmap string string :=
  foldl (fun m g => <[g_name g := g_value g]> m) m l.

Lemma renders_parse l args m : Forall (fun g => g_name g ∈ formal) l ->
  parseFlags (flat_map render l ++ args)%list m = parseFlags args (setAll l m).
Proof.
  intros Hl. revert m. induction Hl as [|g l Hg _ IH]; intros m; [done|]. cbn [flat_map setAll foldl].
  rewrite <- app_assoc, render_parse by done. apply IH.
Qed.

Lemma setAll_visited l m n : visited (setAll l m) n = true <-> visited m n = true \/ exists g, g ∈ l /\ g_name g = n.
Proof.
  revert m. induction l as [|g l IH]; intros m; cbn [setAll foldl]; [set_solver|]. fold (setAll l (<[g_name g := g_value g]> m)).
  rewrite IH. unfold visited. rewrite !bool_decide_eq_true, lookup_insert_is_Some. split.
  - intros [[E|[_ Hm]]|(g' & Hin & E)]; [right; exists g; by split; [left|]|by left|right; exists g'; by split; [right|]].
  - intros [Hm|(g' & [->|Hin]%elem_of_cons & E)]; [|by left; left|right; by exists g'].
    destruct (decide (g_name g = n)); [by left; left|by left; right].
Qed.

Lemma setAll_last l1 g l2 m : Forall (fun g' => g_name g' <> g_name g) l2 ->
  setAll (l1 ++ g :: l2)%list m !! g_name g = Some (g_value g).
Proof.
  intros Hl. unfold setAll. rewrite foldl_app. cbn [foldl]. set (m' := <[g_name g := _]> _).
  assert (m' !! g_name g = Some (g_value g)) as Hm by apply lookup_insert_eq. clearbody m'. revert m' Hm.
  induction Hl as [|g' l2 Hne _ IH]; intros m' Hm; [done|]. apply IH. by rewrite lookup_insert_ne.
Qed.

(** * The whole command *)

(** The configuration a command line leads to. *)
Definition configured `{Unicode} (h : hostEnv) (args : list string) (scfg : ServerConfig) : Prop :=
  exists actual cfg get, parseFlags args ∅ = PFlags actual /\ loadConfig h (localName actual) = Some cfg /\ newDaemon h cfg = Some get
  /\ daemonConfig (daemonOf h actual get (sharedSession (sessionOf h cfg))) = Ok scfg.

Lemma daemonConfig_store `{Unicode} e scfg : daemonConfig e = Ok scfg -> HasReconnectStore scfg = sharedStore e.
Proof.
  unfold daemonConfig. destruct (publicAddress e); cbn; [|done]. destruct (negb (serverSecurity e)); [done|].
  destruct (sharedStore e && _); [done|]. destruct (nextHop e) as [[[hop hopSec] up]|]; cbn; [|done].
  destruct (buildCarrierSettings e hop up); cbn; [|done]. by intros [= <-].
Qed.

(** What is done between openRes and closing. *)
Definition broker_served `{Unicode} (h : hostEnv) (args : list string) (rs : list resource) (mid : list act) : Prop :=
  (mid = [] \/ exists b v, mid = [Serving b v; Cancelled])
  /\ (forall b v, mid = [Serving b v; Cancelled] -> exists scfg, configured h args scfg
       /\ newBroker (policy h) (installLevels h) scfg (loadRecords h) = Ok b
       /\ RListener ∈ rs /\ (RStore ∈ rs <-> HasReconnectStore scfg = true)
       /\ v_serving v = (if bool_decide (RPublic ∈ rs) then [0; 1]%nat else [0%nat])
       /\ v_tasks v = startBackground (urlParse h) (fsListens h) (wsListens h) b)
  /\ (forall scfg b, configured h args scfg -> newBroker (policy h) (installLevels h) scfg (loadRecords h) = Ok b ->
       exists v, mid = [Serving b v; Cancelled]).

Lemma nothing_served `{Unicode} h args rs : (forall scfg b, configured h args scfg ->
  newBroker (policy h) (installLevels h) scfg (loadRecords h) <> Ok b) -> broker_served h args rs [].
Proof. intros Hno. split_and!; [by left|done|]. intros scfg b Hc Hb. by destruct (Hno scfg b). Qed.

(** What was opened, what was done then, and that all of it was closed; [ok] tells whether
    a broker was served without error. *)
Definition tidy `{Unicode} (h : hostEnv) (args : list string) (log : list act) (ok : bool) : Prop :=
  exists rs mid, log = (map Acquire rs ++ mid ++ map Release (rev rs))%list
  /\ rs `sublist_of` [RSession; RListener; RPublic; RStore] /\ (RStore ∈ rs -> RSession ∈ rs)
  /\ broker_served h args rs mid /\ ok = negb (bool_decide (length mid = 0%nat)) && serves h.

Lemma tidy_nil `{Unicode} h args : (forall scfg, ~ configured h args scfg) -> tidy h args [] false.
Proof.
  intros Hno. exists [], []. split_and!; [done|apply sublist_nil_l|by intros ?%not_elem_of_nil| |done].
  apply nothing_served. intros scfg b Hc. by destruct (Hno scfg).
Qed.

(** The outcome of [run], from that of its body. *)
Lemma served_spec `{Unicode} h args actual cfg get r f : parseFlags args ∅ = PFlags actual ->
  loadConfig h (localName actual) = Some cfg -> newDaemon h cfg = Some get -> runBody h actual (mkFrame [] []) = (r, f) ->
  tidy h args (fr_log f ++ map Release (fr_defer f))%list (is_ok r).
Proof.
  intros Ep Ec Ed Er. destruct (runBody_spec h actual _ _ _ _ Ec Ed Er) as (rs & Hs & Hst & Hok & Hsv). unfold served in Hsv.
  assert (forall scfg, configured h args scfg -> daemonConfig (daemonOf h actual get (sharedSession (sessionOf h cfg))) = Ok scfg) as Hcf.
  { intros scfg (a & c & g & E1 & E2 & E3 & E4). rewrite Ep in E1. injection E1 as <-. rewrite Ec in E2. injection E2 as <-.
    rewrite Ed in E3. by injection E3 as <-. }
  destruct (daemonConfig (daemonOf _ _ _ _)) as [scfg|err] eqn:Edc.
  2: { injection Hsv as -> ->. exists rs, []. unfold opens. cbn. rewrite app_nil_r. split_and!; try done.
       apply nothing_served. intros scfg b Hc. by specialize (Hcf _ Hc). }
  destruct (newBroker _ _ scfg _) as [b|err] eqn:Eb.
  2: { injection Hsv as -> ->. exists rs, []. unfold opens. cbn. rewrite app_nil_r. split_and!; try done.
       apply nothing_served. intros scfg' b Hc. specialize (Hcf _ Hc). congruence. }
  injection Hsv as -> ->. destruct (Hok eq_refl) as [Hln Hrs]. eexists rs, [Serving b _; Cancelled]. cbn. rewrite app_nil_r.
  split_and!; [by rewrite <- app_assoc|done|done| |by destruct (serves h)]. split_and!; [by right; eexists _, _| |].
  - intros b' v [= <- <-]. exists scfg. split_and!; try done; [by eexists _, _, _|]. by rewrite (daemonConfig_store _ _ Edc).
  - intros scfg' b' Hc Hb. specialize (Hcf _ Hc). injection Hcf as <-. rewrite Eb in Hb. injection Hb as <-. by eexists.
Qed.

(** * Claims *)

(** C39: the command opens, serves and closes in order. Whatever the arguments and
    whatever fails, [main] closes all it opened and nothing else, last opened first:
    the reconnect store before the session cache whose database it writes to. A broker
    is served exactly when the command line leads to a configuration and the broker
    built from it exists; it is that broker, with its background work started once,
    on the command listener and on the public one if that was opened, and its
    background work is cancelled before anything is closed. The exit status is 2 for
    wrong arguments, 0 for a request for help or a broker that served without error,
    and 1 otherwise. *)
Theorem main_spec `{Unicode} h args code log : main h args = (code, log) -> exists ok,
  tidy h args log ok
  /\ code = match parseFlags args ∅ with PError => 2 | PHelp => 0 | PFlags _ => if ok then 0 else 1 end%Z.
Proof.
  unfold main, run. destruct (parseFlags args ∅) as [actual| |] eqn:Ep.
  2-3: intros [= <- <-]; exists false; split; [|done]; apply tidy_nil; intros ? (a & ? & ? & E & _); congruence.
  destruct (runBody h actual (mkFrame [] [])) as [r f] eqn:Er. intros [= <- <-]. exists (is_ok r). split; [|by destruct r].
  pose proof Er as Er'. unfold runBody in Er'. destruct (loadConfig h (localName actual)) as [cfg|] eqn:Ec.
  2: { injection Er' as <- <-. apply tidy_nil. intros ? (a & c & g & E & E2 & _). congruence. }
  destruct (newDaemon h cfg) as [get|] eqn:Ed; [by eapply served_spec|].
  injection Er' as <- <-. apply tidy_nil. intros ? (a & c & g & E & E2 & E3 & _). congruence.
Qed.

(** Flags are read as they are written. Any sequence of the command's flags, each
    with one dash or two and its value behind [=] or as the next argument, followed by
    nothing or by an argument that is no flag, is accepted; the value of a flag is the
    last one given, and [-listen] counts as given exactly when it is among them. *)
Theorem flags_roundtrip l rest : Forall (fun g => g_name g ∈ formal) l ->
  match rest with [] => True | s :: _ => classify s = AEnd end ->
  exists actual, parseFlags (flat_map render l ++ rest)%list ∅ = PFlags actual
  /\ (forall n, visited actual n = true <-> exists g, g ∈ l /\ g_name g = n)
  /\ forall l1 g l2 d, l = (l1 ++ g :: l2)%list -> Forall (fun g' => g_name g' <> g_name g) l2 -> flagValue actual (g_name g) d = g_value g.
Proof.
  intros Hl Hr. exists (setAll l ∅). rewrite renders_parse by done. split_and!.
  - destruct rest as [|s rest]; [done|]. cbn [parseFlags]. by rewrite Hr.
  - intros n. rewrite setAll_visited. unfold visited. rewrite lookup_empty, bool_decide_false by (by intros [? ?]). naive_solver.
  - intros l1 g l2 d -> Hl2. unfold flagValue. by rewrite setAll_last.
Qed.

(** * Witnesses *)

#[local] Instance plainCase : Unicode := { ToLower := lowerASCII; EqualFold s t := String.eqb (lowerASCII s) (lowerASCII t) }.

(** A daemon started by condor_master with a public port of its own and a shared session
    cache. *)
Definition exGet (k : string) : option string := if String.eqb k "CCB_SESSION_CACHE_FILE" then Some "/var/lib/condor/ccb.db" else None.
Definition exHost : hostEnv :=
  mkHost (fun _ => Some exGet) Some true (Some UnixAddr) (fun a => Some (TCPAddr a)) None (Some [("POOL", "key")]) (fun _ _ => Some true)
    true true true (fun _ => []) (fun _ _ => false) (fun _ => None) (fun _ => false) (fun _ => None) None
    (Some (fun _ _ _ => true)) true (Some []) (fun _ => None) (fun _ => true) (fun _ => true) true.
Definition exArgs : list string := ["-local-name"; "ccb1"; "--listen=10.0.0.7:9618"; "-sock"; "ccb_sock"].

(** The kinds of the actions of a log. *)
Definition opened (l : list act) : list resource := omap (fun a => match a with Acquire r => Some r | _ => None end) l.
Definition released (l : list act) : list resource := omap (fun a => match a with Release r => Some r | _ => None end) l.

Lemma main_spec_witness : opened (main exHost exArgs).2 = [RSession; RListener; RPublic; RStore]
  /\ released (main exHost exArgs).2 = [RStore; RPublic; RListener; RSession]
  /\ exists ok, tidy exHost exArgs (main exHost exArgs).2 ok /\ (main exHost exArgs).1 = if ok then 0%Z else 1%Z.
Proof.
  split; [vm_compute; reflexivity|]. split; [vm_compute; reflexivity|].
  destruct (main_spec exHost exArgs (main exHost exArgs).1 (main exHost exArgs).2) as (ok & Ht & Hc);
    [by destruct (main exHost exArgs)|]. exists ok. split; [exact Ht|]. rewrite Hc. vm_compute. reflexivity.
Defined.

Lemma flags_roundtrip_witness : exists actual, parseFlags exArgs ∅ = PFlags actual /\ visited actual "listen" = true
  /\ flagValue actual "listen" ":9618" = "10.0.0.7:9618".
Proof.
  destruct (flags_roundtrip [mkSetting false false "local-name" "ccb1"; mkSetting true true "listen" "10.0.0.7:9618"; mkSetting false false "sock" "ccb_sock"] [])
    as (actual & E & Hv & Hl); [repeat constructor; unfold formal; set_solver|exact I|].
  exists actual. split; [exact E|]. split.
  - apply Hv. exists (mkSetting true true "listen" "10.0.0.7:9618"). split; [set_solver|reflexivity].
  - apply (Hl [mkSetting false false "local-name" "ccb1"] (mkSetting true true "listen" "10.0.0.7:9618") [mkSetting false false "sock" "ccb_sock"]);
      [reflexivity|by repeat constructor].
Defined.
