(* ===== verification/Upstream.v ===== *)
(** The registration of an inside broker with its upstream (upstream.go): how the
    contact it is given is published, the readiness barrier, and the command that
    hands it out. *)

From stdpp Require Import base gmap list strings numbers.
From Stdlib Require Import ZArith Lia Ascii.
From S2P Require Import Prelude GoStr Contacts Reconnect Broker.

#[local] Open Scope string_scope.
#[local] Open Scope Z_scope.

(** * State *)

(** The contact, the channel [tunnelReady], and the files by name. *)
Record tunnel := mkTunnel {
  tn_contact : option string;
  tn_ready : bool;
  tn_files : gmap string string
}.

(** [Server.TunnelContact]. *)
Definition TunnelContact (t : tunnel) : string := default "" (tn_contact t).

(** [Server.WaitTunnelReady]: whether it can return without an error. *)
Definition WaitTunnelReady (upstream : bool) (t : tunnel) : bool := negb upstream || tn_ready t.

(** The reply of [Server.handleGetTunnelAddress], if there is one; [read] tells whether
    the request could be read. *)
Definition handleGetTunnelAddress (cfg : BrokerConfig) (user remote : string) (read : bool) (t : tunnel) : option outAd :=
  if negb (authorize cfg CommandGetTunnelAddress remote user) then
    Some [(AttrResult, VBool false); (AttrErrorString, VStr "authorization denied")] else
  if negb read then None else
  let tc := TunnelContact t in
  if String.eqb tc "" then
    Some [(AttrResult, VBool false);
          (AttrErrorString, VStr "CCB has no tunnel address yet (not registered upstream)")]
  else Some [(AttrResult, VBool true); (AttrCCBAddress, VStr tc)].

(** * Publishing *)

(** Where [watchTunnelReady] is: waiting for a contact, in [writeReadyFile], about to
    close the channel, or done. *)
Inductive watcher := WTick | WStored (c : string) | WWriting (c : string) | WWritten (c : string) | WReady (c : string) | WStopped.

(** What the ready file is to hold, and the name it is written under first. *)
Definition readyData (c : string) : string := c +:+ String LF "".
Definition tmpName (f : string) : string := f +:+ ".tmp".

Definition setFile (t : tunnel) (fs : gmap string string) : tunnel := mkTunnel (tn_contact t) (tn_ready t) fs.

(** Steps of [watchTunnelReady] and [writeReadyFile] for the ready file [f], and of
    other processes, which do not write [f] or its temporary file. A write is seen in
    parts and may fail at any point. *)
Inductive tn_step (f : string) : watcher * tunnel -> watcher * tunnel -> Prop :=
| tn_stop t : tn_step f (WTick, t) (WStopped, t)
| tn_store t c : c <> "" -> tn_step f (WTick, t) (WStored c, mkTunnel (Some c) (tn_ready t) (tn_files t))
| tn_nofile t c : f = "" -> tn_step f (WStored c, t) (WReady c, t)
| tn_writeFails t c : f <> "" -> tn_step f (WStored c, t) (WReady c, t)
| tn_write t c p s : f <> "" -> readyData c = p +:+ s ->
    tn_step f (WStored c, t) (WWriting c, setFile t (<[tmpName f := p]> (tn_files t)))
| tn_writePart t c p s : readyData c = p +:+ s ->
    tn_step f (WWriting c, t) (WWriting c, setFile t (<[tmpName f := p]> (tn_files t)))
| tn_writeStops t c : tn_step f (WWriting c, t) (WReady c, t)
| tn_written t c : tn_step f (WWriting c, t) (WWritten c, setFile t (<[tmpName f := readyData c]> (tn_files t)))
| tn_rename t c data : tn_files t !! tmpName f = Some data ->
    tn_step f (WWritten c, t) (WReady c, setFile t (<[f := data]> (delete (tmpName f) (tn_files t))))
| tn_renameFails t c : tn_step f (WWritten c, t) (WReady c, setFile t (delete (tmpName f) (tn_files t)))
| tn_close t c : tn_step f (WReady c, t) (WStopped, mkTunnel (tn_contact t) true (tn_files t))
| tn_other w t n v : n <> f -> n <> tmpName f ->
    tn_step f (w, t) (w, setFile t (partial_alter (fun _ => v) n (tn_files t))).

(** * Invariant *)

Definition holds (w : watcher) : option string :=
  match w with WStored c | WWriting c | WWritten c | WReady c => Some c | WTick | WStopped => None end.

Record tn_inv (f : string) (files0 : gmap string string) (s : watcher * tunnel) : Prop := {
  ti_tick : s.1 = WTick -> tn_contact s.2 = None;
  ti_holds c : holds s.1 = Some c -> tn_contact s.2 = Some c;
  ti_contact c : tn_contact s.2 = Some c -> c <> "";
  ti_ready : tn_ready s.2 = true -> is_Some (tn_contact s.2);
  ti_written c : s.1 = WWritten c -> tn_files s.2 !! tmpName f = Some (readyData c);
  ti_file : tn_files s.2 !! f = files0 !! f
            \/ exists c, tn_contact s.2 = Some c /\ tn_files s.2 !! f = Some (readyData c)
}.

Lemma tmpName_ne f : tmpName f <> f.
Proof.
  intros E. apply (f_equal String.length) in E. unfold tmpName in E. rewrite string_length_app in E. cbn in E. lia.
Qed.

Lemma tn_step_inv f files0 s s' : tn_step f s s' -> tn_inv f files0 s -> tn_inv f files0 s'.
Proof.
  pose proof (tmpName_ne f) as Hne. intros Hst [H1 H2 H3 H4 H5 H6].
  destruct Hst as [t|t c Hc|t c _|t c _|t c p s _ _|t c p s _|t c|t c|t c data Hd|t c|t c|w t n v Hn Hn']; cbn in *;
    try (split; cbn; rewrite ?lookup_insert_ne, ?lookup_delete_ne by done; by auto).
  - split; cbn; [done|by intros ? [= <-]|by intros ? [= <-]|by eauto|done|].
    destruct H6 as [?|(c' & Hc' & _)]; [by left|]. rewrite H1 in Hc' by done. done.
  - split; cbn; [done|done|done|done| |].
    + intros c' [= <-]. apply lookup_insert_eq.
    + by rewrite lookup_insert_ne.
  - rewrite (H5 c eq_refl) in Hd. injection Hd as <-. split; cbn; [done|done|done|done|done|].
    right. exists c. split; [by apply H2|apply lookup_insert_eq].
  - split; cbn; [done|done|done| |done|done]. intros _. rewrite (H2 c eq_refl). done.
  - split; cbn; [done..| |]; rewrite lookup_partial_alter_ne by done; done.
Qed.

Lemma tn_reachable f files0 s : rtc (tn_step f) (WTick, mkTunnel None false files0) s -> tn_inv f files0 s.
Proof.
  intros Hr. assert (tn_inv f files0 (WTick, mkTunnel None false files0)) as Hi by (split; cbn; try done; by left).
  induction Hr as [|x y z Hst _ IH]; [done|]. apply IH. by eapply tn_step_inv.
Qed.

(** A published contact does not change. *)
Lemma tn_step_contact f s s' c files0 : tn_step f s s' -> tn_inv f files0 s -> tn_contact s.2 = Some c -> tn_contact s'.2 = Some c.
Proof.
  intros Hst [H1 _ _ _ _ _] Hc. destruct Hst; cbn in *; try done. by rewrite H1 in Hc.
Qed.

(** * Properties *)

(** C29: the readiness barrier. At every moment, also while the ready file is being
    written or a write fails, that file is as it was or holds the published contact
    and a newline, whole; whoever sees it changed, and whoever [WaitTunnelReady]
    lets through, finds the contact published: from then on
    CCB_GET_TUNNEL_ADDRESS answers with it, local registrants get contacts nested
    under it, and it does not change any more. *)
Theorem tunnel_ready `{Cedar} f files0 w t :
  rtc (tn_step f) (WTick, mkTunnel None false files0) (w, t) ->
  (tn_files t !! f = files0 !! f \/ tn_files t !! f = Some (readyData (TunnelContact t)))
  /\ (tn_files t !! f <> files0 !! f \/ WaitTunnelReady true t = true ->
      let tc := TunnelContact t in
      tc <> ""
      /\ (forall cfg user remote, authorize cfg CommandGetTunnelAddress remote user = true ->
           handleGetTunnelAddress cfg user remote true t = Some [(AttrResult, VBool true); (AttrCCBAddress, VStr tc)])
      /\ (forall addr id, contactString addr (tn_contact t) id = tc +:+ "#" +:+ FormatUint id)
      /\ (forall w' t', rtc (tn_step f) (w, t) (w', t') -> TunnelContact t' = tc)).
Proof.
  intros Hr. pose proof (tn_reachable _ _ _ Hr) as Hi. pose proof Hi as [H1 H2 H3 H4 H5 H6]. cbn in *. unfold TunnelContact.
  split; [destruct H6 as [?|(c & -> & ?)]; [by left|by right]|]. intros Hp.
  assert (exists c, tn_contact t = Some c) as [c Hc].
  { destruct Hp as [Hp|Hp]; [destruct H6 as [?|(c & ? & _)]; [done|eauto]|]. by apply H4 in Hp. }
  pose proof (H3 c Hc) as Hne. pose proof Hne as Hne'%String.eqb_neq. rewrite Hc. cbn. split; [done|]. split; [|split].
  - intros cfg user remote Ha. unfold handleGetTunnelAddress, TunnelContact. rewrite Ha, Hc. cbn. by rewrite Hne'.
  - intros addr id. unfold contactString. by rewrite Hne'.
  - intros w' t' Hr'. assert (forall s s', rtc (tn_step f) s s' -> tn_inv f files0 s -> tn_contact s.2 = Some c ->
      tn_contact s'.2 = Some c) as Hk.
    { induction 1 as [|x y z Hst _ IH]; [done|]. intros Hx Hcx. apply IH; [by eapply tn_step_inv|by eapply tn_step_contact]. }
    pose proof (Hk _ _ Hr' Hi Hc) as E. cbn in E. by rewrite E.
Qed.

(** A contact published and installed as the ready file. *)
Definition exPublished : tunnel :=
  mkTunnel (Some "10.0.0.1:9618#7") true
    (<["/run/ready" := readyData "10.0.0.1:9618#7"]> (delete (tmpName "/run/ready")
       (<[tmpName "/run/ready" := readyData "10.0.0.1:9618#7"]> (<[tmpName "/run/ready" := "10.0"]> ∅)))).

Lemma exPublished_reachable : rtc (tn_step "/run/ready") (WTick, mkTunnel None false ∅) (WStopped, exPublished).
Proof.
  eapply rtc_l; [by apply (tn_store _ _ "10.0.0.1:9618#7")|].
  eapply rtc_l; [by apply (tn_write _ _ _ "10.0" (".0.1:9618#7" +:+ String LF ""))|].
  eapply rtc_l; [apply tn_written|]. eapply rtc_l; [apply (tn_rename _ _ _ (readyData "10.0.0.1:9618#7")); apply lookup_insert_eq|].
  eapply rtc_l; [apply tn_close|]. apply rtc_refl.
Qed.

Lemma tunnel_ready_witness : WaitTunnelReady true exPublished = true /\ TunnelContact exPublished <> "".
Proof.
  split; [reflexivity|].
  apply (tunnel_ready (H := {| Ad := unit; AdString _ _ := ""; AdInt _ _ := None; AdBool _ _ := None; commandInt _ := 0;
    ContactString a id := a +:+ "#" +:+ FormatUint id; SplitCCBContact _ := None; ParseSinful _ := None |})
    "/run/ready" ∅ WStopped exPublished); [exact exPublished_reachable|by right].
Defined.
